(** * OWASP Top Ten card game: the game-state engine

    A shallow embedding of the engine of the card game: the card model
    (types), the deck builder and the match rule (data/cards), the helpers
    (utils/helpers), the rule-based AI (utils/ai) and the turn machinery of
    the [useGameState] hook (hooks/useGameState), and of the interface the
    click handlers of the board that send the selection of an asset
    (App, components/Board, CyberAsset).

    Conventions of the embedding.
    - A call of [Math.random()] is a rational number handed to the function
      that draws it, a number of the binary64 format in the program; the
      product [Math.random() * n] is rounded as binary64 rounds it.
      [generateInstanceId()] is an instance id handed to the function that
      creates the hand card or asset.
    - The asynchronous operations of the hook ([playerAttack], [endTurn],
      [executeAITurn], [performCoinFlip]) are modelled by the state they
      leave once they have run to completion; pacing delays and sounds carry
      no state.
    - The hook mutates the player records and the asset and discard arrays
      of the state object in place and then publishes the object; the
      embedding returns the published state.
    - Left out, being display only: the [details] text of a log entry, the
      [showOwaspInfo] overlay and the description texts of the catalog. *)

From Stdlib Require Import List ZArith QArith Qround Lia String Bool Arith.
From Stdlib Require Import DecimalString DecimalNat.
From stdpp Require Import base list strings.
Import ListNotations.

Local Open Scope string_scope.
Local Open Scope list_scope.
Local Open Scope nat_scope.

(* ===================================================================== *)
(** ** Types (types/index.ts)                                             *)
(* ===================================================================== *)

Inductive TASuit := hearts | diamonds.
Inductive DCSuit := spades | clubs.
Inductive Suit := suitTA (s : TASuit) | suitDC (s : DCSuit).

(** [CardValue] is the literal type [1 | 2 | ... | 10]. *)
Inductive CardValue := V1 | V2 | V3 | V4 | V5 | V6 | V7 | V8 | V9 | V10.

(** The number a card value stands for. *)
Definition valueNum (v : CardValue) : nat :=
  match v with
  | V1 => 1 | V2 => 2 | V3 => 3 | V4 => 4 | V5 => 5
  | V6 => 6 | V7 => 7 | V8 => 8 | V9 => 9 | V10 => 10
  end.

Inductive FaceCardType := jack | queen | king.
Inductive JokerType := black | red.
Inductive CardCategory := threat_agent | defense_control | asset | joker.
Inductive AssetState := facedown | revealed | rotated | destroyed.

Inductive GamePhase :=
  | difficulty_select | coin_flip | setup | draw_phase | attack_phase
  | defense_phase | resolution_phase | player_won | ai_won.

Inductive AnimationType :=
  | anim_none | anim_attack | anim_defend | anim_damage | anim_coin_flip.

Inductive AttackStage := observation | assessment | pwn.
Inductive Difficulty := easy | hard | brutal.
Inductive Actor := Player | AI.

(** [PlayableCard = ThreatAgentCard | DefenseControlCard | JokerCard]; the
    OWASP risk or control of a numbered card is the catalog entry of its
    value. *)
Inductive PlayableCard :=
  | ThreatAgentCard (id : string) (suit : TASuit) (value : CardValue)
  | DefenseControlCard (id : string) (suit : DCSuit) (value : CardValue)
  | JokerCard (id : string) (jokerType : JokerType).

Definition category (c : PlayableCard) : CardCategory :=
  match c with
  | ThreatAgentCard _ _ _ => threat_agent
  | DefenseControlCard _ _ _ => defense_control
  | JokerCard _ _ => joker
  end.

(** The [value] field, present on numbered cards only. *)
Definition value (c : PlayableCard) : option CardValue :=
  match c with
  | ThreatAgentCard _ _ v => Some v
  | DefenseControlCard _ _ v => Some v
  | JokerCard _ _ => None
  end.

Record AssetCard := mkAssetCard {
  ac_id : string;
  ac_suit : Suit;
  faceType : FaceCardType;
  assetName : string
}.

Record HandCard := mkHandCard {
  hc_instanceId : string;
  hc_card : PlayableCard
}.

Record CyberAsset := mkCyberAsset {
  ca_instanceId : string;
  ca_card : AssetCard;
  state : AssetState;
  damageCount : nat
}.

#[projections(primitive)] Record PlayerState := mkPlayerState {
  assets : list CyberAsset;
  taHand : list HandCard;
  dcHand : list HandCard;
  taDiscard : list PlayableCard;
  dcDiscard : list PlayableCard;
  successfulDefenses : nat
}.

Record AttackState := mkAttackState {
  targetAsset : option CyberAsset;
  attackCard : option HandCard;
  stage : AttackStage;
  attacksThisRound : nat
}.

Record GameAction := mkGameAction {
  actor : Actor;
  action : string
}.

#[projections(primitive)] Record GameState := mkGameState {
  phase : GamePhase;
  currentAttacker : Actor;
  difficulty : option Difficulty;
  player : PlayerState;
  ai : PlayerState;
  taDeck : list PlayableCard;
  dcDeck : list PlayableCard;
  attackState : option AttackState;
  turnNumber : nat;
  cardsDrawnThisGame : nat;
  lastAction : option GameAction;
  actionLog : list GameAction;
  selectedCard : option HandCard;
  selectedAsset : option CyberAsset;
  message : string;
  animation : AnimationType;
  coinFlipResult : option Actor
}.

Record AIDecision := mkAIDecision {
  ai_action : string;
  ai_card : option HandCard;
  reasoning : string
}.

(** Field updates: [set_f v s] is the object [{ ...s, f: v }]. *)

Definition set_assets v (p : PlayerState) : PlayerState :=
  mkPlayerState v (taHand p) (dcHand p) (taDiscard p) (dcDiscard p) (successfulDefenses p).

Definition set_taHand v (p : PlayerState) : PlayerState :=
  mkPlayerState (assets p) v (dcHand p) (taDiscard p) (dcDiscard p) (successfulDefenses p).

Definition set_dcHand v (p : PlayerState) : PlayerState :=
  mkPlayerState (assets p) (taHand p) v (taDiscard p) (dcDiscard p) (successfulDefenses p).

Definition set_taDiscard v (p : PlayerState) : PlayerState :=
  mkPlayerState (assets p) (taHand p) (dcHand p) v (dcDiscard p) (successfulDefenses p).

Definition set_dcDiscard v (p : PlayerState) : PlayerState :=
  mkPlayerState (assets p) (taHand p) (dcHand p) (taDiscard p) v (successfulDefenses p).

Definition set_successfulDefenses v (p : PlayerState) : PlayerState :=
  mkPlayerState (assets p) (taHand p) (dcHand p) (taDiscard p) (dcDiscard p) v.

Definition set_phase v (s : GameState) : GameState :=
  mkGameState v (currentAttacker s) (difficulty s) (player s) (ai s) (taDeck
    s) (dcDeck s) (attackState s) (turnNumber s) (cardsDrawnThisGame s)
    (lastAction s) (actionLog s) (selectedCard s) (selectedAsset s) (message
    s) (animation s) (coinFlipResult s).

Definition set_currentAttacker v (s : GameState) : GameState :=
  mkGameState (phase s) v (difficulty s) (player s) (ai s) (taDeck s)
    (dcDeck s) (attackState s) (turnNumber s) (cardsDrawnThisGame s)
    (lastAction s) (actionLog s) (selectedCard s) (selectedAsset s) (message
    s) (animation s) (coinFlipResult s).

Definition set_difficulty v (s : GameState) : GameState :=
  mkGameState (phase s) (currentAttacker s) v (player s) (ai s) (taDeck s)
    (dcDeck s) (attackState s) (turnNumber s) (cardsDrawnThisGame s)
    (lastAction s) (actionLog s) (selectedCard s) (selectedAsset s) (message
    s) (animation s) (coinFlipResult s).

Definition set_player v (s : GameState) : GameState :=
  mkGameState (phase s) (currentAttacker s) (difficulty s) v (ai s) (taDeck
    s) (dcDeck s) (attackState s) (turnNumber s) (cardsDrawnThisGame s)
    (lastAction s) (actionLog s) (selectedCard s) (selectedAsset s) (message
    s) (animation s) (coinFlipResult s).

Definition set_ai v (s : GameState) : GameState :=
  mkGameState (phase s) (currentAttacker s) (difficulty s) (player s) v
    (taDeck s) (dcDeck s) (attackState s) (turnNumber s) (cardsDrawnThisGame
    s) (lastAction s) (actionLog s) (selectedCard s) (selectedAsset s)
    (message s) (animation s) (coinFlipResult s).

Definition set_taDeck v (s : GameState) : GameState :=
  mkGameState (phase s) (currentAttacker s) (difficulty s) (player s) (ai s)
    v (dcDeck s) (attackState s) (turnNumber s) (cardsDrawnThisGame s)
    (lastAction s) (actionLog s) (selectedCard s) (selectedAsset s) (message
    s) (animation s) (coinFlipResult s).

Definition set_dcDeck v (s : GameState) : GameState :=
  mkGameState (phase s) (currentAttacker s) (difficulty s) (player s) (ai s)
    (taDeck s) v (attackState s) (turnNumber s) (cardsDrawnThisGame s)
    (lastAction s) (actionLog s) (selectedCard s) (selectedAsset s) (message
    s) (animation s) (coinFlipResult s).

Definition set_attackState v (s : GameState) : GameState :=
  mkGameState (phase s) (currentAttacker s) (difficulty s) (player s) (ai s)
    (taDeck s) (dcDeck s) v (turnNumber s) (cardsDrawnThisGame s)
    (lastAction s) (actionLog s) (selectedCard s) (selectedAsset s) (message
    s) (animation s) (coinFlipResult s).

Definition set_turnNumber v (s : GameState) : GameState :=
  mkGameState (phase s) (currentAttacker s) (difficulty s) (player s) (ai s)
    (taDeck s) (dcDeck s) (attackState s) v (cardsDrawnThisGame s)
    (lastAction s) (actionLog s) (selectedCard s) (selectedAsset s) (message
    s) (animation s) (coinFlipResult s).

Definition set_lastAction v (s : GameState) : GameState :=
  mkGameState (phase s) (currentAttacker s) (difficulty s) (player s) (ai s)
    (taDeck s) (dcDeck s) (attackState s) (turnNumber s) (cardsDrawnThisGame
    s) v (actionLog s) (selectedCard s) (selectedAsset s) (message s)
    (animation s) (coinFlipResult s).

Definition set_actionLog v (s : GameState) : GameState :=
  mkGameState (phase s) (currentAttacker s) (difficulty s) (player s) (ai s)
    (taDeck s) (dcDeck s) (attackState s) (turnNumber s) (cardsDrawnThisGame
    s) (lastAction s) v (selectedCard s) (selectedAsset s) (message s)
    (animation s) (coinFlipResult s).

Definition set_selectedCard v (s : GameState) : GameState :=
  mkGameState (phase s) (currentAttacker s) (difficulty s) (player s) (ai s)
    (taDeck s) (dcDeck s) (attackState s) (turnNumber s) (cardsDrawnThisGame
    s) (lastAction s) (actionLog s) v (selectedAsset s) (message s)
    (animation s) (coinFlipResult s).

Definition set_selectedAsset v (s : GameState) : GameState :=
  mkGameState (phase s) (currentAttacker s) (difficulty s) (player s) (ai s)
    (taDeck s) (dcDeck s) (attackState s) (turnNumber s) (cardsDrawnThisGame
    s) (lastAction s) (actionLog s) (selectedCard s) v (message s)
    (animation s) (coinFlipResult s).

Definition set_message v (s : GameState) : GameState :=
  mkGameState (phase s) (currentAttacker s) (difficulty s) (player s) (ai s)
    (taDeck s) (dcDeck s) (attackState s) (turnNumber s) (cardsDrawnThisGame
    s) (lastAction s) (actionLog s) (selectedCard s) (selectedAsset s) v
    (animation s) (coinFlipResult s).

Definition set_animation v (s : GameState) : GameState :=
  mkGameState (phase s) (currentAttacker s) (difficulty s) (player s) (ai s)
    (taDeck s) (dcDeck s) (attackState s) (turnNumber s) (cardsDrawnThisGame
    s) (lastAction s) (actionLog s) (selectedCard s) (selectedAsset s)
    (message s) v (coinFlipResult s).

Definition set_coinFlipResult v (s : GameState) : GameState :=
  mkGameState (phase s) (currentAttacker s) (difficulty s) (player s) (ai s)
    (taDeck s) (dcDeck s) (attackState s) (turnNumber s) (cardsDrawnThisGame
    s) (lastAction s) (actionLog s) (selectedCard s) (selectedAsset s)
    (message s) (animation s) v.

(** Decidable equality of the enumerations compared with [===]. *)
Definition CardCategory_eqb (a b : CardCategory) : bool :=
  match a, b with
  | threat_agent, threat_agent | defense_control, defense_control
  | asset, asset | joker, joker => true
  | _, _ => false
  end.

Definition AssetState_eqb (a b : AssetState) : bool :=
  match a, b with
  | facedown, facedown | revealed, revealed
  | rotated, rotated | destroyed, destroyed => true
  | _, _ => false
  end.

Definition GamePhase_eqb (a b : GamePhase) : bool :=
  match a, b with
  | difficulty_select, difficulty_select | coin_flip, coin_flip
  | setup, setup | draw_phase, draw_phase | attack_phase, attack_phase
  | defense_phase, defense_phase | resolution_phase, resolution_phase
  | player_won, player_won | ai_won, ai_won => true
  | _, _ => false
  end.

Definition CardValue_eqb (a b : CardValue) : bool :=
  Nat.eqb (valueNum a) (valueNum b).

Definition Actor_eqb (a b : Actor) : bool :=
  match a, b with
  | Player, Player | AI, AI => true
  | _, _ => false
  end.

(* ===================================================================== *)
(** ** Match rule (data/cards.ts)                                         *)
(* ===================================================================== *)

(** [canDefend(attackCard, defenseCard)]. The last line compares the two
    [value] fields, both present once the categories have been checked. *)
Definition canDefend (attackCard defenseCard : PlayableCard) : bool :=
  if CardCategory_eqb (category defenseCard) joker then true
  else if CardCategory_eqb (category attackCard) joker then true
  else if negb (CardCategory_eqb (category defenseCard) defense_control) then false
  else if negb (CardCategory_eqb (category attackCard) threat_agent) then false
  else match value defenseCard, value attackCard with
       | Some d, Some a => CardValue_eqb d a
       | _, _ => false
       end.

(** The decimal text of a number, as a template literal prints it. *)
Definition natToString (n : nat) : string :=
  NilEmpty.string_of_uint (Nat.to_uint n).

(* ===================================================================== *)
(** ** Randomness                                                         *)
(* ===================================================================== *)

(** [Math.random() < p], for the drawn number [r]. *)
Definition random_lt (r p : Q) : bool := negb (Qle_bool p r).

(** The Number type is IEEE 754 binary64: a number of the format is
    [m * 2^e] for integers [m] and [e] with [|m| < 2^53] and
    [-1074 <= e <= 971]. *)
Definition dyadic (m e : Z) : Q :=
  if (0 <=? e)%Z then inject_Z (m * 2 ^ e) else m # Z.to_pos (2 ^ (- e)).

Definition isBinary64 (x : Q) : Prop :=
  exists m e : Z, (Z.abs m < 2 ^ 53)%Z /\ (-1074 <= e <= 971)%Z /\ (x == dyadic m e)%Q.

(** The integer nearest to [n / d], for [d > 0]; of two nearest integers
    the even one. *)
Definition roundHalfEven (n d : Z) : Z :=
  let q := (n / d)%Z in
  let r := (n mod d)%Z in
  if (2 * r <? d)%Z then q
  else if (d <? 2 * r)%Z then (q + 1)%Z
  else if Z.even q then q else (q + 1)%Z.

(** The integer [k] with [2^k <= a / b < 2^(k+1)], for [a, b > 0]. *)
Definition floorLog2 (a b : Z) : Z :=
  let k := (Z.log2 a - Z.log2 b)%Z in
  if (if (0 <=? k)%Z then (2 ^ k * b <=? a)%Z else (b <=? a * 2 ^ (- k))%Z)
  then k else (k - 1)%Z.

(** The result of an arithmetic operation whose exact value is [a / b > 0]:
    the exact value is rounded to 53 significant bits, or to a multiple of
    [2^-1074] below [2^-1022], to the nearest such number, ties to the even
    significand. (Values of [2^1024] and more have no finite binary64; the
    products of this program, a draw below 1 times a length, stay below
    [2^32].) *)
Definition binary64_pos (a b : Z) : Q :=
  let e := Z.max (floorLog2 a b - 52) (-1074) in
  let m := if (0 <=? e)%Z then roundHalfEven a (b * 2 ^ e)
           else roundHalfEven (a * 2 ^ (- e)) b in
  dyadic m e.

Definition binary64 (x : Q) : Q :=
  match Qnum x with
  | Z0 => 0%Q
  | Zpos a => binary64_pos (Zpos a) (Zpos (Qden x))
  | Zneg a => (- binary64_pos (Zpos a) (Zpos (Qden x)))%Q
  end.

(** [Math.floor(Math.random() * n)], for the drawn number [r]: the product
    is the binary64 product of [r] and [n]. *)
Definition random_index (r : Q) (n : nat) : nat :=
  Z.to_nat (Qfloor (binary64 (r * inject_Z (Z.of_nat n)))).

(** The rest of a supply once its first element has been used. *)
Definition next {A} (f : nat -> A) : nat -> A := fun k => f (S k).

(* ===================================================================== *)
(** ** Card catalog and deck builder (data/cards.ts)                      *)
(* ===================================================================== *)

(** The [name] fields of [owaspTop10Risks]. *)
Definition owaspRiskName (v : CardValue) : string :=
  match v with
  | V1 => "Broken Access Control"
  | V2 => "Cryptographic Failures"
  | V3 => "Injection"
  | V4 => "Insecure Design"
  | V5 => "Security Misconfiguration"
  | V6 => "Vulnerable Components"
  | V7 => "Auth Failures"
  | V8 => "Data Integrity Failures"
  | V9 => "Logging Failures"
  | V10 => "SSRF"
  end.

(** The [name] fields of [owaspProactiveControls]. *)
Definition owaspControlName (v : CardValue) : string :=
  match v with
  | V1 => "Define Security Requirements"
  | V2 => "Leverage Security Frameworks"
  | V3 => "Secure Database Access"
  | V4 => "Encode and Escape Data"
  | V5 => "Validate All Inputs"
  | V6 => "Implement Digital Identity"
  | V7 => "Enforce Access Controls"
  | V8 => "Protect Data Everywhere"
  | V9 => "Implement Logging & Monitoring"
  | V10 => "Handle All Errors"
  end.

Definition cyberAssetNames (f : FaceCardType) : string :=
  match f with
  | jack => "Web Server"
  | queen => "Database Server"
  | king => "Authentication System"
  end.

(** [generateCardId]: pre-increments the module counter [cardIdCounter];
    returns the id and the new counter. *)
Definition generateCardId (cardIdCounter : nat) : string * nat :=
  ("card-" +:+ natToString (S cardIdCounter), S cardIdCounter).

Definition createTACard (suit : TASuit) (v : CardValue) (cnt : nat)
  : PlayableCard * nat :=
  (ThreatAgentCard (generateCardId cnt).1 suit v, (generateCardId cnt).2).

Definition createDCCard (suit : DCSuit) (v : CardValue) (cnt : nat)
  : PlayableCard * nat :=
  (DefenseControlCard (generateCardId cnt).1 suit v, (generateCardId cnt).2).

Definition createAssetCard (suit : Suit) (f : FaceCardType) (cnt : nat)
  : AssetCard * nat :=
  (mkAssetCard (generateCardId cnt).1 suit f (cyberAssetNames f),
   (generateCardId cnt).2).

Definition createJokerCard (j : JokerType) (cnt : nat) : PlayableCard * nat :=
  (JokerCard (generateCardId cnt).1 j, (generateCardId cnt).2).

(** [for (const x of l) out.push(f(x))], threading the id counter. *)
Fixpoint pushAll {A B} (f : A -> nat -> B * nat) (l : list A) (cnt : nat)
  : list B * nat :=
  match l with
  | [] => ([], cnt)
  | x :: l' =>
      let r := f x cnt in
      let rs := pushAll f l' r.2 in
      (r.1 :: rs.1, rs.2)
  end.

(** The outer loop over the suits of one side: ten numbered cards, then the
    three face cards, per suit. *)
Fixpoint generateSuits {S} (mkCard : S -> CardValue -> nat -> PlayableCard * nat)
    (toSuit : S -> Suit) (suits : list S) (values : list CardValue)
    (faceTypes : list FaceCardType) (cnt : nat)
  : (list PlayableCard * list AssetCard) * nat :=
  match suits with
  | [] => (([], []), cnt)
  | suit :: suits' =>
      let cs := pushAll (mkCard suit) values cnt in
      let fs := pushAll (createAssetCard (toSuit suit)) faceTypes cs.2 in
      let rest := generateSuits mkCard toSuit suits' values faceTypes fs.2 in
      ((cs.1 ++ rest.1.1, fs.1 ++ rest.1.2), rest.2)
  end.

Record FullDeck := mkFullDeck {
  taCards : list PlayableCard;
  dcCards : list PlayableCard;
  taAssets : list AssetCard;
  dcAssets : list AssetCard;
  jokers : list PlayableCard
}.

Definition generateFullDeck (cnt : nat) : FullDeck * nat :=
  let taSuits := [hearts; diamonds] in
  let dcSuits := [spades; clubs] in
  let faceTypes := [jack; queen; king] in
  let values := [V1; V2; V3; V4; V5; V6; V7; V8; V9; V10] in
  let ta := generateSuits createTACard suitTA taSuits values faceTypes cnt in
  let dc := generateSuits createDCCard suitDC dcSuits values faceTypes ta.2 in
  let j1 := createJokerCard black dc.2 in
  let j2 := createJokerCard red j1.2 in
  (mkFullDeck ta.1.1 dc.1.1 ta.1.2 dc.1.2 [j1.1; j2.1], j2.2).

(** The [id] field of a playable card. *)
Definition cardId (c : PlayableCard) : string :=
  match c with
  | ThreatAgentCard id _ _ => id
  | DefenseControlCard id _ _ => id
  | JokerCard id _ => id
  end.

(** The ids of all the cards of a generated deck. *)
Definition deckIds (d : FullDeck) : list string :=
  map cardId (taCards d) ++ map ac_id (taAssets d) ++ map cardId (dcCards d)
  ++ map ac_id (dcAssets d) ++ map cardId (jokers d).

(** The two sides of the deck as [initializeGame] shuffles them. *)
Definition attackSideOf (d : FullDeck) : list PlayableCard :=
  taCards d ++ option_list (jokers d !! 0).

Definition defenseSideOf (d : FullDeck) : list PlayableCard :=
  dcCards d ++ option_list (jokers d !! 1).

(** [[a[i], a[j]] = [a[j], a[i]]]. For a random draw in [0, 1) both indices
    are inside the array at every call of the shuffle. *)
Definition swap {A} (a : list A) (i j : nat) : list A :=
  match a !! i, a !! j with
  | Some x, Some y => <[j:=x]> (<[i:=y]> a)
  | _, _ => a
  end.

(** The Fisher-Yates loop [for (let i = ...; i > 0; i--)] shared by
    [createShuffledDeck] and [shuffle]; [rs] supplies the random draws. *)
Fixpoint fisherYates {A} (rs : nat -> Q) (i : nat) (shuffled : list A) : list A :=
  match i with
  | 0 => shuffled
  | S i' =>
      let j := random_index (rs 0) (i + 1) in
      fisherYates (next rs) i' (swap shuffled i j)
  end.

Definition createShuffledDeck (rs : nat -> Q) (cards : list PlayableCard)
  : list PlayableCard :=
  fisherYates rs (length cards - 1) cards.

(* ===================================================================== *)
(** ** Helpers (utils/helpers.ts)                                         *)
(* ===================================================================== *)

Definition createHandCard (instanceId : string) (card : PlayableCard) : HandCard :=
  mkHandCard instanceId card.

Definition createCyberAsset (instanceId : string) (card : AssetCard) : CyberAsset :=
  mkCyberAsset instanceId card facedown 0.

Definition shuffle {A} (rs : nat -> Q) (array : list A) : list A :=
  fisherYates rs (length array - 1) array.

Definition getRandomElement {A} (r : Q) (array : list A) : option A :=
  match array with
  | [] => None
  | _ => array !! random_index r (length array)
  end.

(** [cards.map(create)] where every call of [create] draws an instance id. *)
Definition mapWithIds {A B} (create : string -> A -> B) (ids : nat -> string)
    (l : list A) : list B :=
  imap (fun i x => create (ids i) x) l.

(** [array.slice(from, to)]. *)
Definition slice {A} (from to : nat) (l : list A) : list A :=
  take (to - from) (drop from l).

(** [getAssetStateDisplay], on the states of an asset. *)
Definition getAssetStateDisplay (state : AssetState) : string :=
  match state with
  | facedown => "Protected"
  | revealed => "Observed"
  | rotated => "Assessed"
  | destroyed => "PWN'd"
  end.

Definition countActiveAssets (assets : list CyberAsset) : nat :=
  length (List.filter (fun a => negb (AssetState_eqb (state a) destroyed)) assets).

Definition countDestroyedAssets (assets : list CyberAsset) : nat :=
  length (List.filter (fun a => AssetState_eqb (state a) destroyed) assets).

(* ===================================================================== *)
(** ** Outcomes and array sorting                                         *)
(* ===================================================================== *)

(** The outcome of a call: a returned value, a thrown [TypeError] (a
    property read on [undefined]), or a loop of the embedding stopped by its
    step bound ([executeAITurn_terminates] shows that the bound of
    [executeAITurn] is never hit). *)
Inductive result (A : Type) :=
  | Ok (a : A)
  | TypeError
  | OutOfFuel.
Arguments Ok {A} a.
Arguments TypeError {A}.
Arguments OutOfFuel {A}.

(** Sequencing: a throw or a hit bound ends the computation. *)
#[global] Instance result_bind : MBind result := fun A B k m =>
  match m with
  | Ok a => k a
  | TypeError => TypeError
  | OutOfFuel => OutOfFuel
  end.

(** [[...l].sort(cmp)]: [Array.prototype.sort] is stable, and [cmp a b <= 0]
    keeps [a] before [b]. *)
Fixpoint insertBy {A} (cmp : A -> A -> Z) (x : A) (l : list A) : list A :=
  match l with
  | [] => [x]
  | y :: l' => if (cmp x y <=? 0)%Z then x :: l else y :: insertBy cmp x l'
  end.

Definition sortBy {A} (cmp : A -> A -> Z) (l : list A) : list A :=
  foldr (insertBy cmp) [] l.

(* ===================================================================== *)
(** ** AI decision system (utils/ai.ts)                                   *)
(* ===================================================================== *)

Definition hasCategory (c : CardCategory) (hc : HandCard) : bool :=
  CardCategory_eqb (category (hc_card hc)) c.

(** [a.card.category === 'threat_agent' ? a.card.value : 0]. *)
Definition attackValue (hc : HandCard) : Z :=
  match hc_card hc with
  | ThreatAgentCard _ _ v => Z.of_nat (valueNum v)
  | _ => 0%Z
  end.

(** The comparator [(a, b) => bv - av]. *)
Definition byValueDesc (a b : HandCard) : Z := (attackValue b - attackValue a)%Z.

(** [(c as ThreatAgentCard).owaspRisk?.name || 'card']. *)
Definition riskNameOr (c : PlayableCard) : string :=
  match c with
  | ThreatAgentCard _ _ v => owaspRiskName v
  | _ => "card"
  end.

(** [(c as DefenseControlCard).owaspControl?.name || 'card']. *)
Definition controlNameOr (c : PlayableCard) : string :=
  match c with
  | DefenseControlCard _ _ v => owaspControlName v
  | _ => "card"
  end.

Definition dcValues (cards : list PlayableCard) : list CardValue :=
  omap (fun c => match c with DefenseControlCard _ _ v => Some v | _ => None end)
       cards.

Definition aiChooseAttackCard (taHand : list HandCard) (_targetAsset : CyberAsset)
    (defenderDcHand : list HandCard) (difficulty : Difficulty) (r : Q)
  : result AIDecision :=
  if length taHand =? 0 then
    Ok (mkAIDecision "draw_end" None "No attack cards available, ending turn")
  else
  let taCards := List.filter (hasCategory threat_agent) taHand in
  let jokerCards := List.filter (hasCategory joker) taHand in
  let usableAttackCards := if 0 <? length taCards then taCards else jokerCards in
  match difficulty with
  | easy =>
      match from_option Some (head usableAttackCards)
              (getRandomElement r usableAttackCards) with
      | Some chosen =>
          Ok (mkAIDecision "attack" (Some chosen)
                ("Attacking with " +:+ riskNameOr (hc_card chosen)))
      | None => TypeError
      end
  | _ =>
      let defenderCards := map hc_card defenderDcHand in
      let defenderHasJoker :=
        existsb (fun c => CardCategory_eqb (category c) joker) defenderCards in
      let notDefendable :=
        List.filter (fun att =>
          negb (existsb (fun def => canDefend (hc_card att) def) defenderCards))
          usableAttackCards in
      if 0 <? length notDefendable then
        Ok (mkAIDecision "attack" (head (sortBy byValueDesc notDefendable))
              (if defenderHasJoker
               then "Attacking with a value that avoids all non-joker defenses"
               else "Attacking with an undefendable value"))
      else
      let matchingDcValues := dcValues defenderCards in
      let forcesJoker :=
        List.filter (fun att =>
          match hc_card att with
          | ThreatAgentCard _ _ v => negb (existsb (CardValue_eqb v) matchingDcValues)
          | _ => false
          end) usableAttackCards in
      if 0 <? length forcesJoker then
        Ok (mkAIDecision "attack" (head (sortBy byValueDesc forcesJoker))
              "Forcing Joker defense (no matching Defense Control value)")
      else
      match head (sortBy byValueDesc usableAttackCards) with
      | Some fallback =>
          Ok (mkAIDecision "attack" (Some fallback)
                ("Attacking with " +:+ riskNameOr (hc_card fallback)))
      | None => TypeError
      end
  end.

Definition stateRank (s : AssetState) : Z :=
  match s with
  | facedown => 1
  | revealed => 2
  | rotated => 3
  | destroyed => 0
  end.

(** The comparator of [aiChooseTarget]. *)
Definition byProgress (a b : CyberAsset) : Z :=
  let rankDiff := (stateRank (state b) - stateRank (state a))%Z in
  if negb (rankDiff =? 0)%Z then rankDiff
  else
    let damageA := Z.of_nat (damageCount a) in
    let damageB := Z.of_nat (damageCount b) in
    (damageB - damageA)%Z.

Definition notDestroyed (a : CyberAsset) : bool :=
  negb (AssetState_eqb (state a) destroyed).

Definition aiChooseTarget (assets : list CyberAsset) : option CyberAsset :=
  let validTargets := List.filter notDestroyed assets in
  if length validTargets =? 0 then None
  else head (sortBy byProgress validTargets).

Definition defendChance (difficulty : Difficulty) : Q :=
  match difficulty with
  | easy => 15 # 100
  | hard => 5 # 10
  | brutal => 95 # 100
  end.

Definition aiChooseDefense (dcHand : list HandCard) (attackCard : PlayableCard)
    (difficulty : Difficulty) (r : Q) : AIDecision :=
  if length dcHand =? 0 then
    mkAIDecision "defend" None "No defense cards available"
  else
  let validDefenses := List.filter (fun hc => canDefend attackCard (hc_card hc)) dcHand in
  if length validDefenses =? 0 then
    mkAIDecision "defend" None "No matching defense card available"
  else
  let shouldDefend := random_lt r (defendChance difficulty) in
  if negb shouldDefend then
    mkAIDecision "defend" None "Choosing not to defend"
  else
  let nonJokerDefenses := List.filter (fun hc => negb (hasCategory joker hc)) validDefenses in
  match nonJokerDefenses with
  | defenseCard :: _ =>
      mkAIDecision "defend" (Some defenseCard)
        ("Defending with " +:+ controlNameOr (hc_card defenseCard))
  | [] =>
      match List.find (hasCategory joker) validDefenses with
      | Some jokerDefense =>
          mkAIDecision "defend" (Some jokerDefense) "Using Joker to defend"
      | None =>
          mkAIDecision "defend" None "Choosing not to defend to save resources"
      end
  end.

Definition continueChance (difficulty : Difficulty) : Q :=
  match difficulty with
  | easy => 3 # 10
  | hard => 7 # 10
  | brutal => 95 # 100
  end.

Definition aiDecideContinueOrEnd (taHand : list HandCard)
    (_successfulAttacksThisRound : nat) (targetAssets : list CyberAsset)
    (difficulty : Difficulty) (r : Q) : AIDecision :=
  let validTargets := List.filter notDestroyed targetAssets in
  if length validTargets =? 0 then
    mkAIDecision "draw_end" None "No valid targets remaining"
  else if length taHand =? 0 then
    mkAIDecision "draw_end" None "No attack cards remaining"
  else
  let rotatedTargets :=
    List.filter (fun a => AssetState_eqb (state a) rotated) validTargets in
  if (0 <? length rotatedTargets) && (1 <=? length taHand) then
    mkAIDecision "attack" None "Continuing attack to destroy rotated asset"
  else if length taHand <? 3 then
    mkAIDecision "draw_end" None "Ending turn to replenish hand"
  else if random_lt r (continueChance difficulty) then
    mkAIDecision "attack" None "Continuing attack to pressure opponent"
  else
    mkAIDecision "draw_end" None "Ending turn strategically".

Definition aiDecideReboot (dcHand : list HandCard) (dcDiscard : list PlayableCard)
    (assets : list CyberAsset) : bool :=
  let activeAssets :=
    List.filter (fun a => negb (AssetState_eqb (state a) destroyed)) assets in
  if length activeAssets <=? 1 then false
  else if (length dcHand <=? 1) && (3 <=? length dcDiscard) then true
  else false.

(** The [usableAttackCards] of [aiChooseAttackCard]: the threat agent cards
    of the hand, and its jokers only when it holds no threat agent card. *)
Definition usableAttackCards (taHand : list HandCard) : list HandCard :=
  let taCards := List.filter (hasCategory threat_agent) taHand in
  let jokerCards := List.filter (hasCategory joker) taHand in
  if 0 <? length taCards then taCards else jokerCards.

(** Some card of the defender's hand defends against the attack card. *)
Definition blockable (defenderDcHand : list HandCard) (att : HandCard) : Prop :=
  exists d, In d defenderDcHand /\ canDefend (hc_card att) (hc_card d) = true.

(** A threat agent card whose value no defense control card of the
    defender's hand carries: only a joker defends against it. *)
Definition forcesJoker (defenderDcHand : list HandCard) (att : HandCard) : Prop :=
  category (hc_card att) = threat_agent /\
  ~ exists d, In d defenderDcHand /\ category (hc_card d) = defense_control /\
              value (hc_card d) = value (hc_card att).

(* ===================================================================== *)
(** ** Game state hook (hooks/useGameState.ts)                            *)
(* ===================================================================== *)

Definition HAND_SIZE := 5.
Definition ASSETS_PER_PLAYER := 3.
Definition ASSETS_TO_WIN := 2.
Definition DEFENSES_TO_WIN := 6.

(** What [initializeGame] draws: the random numbers of the four shuffles
    and the instance ids of the dealt hand cards and assets. *)
Record InitOracle := mkInitOracle {
  rndTA : nat -> Q;
  rndDC : nat -> Q;
  rndTAAssets : nat -> Q;
  rndDCAssets : nat -> Q;
  idsPlayerTA : nat -> string;
  idsPlayerDC : nat -> string;
  idsPlayerAssets : nat -> string;
  idsAITA : nat -> string;
  idsAIDC : nat -> string;
  idsAIAssets : nat -> string
}.

Definition initializeGame (cardIdCounter : nat) (o : InitOracle) : GameState :=
  let deck := (generateFullDeck cardIdCounter).1 in
  let shuffledTA :=
    createShuffledDeck (rndTA o) (taCards deck ++ option_list (jokers deck !! 0)) in
  let shuffledDC :=
    createShuffledDeck (rndDC o) (dcCards deck ++ option_list (jokers deck !! 1)) in
  let shuffledTAAssets := shuffle (rndTAAssets o) (taAssets deck) in
  let shuffledDCAssets := shuffle (rndDCAssets o) (dcAssets deck) in
  let playerTAHand :=
    mapWithIds createHandCard (idsPlayerTA o) (slice 0 HAND_SIZE shuffledTA) in
  let playerDCHand :=
    mapWithIds createHandCard (idsPlayerDC o) (slice 0 HAND_SIZE shuffledDC) in
  let playerAssets :=
    mapWithIds createCyberAsset (idsPlayerAssets o)
      (slice 0 ASSETS_PER_PLAYER shuffledDCAssets) in
  let aiTAHand :=
    mapWithIds createHandCard (idsAITA o)
      (slice HAND_SIZE (HAND_SIZE * 2) shuffledTA) in
  let aiDCHand :=
    mapWithIds createHandCard (idsAIDC o)
      (slice HAND_SIZE (HAND_SIZE * 2) shuffledDC) in
  let aiAssets :=
    mapWithIds createCyberAsset (idsAIAssets o)
      (slice 0 ASSETS_PER_PLAYER shuffledTAAssets) in
  let taDeck := drop (HAND_SIZE * 2) shuffledTA in
  let dcDeck := drop (HAND_SIZE * 2) shuffledDC in
  {| phase := difficulty_select;
     currentAttacker := Player;
     difficulty := None;
     player := mkPlayerState playerAssets playerTAHand playerDCHand [] [] 0;
     ai := mkPlayerState aiAssets aiTAHand aiDCHand [] [] 0;
     taDeck := taDeck;
     dcDeck := dcDeck;
     attackState := None;
     turnNumber := 1;
     cardsDrawnThisGame := HAND_SIZE * 4;
     lastAction := None;
     actionLog := [];
     selectedCard := None;
     selectedAsset := None;
     message := "Flipping coin to determine who attacks first...";
     animation := anim_coin_flip;
     coinFlipResult := None |}.

Definition getNextAssetState (current : AssetState) : AssetState :=
  match current with
  | facedown => revealed
  | revealed => rotated
  | rotated => destroyed
  | _ => current
  end.

(** [assets.filter(a => a.state === 'destroyed').length]. *)
Definition destroyedCount (l : list CyberAsset) : nat :=
  length (List.filter (fun a => AssetState_eqb (state a) destroyed) l).

Definition checkWinCondition (s : GameState) : GamePhase :=
  let playerDestroyedAssets := destroyedCount (assets (player s)) in
  let aiDestroyedAssets := destroyedCount (assets (ai s)) in
  if ASSETS_TO_WIN <=? playerDestroyedAssets then ai_won
  else if ASSETS_TO_WIN <=? aiDestroyedAssets then player_won
  else if DEFENSES_TO_WIN <=? successfulDefenses (player s) then player_won
  else if DEFENSES_TO_WIN <=? successfulDefenses (ai s) then ai_won
  else phase s.

Definition getWinReason (s : GameState) : option (GamePhase * string) :=
  let playerDestroyedAssets := destroyedCount (assets (player s)) in
  let aiDestroyedAssets := destroyedCount (assets (ai s)) in
  if ASSETS_TO_WIN <=? playerDestroyedAssets then
    Some (ai_won,
          "AI breached " +:+ natToString playerDestroyedAssets +:+ " of your 3 assets")
  else if ASSETS_TO_WIN <=? aiDestroyedAssets then
    Some (player_won,
          "You breached " +:+ natToString aiDestroyedAssets +:+ " of 3 AI assets")
  else if DEFENSES_TO_WIN <=? successfulDefenses (player s) then
    Some (player_won, "You successfully defended 6 attacks")
  else if DEFENSES_TO_WIN <=? successfulDefenses (ai s) then
    Some (ai_won, "AI successfully defended 6 of your attacks")
  else None.

(** The [while] loop of [drawToHandSize]; every iteration shifts one card
    off the deck, so the loop is a recursion on the deck. *)
Fixpoint drawToHandSize (ids : nat -> string) (hand : list HandCard)
    (deck : list PlayableCard) (targetSize : nat)
  : list HandCard * list PlayableCard :=
  match deck with
  | [] => (hand, [])
  | card :: deck' =>
      if length hand <? targetSize
      then drawToHandSize (next ids) (hand ++ [createHandCard (ids 0) card])
             deck' targetSize
      else (hand, deck)
  end.

Definition addLogToState (s : GameState) (entry : GameAction) : GameState :=
  let l := actionLog s ++ [entry] in
  let nextLog := drop (length l - 200) l in
  set_actionLog nextLog (set_lastAction (Some entry) s).

(** [explainStage]. *)
Definition explainStage (state : AssetState) : string :=
  match state with
  | facedown => "Stage: Observation (reveals a face-down asset)"
  | revealed => "Stage: Assessment (rotates a revealed asset)"
  | _ => "Stage: PWN (destroys a rotated asset)"
  end.

Definition selectCard (c : option HandCard) (s : GameState) : GameState :=
  set_selectedCard c s.

Definition selectAsset (a : option CyberAsset) (s : GameState) : GameState :=
  set_selectedAsset a s.

Definition setDifficulty (d : Difficulty) (s : GameState) : GameState :=
  set_message "Flipping coin to determine who attacks first..."
    (set_phase coin_flip (set_difficulty (Some d) s)).

(** [target.state === 'facedown' ? 'observation' : ... ? 'assessment' : 'pwn']. *)
Definition stageOf (st : AssetState) : AttackStage :=
  match st with
  | facedown => observation
  | revealed => assessment
  | _ => pwn
  end.

(** [(s.attackState?.attacksThisRound || 0) + 1]. *)
Definition nextAttackCount (s : GameState) : nat :=
  match attackState s with
  | Some st => attacksThisRound st + 1
  | None => 0 + 1
  end.

(** [newAssetState === 'revealed' ? 'OBSERVED' : ... ? 'ASSESSED' : 'PWN\'d!']. *)
Definition stateMsg (st : AssetState) : string :=
  match st with
  | revealed => "OBSERVED"
  | rotated => "ASSESSED"
  | _ => "PWN'd!"
  end.

Fixpoint findIndex {A} (f : A -> bool) (l : list A) : option nat :=
  match l with
  | [] => None
  | x :: l' => if f x then Some 0 else S <$> findIndex f l'
  end.

(** [hand.filter(c => c.instanceId !== id)]. *)
Definition removeCard (id : string) (hand : list HandCard) : list HandCard :=
  List.filter (fun c => negb (String.eqb (hc_instanceId c) id)) hand.

(** [assets[i] = { ...assets[i], state: st, damageCount: assets[i].damageCount + 1 }]. *)
Definition damageAsset (i : nat) (st : AssetState) (l : list CyberAsset)
  : list CyberAsset :=
  match l !! i with
  | Some a =>
      <[i := mkCyberAsset (ca_instanceId a) (ca_card a) st (damageCount a + 1)]> l
  | None => l
  end.

(** The final win check of [playerAttack]. *)
Definition applyWin (s : GameState) : GameState :=
  match getWinReason s with
  | Some (winPhase, reason) =>
      let s1 := set_phase winPhase s in
      let s2 :=
        set_message (if GamePhase_eqb winPhase player_won
                     then "You Win! " +:+ reason
                     else "Game Over! " +:+ reason) s1 in
      addLogToState s2
        (mkGameAction (if GamePhase_eqb winPhase player_won then Player else AI)
           "Game End")
  | None => s
  end.


(** [gameState.difficulty || 'hard']. *)
Definition difficultyOr (s : GameState) : Difficulty := default hard (difficulty s).

(** The branch of [playerAttack] taken when the AI produced [defenseCard]. *)
Definition attackBlocked (ids : nat -> string) (attackCard defenseCard : HandCard)
    (newState : GameState) : GameState :=
  let pl1 := set_taHand (removeCard (hc_instanceId attackCard) (taHand (player newState)))
               (player newState) in
  let pl2 := set_taDiscard (taDiscard pl1 ++ [hc_card attackCard]) pl1 in
  let ai1 := set_dcHand (removeCard (hc_instanceId defenseCard) (dcHand (ai newState)))
               (ai newState) in
  let ai2 := set_dcDiscard (dcDiscard ai1 ++ [hc_card defenseCard]) ai1 in
  let ai3 := set_successfulDefenses (successfulDefenses ai2 + 1) ai2 in
  let drawn := drawToHandSize ids (dcHand ai3) (dcDeck newState)
                 (length (dcHand ai3) + 2) in
  let ai4 := set_dcHand drawn.1 ai3 in
  let s1 := set_dcDeck drawn.2 (set_ai ai4 (set_player pl2 newState)) in
  let s2 := set_message "AI defended! Attack blocked." s1 in
  let s3 := addLogToState s2 (mkGameAction AI "Defended") in
  let s4 := addLogToState s3 (mkGameAction Player "Attack Blocked") in
  set_animation anim_defend (set_attackState None (set_phase attack_phase s4)).

(** The branch of [playerAttack] taken when the AI produced no card. *)
Definition attackHit (attackCard : HandCard) (targetAsset : CyberAsset)
    (newState : GameState) : GameState :=
  let assetIndex :=
    findIndex (fun a => String.eqb (ca_instanceId a) (ca_instanceId targetAsset))
      (assets (ai newState)) in
  let s1 :=
    match assetIndex with
    | Some i =>
        let newAssetState := getNextAssetState (state targetAsset) in
        let sa := set_ai (set_assets (damageAsset i newAssetState (assets (ai newState)))
                            (ai newState)) newState in
        let sm := set_message ("Attack hit! " +:+ assetName (ca_card targetAsset)
                               +:+ " is now " +:+ stateMsg newAssetState) sa in
        addLogToState sm (mkGameAction Player "Attack Hit")
    | None => newState
    end in
  let pl1 := set_taHand (removeCard (hc_instanceId attackCard) (taHand (player s1)))
               (player s1) in
  let pl2 := set_taDiscard (taDiscard pl1 ++ [hc_card attackCard]) pl1 in
  set_animation anim_damage
    (set_attackState None (set_phase attack_phase (set_player pl2 s1))).

(** The first part of [playerAttack]: the attack is recorded, the phase
    becomes [defense_phase] and the selections are cleared. *)
Definition attackIntent (attackCard : HandCard) (targetAsset : CyberAsset)
    (gameState : GameState) : GameState :=
  let n1 :=
    set_attackState
      (Some (mkAttackState (Some targetAsset) (Some attackCard)
               (stageOf (state targetAsset)) (nextAttackCount gameState)))
      gameState in
  let n2 := set_phase defense_phase n1 in
  let n3 := set_message ("Attacking " +:+ assetName (ca_card targetAsset) +:+ "!") n2 in
  let n4 := set_selectedAsset None (set_selectedCard None n3) in
  let n5 := set_animation anim_attack n4 in
  addLogToState n5 (mkGameAction Player "Attack").

(** [playerAttack]: [r] is the random draw of the AI's defense decision,
    [ids] the instance ids of the cards the AI redraws. The animation is
    reset once the resolved state has been published. *)
Definition playerAttack (isProcessing : bool) (r : Q) (ids : nat -> string)
    (gameState : GameState) : GameState :=
  if isProcessing then gameState else
  match selectedCard gameState, selectedAsset gameState with
  | Some attackCard, Some targetAsset =>
      if negb (GamePhase_eqb (phase gameState) attack_phase) then gameState
      else if negb (Actor_eqb (currentAttacker gameState) Player) then gameState
      else
        let newState := attackIntent attackCard targetAsset gameState in
        let aiDecision :=
          aiChooseDefense (dcHand (ai newState)) (hc_card attackCard)
            (difficultyOr gameState) r in
        let resolved :=
          match ai_card aiDecision with
          | Some defenseCard => attackBlocked ids attackCard defenseCard newState
          | None => attackHit attackCard targetAsset newState
          end in
        set_animation anim_none (applyWin resolved)
  | _, _ => gameState
  end.

(** What one AI turn draws: per loop iteration the random number of the
    card choice and of the continue decision; the instance ids of the cards
    the player redraws after a block and of the cards the AI draws at the
    end of its turn. *)
Record AIOracle := mkAIOracle {
  rndCard : nat -> Q;
  rndContinue : nat -> Q;
  idsDefense : nat -> string;
  idsEndOfTurn : nat -> string
}.

(** The defended branch of the loop body of [executeAITurn]. *)
Definition aiBlocked (ids : nat -> string) (attackCard playerDefense : HandCard)
    (newState : GameState) : GameState :=
  let s0 := set_animation anim_defend newState in
  let ai1 := set_taHand (removeCard (hc_instanceId attackCard) (taHand (ai s0)))
               (ai s0) in
  let ai2 := set_taDiscard (taDiscard ai1 ++ [hc_card attackCard]) ai1 in
  let pl1 := set_dcHand (removeCard (hc_instanceId playerDefense) (dcHand (player s0)))
               (player s0) in
  let pl2 := set_dcDiscard (dcDiscard pl1 ++ [hc_card playerDefense]) pl1 in
  let pl3 := set_successfulDefenses (successfulDefenses pl2 + 1) pl2 in
  let drawn := drawToHandSize ids (dcHand pl3) (dcDeck s0) (length (dcHand pl3) + 2) in
  let pl4 := set_dcHand drawn.1 pl3 in
  let s1 := set_dcDeck drawn.2 (set_player pl4 (set_ai ai2 s0)) in
  let s2 :=
    set_message ("You defended with "
                 +:+ match hc_card playerDefense with
                     | DefenseControlCard _ _ v => owaspControlName v
                     | _ => "Joker"
                     end +:+ "!") s1 in
  addLogToState s2 (mkGameAction Player "Defended").

(** The undefended branch of the loop body, up to the continue decision. *)
Definition aiHit (attackCard : HandCard) (target : CyberAsset)
    (newState : GameState) : GameState :=
  let s0 := set_animation anim_damage newState in
  let assetIndex :=
    findIndex (fun a => String.eqb (ca_instanceId a) (ca_instanceId target))
      (assets (player s0)) in
  let s1 :=
    match assetIndex with
    | Some i =>
        let newAssetState := getNextAssetState (state target) in
        let sa := set_player (set_assets (damageAsset i newAssetState (assets (player s0)))
                                (player s0)) s0 in
        let sm := set_message ("No defense! Your " +:+ assetName (ca_card target)
                               +:+ " is now " +:+ stateMsg newAssetState) sa in
        addLogToState sm (mkGameAction AI "Attack Hit")
    | None => s0
    end in
  let ai1 := set_taHand (removeCard (hc_instanceId attackCard) (taHand (ai s1)))
               (ai s1) in
  let ai2 := set_taDiscard (taDiscard ai1 ++ [hc_card attackCard]) ai1 in
  set_ai ai2 s1.

(** The win check that closes an iteration of the AI loop. *)
Definition aiWinCheck (continueAttacking : bool) (newState : GameState)
  : GameState * bool :=
  let winCheck := checkWinCondition newState in
  if negb (GamePhase_eqb winCheck attack_phase)
     && negb (GamePhase_eqb winCheck defense_phase)
  then
    (set_message (if GamePhase_eqb winCheck player_won
                  then "You Win! You breached the AI's systems!"
                  else "Game Over! The AI breached your systems!")
       (set_phase winCheck newState), false)
  else (newState, continueAttacking).

(** The attack of the AI is recorded, before the player's defense is
    looked up. *)
Definition aiAttackIntent (target : CyberAsset) (attackCard : HandCard)
    (s2 : GameState) : GameState :=
  let s3 :=
    set_attackState
      (Some (mkAttackState (Some target) (Some attackCard)
               (stageOf (state target)) (nextAttackCount s2))) s2 in
  let s4 := set_animation anim_attack s3 in
  let s5 := set_message ("AI attacks your " +:+ assetName (ca_card target) +:+ "!") s4 in
  addLogToState s5 (mkGameAction AI "Attack").

(** One iteration of the [while] loop of [executeAITurn]: the state it
    leaves and the value of [continueAttacking]. *)
Definition aiTurnBody (d : Difficulty) (rCard rContinue : Q) (ids : nat -> string)
    (s : GameState) : result (GameState * bool) :=
  let s1 := set_message "AI is choosing a target..." s in
  match aiChooseTarget (assets (player s1)) with
  | None => Ok (addLogToState s1 (mkGameAction AI "No Attack"), false)
  | Some target =>
      let s2 := set_message ("AI targets your " +:+ assetName (ca_card target) +:+ "...") s1 in
      attackDecision ← aiChooseAttackCard (taHand (ai s2)) target (dcHand (player s2)) d rCard;
      match ai_card attackDecision with
      | None => Ok (addLogToState s2 (mkGameAction AI "No Attack"), false)
      | Some attackCard =>
          let s6 := aiAttackIntent target attackCard s2 in
          match List.find (fun hc => canDefend (hc_card attackCard) (hc_card hc))
                  (dcHand (player s6)) with
          | Some playerDefense =>
              Ok (aiWinCheck false (aiBlocked ids attackCard playerDefense s6))
          | None =>
              let s7 := aiHit attackCard target s6 in
              let continueDecision :=
                aiDecideContinueOrEnd (taHand (ai s7)) 0 (assets (player s7)) d rContinue in
              Ok (aiWinCheck (String.eqb (ai_action continueDecision) "attack") s7)
          end
      end
  end.

(** [while (continueAttacking && newState.phase === 'attack_phase')], with a
    bound on the number of iterations. *)
Fixpoint aiTurnLoop (fuel : nat) (d : Difficulty) (o : AIOracle)
    (continueAttacking : bool) (s : GameState) : result GameState :=
  if continueAttacking && GamePhase_eqb (phase s) attack_phase then
    match fuel with
    | 0 => OutOfFuel
    | S fuel' =>
        r ← aiTurnBody d (rndCard o 0) (rndContinue o 0) (idsDefense o) s;
        aiTurnLoop fuel' d
          (mkAIOracle (next (rndCard o)) (next (rndContinue o))
             (idsDefense o) (idsEndOfTurn o))
          r.2 r.1
    end
  else Ok s.

(** The end of [executeAITurn], after the loop. *)
Definition aiEndOfTurn (ids : nat -> string) (s : GameState) : GameState :=
  let s1 :=
    if GamePhase_eqb (phase s) attack_phase then
      let drawn := drawToHandSize ids (taHand (ai s)) (taDeck s)
                     (length (taHand (ai s)) + 2) in
      let sa := set_taDeck drawn.2 (set_ai (set_taHand drawn.1 (ai s)) s) in
      set_message "Your turn! Select a Threat Agent card to attack."
        (set_turnNumber (turnNumber sa + 1) (set_currentAttacker Player sa))
    else s in
  set_animation anim_none s1.

(** [executeAITurn]. Every iteration that continues takes a card out of the
    AI's attack hand, so the loop runs at most once more than the hand has
    cards. *)
Definition executeAITurn (o : AIOracle) (state : GameState) : result GameState :=
  s ← aiTurnLoop (S (length (taHand (ai state)))) (difficultyOr state) o true state;
  Ok (aiEndOfTurn (idsEndOfTurn o) s).

(** The state [endTurn] hands to the AI: the player has drawn, the AI is
    the attacker. *)
Definition turnHandedOver (ids : nat -> string) (gameState : GameState) : GameState :=
  let drawn := drawToHandSize ids (taHand (player gameState)) (taDeck gameState)
                 (length (taHand (player gameState)) + 2) in
  let s1 := set_taDeck drawn.2
              (set_player (set_taHand drawn.1 (player gameState)) gameState) in
  let s2 := set_turnNumber (turnNumber s1 + 1) (set_currentAttacker AI s1) in
  let s3 := set_message "AI's turn to attack..." s2 in
  set_selectedAsset None (set_selectedCard None s3).

(** [endTurn]: [ids] are the instance ids of the cards the player draws. *)
Definition endTurn (isProcessing : bool) (ids : nat -> string) (o : AIOracle)
    (gameState : GameState) : result GameState :=
  if isProcessing then Ok gameState
  else if negb (GamePhase_eqb (phase gameState) attack_phase) then Ok gameState
  else if negb (Actor_eqb (currentAttacker gameState) Player) then Ok gameState
  else
    let newState := turnHandedOver ids gameState in
    executeAITurn o newState.

(** The state after the coin flip came out as [result]. *)
Definition coinFlipped (result : Actor) (gameState : GameState) : GameState :=
  set_message (if Actor_eqb result Player
               then "Your turn! Select a Threat Agent card to attack."
               else "AI is preparing to attack...")
    (set_animation anim_none
       (set_phase attack_phase
          (set_currentAttacker result
             (set_coinFlipResult (Some result) gameState)))).

(** [performCoinFlip]: [r] is the random draw of the flip. *)
Definition performCoinFlip (isProcessing : bool) (r : Q) (o : AIOracle)
    (gameState : GameState) : result GameState :=
  if negb (GamePhase_eqb (phase gameState) coin_flip) || isProcessing
     || negb (bool_decide (is_Some (difficulty gameState)))
  then Ok gameState
  else
    let result := if random_lt r (1 # 2) then Player else AI in
    let nextState := coinFlipped result gameState in
    if Actor_eqb result AI then executeAITurn o nextState
    else Ok nextState.

Definition resetGame (cardIdCounter : nat) (o : InitOracle) : GameState :=
  initializeGame cardIdCounter o.

(* ===================================================================== *)
(** ** Specification-side definitions                                    *)
(* ===================================================================== *)

(** The four win conditions in the words of the specification, with the
    phase each one resolves to, in the order in which they are checked. *)
Inductive WinCondition :=
  | PlayerAssetsDestroyed | AIAssetsDestroyed | PlayerDefenses | AIDefenses.

Definition satisfied (s : GameState) (c : WinCondition) : bool :=
  match c with
  | PlayerAssetsDestroyed => 2 <=? destroyedCount (assets (player s))
  | AIAssetsDestroyed => 2 <=? destroyedCount (assets (ai s))
  | PlayerDefenses => 6 <=? successfulDefenses (player s)
  | AIDefenses => 6 <=? successfulDefenses (ai s)
  end.

Definition verdict (c : WinCondition) : GamePhase :=
  match c with
  | PlayerAssetsDestroyed => ai_won
  | AIAssetsDestroyed => player_won
  | PlayerDefenses => player_won
  | AIDefenses => ai_won
  end.

Definition winOrder : list WinCondition :=
  [PlayerAssetsDestroyed; AIAssetsDestroyed; PlayerDefenses; AIDefenses].

(** The first satisfied condition decides; without one the phase stays. *)
Definition spec_winEvaluation (s : GameState) : GamePhase :=
  match List.find (satisfied s) winOrder with
  | Some c => verdict c
  | None => phase s
  end.

(** The conditions once more, stated without the code's count: a side has
    two or more destroyed assets when two different places of its board hold
    destroyed assets. *)
Definition twoDestroyed (l : list CyberAsset) : Prop :=
  exists i j a b, i < j /\ l !! i = Some a /\ l !! j = Some b /\
                  state a = destroyed /\ state b = destroyed.

Definition holds (s : GameState) (c : WinCondition) : Prop :=
  match c with
  | PlayerAssetsDestroyed => twoDestroyed (assets (player s))
  | AIAssetsDestroyed => twoDestroyed (assets (ai s))
  | PlayerDefenses => 6 <= successfulDefenses (player s)
  | AIDefenses => 6 <= successfulDefenses (ai s)
  end.

(** [c] is the first condition of the order that holds in [s]. *)
Definition firstHolding (s : GameState) (c : WinCondition) : Prop :=
  exists earlier later,
    winOrder = earlier ++ c :: later /\ holds s c /\
    Forall (fun c' => ~ holds s c') earlier.

(** The phase that the win evaluation is to give: the verdict of the first
    condition that holds, and without one the phase as it is. *)
Definition winEvaluation (s : GameState) (p : GamePhase) : Prop :=
  (exists c, firstHolding s c /\ p = verdict c) \/
  ((forall c, ~ holds s c) /\ p = phase s).

(** A request for an attack is illegal outside the attack phase, when the
    player is not the attacker, or without both selections; a request to end
    the turn is illegal outside the attack phase or when the player is not
    the attacker. *)
Definition illegalAttack (s : GameState) : Prop :=
  phase s <> attack_phase \/ currentAttacker s <> Player \/
  selectedCard s = None \/ selectedAsset s = None.

Definition illegalEndTurn (s : GameState) : Prop :=
  phase s <> attack_phase \/ currentAttacker s <> Player.

(** The index of a lifecycle state in the order facedown < revealed <
    rotated < destroyed. *)
Definition stateIndex (st : AssetState) : nat :=
  match st with
  | facedown => 0
  | revealed => 1
  | rotated => 2
  | destroyed => 3
  end.

(** An asset whose damage counter is the index of its state. *)
Definition counterMatchesState (a : CyberAsset) : Prop :=
  damageCount a = stateIndex (state a).

(** The cards of one side of the deck that a state holds: the draw pile,
    both hands and both discards. *)
Definition taTotal (s : GameState) : nat :=
  length (taDeck s) + length (taHand (player s)) + length (taHand (ai s))
  + length (taDiscard (player s)) + length (taDiscard (ai s)).

Definition dcTotal (s : GameState) : nat :=
  length (dcDeck s) + length (dcHand (player s)) + length (dcHand (ai s))
  + length (dcDiscard (player s)) + length (dcDiscard (ai s)).

(** No asset of [l] that is destroyed is anything else in [l']. *)
Definition destroyedStay (l l' : list CyberAsset) : Prop :=
  forall i a, l !! i = Some a -> state a = destroyed ->
    exists a', l' !! i = Some a' /\ state a' = destroyed /\
               ca_instanceId a' = ca_instanceId a.

(** The assets of the attacked side after an unblocked attack on [target],
    as both [playerAttack] and [executeAITurn] compute them. *)
Definition hitAssets (target : CyberAsset) (l : list CyberAsset) : list CyberAsset :=
  match findIndex (fun a => String.eqb (ca_instanceId a) (ca_instanceId target)) l with
  | Some i => damageAsset i (getNextAssetState (state target)) l
  | None => l
  end.

(* ===================================================================== *)
(** ** The requests of a game and its reachable states                   *)
(* ===================================================================== *)

Definition handIds (hand : list HandCard) : list string := map hc_instanceId hand.
Definition assetIds (l : list CyberAsset) : list string := map ca_instanceId l.

(** [generateInstanceId] is documented to generate a unique id. A draw takes
    at most two cards; [freshFor ids hand] says that the two ids it may use
    are new to the hand the cards go to. *)
Definition freshFor (ids : nat -> string) (hand : list HandCard) : Prop :=
  ids 0 <> ids 1 /\ ~ In (ids 0) (handIds hand) /\ ~ In (ids 1) (handIds hand).

(** The first [n] ids of a supply are pairwise distinct. *)
Definition distinctIds (n : nat) (ids : nat -> string) : Prop :=
  NoDup (map ids (seq 0 n)).

Definition freshInit (o : InitOracle) : Prop :=
  distinctIds HAND_SIZE (idsPlayerTA o) /\ distinctIds HAND_SIZE (idsPlayerDC o) /\
  distinctIds HAND_SIZE (idsAITA o) /\ distinctIds HAND_SIZE (idsAIDC o) /\
  distinctIds ASSETS_PER_PLAYER (idsPlayerAssets o) /\
  distinctIds ASSETS_PER_PLAYER (idsAIAssets o).

Definition freshTurn (o : AIOracle) (s : GameState) : Prop :=
  freshFor (idsDefense o) (dcHand (player s)) /\
  freshFor (idsEndOfTurn o) (taHand (ai s)).

(** The exposed operations of the hook, with what each one draws. *)
Inductive Request :=
  | SetDifficulty (d : Difficulty)
  | PerformCoinFlip (r : Q) (o : AIOracle)
  | SelectCard (c : option HandCard)
  | SelectAsset (a : option CyberAsset)
  | Attack (r : Q) (ids : nat -> string)
  | EndTurn (ids : nat -> string) (o : AIOracle).

(** A request served while no other operation is in progress. *)
Definition serve (q : Request) (s : GameState) : result GameState :=
  match q with
  | SetDifficulty d => Ok (setDifficulty d s)
  | PerformCoinFlip r o => performCoinFlip false r o s
  | SelectCard c => Ok (selectCard c s)
  | SelectAsset a => Ok (selectAsset a s)
  | Attack r ids => Ok (playerAttack false r ids s)
  | EndTurn ids o => endTurn false ids o s
  end.

(** What the engine is handed: a card to select is a card of the player's
    attack hand and an asset to select is one of the AI's assets, as the
    state shows them; the instance ids of drawn cards are new. The engine
    itself accepts a destroyed asset as the selection, and [admissible]
    does; the board does not send one, see [sent] below. *)
Definition admissible (q : Request) (s : GameState) : Prop :=
  match q with
  | SetDifficulty _ => True
  | PerformCoinFlip _ o => freshTurn o s
  | SelectCard c => forall x, c = Some x -> In x (taHand (player s))
  | SelectAsset a => forall x, a = Some x -> In x (assets (ai s))
  | Attack _ ids => freshFor ids (dcHand (ai s))
  | EndTurn ids o => freshFor ids (taHand (player s)) /\ freshTurn o s
  end.

(** The states of a game: a generated game, and every state an admissible
    request leads to. [resetGame] generates a new game. *)
Inductive reachable : GameState -> Prop :=
  | reachable_init cardIdCounter o :
      freshInit o -> reachable (initializeGame cardIdCounter o)
  | reachable_step s q s' :
      reachable s -> admissible q s -> serve q s = Ok s' -> reachable s'.

(** Well-formed states: instance ids are unique within each hand and within
    each side's assets, a selection is a card of the player's attack hand
    and an asset of the AI. *)
Definition uniqueIds (s : GameState) : Prop :=
  NoDup (handIds (taHand (player s))) /\ NoDup (handIds (dcHand (player s))) /\
  NoDup (handIds (taHand (ai s))) /\ NoDup (handIds (dcHand (ai s))) /\
  NoDup (assetIds (assets (player s))) /\ NoDup (assetIds (assets (ai s))).

Definition selectionsCurrent (s : GameState) : Prop :=
  (forall c, selectedCard s = Some c -> In c (taHand (player s))) /\
  (forall a, selectedAsset s = Some a -> In a (assets (ai s))).

Definition wellFormed (s : GameState) : Prop :=
  uniqueIds s /\ selectionsCurrent s /\ taTotal s = 21 /\ dcTotal s = 21.

(** The part of a state that well-formedness reads. *)
Definition sameBoard (s s' : GameState) : Prop :=
  player s' = player s /\ ai s' = ai s /\ taDeck s' = taDeck s /\
  dcDeck s' = dcDeck s /\ selectedCard s' = selectedCard s /\
  selectedAsset s' = selectedAsset s.

(** A card of the attack side of the deck: a threat agent or a joker. *)
Definition attackSide (hc : HandCard) : Prop :=
  category (hc_card hc) = threat_agent \/ category (hc_card hc) = joker.

(** A run of requests, each computed from the state it is served in. *)
Fixpoint serveAll (script : list (GameState -> Request)) (s : GameState)
  : result GameState :=
  match script with
  | [] => Ok s
  | q :: script' => s' ← serve (q s) s; serveAll script' s'
  end.

Fixpoint admissibleAll (script : list (GameState -> Request)) (s : GameState)
  : Prop :=
  match script with
  | [] => True
  | q :: script' =>
      admissible (q s) s /\
      match serve (q s) s with
      | Ok s' => admissibleAll script' s'
      | _ => True
      end
  end.

(** The state of a run, when the run returns one. *)
Definition stateOf (r : result GameState) (fallback : GameState) : GameState :=
  match r with
  | Ok s => s
  | _ => fallback
  end.

(* ===================================================================== *)
(** ** The board (App.tsx, components/Board.tsx, CyberAsset)             *)
(* ===================================================================== *)

(** [App]: [isPlayerTurn] and [isGameOver]. *)
Definition isPlayerTurn (gameState : GameState) : bool :=
  Actor_eqb (currentAttacker gameState) Player.

Definition isGameOver (gameState : GameState) : bool :=
  GamePhase_eqb (phase gameState) player_won || GamePhase_eqb (phase gameState) ai_won.

(** [Board]: the [onClick] that an asset of the AI is given,
    [isPlayerAttacking && asset.state !== 'destroyed'
       ? () => onSelectAsset(asset) : undefined].
    The asset is [target] here. A handler is written as the request it
    makes, [undefined] as [None];
    [onSelectAsset] is [selectAsset]. The player's own assets are given
    [undefined]. *)
Definition assetOnClick (isPlayerAttacking : bool) (target : CyberAsset)
  : option Request :=
  if isPlayerAttacking && negb (AssetState_eqb (state target) destroyed)
  then Some (SelectAsset (Some target))
  else None.

(** [CyberAsset.handleClick]: [if (isClickable && onClick) onClick()]. *)
Definition handleClick (target : CyberAsset) (onClick : option Request)
  : option Request :=
  let isDestroyed := AssetState_eqb (state target) destroyed in
  let isClickable := bool_decide (is_Some onClick) && negb isDestroyed in
  if isClickable then onClick else None.

(** What a click on the AI's asset at place [i] of the board requests;
    [App] gives the board [isPlayerAttacking = isPlayerTurn && !isGameOver]
    and the assets of the state. *)
Definition clickAsset (i : nat) (gameState : GameState) : option Request :=
  match assets (ai gameState) !! i with
  | Some target =>
      handleClick target
        (assetOnClick (isPlayerTurn gameState && negb (isGameOver gameState)) target)
  | None => None
  end.

(** What the interface sends to the engine: an admissible request, and an
    asset is selected by a click on the board, the only caller of
    [selectAsset]. *)
Definition sent (q : Request) (s : GameState) : Prop :=
  admissible q s /\
  match q with
  | SelectAsset _ => exists i, clickAsset i s = Some q
  | _ => True
  end.

(** The states that a game passes through from [s] on, and the states of a
    game played on the board of a generated game. Every one of them is
    reachable; a state in which a destroyed asset is selected is reachable
    but is not played. *)
Inductive playedOn (s : GameState) : GameState -> Prop :=
  | playedOn_here : playedOn s s
  | playedOn_step s1 q s2 :
      playedOn s s1 -> sent q s1 -> serve q s1 = Ok s2 -> playedOn s s2.

Definition played (s : GameState) : Prop :=
  exists cardIdCounter o,
    freshInit o /\ playedOn (initializeGame cardIdCounter o) s.

Fixpoint sentAll (script : list (GameState -> Request)) (s : GameState) : Prop :=
  match script with
  | [] => True
  | q :: script' =>
      sent (q s) s /\
      match serve (q s) s with
      | Ok s' => sentAll script' s'
      | _ => True
      end
  end.

(** The selected asset is not destroyed. *)
Definition selectionLive (s : GameState) : Prop :=
  forall a, selectedAsset s = Some a -> state a <> destroyed.

(** Place by place the assets of [l'] are those of [l], none at a lower
    state index. *)
Definition progress (l l' : list CyberAsset) : Prop :=
  length l' = length l /\
  forall i a, l !! i = Some a ->
    exists a', l' !! i = Some a' /\ ca_instanceId a' = ca_instanceId a /\
               stateIndex (state a) <= stateIndex (state a').

(** The destroyed assets of [l] are in [l'] as they are in [l]. *)
Definition destroyedKept (l l' : list CyberAsset) : Prop :=
  forall i a, l !! i = Some a -> state a = destroyed -> l' !! i = Some a.

(** The board of a played game: the selected asset is not destroyed and
    every damage counter is the index of its asset's state. *)
Definition boardSound (s : GameState) : Prop :=
  selectionLive s /\
  Forall counterMatchesState (assets (player s)) /\
  Forall counterMatchesState (assets (ai s)).

(** From [s] to [s'] no asset of either side has moved back, and the
    destroyed assets are as they were. *)
Definition boardKept (s s' : GameState) : Prop :=
  progress (assets (player s)) (assets (player s')) /\
  progress (assets (ai s)) (assets (ai s')) /\
  destroyedKept (assets (player s)) (assets (player s')) /\
  destroyedKept (assets (ai s)) (assets (ai s')).

(* ===================================================================== *)
(** ** Frames and invariants                                             *)
(* ===================================================================== *)

(** What a turn of the AI leaves alone: the AI's assets and defense side,
    the player's attack side, the selections and the settings of the game;
    the player's assets keep their instance ids. *)
Definition aiTurnFrame (s s' : GameState) : Prop :=
  assets (ai s') = assets (ai s) /\ dcHand (ai s') = dcHand (ai s) /\
  dcDiscard (ai s') = dcDiscard (ai s) /\
  successfulDefenses (ai s') = successfulDefenses (ai s) /\
  taHand (player s') = taHand (player s) /\
  taDiscard (player s') = taDiscard (player s) /\
  selectedCard s' = selectedCard s /\ selectedAsset s' = selectedAsset s /\
  difficulty s' = difficulty s /\ coinFlipResult s' = coinFlipResult s /\
  cardsDrawnThisGame s' = cardsDrawnThisGame s /\
  assetIds (assets (player s')) = assetIds (assets (player s)).

(** The phase of a state is [attack_phase], or the game is over and the
    phase is the verdict of the win check. *)
Definition phaseSettled (s : GameState) : Prop :=
  phase s = attack_phase \/
  ((phase s = player_won \/ phase s = ai_won) /\ checkWinCondition s = phase s).

(** A game that has been decided. *)
Definition gameOver (s : GameState) : Prop := phase s = player_won \/ phase s = ai_won.

(** The phases that a request leaves a game in, with what they say about
    the rest of the state. *)
Definition phaseDiscipline (s : GameState) : Prop :=
  (phase s = difficulty_select \/ phase s = coin_flip \/ phase s = attack_phase \/
   phase s = player_won \/ phase s = ai_won) /\
  (phase s = difficulty_select <-> difficulty s = None) /\
  (phase s = player_won \/ phase s = ai_won -> checkWinCondition s = phase s) /\
  (coinFlipResult s = None -> phase s = difficulty_select \/ phase s = coin_flip) /\
  cardsDrawnThisGame s = 20 /\ 1 <= turnNumber s.

(** What no request takes back: the discards only grow, at their ends; the
    counters of defenses and the turn counter never decrease; the draw piles
    only lose cards, from their fronts; the assets keep their places and
    their instance ids. *)
Definition extends (s s' : GameState) : Prop :=
  prefix (taDiscard (player s)) (taDiscard (player s')) /\
  prefix (dcDiscard (player s)) (dcDiscard (player s')) /\
  prefix (taDiscard (ai s)) (taDiscard (ai s')) /\
  prefix (dcDiscard (ai s)) (dcDiscard (ai s')) /\
  successfulDefenses (player s) <= successfulDefenses (player s') /\
  successfulDefenses (ai s) <= successfulDefenses (ai s') /\
  turnNumber s <= turnNumber s' /\
  suffix (taDeck s') (taDeck s) /\ suffix (dcDeck s') (dcDeck s) /\
  assetIds (assets (player s')) = assetIds (assets (player s)) /\
  assetIds (assets (ai s')) = assetIds (assets (ai s)).

(** The log holds at most 200 entries and the last action is its last
    entry. *)
Definition logConsistent (s : GameState) : Prop :=
  length (actionLog s) <= 200 /\ lastAction s = last (actionLog s).

(** The cards of the attack side that a state holds, and those of the
    defense side: the draw pile, the two hands and the two discards. *)
Definition taCardsOf (s : GameState) : list PlayableCard :=
  taDeck s ++ map hc_card (taHand (player s)) ++ map hc_card (taHand (ai s))
  ++ taDiscard (player s) ++ taDiscard (ai s).

Definition dcCardsOf (s : GameState) : list PlayableCard :=
  dcDeck s ++ map hc_card (dcHand (player s)) ++ map hc_card (dcHand (ai s))
  ++ dcDiscard (player s) ++ dcDiscard (ai s).

(** [s'] holds the cards that [s] holds, each as often, on either side. *)
Definition sameCards (s s' : GameState) : Prop :=
  Permutation (taCardsOf s') (taCardsOf s) /\ Permutation (dcCardsOf s') (dcCardsOf s).

(** The damage counter of an asset is the index of its state; on a
    destroyed asset, which can be hit again, it is 3 or more. *)
Definition counterTracksState (a : CyberAsset) : Prop :=
  (state a <> destroyed -> damageCount a = stateIndex (state a)) /\
  (state a = destroyed -> 3 <= damageCount a).

(** The damage counters of a state: those of the player's assets are the
    indices of their states, those of the AI's assets track their states. *)
Definition assetsCounted (s : GameState) : Prop :=
  Forall counterMatchesState (assets (player s)) /\
  Forall counterTracksState (assets (ai s)).

(** Each side's counter of successful defenses is the size of its defense
    discard. *)
Definition defensesCounted (s : GameState) : Prop :=
  length (dcDiscard (player s)) = successfulDefenses (player s) /\
  length (dcDiscard (ai s)) = successfulDefenses (ai s).

(* ===================================================================== *)
(** ** A concrete game                                                   *)
(* ===================================================================== *)

(** A concrete game: every random draw of the attack-side shuffle is 0, the
    defense-side shuffle leaves every card in place, instance ids are
    numbered per hand. *)
Definition numbered (prefix : string) : nat -> string :=
  fun k => prefix +:+ natToString k.

Definition demoInit : InitOracle :=
  mkInitOracle (fun _ => 0%Q) (fun _ => (99 # 100)%Q) (fun _ => 0%Q) (fun _ => 0%Q)
    (numbered "player-ta-") (numbered "player-dc-") (numbered "player-asset-")
    (numbered "ai-ta-") (numbered "ai-dc-") (numbered "ai-asset-").

Definition demoGame : GameState := initializeGame 0 demoInit.

(** An AI turn in which the easy AI would pick the last card of a hand of
    five and never continues by chance. *)
Definition demoTurn (n : nat) : AIOracle :=
  mkAIOracle (fun _ => (9 # 10)%Q) (fun _ => (99 # 100)%Q)
    (numbered ("defense-" +:+ natToString n +:+ "-"))
    (numbered ("turn-" +:+ natToString n +:+ "-")).

(** Select the card at index [k] of the hand and the first asset of the AI,
    then attack; [r] is the AI's random draw ([99/100] is above every defend
    chance). *)
Definition demoAttack (n k : nat) (r : Q) : list (GameState -> Request) :=
  [ (fun s => SelectCard (taHand (player s) !! k));
    (fun s => SelectAsset (assets (ai s) !! 0));
    (fun _ => Attack r (numbered ("redraw-" +:+ natToString n +:+ "-"))) ].

(** The difficulty is picked and the player wins the coin flip. *)
Definition demoOpening (d : Difficulty) : list (GameState -> Request) :=
  [ (fun _ => SetDifficulty d); (fun _ => PerformCoinFlip 0%Q (demoTurn 0)) ].

(** Three unblocked attacks on the AI's first asset, which destroy it; then
    the destroyed asset is selected again, with a card: a selection that
    [selectAsset] accepts and that the board does not make. *)
Definition demoBreach : list (GameState -> Request) :=
  demoOpening hard
  ++ demoAttack 1 0 (99 # 100)%Q ++ demoAttack 2 0 (99 # 100)%Q
  ++ demoAttack 3 0 (99 # 100)%Q
  ++ [ (fun s => SelectCard (taHand (player s) !! 0));
       (fun s => SelectAsset (assets (ai s) !! 0)) ].

Definition demoBreached : GameState := stateOf (serveAll demoBreach demoGame) demoGame.


(** The selections for a blocked attack of the player: the six of hearts
    against the AI's first asset; the AI holds the six of spades. *)
Definition demoSelection : list (GameState -> Request) :=
  demoOpening hard
  ++ [ (fun s => SelectCard (taHand (player s) !! 4));
       (fun s => SelectAsset (assets (ai s) !! 0)) ].

Definition demoSelected : GameState :=
  stateOf (serveAll demoSelection demoGame) demoGame.

(** One round of an easy game: the player hits the AI's first asset and
    ends the turn; the AI attacks and the player blocks. *)
Definition demoRound : list (GameState -> Request) :=
  demoOpening easy ++ demoAttack 1 0 (99 # 100)%Q
  ++ [ (fun _ => EndTurn (numbered "draw-1-") (demoTurn 1)) ].

Definition demoRoundOver : GameState := stateOf (serveAll demoRound demoGame) demoGame.

(** A hard game in which the player ends the first turn without an attack:
    the AI is to move. *)
Definition demoHard : GameState := stateOf (serveAll (demoOpening hard) demoGame) demoGame.

Definition demoHanded : GameState := turnHandedOver (numbered "draw-1-") demoHard.

(** The game after a fourth attack on the asset that three attacks have
    destroyed. *)
Definition demoOverkill : GameState :=
  stateOf (serveAll (demoBreach ++ [fun _ => Attack (99 # 100)%Q (numbered "redraw-4-")])
             demoGame) demoGame.

(** As [demoAttack], against the AI's asset at index [i]. *)
Definition demoAttackOn (n k i : nat) (r : Q) : list (GameState -> Request) :=
  [ (fun s => SelectCard (taHand (player s) !! k));
    (fun s => SelectAsset (assets (ai s) !! i));
    (fun _ => Attack r (numbered ("redraw-" +:+ natToString n +:+ "-"))) ].

(** A game that the player wins: three unblocked attacks destroy the AI's
    first asset, the player ends the turn, and three more destroy the
    second. *)
Definition demoVictory : list (GameState -> Request) :=
  demoOpening hard
  ++ demoAttackOn 1 0 0 (99 # 100)%Q ++ demoAttackOn 2 0 0 (99 # 100)%Q
  ++ demoAttackOn 3 0 0 (99 # 100)%Q
  ++ [ (fun _ => EndTurn (numbered "draw-1-") (demoTurn 1)) ]
  ++ demoAttackOn 4 0 1 (99 # 100)%Q ++ demoAttackOn 5 0 1 (99 # 100)%Q
  ++ demoAttackOn 6 0 1 (99 # 100)%Q.

Definition demoWon : GameState := stateOf (serveAll demoVictory demoGame) demoGame.

(** The game of [demoVictory] before its last attack. *)
Definition demoMatchPoint : GameState :=
  stateOf (serveAll (removelast demoVictory) demoGame) demoGame.



(** The game after three unblocked attacks on the AI's first asset, which
    is destroyed; nothing is selected. *)
Definition demoThreeHits : list (GameState -> Request) :=
  demoOpening hard
  ++ demoAttack 1 0 (99 # 100)%Q ++ demoAttack 2 0 (99 # 100)%Q
  ++ demoAttack 3 0 (99 # 100)%Q.

Definition demoPwned : GameState := stateOf (serveAll demoThreeHits demoGame) demoGame.

(* ===================================================================== *)
(** ** Theorems                                                           *)
(* ===================================================================== *)

Lemma CardCategory_eqb_eq a b : CardCategory_eqb a b = true <-> a = b.
Proof. destruct a, b; simpl; split; congruence. Qed.

Lemma CardValue_eqb_eq a b : CardValue_eqb a b = true <-> a = b.
Proof. destruct a, b; cbn; split; congruence. Qed.

(** C1. For every pair of playable cards, [canDefend attack defense] is true
    exactly when one of the two cards is a joker, or the defense card is a
    defense control, the attack card a threat agent and their values are
    equal; it is false for every other combination of categories. The
    function is total: it yields a boolean on every pair. *)
Theorem canDefend_spec (attack defense : PlayableCard) :
  (canDefend attack defense = true <->
     category attack = joker \/ category defense = joker \/
     (category defense = defense_control /\ category attack = threat_agent /\
      value defense = value attack)) /\
  (canDefend attack defense = false <->
     ~ (category attack = joker \/ category defense = joker \/
        (category defense = defense_control /\ category attack = threat_agent /\
         value defense = value attack))).
Proof.
  assert (H : canDefend attack defense = true <->
     category attack = joker \/ category defense = joker \/
     (category defense = defense_control /\ category attack = threat_agent /\
      value defense = value attack)).
  { destruct attack as [i s v|i s v|i j], defense as [i' s' v'|i' s' v'|i' j'];
      cbn; try (split; [discriminate | intros [?|[?|(?&?&?)]]; congruence]);
      try (split; [auto | reflexivity]).
    rewrite CardValue_eqb_eq. split.
    - intros ->. right; right; auto.
    - intros [?|[?|(_&_&E)]]; congruence. }
  split; [exact H|].
  rewrite <- H. destruct (canDefend attack defense); split; congruence.
Qed.

(* --------------------------------------------------------------------- *)
(** *** Win evaluation                                                    *)
(* --------------------------------------------------------------------- *)

Ltac case_guards :=
  repeat match goal with
         | |- context [if ?b then _ else _] => destruct b eqn:?
         end.

(** The win check in terms of the first satisfied test of the code. *)
Lemma winCheck_find s :
  checkWinCondition s = spec_winEvaluation s /\
  fst <$> getWinReason s = verdict <$> List.find (satisfied s) winOrder /\
  phase (applyWin s) = spec_winEvaluation s /\
  (forall c, phase (aiWinCheck c s).1 = spec_winEvaluation s) /\
  (List.find (satisfied s) winOrder = None ->
     checkWinCondition s = phase s /\ getWinReason s = None /\
     applyWin s = s /\ (phase s = attack_phase -> forall c, aiWinCheck c s = (s, c))).
Proof.
  unfold spec_winEvaluation, checkWinCondition, getWinReason, applyWin,
    aiWinCheck, checkWinCondition, getWinReason, winOrder, List.find, satisfied,
    ASSETS_TO_WIN, DEFENSES_TO_WIN.
  destruct (2 <=? destroyedCount (assets (player s))); [cbn; repeat split; congruence|].
  destruct (2 <=? destroyedCount (assets (ai s))); [cbn; repeat split; congruence|].
  destruct (6 <=? successfulDefenses (player s)); [cbn; repeat split; congruence|].
  destruct (6 <=? successfulDefenses (ai s)); [cbn; repeat split; congruence|].
  cbn. repeat split; try reflexivity.
  - intros c. destruct (phase s) eqn:E; cbn; rewrite ?E; reflexivity.
  - intros -> c. reflexivity.
Qed.

(* --------------------------------------------------------------------- *)
(** *** Illegal requests                                                  *)
(* --------------------------------------------------------------------- *)

Lemma GamePhase_eqb_eq a b : GamePhase_eqb a b = true <-> a = b.
Proof. destruct a, b; cbn; split; congruence. Qed.

Lemma Actor_eqb_eq a b : Actor_eqb a b = true <-> a = b.
Proof. destruct a, b; cbn; split; congruence. Qed.

Lemma AssetState_eqb_eq a b : AssetState_eqb a b = true <-> a = b.
Proof. destruct a, b; cbn; split; congruence. Qed.

(** C8. [playerAttack] invoked outside the attack phase, when the player is
    not the attacker, or without a selected card and a selected asset, and
    [endTurn] invoked outside the attack phase or when the player is not the
    attacker, return normally and leave the whole game state as it was. *)
Theorem illegal_request_is_noop (isProcessing : bool) (r : Q) (ids : nat -> string)
    (o : AIOracle) (s : GameState) :
  (illegalAttack s -> playerAttack isProcessing r ids s = s) /\
  (illegalEndTurn s -> endTurn isProcessing ids o s = Ok s).
Proof.
  split.
  - intros H. unfold playerAttack. destruct isProcessing; [reflexivity|].
    destruct (selectedCard s) as [c|] eqn:Ec; [|reflexivity].
    destruct (selectedAsset s) as [a|] eqn:Ea; [|reflexivity].
    destruct (GamePhase_eqb (phase s) attack_phase) eqn:Ep; [|reflexivity].
    destruct (Actor_eqb (currentAttacker s) Player) eqn:Et; [|reflexivity].
    apply GamePhase_eqb_eq in Ep. apply Actor_eqb_eq in Et.
    destruct H as [H|[H|[H|H]]]; congruence.
  - intros H. unfold endTurn. destruct isProcessing; [reflexivity|].
    destruct (GamePhase_eqb (phase s) attack_phase) eqn:Ep; [|reflexivity].
    destruct (Actor_eqb (currentAttacker s) Player) eqn:Et; [|reflexivity].
    apply GamePhase_eqb_eq in Ep. apply Actor_eqb_eq in Et.
    destruct H as [H|H]; congruence.
Qed.

(* --------------------------------------------------------------------- *)
(** *** Sorting and the AI's target choice                                *)
(* --------------------------------------------------------------------- *)

Section Sorting.
Context {A : Type} (cmp : A -> A -> Z).

Lemma insertBy_In x y l : In y (insertBy cmp x l) <-> y = x \/ In y l.
Proof.
  induction l as [|z l IH]; cbn.
  - intuition (subst; auto).
  - destruct (cmp x z <=? 0)%Z; cbn; [intuition (subst; auto)|].
    rewrite IH. intuition (subst; auto).
Qed.

Lemma sortBy_In y l : In y (sortBy cmp l) <-> In y l.
Proof.
  induction l as [|z l IH]; cbn; [tauto|].
  rewrite insertBy_In, IH. intuition (subst; auto).
Qed.

Lemma insertBy_length x l : length (insertBy cmp x l) = S (length l).
Proof.
  induction l as [|z l IH]; cbn; [reflexivity|].
  destruct (cmp x z <=? 0)%Z; cbn; congruence.
Qed.

Lemma sortBy_length l : length (sortBy cmp l) = length l.
Proof.
  induction l as [|z l IH]; cbn; [reflexivity|].
  rewrite insertBy_length. f_equal. exact IH.
Qed.

Lemma head_insertBy x l :
  head (insertBy cmp x l) =
    match head l with
    | Some y => if (cmp x y <=? 0)%Z then Some x else Some y
    | None => Some x
    end.
Proof. destruct l as [|y l]; cbn; [reflexivity|]. destruct (cmp x y <=? 0)%Z; reflexivity. Qed.

(** For a comparator that is total and transitive, the first element of the
    sorted array comes before every element. *)
Hypothesis cmp_total : forall a b, (cmp a b <= 0)%Z \/ (cmp b a <= 0)%Z.
Hypothesis cmp_trans :
  forall a b c, (cmp a b <= 0)%Z -> (cmp b c <= 0)%Z -> (cmp a c <= 0)%Z.

Lemma head_sortBy_first l t :
  head (sortBy cmp l) = Some t -> forall a, In a l -> (cmp t a <= 0)%Z.
Proof.
  revert t. induction l as [|x l IH]; intros t Ht a Ha; [destruct Ha|].
  change (sortBy cmp (x :: l)) with (insertBy cmp x (sortBy cmp l)) in Ht.
  rewrite head_insertBy in Ht.
  destruct (head (sortBy cmp l)) as [h|] eqn:Eh.
  - destruct (cmp x h <=? 0)%Z eqn:E; injection Ht as <-.
    + apply Z.leb_le in E. destruct Ha as [->|Ha].
      * destruct (cmp_total a a); assumption.
      * eapply cmp_trans; [exact E|]. eapply IH; eauto.
    + apply Z.leb_gt in E. destruct Ha as [->|Ha].
      * destruct (cmp_total h a); [assumption|lia].
      * eapply IH; eauto.
  - injection Ht as <-. destruct Ha as [->|Ha].
    + destruct (cmp_total a a); assumption.
    + destruct (sortBy cmp l) as [|z l'] eqn:El; [|discriminate].
      apply sortBy_In in Ha. rewrite El in Ha. destruct Ha.
Qed.
End Sorting.

Lemma byProgress_le a b :
  (byProgress a b <= 0)%Z <->
  (stateRank (state b) < stateRank (state a))%Z \/
  (stateRank (state b) = stateRank (state a) /\ damageCount b <= damageCount a).
Proof.
  unfold byProgress.
  destruct (stateRank (state b) - stateRank (state a) =? 0)%Z eqn:E; cbn.
  - apply Z.eqb_eq in E. lia.
  - apply Z.eqb_neq in E. lia.
Qed.

Lemma byProgress_total a b : (byProgress a b <= 0)%Z \/ (byProgress b a <= 0)%Z.
Proof. rewrite !byProgress_le. lia. Qed.

Lemma byProgress_trans a b c :
  (byProgress a b <= 0)%Z -> (byProgress b c <= 0)%Z -> (byProgress a c <= 0)%Z.
Proof. rewrite !byProgress_le. lia. Qed.

Lemma notDestroyed_true a : notDestroyed a = true <-> state a <> destroyed.
Proof. unfold notDestroyed. destruct (state a); cbn; split; congruence. Qed.

Lemma stateRank_inj a b : stateRank a = stateRank b -> a = b.
Proof. destruct a, b; cbn; congruence. Qed.

Lemma aiChooseTarget_Some l t :
  aiChooseTarget l = Some t ->
  In t l /\ state t <> destroyed /\
  forall a, In a l -> state a <> destroyed -> (byProgress t a <= 0)%Z.
Proof.
  unfold aiChooseTarget.
  destruct (length (List.filter notDestroyed l) =? 0); [discriminate|].
  intros H.
  assert (Ht : In t (List.filter notDestroyed l)).
  { apply (sortBy_In byProgress). destruct (sortBy byProgress _); inversion H. now left. }
  apply filter_In in Ht as [Hin Hnd]. apply notDestroyed_true in Hnd.
  repeat split; try assumption.
  intros a Ha Hs.
  eapply (head_sortBy_first byProgress byProgress_total byProgress_trans); [exact H|].
  apply filter_In. split; [assumption|]. now apply notDestroyed_true.
Qed.

Lemma filter_notDestroyed_nil l :
  List.filter notDestroyed l = [] <-> forall a, In a l -> state a = destroyed.
Proof.
  induction l as [|x l IH]; cbn.
  - split; [intros _ a []|reflexivity].
  - destruct (notDestroyed x) eqn:E.
    + split; [discriminate|]. intros H. apply notDestroyed_true in E.
      exfalso. apply E, H. now left.
    + rewrite IH. unfold notDestroyed in E.
      apply negb_false_iff, AssetState_eqb_eq in E.
      split; [intros H a [<-|Ha]; auto|intros H a Ha; apply H; now right].
Qed.

Lemma aiChooseTarget_None l :
  aiChooseTarget l = None <-> forall a, In a l -> state a = destroyed.
Proof.
  rewrite <- filter_notDestroyed_nil. unfold aiChooseTarget.
  pose proof (sortBy_length byProgress (List.filter notDestroyed l)) as L.
  destruct (List.filter notDestroyed l) as [|x v]; [cbn; tauto|].
  destruct (sortBy byProgress (x :: v)); [discriminate L|].
  cbn. split; discriminate.
Qed.

(** C9. On every list of assets [aiChooseTarget] returns [null] exactly when
    every asset of the list is destroyed; otherwise it returns an asset of
    the list that is not destroyed and that is maximal among the
    non-destroyed assets under the rank rotated(3) > revealed(2) >
    facedown(1), an asset of the same rank never having a higher damage
    count than the chosen one. *)
Theorem aiChooseTarget_spec (l : list CyberAsset) :
  (aiChooseTarget l = None <-> forall a, In a l -> state a = destroyed) /\
  match aiChooseTarget l with
  | None => forall a, In a l -> state a = destroyed
  | Some t =>
      In t l /\ state t <> destroyed /\
      forall a, In a l -> state a <> destroyed ->
        (stateRank (state a) < stateRank (state t))%Z \/
        (state a = state t /\ damageCount a <= damageCount t)
  end.
Proof.
  split; [apply aiChooseTarget_None|].
  destruct (aiChooseTarget l) as [t|] eqn:E.
  - apply aiChooseTarget_Some in E as (Hin & Hs & Hmax).
    repeat split; try assumption.
    intros a Ha Hna. specialize (Hmax a Ha Hna).
    apply byProgress_le in Hmax as [H|[H1 H2]]; [now left|right].
    split; [now apply stateRank_inj|assumption].
  - now apply aiChooseTarget_None.
Qed.

Example aiChooseTarget_example :
  let card := mkAssetCard "card-11" (suitDC spades) jack "Web Server" in
  let a1 := mkCyberAsset "a1" card destroyed 3 in
  let a2 := mkCyberAsset "a2" card revealed 1 in
  let a3 := mkCyberAsset "a3" card rotated 2 in
  aiChooseTarget [a1; a2; a3] = Some a3 /\ aiChooseTarget [a1; a1] = None.
Proof. split; reflexivity. Qed.

(* --------------------------------------------------------------------- *)
(** *** Reading fields of updated states                                  *)
(* --------------------------------------------------------------------- *)

(** Unfolds field reads of field updates, and nothing else. *)
Ltac fields :=
  cbn [phase currentAttacker difficulty player ai taDeck dcDeck attackState
       turnNumber cardsDrawnThisGame lastAction actionLog selectedCard
       selectedAsset message animation coinFlipResult
       assets taHand dcHand taDiscard dcDiscard successfulDefenses
       set_phase set_currentAttacker set_difficulty set_player set_ai
       set_taDeck set_dcDeck set_attackState set_turnNumber set_lastAction
       set_actionLog set_selectedCard set_selectedAsset set_message
       set_animation set_coinFlipResult
       set_assets set_taHand set_dcHand set_taDiscard set_dcDiscard
       set_successfulDefenses addLogToState fst snd] in *.

Lemma applyWin_fields s :
  player (applyWin s) = player s /\ ai (applyWin s) = ai s /\
  taDeck (applyWin s) = taDeck s /\ dcDeck (applyWin s) = dcDeck s /\
  selectedCard (applyWin s) = selectedCard s /\
  selectedAsset (applyWin s) = selectedAsset s /\
  currentAttacker (applyWin s) = currentAttacker s /\
  turnNumber (applyWin s) = turnNumber s.
Proof. unfold applyWin. destruct (getWinReason s) as [[p r]|]; repeat split. Qed.

Lemma aiWinCheck_fields c s :
  player (aiWinCheck c s).1 = player s /\ ai (aiWinCheck c s).1 = ai s /\
  taDeck (aiWinCheck c s).1 = taDeck s /\ dcDeck (aiWinCheck c s).1 = dcDeck s /\
  selectedCard (aiWinCheck c s).1 = selectedCard s /\
  selectedAsset (aiWinCheck c s).1 = selectedAsset s /\
  currentAttacker (aiWinCheck c s).1 = currentAttacker s /\
  turnNumber (aiWinCheck c s).1 = turnNumber s.
Proof. unfold aiWinCheck. case_guards; repeat split. Qed.

Lemma attackIntent_fields c t s :
  player (attackIntent c t s) = player s /\ ai (attackIntent c t s) = ai s /\
  taDeck (attackIntent c t s) = taDeck s /\ dcDeck (attackIntent c t s) = dcDeck s /\
  currentAttacker (attackIntent c t s) = currentAttacker s /\
  turnNumber (attackIntent c t s) = turnNumber s /\
  selectedCard (attackIntent c t s) = None /\
  selectedAsset (attackIntent c t s) = None.
Proof. repeat split. Qed.

(** A legal request for an attack passes the guards of [playerAttack]. *)
Lemma playerAttack_legal r ids s attackCard targetAsset :
  phase s = attack_phase -> currentAttacker s = Player ->
  selectedCard s = Some attackCard -> selectedAsset s = Some targetAsset ->
  playerAttack false r ids s =
    set_animation anim_none
      (applyWin
         match ai_card (aiChooseDefense (dcHand (ai s)) (hc_card attackCard)
                          (difficultyOr s) r) with
         | Some defenseCard =>
             attackBlocked ids attackCard defenseCard (attackIntent attackCard targetAsset s)
         | None => attackHit attackCard targetAsset (attackIntent attackCard targetAsset s)
         end).
Proof.
  intros Hp Ha Hc Ht. unfold playerAttack. rewrite Hc, Ht, Hp, Ha. reflexivity.
Qed.

(* --------------------------------------------------------------------- *)
(** *** Drawing and removing cards                                        *)
(* --------------------------------------------------------------------- *)

Lemma drawToHandSize_plus ids hand deck n :
  drawToHandSize ids hand deck (length hand + n) =
    (hand ++ mapWithIds createHandCard ids (take n deck), drop n deck).
Proof.
  revert ids hand n. induction deck as [|card deck IH]; intros ids hand n.
  - cbn. rewrite take_nil, drop_nil. unfold mapWithIds. cbn. now rewrite app_nil_r.
  - cbn [drawToHandSize]. destruct n as [|n].
    + replace (length hand <? length hand + 0) with false
        by (symmetry; apply Nat.ltb_ge; lia).
      cbn. now rewrite app_nil_r.
    + replace (length hand <? length hand + S n) with true
        by (symmetry; apply Nat.ltb_lt; lia).
      replace (length hand + S n)
        with (length (hand ++ [createHandCard (ids 0) card]) + n)
        by (rewrite length_app; cbn; lia).
      rewrite IH. unfold mapWithIds. cbn. now rewrite <- app_assoc.
Qed.

Lemma removeCard_In id hand c :
  In c (removeCard id hand) <-> In c hand /\ hc_instanceId c <> id.
Proof.
  unfold removeCard. rewrite filter_In, negb_true_iff.
  destruct (String.eqb_spec (hc_instanceId c) id); intuition congruence.
Qed.

Lemma aiChooseDefense_card dcHand attack d r c :
  ai_card (aiChooseDefense dcHand attack d r) = Some c ->
  In c dcHand /\ canDefend attack (hc_card c) = true.
Proof.
  unfold aiChooseDefense.
  destruct (length dcHand =? 0); [discriminate|].
  destruct (length (List.filter _ dcHand) =? 0); [discriminate|].
  destruct (negb (random_lt r (defendChance d))); [discriminate|].
  destruct (List.filter (fun hc => negb (hasCategory joker hc)) _) as [|x v] eqn:E.
  - destruct (List.find _ _) as [j|] eqn:F; [|discriminate].
    cbn. intros [= <-]. apply find_some in F as [F _].
    now apply filter_In in F.
  - cbn. intros [= <-].
    assert (H : In x (x :: v)) by now left.
    rewrite <- E in H. apply filter_In in H as [H _]. now apply filter_In in H.
Qed.

(** C5. When a legal player attack is resolved and the AI produces the
    defense card [defenseCard], a card of the AI's defense hand that defends
    against the attack card, then in the resulting state: the attack card
    has left the player's attack hand (which keeps its other cards) and
    closes the player's attack discard; the defense card has left the AI's
    defense hand and closes the AI's defense discard; the AI's counter of
    successful defenses is one higher; the AI's defense hand is the rest of
    the hand followed by the first two cards of the defense draw pile, or by
    the fewer the pile holds, which leave the pile; and the assets of both
    sides, the targeted one among them, are unchanged. *)
Theorem blocked_player_attack (r : Q) (ids : nat -> string) (s : GameState)
    (attackCard defenseCard : HandCard) (targetAsset : CyberAsset) :
  phase s = attack_phase -> currentAttacker s = Player ->
  selectedCard s = Some attackCard -> selectedAsset s = Some targetAsset ->
  ai_card (aiChooseDefense (dcHand (ai s)) (hc_card attackCard) (difficultyOr s) r)
    = Some defenseCard ->
  let s' := playerAttack false r ids s in
  let rest := removeCard (hc_instanceId defenseCard) (dcHand (ai s)) in
  (In defenseCard (dcHand (ai s)) /\
   canDefend (hc_card attackCard) (hc_card defenseCard) = true) /\
  (taHand (player s') = removeCard (hc_instanceId attackCard) (taHand (player s)) /\
   ~ In attackCard (taHand (player s')) /\
   taDiscard (player s') = taDiscard (player s) ++ [hc_card attackCard]) /\
  (~ In defenseCard rest /\
   dcDiscard (ai s') = dcDiscard (ai s) ++ [hc_card defenseCard]) /\
  successfulDefenses (ai s') = successfulDefenses (ai s) + 1 /\
  (dcHand (ai s') = rest ++ mapWithIds createHandCard ids (take 2 (dcDeck s)) /\
   length (dcHand (ai s')) = length rest + Nat.min 2 (length (dcDeck s)) /\
   dcDeck s' = drop 2 (dcDeck s)) /\
  (assets (ai s') = assets (ai s) /\ assets (player s') = assets (player s)).
Proof.
  intros Hp Ha Hc Ht Hd s' rest.
  pose proof (playerAttack_legal r ids s attackCard targetAsset Hp Ha Hc Ht) as E.
  rewrite Hd in E. subst s'. rewrite E. clear E.
  set (n := attackIntent attackCard targetAsset s).
  destruct (attackIntent_fields attackCard targetAsset s) as (Epl & Eai & _ & Edc & _).
  fold n in Epl, Eai, Edc.
  destruct (applyWin_fields (attackBlocked ids attackCard defenseCard n))
    as (Wp & Wa & _ & Wd & _).
  fields. rewrite Wp, Wa, Wd. clear Wp Wa Wd.
  unfold attackBlocked. fields. rewrite Epl, Eai, Edc. fold rest.
  rewrite drawToHandSize_plus. fields.
  split; [now apply aiChooseDefense_card in Hd|].
  repeat split.
  - rewrite removeCard_In. tauto.
  - subst rest. rewrite removeCard_In. tauto.
  - rewrite length_app. unfold mapWithIds. rewrite length_imap, length_take. reflexivity.
Qed.

(* --------------------------------------------------------------------- *)
(** *** The effect of the two outcomes of an attack                       *)
(* --------------------------------------------------------------------- *)

Lemma attackBlocked_effect ids a d n :
  let s' := attackBlocked ids a d n in
  player s' =
    mkPlayerState (assets (player n))
      (removeCard (hc_instanceId a) (taHand (player n))) (dcHand (player n))
      (taDiscard (player n) ++ [hc_card a]) (dcDiscard (player n))
      (successfulDefenses (player n)) /\
  ai s' =
    mkPlayerState (assets (ai n)) (taHand (ai n))
      (removeCard (hc_instanceId d) (dcHand (ai n))
       ++ mapWithIds createHandCard ids (take 2 (dcDeck n)))
      (taDiscard (ai n)) (dcDiscard (ai n) ++ [hc_card d])
      (successfulDefenses (ai n) + 1) /\
  taDeck s' = taDeck n /\ dcDeck s' = drop 2 (dcDeck n) /\
  selectedCard s' = selectedCard n /\ selectedAsset s' = selectedAsset n /\
  phase s' = attack_phase /\ currentAttacker s' = currentAttacker n /\
  turnNumber s' = turnNumber n.
Proof.
  unfold attackBlocked. fields. rewrite drawToHandSize_plus. repeat split.
Qed.

Lemma attackHit_effect a t n :
  let s' := attackHit a t n in
  player s' =
    mkPlayerState (assets (player n))
      (removeCard (hc_instanceId a) (taHand (player n))) (dcHand (player n))
      (taDiscard (player n) ++ [hc_card a]) (dcDiscard (player n))
      (successfulDefenses (player n)) /\
  ai s' =
    mkPlayerState (hitAssets t (assets (ai n))) (taHand (ai n)) (dcHand (ai n))
      (taDiscard (ai n)) (dcDiscard (ai n)) (successfulDefenses (ai n)) /\
  taDeck s' = taDeck n /\ dcDeck s' = dcDeck n /\
  selectedCard s' = selectedCard n /\ selectedAsset s' = selectedAsset n /\
  phase s' = attack_phase /\ currentAttacker s' = currentAttacker n /\
  turnNumber s' = turnNumber n.
Proof.
  unfold attackHit, hitAssets.
  destruct (findIndex _ (assets (ai n))); fields; repeat split.
Qed.

Lemma aiBlocked_effect ids a d n :
  let s' := aiBlocked ids a d n in
  ai s' =
    mkPlayerState (assets (ai n))
      (removeCard (hc_instanceId a) (taHand (ai n))) (dcHand (ai n))
      (taDiscard (ai n) ++ [hc_card a]) (dcDiscard (ai n))
      (successfulDefenses (ai n)) /\
  player s' =
    mkPlayerState (assets (player n)) (taHand (player n))
      (removeCard (hc_instanceId d) (dcHand (player n))
       ++ mapWithIds createHandCard ids (take 2 (dcDeck n)))
      (taDiscard (player n)) (dcDiscard (player n) ++ [hc_card d])
      (successfulDefenses (player n) + 1) /\
  taDeck s' = taDeck n /\ dcDeck s' = drop 2 (dcDeck n) /\
  selectedCard s' = selectedCard n /\ selectedAsset s' = selectedAsset n /\
  phase s' = phase n /\ currentAttacker s' = currentAttacker n /\
  turnNumber s' = turnNumber n.
Proof.
  unfold aiBlocked. fields. rewrite drawToHandSize_plus. repeat split.
Qed.

Lemma aiHit_effect a t n :
  let s' := aiHit a t n in
  ai s' =
    mkPlayerState (assets (ai n))
      (removeCard (hc_instanceId a) (taHand (ai n))) (dcHand (ai n))
      (taDiscard (ai n) ++ [hc_card a]) (dcDiscard (ai n))
      (successfulDefenses (ai n)) /\
  player s' =
    mkPlayerState (hitAssets t (assets (player n))) (taHand (player n))
      (dcHand (player n)) (taDiscard (player n)) (dcDiscard (player n))
      (successfulDefenses (player n)) /\
  taDeck s' = taDeck n /\ dcDeck s' = dcDeck n /\
  selectedCard s' = selectedCard n /\ selectedAsset s' = selectedAsset n /\
  phase s' = phase n /\ currentAttacker s' = currentAttacker n /\
  turnNumber s' = turnNumber n.
Proof.
  unfold aiHit, hitAssets. fields.
  destruct (findIndex _ (assets (player n))); fields; repeat split.
Qed.

(* --------------------------------------------------------------------- *)
(** *** Hands: removing and drawing cards with unique ids                 *)
(* --------------------------------------------------------------------- *)

Lemma handIds_removeCard id hand :
  handIds (removeCard id hand) = List.filter (fun i => negb (String.eqb i id)) (handIds hand).
Proof.
  unfold handIds, removeCard. induction hand as [|c hand IH]; cbn; [reflexivity|].
  destruct (negb (hc_instanceId c =? id)%string); cbn; now rewrite IH.
Qed.

Lemma NoDup_filter {A} (f : A -> bool) l : NoDup l -> NoDup (List.filter f l).
Proof.
  induction 1 as [|x l Hx Hl IH]; cbn; [constructor|].
  destruct (f x); [constructor|]; auto.
  rewrite list_elem_of_In, filter_In. rewrite list_elem_of_In in Hx. tauto.
Qed.

Lemma removeCard_NoDup id hand :
  NoDup (handIds hand) -> NoDup (handIds (removeCard id hand)).
Proof. rewrite handIds_removeCard. apply NoDup_filter. Qed.

Lemma removeCard_incl id hand i :
  In i (handIds (removeCard id hand)) -> In i (handIds hand).
Proof. rewrite handIds_removeCard, filter_In. tauto. Qed.

(** Removing a card of a hand with unique ids takes exactly that card. *)
Lemma removeCard_length hand c :
  NoDup (handIds hand) -> In c hand ->
  length (removeCard (hc_instanceId c) hand) + 1 = length hand.
Proof.
  induction hand as [|x hand IH]; intros Hnd Hin; [destruct Hin|].
  cbn in Hnd. apply NoDup_cons in Hnd as [Hx Hnd]. rewrite list_elem_of_In in Hx.
  cbn. destruct Hin as [->|Hin].
  - rewrite String.eqb_refl. cbn.
    assert (E : removeCard (hc_instanceId c) hand = hand).
    { unfold removeCard. apply forallb_filter_id, forallb_forall. intros y Hy.
      apply negb_true_iff, String.eqb_neq. intros E. apply Hx. rewrite <- E.
      unfold handIds. now apply in_map. }
    unfold removeCard in E. rewrite E. lia.
  - destruct (String.eqb_spec (hc_instanceId x) (hc_instanceId c)) as [E|E]; cbn.
    + exfalso. apply Hx. rewrite E. unfold handIds. now apply in_map.
    + specialize (IH Hnd Hin). unfold removeCard in IH. lia.
Qed.

(** Removing a card of a hand makes the hand shorter, whatever the ids. *)
Lemma removeCard_shorter hand c :
  In c hand -> length (removeCard (hc_instanceId c) hand) < length hand.
Proof.
  induction hand as [|x hand IH]; intros Hin; [destruct Hin|].
  cbn. destruct Hin as [->|Hin].
  - rewrite String.eqb_refl. cbn.
    pose proof (filter_length_le (fun c0 => negb (hc_instanceId c0 =? hc_instanceId c)%string) hand).
    unfold removeCard. lia.
  - specialize (IH Hin). unfold removeCard in IH.
    destruct (negb (hc_instanceId x =? hc_instanceId c)%string); cbn; lia.
Qed.

Lemma handIds_drawn ids (deck : list PlayableCard) :
  handIds (mapWithIds createHandCard ids (take 2 deck)) = take (length deck) [ids 0; ids 1].
Proof. destruct deck as [|a [|b deck]]; cbn; rewrite ?take_nil; reflexivity. Qed.

Lemma freshFor_incl ids hand hand' :
  (forall i, In i (handIds hand') -> In i (handIds hand)) ->
  freshFor ids hand -> freshFor ids hand'.
Proof. intros H (H1 & H2 & H3). repeat split; auto. Qed.

Lemma freshFor_removeCard ids id hand :
  freshFor ids hand -> freshFor ids (removeCard id hand).
Proof. apply freshFor_incl. intros i. apply removeCard_incl. Qed.

(** A draw with fresh ids keeps the ids of the hand unique. *)
Lemma drawn_NoDup ids hand (deck : list PlayableCard) :
  freshFor ids hand -> NoDup (handIds hand) ->
  NoDup (handIds (hand ++ mapWithIds createHandCard ids (take 2 deck))).
Proof.
  intros (H01 & H0 & H1) Hnd. unfold handIds at 1. rewrite map_app.
  fold (handIds hand). fold (handIds (mapWithIds createHandCard ids (take 2 deck))).
  rewrite handIds_drawn. apply NoDup_app. split; [assumption|]. split.
  - intros i Hi Hd. rewrite list_elem_of_In in Hi, Hd.
    destruct deck as [|a [|b deck]]; cbn in Hd; rewrite ?take_nil in Hd;
      cbn in Hd; intuition (subst; auto).
  - destruct deck as [|a [|b deck]]; cbn; rewrite ?take_nil; repeat constructor;
      rewrite ?list_elem_of_In; cbn; intuition.
Qed.

Lemma drawn_length ids (deck : list PlayableCard) :
  length (mapWithIds createHandCard ids (take 2 deck)) + length (drop 2 deck)
  = length deck.
Proof. unfold mapWithIds. rewrite length_imap, length_take, length_drop. lia. Qed.

(* --------------------------------------------------------------------- *)
(** *** Assets: the effect of a hit                                       *)
(* --------------------------------------------------------------------- *)

Lemma findIndex_Some {A} (f : A -> bool) l i :
  findIndex f l = Some i -> exists a, l !! i = Some a /\ f a = true.
Proof.
  revert i. induction l as [|x l IH]; intros i; cbn; [discriminate|].
  destruct (f x) eqn:E.
  - intros [= <-]. eauto.
  - destruct (findIndex f l) as [j|]; cbn; [|discriminate].
    intros [= <-]. cbn. apply IH. reflexivity.
Qed.

Lemma findIndex_None {A} (f : A -> bool) l a :
  findIndex f l = None -> In a l -> f a = false.
Proof.
  induction l as [|x l IH]; cbn; [intros _ []|].
  destruct (f x) eqn:E; [discriminate|].
  destruct (findIndex f l); cbn; [discriminate|].
  intros _ [<-|H]; auto.
Qed.

Lemma NoDup_assetIds_eq l i j a b :
  NoDup (assetIds l) -> l !! i = Some a -> l !! j = Some b ->
  ca_instanceId a = ca_instanceId b -> i = j.
Proof.
  intros Hnd Hi Hj E.
  eapply NoDup_lookup; [exact Hnd| |].
  - unfold assetIds. rewrite list_lookup_fmap, Hi. reflexivity.
  - unfold assetIds. rewrite list_lookup_fmap, Hj. cbn. now rewrite E.
Qed.

Lemma hitAssets_ids t l : assetIds (hitAssets t l) = assetIds l.
Proof.
  unfold hitAssets. destruct (findIndex _ l) as [i|] eqn:E; [|reflexivity].
  unfold damageAsset. destruct (l !! i) as [a|] eqn:Ea; [|reflexivity].
  unfold assetIds. rewrite list_fmap_insert. cbn.
  apply list_insert_id. rewrite list_lookup_fmap, Ea. reflexivity.
Qed.

(** What a hit changes: nothing, or the first asset that carries the
    target's instance id, which takes the successor of the state the target
    was selected in and one more damage. *)
Lemma hitAssets_lookup t l i a :
  l !! i = Some a ->
  hitAssets t l !! i = Some a \/
  (ca_instanceId a = ca_instanceId t /\
   hitAssets t l !! i =
     Some (mkCyberAsset (ca_instanceId a) (ca_card a)
             (getNextAssetState (state t)) (damageCount a + 1))).
Proof.
  intros Hi. unfold hitAssets.
  destruct (findIndex _ l) as [j|] eqn:E; [|now left].
  apply findIndex_Some in E as (b & Hj & Hb). apply String.eqb_eq in Hb.
  unfold damageAsset. rewrite Hj.
  destruct (decide (i = j)) as [->|Hne].
  - right. assert (b = a) by congruence. subst b. split; [assumption|].
    apply list_lookup_insert_eq. now apply lookup_lt_Some in Hj.
  - left. rewrite list_lookup_insert_ne; auto.
Qed.

(** A hit keeps destroyed assets destroyed when the target was selected as
    destroyed, or when it is one of the assets and ids are unique. *)
Lemma hitAssets_destroyedStay t l :
  state t = destroyed \/ (NoDup (assetIds l) /\ In t l) ->
  destroyedStay l (hitAssets t l).
Proof.
  intros H i a Hi Hs.
  destruct (hitAssets_lookup t l i a Hi) as [E|[Eid E]]; [eauto|].
  eexists. split; [exact E|]. cbn. split; [|reflexivity].
  destruct H as [->|[Hnd Hin]]; [reflexivity|].
  apply list_elem_of_In, list_elem_of_lookup in Hin as [j Hj].
  assert (i = j) by (eapply NoDup_assetIds_eq; eauto). subst j.
  assert (a = t) by congruence. subst a. now rewrite Hs.
Qed.

Lemma destroyedStay_refl l : destroyedStay l l.
Proof. intros i a Hi Hs. eauto. Qed.

Lemma destroyedStay_trans l1 l2 l3 :
  destroyedStay l1 l2 -> destroyedStay l2 l3 -> destroyedStay l1 l3.
Proof.
  intros H12 H23 i a Hi Hs.
  destruct (H12 i a Hi Hs) as (b & Hb & Hsb & Eb).
  destruct (H23 i b Hb Hsb) as (c & Hc & Hsc & Ec).
  exists c. repeat split; congruence.
Qed.

(* --------------------------------------------------------------------- *)
(** *** Well-formed states are preserved                                  *)
(* --------------------------------------------------------------------- *)

(** Splits the conjunctions that are written out in the goal. *)
Ltac splits := repeat match goal with |- _ /\ _ => split end.

Ltac wf_unfold :=
  unfold wellFormed, uniqueIds, selectionsCurrent, taTotal, dcTotal in *.

Ltac use_effect H :=
  let Ep := fresh "Ep" in let Ea := fresh "Ea" in
  let Et := fresh "Et" in let Ed := fresh "Ed" in
  let Ec := fresh "Ec" in let Es := fresh "Es" in
  destruct H as (Ep & Ea & Et & Ed & Ec & Es);
  rewrite ?Ep, ?Ea, ?Et, ?Ed, ?Ec, ?Es; cbn [assets taHand dcHand taDiscard dcDiscard successfulDefenses].

Lemma wellFormed_sameBoard s s' : sameBoard s s' -> wellFormed s -> wellFormed s'.
Proof. intros H. wf_unfold. use_effect H. tauto. Qed.

(** The state after a blocked attack of the player. *)
Lemma wellFormed_attackBlocked s s' ids a d :
  wellFormed s -> In a (taHand (player s)) -> In d (dcHand (ai s)) ->
  freshFor ids (dcHand (ai s)) ->
  player s' =
    mkPlayerState (assets (player s))
      (removeCard (hc_instanceId a) (taHand (player s))) (dcHand (player s))
      (taDiscard (player s) ++ [hc_card a]) (dcDiscard (player s))
      (successfulDefenses (player s)) /\
  ai s' =
    mkPlayerState (assets (ai s)) (taHand (ai s))
      (removeCard (hc_instanceId d) (dcHand (ai s))
       ++ mapWithIds createHandCard ids (take 2 (dcDeck s)))
      (taDiscard (ai s)) (dcDiscard (ai s) ++ [hc_card d])
      (successfulDefenses (ai s) + 1) /\
  taDeck s' = taDeck s /\ dcDeck s' = drop 2 (dcDeck s) /\
  selectedCard s' = None /\ selectedAsset s' = None ->
  wellFormed s'.
Proof.
  intros Hwf Ha Hd Hf H. wf_unfold. use_effect H.
  destruct Hwf as ((N1 & N2 & N3 & N4 & N5 & N6) & (S1 & S2) & T1 & T2).
  pose proof (removeCard_length _ _ N1 Ha).
  pose proof (removeCard_length _ _ N4 Hd).
  pose proof (drawn_length ids (dcDeck s)).
  rewrite !length_app. cbn [length].
  repeat split; try assumption; try discriminate; try lia.
  - now apply removeCard_NoDup.
  - apply drawn_NoDup; [now apply freshFor_removeCard|now apply removeCard_NoDup].
Qed.

(** The state after an unblocked attack of the player on [t]. *)
Lemma wellFormed_attackHit s s' a t :
  wellFormed s -> In a (taHand (player s)) ->
  player s' =
    mkPlayerState (assets (player s))
      (removeCard (hc_instanceId a) (taHand (player s))) (dcHand (player s))
      (taDiscard (player s) ++ [hc_card a]) (dcDiscard (player s))
      (successfulDefenses (player s)) /\
  ai s' =
    mkPlayerState (hitAssets t (assets (ai s))) (taHand (ai s)) (dcHand (ai s))
      (taDiscard (ai s)) (dcDiscard (ai s)) (successfulDefenses (ai s)) /\
  taDeck s' = taDeck s /\ dcDeck s' = dcDeck s /\
  selectedCard s' = None /\ selectedAsset s' = None ->
  wellFormed s'.
Proof.
  intros Hwf Ha H. wf_unfold. use_effect H.
  destruct Hwf as ((N1 & N2 & N3 & N4 & N5 & N6) & (S1 & S2) & T1 & T2).
  pose proof (removeCard_length _ _ N1 Ha).
  rewrite !length_app, hitAssets_ids. cbn [length].
  repeat split; try assumption; try discriminate; try lia.
  now apply removeCard_NoDup.
Qed.

(** The state after a draw of the player, the selections being cleared. *)
Lemma wellFormed_playerDraw s s' ids :
  wellFormed s -> freshFor ids (taHand (player s)) ->
  player s' =
    mkPlayerState (assets (player s))
      (taHand (player s) ++ mapWithIds createHandCard ids (take 2 (taDeck s)))
      (dcHand (player s)) (taDiscard (player s)) (dcDiscard (player s))
      (successfulDefenses (player s)) /\
  ai s' = ai s /\ taDeck s' = drop 2 (taDeck s) /\ dcDeck s' = dcDeck s /\
  selectedCard s' = None /\ selectedAsset s' = None ->
  wellFormed s'.
Proof.
  intros Hwf Hf H. wf_unfold. use_effect H.
  destruct Hwf as ((N1 & N2 & N3 & N4 & N5 & N6) & (S1 & S2) & T1 & T2).
  pose proof (drawn_length ids (taDeck s)).
  rewrite !length_app.
  repeat split; try assumption; try discriminate; try lia.
  now apply drawn_NoDup.
Qed.

(** The state after the draw that ends the AI's turn. *)
Lemma wellFormed_aiDraw s s' ids :
  wellFormed s -> freshFor ids (taHand (ai s)) ->
  player s' = player s /\
  ai s' =
    mkPlayerState (assets (ai s))
      (taHand (ai s) ++ mapWithIds createHandCard ids (take 2 (taDeck s)))
      (dcHand (ai s)) (taDiscard (ai s)) (dcDiscard (ai s))
      (successfulDefenses (ai s)) /\
  taDeck s' = drop 2 (taDeck s) /\ dcDeck s' = dcDeck s /\
  selectedCard s' = selectedCard s /\ selectedAsset s' = selectedAsset s ->
  wellFormed s'.
Proof.
  intros Hwf Hf H. wf_unfold. use_effect H.
  destruct Hwf as ((N1 & N2 & N3 & N4 & N5 & N6) & (S1 & S2) & T1 & T2).
  pose proof (drawn_length ids (taDeck s)).
  rewrite !length_app.
  repeat split; try assumption; try lia.
  now apply drawn_NoDup.
Qed.

(** The state after a blocked attack of the AI. *)
Lemma wellFormed_aiBlocked s s' ids a d :
  wellFormed s -> In a (taHand (ai s)) -> In d (dcHand (player s)) ->
  freshFor ids (dcHand (player s)) ->
  ai s' =
    mkPlayerState (assets (ai s))
      (removeCard (hc_instanceId a) (taHand (ai s))) (dcHand (ai s))
      (taDiscard (ai s) ++ [hc_card a]) (dcDiscard (ai s))
      (successfulDefenses (ai s)) /\
  player s' =
    mkPlayerState (assets (player s)) (taHand (player s))
      (removeCard (hc_instanceId d) (dcHand (player s))
       ++ mapWithIds createHandCard ids (take 2 (dcDeck s)))
      (taDiscard (player s)) (dcDiscard (player s) ++ [hc_card d])
      (successfulDefenses (player s) + 1) /\
  taDeck s' = taDeck s /\ dcDeck s' = drop 2 (dcDeck s) /\
  selectedCard s' = selectedCard s /\ selectedAsset s' = selectedAsset s ->
  wellFormed s'.
Proof.
  intros Hwf Ha Hd Hf H. wf_unfold. use_effect H.
  destruct Hwf as ((N1 & N2 & N3 & N4 & N5 & N6) & (S1 & S2) & T1 & T2).
  pose proof (removeCard_length _ _ N3 Ha).
  pose proof (removeCard_length _ _ N2 Hd).
  pose proof (drawn_length ids (dcDeck s)).
  rewrite !length_app. cbn [length].
  repeat split; try assumption; try lia.
  - apply drawn_NoDup; [now apply freshFor_removeCard|now apply removeCard_NoDup].
  - now apply removeCard_NoDup.
Qed.

(** The state after an unblocked attack of the AI on [t]. *)
Lemma wellFormed_aiHit s s' a t :
  wellFormed s -> In a (taHand (ai s)) ->
  ai s' =
    mkPlayerState (assets (ai s))
      (removeCard (hc_instanceId a) (taHand (ai s))) (dcHand (ai s))
      (taDiscard (ai s) ++ [hc_card a]) (dcDiscard (ai s))
      (successfulDefenses (ai s)) /\
  player s' =
    mkPlayerState (hitAssets t (assets (player s))) (taHand (player s))
      (dcHand (player s)) (taDiscard (player s)) (dcDiscard (player s))
      (successfulDefenses (player s)) /\
  taDeck s' = taDeck s /\ dcDeck s' = dcDeck s /\
  selectedCard s' = selectedCard s /\ selectedAsset s' = selectedAsset s ->
  wellFormed s'.
Proof.
  intros Hwf Ha H. wf_unfold. use_effect H.
  destruct Hwf as ((N1 & N2 & N3 & N4 & N5 & N6) & (S1 & S2) & T1 & T2).
  pose proof (removeCard_length _ _ N3 Ha).
  rewrite !length_app, hitAssets_ids. cbn [length].
  repeat split; try assumption; try lia.
  now apply removeCard_NoDup.
Qed.

(* --------------------------------------------------------------------- *)
(** *** The player's attack                                               *)
(* --------------------------------------------------------------------- *)

Lemma applyWin_phase s :
  phase (applyWin s) =
    match List.find (satisfied s) winOrder with
    | Some c => verdict c
    | None => phase s
    end.
Proof.
  unfold applyWin, getWinReason, winOrder, List.find, satisfied,
    ASSETS_TO_WIN, DEFENSES_TO_WIN.
  case_guards; reflexivity.
Qed.

Lemma satisfied_ext s s' :
  player s' = player s -> ai s' = ai s ->
  List.find (satisfied s') winOrder = List.find (satisfied s) winOrder.
Proof. intros Ep Ea. unfold winOrder, List.find, satisfied. now rewrite Ep, Ea. Qed.

(** Either the guards of [playerAttack] reject the request, or it is legal. *)
Lemma playerAttack_cases r ids s :
  playerAttack false r ids s = s \/
  exists c t, selectedCard s = Some c /\ selectedAsset s = Some t /\
              phase s = attack_phase /\ currentAttacker s = Player.
Proof.
  unfold playerAttack.
  destruct (selectedCard s) as [c|]; [|now left].
  destruct (selectedAsset s) as [t|]; [|now left].
  destruct (GamePhase_eqb (phase s) attack_phase) eqn:Ep; [|now left].
  destruct (Actor_eqb (currentAttacker s) Player) eqn:Et; [|now left].
  apply GamePhase_eqb_eq in Ep. apply Actor_eqb_eq in Et. right.
  exists c, t. auto.
Qed.

(** The state a legal attack of the player leaves when the AI defends with
    [d]. *)
Lemma playerAttack_blocked r ids s c t d :
  phase s = attack_phase -> currentAttacker s = Player ->
  selectedCard s = Some c -> selectedAsset s = Some t ->
  ai_card (aiChooseDefense (dcHand (ai s)) (hc_card c) (difficultyOr s) r) = Some d ->
  let s' := playerAttack false r ids s in
  (player s' =
     mkPlayerState (assets (player s))
       (removeCard (hc_instanceId c) (taHand (player s))) (dcHand (player s))
       (taDiscard (player s) ++ [hc_card c]) (dcDiscard (player s))
       (successfulDefenses (player s)) /\
   ai s' =
     mkPlayerState (assets (ai s)) (taHand (ai s))
       (removeCard (hc_instanceId d) (dcHand (ai s))
        ++ mapWithIds createHandCard ids (take 2 (dcDeck s)))
       (taDiscard (ai s)) (dcDiscard (ai s) ++ [hc_card d])
       (successfulDefenses (ai s) + 1) /\
   taDeck s' = taDeck s /\ dcDeck s' = drop 2 (dcDeck s) /\
   selectedCard s' = None /\ selectedAsset s' = None) /\
  currentAttacker s' = Player /\ turnNumber s' = turnNumber s /\
  phase s' =
    match List.find (satisfied s') winOrder with
    | Some w => verdict w
    | None => attack_phase
    end.
Proof.
  intros Hp Ha Hc Ht Hd s'. subst s'.
  rewrite (playerAttack_legal r ids s c t Hp Ha Hc Ht), Hd.
  set (n := attackIntent c t s).
  destruct (attackIntent_fields c t s) as (I1 & I2 & I3 & I4 & I5 & I6 & I7 & I8).
  fold n in I1, I2, I3, I4, I5, I6, I7, I8.
  destruct (attackBlocked_effect ids c d n) as (B1 & B2 & B3 & B4 & B5 & B6 & B7 & B8 & B9).
  destruct (applyWin_fields (attackBlocked ids c d n)) as (W1 & W2 & W3 & W4 & W5 & W6 & W7 & W8).
  rewrite (satisfied_ext (attackBlocked ids c d n)) by (fields; assumption).
  fields. rewrite applyWin_phase, W1, W2, W3, W4, W5, W6, W7, W8.
  rewrite B1, B2, B3, B4, B5, B6, B7, B8, B9, I1, I2, I3, I4, I5, I6, I7, I8.
  rewrite Ha. repeat split.
Qed.

(** The state a legal attack of the player leaves when the AI does not
    defend. *)
Lemma playerAttack_hit r ids s c t :
  phase s = attack_phase -> currentAttacker s = Player ->
  selectedCard s = Some c -> selectedAsset s = Some t ->
  ai_card (aiChooseDefense (dcHand (ai s)) (hc_card c) (difficultyOr s) r) = None ->
  let s' := playerAttack false r ids s in
  (player s' =
     mkPlayerState (assets (player s))
       (removeCard (hc_instanceId c) (taHand (player s))) (dcHand (player s))
       (taDiscard (player s) ++ [hc_card c]) (dcDiscard (player s))
       (successfulDefenses (player s)) /\
   ai s' =
     mkPlayerState (hitAssets t (assets (ai s))) (taHand (ai s)) (dcHand (ai s))
       (taDiscard (ai s)) (dcDiscard (ai s)) (successfulDefenses (ai s)) /\
   taDeck s' = taDeck s /\ dcDeck s' = dcDeck s /\
   selectedCard s' = None /\ selectedAsset s' = None) /\
  currentAttacker s' = Player /\ turnNumber s' = turnNumber s /\
  phase s' =
    match List.find (satisfied s') winOrder with
    | Some w => verdict w
    | None => attack_phase
    end.
Proof.
  intros Hp Ha Hc Ht Hd s'. subst s'.
  rewrite (playerAttack_legal r ids s c t Hp Ha Hc Ht), Hd.
  set (n := attackIntent c t s).
  destruct (attackIntent_fields c t s) as (I1 & I2 & I3 & I4 & I5 & I6 & I7 & I8).
  fold n in I1, I2, I3, I4, I5, I6, I7, I8.
  destruct (attackHit_effect c t n) as (B1 & B2 & B3 & B4 & B5 & B6 & B7 & B8 & B9).
  destruct (applyWin_fields (attackHit c t n)) as (W1 & W2 & W3 & W4 & W5 & W6 & W7 & W8).
  rewrite (satisfied_ext (attackHit c t n)) by (fields; assumption).
  fields. rewrite applyWin_phase, W1, W2, W3, W4, W5, W6, W7, W8.
  rewrite B1, B2, B3, B4, B5, B6, B7, B8, B9, I1, I2, I3, I4, I5, I6, I7, I8.
  rewrite Ha. repeat split.
Qed.

Lemma playerAttack_wellFormed r ids s :
  wellFormed s -> freshFor ids (dcHand (ai s)) ->
  wellFormed (playerAttack false r ids s).
Proof.
  intros Hwf Hf.
  destruct (playerAttack_cases r ids s) as [->|(c & t & Hc & Ht & Hp & Ha)]; [assumption|].
  assert (Hin : In c (taHand (player s))) by (apply Hwf; assumption).
  destruct (ai_card (aiChooseDefense (dcHand (ai s)) (hc_card c) (difficultyOr s) r))
    as [d|] eqn:Hd.
  - destruct (playerAttack_blocked r ids s c t d Hp Ha Hc Ht Hd) as (E & _).
    apply aiChooseDefense_card in Hd as [Hd _].
    eapply wellFormed_attackBlocked; eauto.
  - destruct (playerAttack_hit r ids s c t Hp Ha Hc Ht Hd) as (E & _).
    eapply wellFormed_attackHit; eauto.
Qed.

(* --------------------------------------------------------------------- *)
(** *** The AI's turn                                                     *)
(* --------------------------------------------------------------------- *)

Lemma getRandomElement_In {A} r (l : list A) x :
  getRandomElement r l = Some x -> In x l.
Proof.
  unfold getRandomElement. destruct l as [|y l]; [discriminate|].
  intros H. apply list_elem_of_In. eapply list_elem_of_lookup_2. exact H.
Qed.

Lemma head_In {A} (l : list A) x : head l = Some x -> In x l.
Proof. destruct l; cbn; [discriminate|]. intros [= ->]. now left. Qed.

(** The card the AI attacks with is a card of its attack hand. *)
Lemma aiChooseAttackCard_card taHand t dcHand d r dec c :
  aiChooseAttackCard taHand t dcHand d r = Ok dec -> ai_card dec = Some c ->
  In c taHand.
Proof.
  unfold aiChooseAttackCard.
  destruct (length taHand =? 0); [intros [= <-]; cbn; discriminate|].
  set (usable := if 0 <? length (List.filter (hasCategory threat_agent) taHand)
                 then List.filter (hasCategory threat_agent) taHand
                 else List.filter (hasCategory joker) taHand).
  assert (U : forall x, In x usable -> In x taHand).
  { intros x. subst usable. destruct (0 <? _); rewrite filter_In; tauto. }
  assert (S : forall (f : HandCard -> bool) x,
             head (sortBy byValueDesc (List.filter f usable)) = Some x -> In x taHand).
  { intros f x H. apply head_In, sortBy_In, filter_In in H. apply U, H. }
  assert (Hhard :
    (let defenderCards := map hc_card dcHand in
     let defenderHasJoker :=
       existsb (fun c0 => CardCategory_eqb (category c0) joker) defenderCards in
     let notDefendable :=
       List.filter (fun att =>
         negb (existsb (fun def => canDefend (hc_card att) def) defenderCards))
         usable in
     if 0 <? length notDefendable then
       Ok (mkAIDecision "attack" (head (sortBy byValueDesc notDefendable))
             (if defenderHasJoker
              then "Attacking with a value that avoids all non-joker defenses"
              else "Attacking with an undefendable value"))
     else
     let matchingDcValues := dcValues defenderCards in
     let forcesJoker :=
       List.filter (fun att =>
         match hc_card att with
         | ThreatAgentCard _ _ v => negb (existsb (CardValue_eqb v) matchingDcValues)
         | _ => false
         end) usable in
     if 0 <? length forcesJoker then
       Ok (mkAIDecision "attack" (head (sortBy byValueDesc forcesJoker))
             "Forcing Joker defense (no matching Defense Control value)")
     else
     match head (sortBy byValueDesc usable) with
     | Some fallback =>
         Ok (mkAIDecision "attack" (Some fallback)
               ("Attacking with " +:+ riskNameOr (hc_card fallback)))
     | None => TypeError
     end) = Ok dec -> ai_card dec = Some c -> In c taHand).
  { cbv zeta. case_guards; try (intros [= <-]; cbn; apply S).
    destruct (head (sortBy byValueDesc usable)) as [fb|] eqn:E; [|discriminate].
    intros [= <-]. cbn. intros [= <-]. apply head_In, sortBy_In in E. now apply U. }
  destruct d; [|exact Hhard|exact Hhard].
  destruct (getRandomElement r usable) as [x|] eqn:E; cbn.
  - intros [= <-]. cbn. intros [= <-]. apply U. eapply getRandomElement_In; eauto.
  - destruct (head usable) as [x|] eqn:E'; [|discriminate].
    intros [= <-]. cbn. intros [= <-]. apply U. now apply head_In.
Qed.

(** What one iteration of the AI loop does to the board: nothing (no
    target, or no card to attack with); a blocked attack; an unblocked
    attack. A blocked attack clears [continueAttacking]. *)
Lemma aiTurnBody_cases d rc rk ids s s' c' :
  aiTurnBody d rc rk ids s = Ok (s', c') ->
  ((sameBoard s s' /\ c' = false /\ phase s' = phase s) \/
   (exists a dc,
      In a (taHand (ai s)) /\
      List.find (fun hc => canDefend (hc_card a) (hc_card hc)) (dcHand (player s))
        = Some dc /\
      c' = false /\
      ai s' =
        mkPlayerState (assets (ai s))
          (removeCard (hc_instanceId a) (taHand (ai s))) (dcHand (ai s))
          (taDiscard (ai s) ++ [hc_card a]) (dcDiscard (ai s))
          (successfulDefenses (ai s)) /\
      player s' =
        mkPlayerState (assets (player s)) (taHand (player s))
          (removeCard (hc_instanceId dc) (dcHand (player s))
           ++ mapWithIds createHandCard ids (take 2 (dcDeck s)))
          (taDiscard (player s)) (dcDiscard (player s) ++ [hc_card dc])
          (successfulDefenses (player s) + 1) /\
      taDeck s' = taDeck s /\ dcDeck s' = drop 2 (dcDeck s) /\
      selectedCard s' = selectedCard s /\ selectedAsset s' = selectedAsset s) \/
   (exists a t,
      In a (taHand (ai s)) /\ aiChooseTarget (assets (player s)) = Some t /\
      ai s' =
        mkPlayerState (assets (ai s))
          (removeCard (hc_instanceId a) (taHand (ai s))) (dcHand (ai s))
          (taDiscard (ai s) ++ [hc_card a]) (dcDiscard (ai s))
          (successfulDefenses (ai s)) /\
      player s' =
        mkPlayerState (hitAssets t (assets (player s))) (taHand (player s))
          (dcHand (player s)) (taDiscard (player s)) (dcDiscard (player s))
          (successfulDefenses (player s)) /\
      taDeck s' = taDeck s /\ dcDeck s' = dcDeck s /\
      selectedCard s' = selectedCard s /\ selectedAsset s' = selectedAsset s)) /\
  currentAttacker s' = currentAttacker s /\ turnNumber s' = turnNumber s.
Proof.
  unfold aiTurnBody. fields.
  destruct (aiChooseTarget (assets (player s))) as [t|] eqn:Et.
  2:{ intros [= <- <-]. split; [left|]; repeat split. }
  destruct (aiChooseAttackCard (taHand (ai s)) t (dcHand (player s)) d rc)
    as [dec| |] eqn:Edec; cbn [mbind result_bind]; try discriminate.
  destruct (ai_card dec) as [a|] eqn:Ea.
  2:{ intros [= <- <-]. split; [left|]; repeat split. }
  pose proof (aiChooseAttackCard_card _ _ _ _ _ _ _ Edec Ea) as Hin.
  match goal with
  | |- context [aiBlocked ids a _ ?n] => set (s6 := n)
  end.
  assert (E6 : player s6 = player s /\ ai s6 = ai s /\ taDeck s6 = taDeck s /\
               dcDeck s6 = dcDeck s /\ selectedCard s6 = selectedCard s /\
               selectedAsset s6 = selectedAsset s /\ phase s6 = phase s /\
               currentAttacker s6 = currentAttacker s /\ turnNumber s6 = turnNumber s)
    by (repeat split).
  destruct E6 as (I1 & I2 & I3 & I4 & I5 & I6 & I7 & I8 & I9).
  destruct (List.find _ (dcHand (player s6))) as [dc|] eqn:Ef; rewrite I1 in Ef.
  - intros [= E].
    pose proof (f_equal fst E) as E1. pose proof (f_equal snd E) as E2.
    cbn [fst snd] in E1, E2. subst s' c'. clear E.
    destruct (aiBlocked_effect ids a dc s6) as (B1 & B2 & B3 & B4 & B5 & B6 & B7 & B8 & B9).
    destruct (aiWinCheck_fields false (aiBlocked ids a dc s6))
      as (W1 & W2 & W3 & W4 & W5 & W6 & W7 & W8).
    rewrite W1, W2, W3, W4, W5, W6, W7, W8, B1, B2, B3, B4, B5, B6, B8, B9.
    rewrite I1, I2, I3, I4, I5, I6, I8, I9.
    split; [right; left; exists a, dc|]; repeat split; try assumption.
    unfold aiWinCheck. case_guards; reflexivity.
  - intros [= E].
    pose proof (f_equal fst E) as E1. pose proof (f_equal snd E) as E2.
    cbn [fst snd] in E1, E2. subst s' c'. clear E.
    destruct (aiHit_effect a t s6) as (B1 & B2 & B3 & B4 & B5 & B6 & B7 & B8 & B9).
    match goal with
    | |- context [aiWinCheck ?c _] =>
        destruct (aiWinCheck_fields c (aiHit a t s6))
          as (W1 & W2 & W3 & W4 & W5 & W6 & W7 & W8)
    end.
    rewrite W1, W2, W3, W4, W5, W6, W7, W8, B1, B2, B3, B4, B5, B6, B8, B9.
    rewrite I1, I2, I3, I4, I5, I6, I8, I9.
    split; [right; right; exists a, t|]; repeat split; assumption.
Qed.

Lemma GamePhase_eq_dec (a b : GamePhase) : {a = b} + {a <> b}.
Proof.
  destruct (GamePhase_eqb a b) eqn:E; [left|right].
  - now apply GamePhase_eqb_eq.
  - intros H. apply GamePhase_eqb_eq in H. congruence.
Qed.

Lemma aiTurnLoop_stop fuel d o s : aiTurnLoop fuel d o false s = Ok s.
Proof. destruct fuel; reflexivity. Qed.

(** The AI loop keeps states well formed, keeps the ids of its closing
    draw fresh, never brings a destroyed asset of the player back, and
    leaves the AI's assets, the attacker and the turn counter alone. *)
Lemma aiTurnLoop_invariant fuel : forall d o c s s',
  wellFormed s -> freshTurn o s ->
  aiTurnLoop fuel d o c s = Ok s' ->
  wellFormed s' /\ freshFor (idsEndOfTurn o) (taHand (ai s')) /\
  destroyedStay (assets (player s)) (assets (player s')) /\
  assets (ai s') = assets (ai s) /\
  currentAttacker s' = currentAttacker s /\ turnNumber s' = turnNumber s.
Proof.
  induction fuel as [|fuel IH]; intros d o c s s' Hwf [Hfd Hfe]; cbn [aiTurnLoop].
  - destruct (c && GamePhase_eqb (phase s) attack_phase); [discriminate|].
    intros [= <-]. splits; auto using destroyedStay_refl; apply Hwf.
  - destruct (c && GamePhase_eqb (phase s) attack_phase).
    2:{ intros [= <-]. splits; auto using destroyedStay_refl; apply Hwf. }
    destruct (aiTurnBody d (rndCard o 0) (rndContinue o 0) (idsDefense o) s)
      as [[s1 c1]| |] eqn:Eb; cbn [mbind result_bind fst snd]; try discriminate.
    apply aiTurnBody_cases in Eb as ([(Hsame & -> & _)|[(a & dc & Ha & Hdc & -> & E)|(a & t & Ha & Ht & E)]] & Hc & Hn).
    + rewrite aiTurnLoop_stop. intros [= <-].
      pose proof (wellFormed_sameBoard _ _ Hsame Hwf).
      destruct Hsame as (Ep & Ea & _). rewrite Ep, Ea.
      splits; auto using destroyedStay_refl; apply H.
    + rewrite aiTurnLoop_stop. intros [= <-].
      apply find_some in Hdc as [Hdc _].
      pose proof (wellFormed_aiBlocked _ _ _ _ _ Hwf Ha Hdc Hfd E) as Hwf1.
      destruct E as (Ea & Ep & _). rewrite Ea, Ep. cbn [assets taHand].
      splits; auto using destroyedStay_refl, freshFor_removeCard; apply Hwf1.
    + pose proof (wellFormed_aiHit _ _ _ _ Hwf Ha E) as Hwf1.
      intros Hloop. apply IH in Hloop; [|assumption|].
      * destruct Hloop as (Hwf' & Hf' & Hd' & Has' & Hc' & Hn').
        destruct E as (Ea & Ep & _). rewrite Ea, Ep in *. cbn [assets taHand] in *.
        splits; try assumption; try congruence.
        eapply destroyedStay_trans; [|exact Hd'].
        apply hitAssets_destroyedStay. right.
        apply aiChooseTarget_Some in Ht as (Hin & _). split; [apply Hwf|exact Hin].
      * destruct E as (Ea & Ep & _). split; cbn [idsDefense idsEndOfTurn];
          rewrite ?Ea, ?Ep; cbn [dcHand taHand]; auto using freshFor_removeCard.
Qed.

Lemma aiEndOfTurn_effect ids s :
  let s' := aiEndOfTurn ids s in
  (phase s = attack_phase ->
   (player s' = player s /\
    ai s' =
      mkPlayerState (assets (ai s))
        (taHand (ai s) ++ mapWithIds createHandCard ids (take 2 (taDeck s)))
        (dcHand (ai s)) (taDiscard (ai s)) (dcDiscard (ai s))
        (successfulDefenses (ai s)) /\
    taDeck s' = drop 2 (taDeck s) /\ dcDeck s' = dcDeck s /\
    selectedCard s' = selectedCard s /\ selectedAsset s' = selectedAsset s) /\
   phase s' = attack_phase /\ currentAttacker s' = Player /\
   turnNumber s' = turnNumber s + 1) /\
  (phase s <> attack_phase ->
   sameBoard s s' /\ phase s' = phase s /\
   currentAttacker s' = currentAttacker s /\ turnNumber s' = turnNumber s).
Proof.
  unfold aiEndOfTurn.
  destruct (GamePhase_eqb (phase s) attack_phase) eqn:E.
  - apply GamePhase_eqb_eq in E. fields. rewrite drawToHandSize_plus.
    split; [intros _; splits; try reflexivity; assumption|congruence].
  - split; [intros H; apply GamePhase_eqb_eq in H; congruence|].
    intros _. unfold sameBoard. splits; reflexivity.
Qed.

Lemma executeAITurn_invariant o s s' :
  wellFormed s -> freshTurn o s -> executeAITurn o s = Ok s' ->
  wellFormed s' /\ destroyedStay (assets (player s)) (assets (player s')) /\
  assets (ai s') = assets (ai s).
Proof.
  intros Hwf Hf. unfold executeAITurn.
  destruct (aiTurnLoop _ _ o true s) as [s1| |] eqn:El;
    cbn [mbind result_bind]; try discriminate.
  intros [= <-].
  apply aiTurnLoop_invariant in El as (Hwf1 & Hf1 & Hd1 & Ha1 & _); try assumption.
  destruct (aiEndOfTurn_effect (idsEndOfTurn o) s1) as [Hdraw Hkeep].
  destruct (GamePhase_eq_dec (phase s1) attack_phase) as [Hp|Hp].
  - destruct (Hdraw Hp) as (E & _).
    pose proof (wellFormed_aiDraw _ _ _ Hwf1 Hf1 E).
    destruct E as (Ep & Ea & _). rewrite Ep, Ea. cbn [assets]. auto.
  - destruct (Hkeep Hp) as (E & _).
    pose proof (wellFormed_sameBoard _ _ E Hwf1).
    destruct E as (Ep & Ea & _). rewrite Ep, Ea. auto.
Qed.

(* --------------------------------------------------------------------- *)
(** *** The AI's turn returns                                             *)
(* --------------------------------------------------------------------- *)

Lemma aiTurnBody_shrinks d rc rk ids s s' :
  aiTurnBody d rc rk ids s = Ok (s', true) ->
  length (taHand (ai s')) < length (taHand (ai s)).
Proof.
  intros H. apply aiTurnBody_cases in H
    as ([(_ & [=] & _)|[(a & dc & _ & _ & [=] & _)|(a & t & Ha & _ & Ea & _)]] & _).
  rewrite Ea. cbn [taHand]. now apply removeCard_shorter.
Qed.

Lemma aiChooseAttackCard_in_time taHand t dcHand d r :
  aiChooseAttackCard taHand t dcHand d r <> OutOfFuel.
Proof.
  unfold aiChooseAttackCard. destruct d; case_guards; try discriminate;
    repeat match goal with
           | |- context [match ?x with _ => _ end] => destruct x; try discriminate
           end.
Qed.

Lemma aiTurnBody_in_time d rc rk ids s : aiTurnBody d rc rk ids s <> OutOfFuel.
Proof.
  unfold aiTurnBody. destruct (aiChooseTarget _); [|discriminate].
  match goal with
  | |- context [aiChooseAttackCard ?h ?t ?dh ?d ?r] =>
      pose proof (aiChooseAttackCard_in_time h t dh d r);
      destruct (aiChooseAttackCard h t dh d r) as [dec| |]
  end; cbn [mbind result_bind]; try discriminate; [|congruence].
  destruct (ai_card dec); [|discriminate].
  destruct (List.find _ _); discriminate.
Qed.

(** The bound of the AI loop is never hit when it exceeds the size of the
    AI's attack hand. *)
Lemma aiTurnLoop_in_time fuel : forall d o c s,
  length (taHand (ai s)) < fuel -> aiTurnLoop fuel d o c s <> OutOfFuel.
Proof.
  induction fuel as [|fuel IH]; intros d o c s Hlt; [lia|].
  cbn [aiTurnLoop]. destruct (c && GamePhase_eqb (phase s) attack_phase); [|discriminate].
  pose proof (aiTurnBody_in_time d (rndCard o 0) (rndContinue o 0) (idsDefense o) s).
  destruct (aiTurnBody d (rndCard o 0) (rndContinue o 0) (idsDefense o) s)
    as [[s1 [|]]| |] eqn:Eb; cbn [mbind result_bind fst snd]; try discriminate;
    [|now rewrite aiTurnLoop_stop|congruence].
  apply IH. apply aiTurnBody_shrinks in Eb. lia.
Qed.

(** [executeAITurn] never stops for lack of steps. *)
Lemma executeAITurn_terminates o s : executeAITurn o s <> OutOfFuel.
Proof.
  unfold executeAITurn.
  pose proof (aiTurnLoop_in_time (S (length (taHand (ai s)))) (difficultyOr s) o true s
                (Nat.lt_succ_diag_r _)).
  destruct (aiTurnLoop _ _ o true s); cbn [mbind result_bind]; congruence.
Qed.

(** With an attack hand of threat agents and jokers the AI's choice of a
    card throws nothing. *)
Lemma aiChooseAttackCard_returns taHand t dcHand d r :
  Forall attackSide taHand -> exists dec, aiChooseAttackCard taHand t dcHand d r = Ok dec.
Proof.
  intros Hall. unfold aiChooseAttackCard.
  destruct taHand as [|x hand]; [cbn; eauto|]. cbn [length Nat.eqb].
  set (usable := if 0 <? length (List.filter (hasCategory threat_agent) (x :: hand))
                 then List.filter (hasCategory threat_agent) (x :: hand)
                 else List.filter (hasCategory joker) (x :: hand)).
  assert (U : exists y l, usable = y :: l).
  { subst usable.
    destruct (List.filter (hasCategory threat_agent) (x :: hand)) as [|y l] eqn:E;
      [|cbn; eauto].
    cbn [length Nat.ltb Nat.leb].
    assert (Hx : hasCategory joker x = true).
    { apply Forall_inv in Hall. destruct Hall as [H|H].
      - exfalso. assert (In x (List.filter (hasCategory threat_agent) (x :: hand))).
        { apply filter_In. split; [now left|]. unfold hasCategory. now rewrite H. }
        rewrite E in H0. destruct H0.
      - unfold hasCategory. now rewrite H. }
    cbn [List.filter]. rewrite Hx. eauto. }
  destruct U as (y & l & ->).
  assert (Hsort : exists z, head (sortBy byValueDesc (y :: l)) = Some z).
  { pose proof (sortBy_length byValueDesc (y :: l)) as L.
    destruct (sortBy byValueDesc (y :: l)); [discriminate L|cbn; eauto]. }
  destruct Hsort as (z & Hz).
  destruct d; [|case_guards; try rewrite Hz; eauto..].
  destruct (getRandomElement r (y :: l)); cbn; eauto.
Qed.

Lemma removeCard_Forall P id hand : Forall P hand -> Forall P (removeCard id hand).
Proof.
  rewrite !Forall_forall. intros H c Hc. apply list_elem_of_In, removeCard_In in Hc.
  apply H, list_elem_of_In, Hc.
Qed.

Lemma aiTurnBody_returns d rc rk ids s :
  Forall attackSide (taHand (ai s)) ->
  exists s' c', aiTurnBody d rc rk ids s = Ok (s', c') /\
                Forall attackSide (taHand (ai s')).
Proof.
  intros Hall.
  assert (R : exists r, aiTurnBody d rc rk ids s = Ok r).
  { unfold aiTurnBody. fields. destruct (aiChooseTarget (assets (player s))) as [t|]; [|eauto].
    destruct (aiChooseAttackCard_returns (taHand (ai s)) t (dcHand (player s)) d rc Hall)
      as (dec & ->).
    cbn [mbind result_bind]. destruct (ai_card dec); [|eauto].
    destruct (List.find _ _); eauto. }
  destruct R as ([s' c'] & E). exists s', c'. split; [exact E|].
  apply aiTurnBody_cases in E
    as ([((_ & Ea & _) & _)|[(a & dc & _ & _ & _ & Ea & _)|(a & t & _ & _ & Ea & _)]] & _);
    rewrite Ea; cbn [taHand]; auto using removeCard_Forall.
Qed.

(** With an attack hand of threat agents and jokers, [executeAITurn]
    returns a state. *)
Lemma executeAITurn_returns o s :
  Forall attackSide (taHand (ai s)) -> exists s', executeAITurn o s = Ok s'.
Proof.
  intros Hall. unfold executeAITurn.
  assert (L : forall fuel d o c s,
             Forall attackSide (taHand (ai s)) ->
             length (taHand (ai s)) < fuel ->
             exists s', aiTurnLoop fuel d o c s = Ok s').
  { clear. induction fuel as [|fuel IH]; intros d o c s Hall Hlt; [lia|].
    cbn [aiTurnLoop]. destruct (c && GamePhase_eqb (phase s) attack_phase); [|eauto].
    destruct (aiTurnBody_returns d (rndCard o 0) (rndContinue o 0) (idsDefense o) s Hall)
      as (s1 & c1 & E & Hall1).
    rewrite E. cbn [mbind result_bind fst snd]. destruct c1.
    - apply IH; [assumption|]. apply aiTurnBody_shrinks in E. lia.
    - rewrite aiTurnLoop_stop. eauto. }
  destruct (L (S (length (taHand (ai s)))) (difficultyOr s) o true s Hall
              (Nat.lt_succ_diag_r _)) as (s1 & ->).
  cbn [mbind result_bind]. eauto.
Qed.

(* --------------------------------------------------------------------- *)
(** *** Every request keeps the state well formed                         *)
(* --------------------------------------------------------------------- *)

Lemma turnHandedOver_effect ids s :
  let n := turnHandedOver ids s in
  (player n =
     mkPlayerState (assets (player s))
       (taHand (player s) ++ mapWithIds createHandCard ids (take 2 (taDeck s)))
       (dcHand (player s)) (taDiscard (player s)) (dcDiscard (player s))
       (successfulDefenses (player s)) /\
   ai n = ai s /\ taDeck n = drop 2 (taDeck s) /\ dcDeck n = dcDeck s /\
   selectedCard n = None /\ selectedAsset n = None) /\
  phase n = phase s /\ currentAttacker n = AI /\
  turnNumber n = turnNumber s + 1 /\ difficulty n = difficulty s.
Proof.
  unfold turnHandedOver. fields. rewrite drawToHandSize_plus. splits; reflexivity.
Qed.

Lemma endTurn_cases ids o s :
  endTurn false ids o s = Ok s \/
  (phase s = attack_phase /\ currentAttacker s = Player /\
   endTurn false ids o s = executeAITurn o (turnHandedOver ids s)).
Proof.
  unfold endTurn. cbn [negb].
  destruct (GamePhase_eqb (phase s) attack_phase) eqn:Ep; [|now left].
  destruct (Actor_eqb (currentAttacker s) Player) eqn:Ea; [|now left].
  apply GamePhase_eqb_eq in Ep. apply Actor_eqb_eq in Ea.
  right. splits; try assumption; reflexivity.
Qed.

Lemma coinFlipped_effect result s :
  let n := coinFlipped result s in
  sameBoard s n /\ phase n = attack_phase /\ currentAttacker n = result /\
  turnNumber n = turnNumber s /\ difficulty n = difficulty s.
Proof. unfold sameBoard. splits; reflexivity. Qed.

Lemma performCoinFlip_cases r o s :
  performCoinFlip false r o s = Ok s \/
  (phase s = coin_flip /\
   ((performCoinFlip false r o s = Ok (coinFlipped Player s)) \/
    (performCoinFlip false r o s = executeAITurn o (coinFlipped AI s)))).
Proof.
  unfold performCoinFlip.
  destruct (GamePhase_eqb (phase s) coin_flip) eqn:Ep; [|now left].
  apply GamePhase_eqb_eq in Ep. cbn [negb orb].
  destruct (negb (bool_decide (is_Some (difficulty s)))); [now left|].
  right. split; [assumption|].
  destruct (random_lt r (1 # 2)); cbn [Actor_eqb]; [left|right]; reflexivity.
Qed.

Lemma Ok_inj {A} (a b : A) : Ok a = Ok b -> a = b.
Proof. now intros [= ->]. Qed.

Ltac ok_inv := let E := fresh "E" in intros E; apply Ok_inj in E; subst.

(** Every admissible request keeps the state well formed and keeps
    destroyed assets destroyed. *)
Lemma serve_invariant q s s' :
  wellFormed s -> admissible q s -> serve q s = Ok s' ->
  wellFormed s' /\
  destroyedStay (assets (player s)) (assets (player s')) /\
  destroyedStay (assets (ai s)) (assets (ai s')).
Proof.
  intros Hwf Hadm. destruct q as [d|r o|c|a|r ids|ids o]; cbn [serve admissible] in *.
  - ok_inv. splits; try apply destroyedStay_refl.
    eapply wellFormed_sameBoard; [|exact Hwf]. unfold sameBoard, setDifficulty. splits; reflexivity.
  - destruct (performCoinFlip_cases r o s) as [->|(_ & [->| ->])].
    + ok_inv. splits; auto using destroyedStay_refl.
    + destruct (coinFlipped_effect Player s) as (Hsame & _).
      ok_inv. pose proof (wellFormed_sameBoard _ _ Hsame Hwf).
      destruct Hsame as (Ep & Ea & _). rewrite Ep, Ea.
      splits; auto using destroyedStay_refl.
    + destruct (coinFlipped_effect AI s) as (Hsame & _).
      intros He. pose proof (wellFormed_sameBoard _ _ Hsame Hwf) as Hn.
      destruct Hsame as (Ep & Ea & _).
      apply executeAITurn_invariant in He as (Hwf' & Hd & Has); [|assumption|].
      * rewrite Ep in Hd. rewrite Ea in Has. rewrite Has.
        splits; auto using destroyedStay_refl.
      * unfold freshTurn. rewrite Ep, Ea. exact Hadm.
  - ok_inv. splits; try apply destroyedStay_refl.
    destruct Hwf as (U & (S1 & S2) & T). unfold selectCard. wf_unfold. fields.
    splits; try apply U; try apply T; auto.
  - ok_inv. splits; try apply destroyedStay_refl.
    destruct Hwf as (U & (S1 & S2) & T). unfold selectAsset. wf_unfold. fields.
    splits; try apply U; try apply T; auto.
  - ok_inv. split; [now apply playerAttack_wellFormed|].
    destruct (playerAttack_cases r ids s) as [->|(c & t & Hc & Ht & Hp & Ha)];
      [auto using destroyedStay_refl|].
    destruct (ai_card (aiChooseDefense (dcHand (ai s)) (hc_card c) (difficultyOr s) r))
      as [d|] eqn:Hd.
    + destruct (playerAttack_blocked r ids s c t d Hp Ha Hc Ht Hd) as ((Ep & Ea & _) & _).
      rewrite Ep, Ea. cbn [assets]. auto using destroyedStay_refl.
    + destruct (playerAttack_hit r ids s c t Hp Ha Hc Ht Hd) as ((Ep & Ea & _) & _).
      rewrite Ep, Ea. cbn [assets]. split; [apply destroyedStay_refl|].
      apply hitAssets_destroyedStay. right. split; [apply Hwf|]. now apply Hwf.
  - destruct Hadm as [Hfp Hft].
    destruct (endTurn_cases ids o s) as [->|(_ & _ & ->)].
    + ok_inv. splits; auto using destroyedStay_refl.
    + destruct (turnHandedOver_effect ids s) as (E & _).
      intros He. pose proof (wellFormed_playerDraw _ _ _ Hwf Hfp E) as Hn.
      destruct E as (Ep & Ea & _).
      apply executeAITurn_invariant in He as (Hwf' & Hd & Has); [|assumption|].
      * rewrite Ep in Hd. rewrite Ea in Has. rewrite Has. cbn [assets] in Hd.
        splits; auto using destroyedStay_refl.
      * unfold freshTurn. rewrite Ep, Ea. exact Hft.
Qed.

(* --------------------------------------------------------------------- *)
(** *** A generated game is well formed                                   *)
(* --------------------------------------------------------------------- *)

Lemma swap_length {A} (a : list A) i j : length (swap a i j) = length a.
Proof. unfold swap. destruct (a !! i), (a !! j); rewrite ?length_insert; reflexivity. Qed.

Lemma fisherYates_length {A} rs i (l : list A) : length (fisherYates rs i l) = length l.
Proof.
  revert rs l. induction i as [|i IH]; intros rs l; cbn; [reflexivity|].
  now rewrite IH, swap_length.
Qed.

Lemma mapWithIds_ids {A B} (create : string -> A -> B) (key : B -> string) ids l :
  (forall i x, key (create i x) = i) ->
  map key (mapWithIds create ids l) = map ids (seq 0 (length l)).
Proof.
  intros Hk. unfold mapWithIds. revert ids.
  induction l as [|x l IH]; intros ids; cbn; [reflexivity|].
  rewrite Hk. f_equal. rewrite <- seq_shift, map_map. apply (IH (fun k => ids (S k))).
Qed.

Lemma deck_sizes cnt :
  let deck := (generateFullDeck cnt).1 in
  length (taCards deck ++ option_list (jokers deck !! 0)) = 21 /\
  length (dcCards deck ++ option_list (jokers deck !! 1)) = 21 /\
  length (taAssets deck) = 6 /\ length (dcAssets deck) = 6.
Proof. repeat split. Qed.

Lemma initializeGame_wellFormed cnt o :
  freshInit o -> wellFormed (initializeGame cnt o).
Proof.
  intros (F1 & F2 & F3 & F4 & F5 & F6).
  destruct (deck_sizes cnt) as (L1 & L2 & L3 & L4).
  unfold initializeGame. cbv zeta. wf_unfold. fields.
  unfold handIds, assetIds.
  rewrite !(mapWithIds_ids createHandCard hc_instanceId) by reflexivity.
  rewrite !(mapWithIds_ids createCyberAsset ca_instanceId) by reflexivity.
  unfold slice, createShuffledDeck, shuffle, HAND_SIZE, ASSETS_PER_PLAYER in *.
  repeat rewrite ?length_imap, ?length_take, ?length_drop, ?fisherYates_length,
    ?L1, ?L2, ?L3, ?L4.
  unfold mapWithIds.
  repeat rewrite ?length_imap, ?length_take, ?length_drop, ?fisherYates_length,
    ?L1, ?L2, ?L3, ?L4.
  cbn [length Nat.sub Nat.mul Nat.min Nat.add].
  split; [splits; assumption|].
  split; [split; intros ? [=]|]. split; reflexivity.
Qed.

(** Every reachable state is well formed. *)
Lemma reachable_wellFormed s : reachable s -> wellFormed s.
Proof.
  induction 1 as [cnt o Hf|s q s' _ IH Hadm Hs].
  - now apply initializeGame_wellFormed.
  - now apply (serve_invariant q s s' IH Hadm Hs).
Qed.

(* --------------------------------------------------------------------- *)
(** *** The demonstration game                                            *)
(* --------------------------------------------------------------------- *)

Lemma reachable_serveAll script : forall s s',
  reachable s -> admissibleAll script s -> serveAll script s = Ok s' ->
  reachable s'.
Proof.
  induction script as [|q script IH]; intros s s' Hr Hadm; cbn [serveAll].
  - now intros [= <-].
  - destruct Hadm as [Hq Hrest].
    destruct (serve (q s) s) as [s1| |] eqn:E; cbn [mbind result_bind]; try discriminate.
    intros Hs. eapply IH; [|exact Hrest|exact Hs].
    eapply reachable_step; eauto.
Qed.

(** Closes a goal that evaluates to equalities between different strings,
    memberships in explicit lists and their negations. *)
Ltac by_evaluation :=
  vm_compute;
  repeat match goal with
         | |- _ /\ _ => split
         | |- True => exact I
         | |- forall x, _ => intro
         | H : Some _ = Some _ |- _ => injection H as <-
         | H : _ \/ _ |- _ => destruct H
         | H : False |- _ => destruct H
         | H : _ = _ |- _ => discriminate H
         | |- _ = _ => reflexivity
         | |- _ \/ _ => first [left; reflexivity | right]
         end.

Lemma demoInit_fresh : freshInit demoInit.
Proof. unfold freshInit, distinctIds. splits; apply (bool_decide_unpack _); vm_compute; reflexivity. Qed.

Lemma demoGame_reachable : reachable demoGame.
Proof. apply reachable_init, demoInit_fresh. Qed.

Lemma demoSelected_reachable : reachable demoSelected.
Proof.
  apply (reachable_serveAll demoSelection demoGame); [apply demoGame_reachable| |].
  - by_evaluation.
  - vm_compute. reflexivity.
Qed.


(* --------------------------------------------------------------------- *)
(** *** Deck integrity                                                    *)
(* --------------------------------------------------------------------- *)

(** C4, as the code has it. In every state reachable from a generated game
    the attack draw pile, both attack hands and both attack discards hold 21
    cards together (the 20 numbered cards of two suits and one joker), and
    so do the defense draw pile, hands and discards. *)
Theorem deck_integrity (s : GameState) :
  reachable s -> taTotal s = 21 /\ dcTotal s = 21.
Proof. intros H. apply reachable_wellFormed in H. apply H. Qed.

Lemma deck_integrity_witness :
  taTotal demoRoundOver = 21 /\ dcTotal demoRoundOver = 21.
Proof.
  apply deck_integrity.
  apply (reachable_serveAll demoRound demoGame).
  - apply reachable_init.
    unfold freshInit, distinctIds.
    splits; apply (bool_decide_unpack _); vm_compute; reflexivity.
  - by_evaluation.
  - vm_compute. reflexivity.
Defined.

(** C4, as stated: a generated game holds 21 cards on each side of the
    deck, not 41. *)
Lemma deck_total_is_not_41 :
  reachable demoGame /\
  taTotal demoGame = 21 /\ dcTotal demoGame = 21 /\
  taTotal demoGame <> 41 /\ dcTotal demoGame <> 41.
Proof.
  split; [apply demoGame_reachable|].
  vm_compute. splits; try reflexivity; discriminate.
Qed.

(* --------------------------------------------------------------------- *)
(** *** The destroyed state                                               *)
(* --------------------------------------------------------------------- *)

Lemma hitAssets_length t l : length (hitAssets t l) = length l.
Proof.
  unfold hitAssets. destruct (findIndex _ l) as [i|]; [|reflexivity].
  unfold damageAsset. destruct (l !! i); [|reflexivity]. apply length_insert.
Qed.

(** A hit on a target that is one of the assets and is not destroyed moves
    that asset one state forward with its counter and leaves the others:
    no state index decreases, and counters that match their states keep
    matching. This is what every attack of the AI does, and every attack of
    the player on an asset that is not destroyed. *)
Lemma hitAssets_progress t l :
  NoDup (assetIds l) -> In t l -> state t <> destroyed ->
  (forall i a, l !! i = Some a ->
     exists a', hitAssets t l !! i = Some a' /\
                stateIndex (state a) <= stateIndex (state a')) /\
  (Forall counterMatchesState l -> Forall counterMatchesState (hitAssets t l)).
Proof.
  intros Hnd Hin Hs.
  assert (Hstep : forall i a, l !! i = Some a ->
            hitAssets t l !! i = Some a \/
            (a = t /\
             hitAssets t l !! i =
               Some (mkCyberAsset (ca_instanceId t) (ca_card t)
                       (getNextAssetState (state t)) (damageCount t + 1)))).
  { intros i a Hi. destruct (hitAssets_lookup t l i a Hi) as [E|[Eid E]]; [now left|].
    right. apply list_elem_of_In, list_elem_of_lookup in Hin as [j Hj].
    assert (i = j) by (eapply NoDup_assetIds_eq; eauto). subst j.
    assert (a = t) by congruence. subst a. auto. }
  split.
  - intros i a Hi. destruct (Hstep i a Hi) as [E|[-> E]]; [eauto|].
    eexists. split; [exact E|]. cbn. destruct (state t); cbn; lia.
  - rewrite !Forall_lookup. intros Hall i a' Hi'.
    destruct (l !! i) as [a|] eqn:Hi.
    + destruct (Hstep i a Hi) as [E|[-> E]].
      * assert (a' = a) by congruence. subst a'. eauto.
      * assert (Ea : a' = mkCyberAsset (ca_instanceId t) (ca_card t)
                           (getNextAssetState (state t)) (damageCount t + 1))
          by congruence.
        subst a'. specialize (Hall i t Hi). unfold counterMatchesState in *. cbn.
        rewrite Hall. destruct (state t); cbn; congruence.
    + apply lookup_lt_Some in Hi'. rewrite hitAssets_length in Hi'.
      apply lookup_ge_None in Hi. lia.
Qed.

(** What an attack of the player on a target selected as destroyed does to
    the AI's assets. *)
Lemma playerAttack_destroyed_target b r ids s t :
  selectedAsset s = Some t -> state t = destroyed ->
  let s' := playerAttack b r ids s in
  destroyedStay (assets (ai s)) (assets (ai s')) /\
  length (assets (ai s')) = length (assets (ai s)) /\
  (forall i a, assets (ai s) !! i = Some a ->
     assets (ai s') !! i = Some a \/
     assets (ai s') !! i =
       Some (mkCyberAsset (ca_instanceId a) (ca_card a) destroyed (damageCount a + 1))) /\
  assets (player s') = assets (player s).
Proof.
  intros Ht Hs s'. subst s'. destruct b; [cbn; splits; auto using destroyedStay_refl|].
  destruct (playerAttack_cases r ids s) as [->|(c & t' & Hc & Ht' & Hp & Ha)];
    [splits; auto using destroyedStay_refl|].
  assert (t' = t) by congruence. subst t'.
  destruct (ai_card (aiChooseDefense (dcHand (ai s)) (hc_card c) (difficultyOr s) r))
    as [d|] eqn:Hd.
  - destruct (playerAttack_blocked r ids s c t d Hp Ha Hc Ht Hd) as ((Ep & Ea & _) & _).
    rewrite Ep, Ea. cbn [assets]. splits; auto using destroyedStay_refl.
  - destruct (playerAttack_hit r ids s c t Hp Ha Hc Ht Hd) as ((Ep & Ea & _) & _).
    rewrite Ep, Ea. cbn [assets]. splits.
    + apply hitAssets_destroyedStay. now left.
    + apply hitAssets_length.
    + intros i a Hi. destruct (hitAssets_lookup t _ i a Hi) as [E|[_ E]]; [now left|].
      right. rewrite E, Hs. reflexivity.
    + reflexivity.
Qed.

(** C10. [getNextAssetState] maps [destroyed] to [destroyed]; an attack of
    the player whose target is selected as destroyed leaves every destroyed
    asset of the AI destroyed and changes at most the damage counter of one
    asset, which it increments; and in the reachable states of a game no
    request moves an asset of either side out of the destroyed state. *)
Theorem destroyed_is_absorbing :
  getNextAssetState destroyed = destroyed /\
  (forall b r ids s t,
     selectedAsset s = Some t -> state t = destroyed ->
     let s' := playerAttack b r ids s in
     destroyedStay (assets (ai s)) (assets (ai s')) /\
     length (assets (ai s')) = length (assets (ai s)) /\
     (forall i a, assets (ai s) !! i = Some a ->
        assets (ai s') !! i = Some a \/
        assets (ai s') !! i =
          Some (mkCyberAsset (ca_instanceId a) (ca_card a) destroyed
                  (damageCount a + 1))) /\
     assets (player s') = assets (player s)) /\
  (forall q s s',
     reachable s -> admissible q s -> serve q s = Ok s' ->
     destroyedStay (assets (player s)) (assets (player s')) /\
     destroyedStay (assets (ai s)) (assets (ai s'))).
Proof.
  split; [reflexivity|]. split.
  - intros b r ids s t. apply playerAttack_destroyed_target.
  - intros q s s' Hr Hadm Hs.
    now apply (serve_invariant q s s' (reachable_wellFormed s Hr) Hadm Hs).
Qed.

Lemma destroyed_is_absorbing_witness :
  let s' := playerAttack false (99 # 100)%Q (numbered "redraw-4-") demoBreached in
  destroyedStay (assets (ai demoBreached)) (assets (ai s')) /\
  destroyedStay (assets (player demoBreached)) (assets (player s')).
Proof.
  destruct destroyed_is_absorbing as (_ & _ & H).
  refine (let H' := H (Attack (99 # 100)%Q (numbered "redraw-4-")) demoBreached _ _ _ eq_refl
          in conj (proj2 H') (proj1 H')).
  - apply (reachable_serveAll demoBreach demoGame).
    + apply reachable_init.
      unfold freshInit, distinctIds.
      splits; apply (bool_decide_unpack _); vm_compute; reflexivity.
    + by_evaluation.
    + vm_compute. reflexivity.
  - by_evaluation.
Defined.

(* --------------------------------------------------------------------- *)
(** *** The order of the win conditions                                   *)
(* --------------------------------------------------------------------- *)

Lemma filter_length_pos {A} (f : A -> bool) l :
  1 <= length (List.filter f l) <-> exists i a, l !! i = Some a /\ f a = true.
Proof.
  induction l as [|x l IH]; cbn.
  - split; [lia|]. intros (i & a & H & _). rewrite lookup_nil in H. discriminate.
  - destruct (f x) eqn:E; cbn.
    + split; [|lia]. intros _. exists 0, x. auto.
    + rewrite IH. split.
      * intros (i & a & H & Ha). exists (S i), a. auto.
      * intros ([|i] & a & H & Ha); cbn in H; [congruence|eauto].
Qed.

(** Two places hold destroyed assets exactly when the code's count of the
    destroyed assets is 2 or more. *)
Lemma twoDestroyed_count l : twoDestroyed l <-> 2 <= destroyedCount l.
Proof.
  unfold twoDestroyed, destroyedCount.
  induction l as [|x l IH]; cbn.
  - split; [|lia]. intros (i & j & a & b & _ & H & _). rewrite lookup_nil in H. discriminate.
  - destruct (AssetState_eqb (state x) destroyed) eqn:E; cbn.
    + assert (R : 2 <= S (length (List.filter (fun a => AssetState_eqb (state a) destroyed) l))
                  <-> 1 <= length (List.filter (fun a => AssetState_eqb (state a) destroyed) l))
        by lia.
      rewrite R, filter_length_pos. apply AssetState_eqb_eq in E. split.
      * intros ([|i] & j & a & b & Hij & Hi & Hj & Ha & Hb).
        -- destruct j as [|j]; [lia|]. cbn in Hj. exists j, b.
           split; [exact Hj|]. now apply AssetState_eqb_eq.
        -- cbn in Hi. exists i, a. split; [exact Hi|]. now apply AssetState_eqb_eq.
      * intros (j & b & Hj & Hb). apply AssetState_eqb_eq in Hb.
        exists 0, (S j), x, b. splits; auto; lia.
    + rewrite <- IH. split.
      * intros ([|i] & j & a & b & Hij & Hi & Hj & Ha & Hb).
        -- cbn in Hi. injection Hi as <-. apply AssetState_eqb_eq in Ha. congruence.
        -- destruct j as [|j]; [lia|]. cbn in Hi, Hj.
           exists i, j, a, b. splits; auto; lia.
      * intros (i & j & a & b & Hij & Hi & Hj & Ha & Hb).
        exists (S i), (S j), a, b. splits; auto; lia.
Qed.

Lemma holds_satisfied s c : holds s c <-> satisfied s c = true.
Proof.
  destruct c; cbn [holds satisfied]; rewrite ?twoDestroyed_count;
    symmetry; apply Nat.leb_le.
Qed.

Lemma firstHolding_find s c :
  firstHolding s c <-> List.find (satisfied s) winOrder = Some c.
Proof.
  split.
  - intros (earlier & later & E & Hc & He). rewrite E. clear E.
    induction He as [|c' earlier Hc' He IH]; cbn.
    + apply holds_satisfied in Hc. now rewrite Hc.
    + destruct (satisfied s c') eqn:E'; [|exact IH].
      apply holds_satisfied in E'. contradiction.
  - unfold firstHolding. generalize winOrder. intros l. revert c.
    induction l as [|c' l IH]; intros c; cbn; [discriminate|].
    destruct (satisfied s c') eqn:E'.
    + intros [= <-]. exists [], l. splits; auto. now apply holds_satisfied.
    + intros H. destruct (IH c H) as (earlier & later & -> & Hc & He).
      exists (c' :: earlier), later. splits; auto.
      constructor; [|exact He]. rewrite holds_satisfied. congruence.
Qed.

Lemma none_holding_find s :
  (forall c, ~ holds s c) <-> List.find (satisfied s) winOrder = None.
Proof.
  split.
  - intros H. destruct (List.find (satisfied s) winOrder) as [c|] eqn:E; [|reflexivity].
    apply find_some in E as [_ E]. apply holds_satisfied in E. now apply H in E.
  - intros H c Hc. apply holds_satisfied in Hc.
    eapply find_none in H; [|instantiate (1 := c); destruct c; cbn; auto].
    congruence.
Qed.

(** C2. The win check evaluates the four conditions in the fixed order
    player-destroyed-assets (AI wins), AI-destroyed-assets (player wins),
    player-defenses (player wins), AI-defenses (AI wins), where a side has
    two or more destroyed assets when two places of its board hold destroyed
    assets. Every state has an outcome of the evaluation; [checkWinCondition]
    returns it, and the check run after a resolved player attack
    ([applyWin]) and after a resolved AI attack ([aiWinCheck]) leaves the
    state in that phase: the verdict of the first condition of the order
    that holds, whatever holds after it, which is also the phase that
    [getWinReason] reports; when no condition holds the phase is unchanged,
    [getWinReason] reports nothing and the state of an attack is left as it
    is. *)
Theorem win_evaluation_order (s : GameState) :
  (exists p, winEvaluation s p) /\
  (forall p, winEvaluation s p ->
     checkWinCondition s = p /\ phase (applyWin s) = p /\
     forall k, phase (aiWinCheck k s).1 = p) /\
  (forall c, firstHolding s c -> fst <$> getWinReason s = Some (verdict c)) /\
  ((forall c, ~ holds s c) ->
     getWinReason s = None /\ applyWin s = s /\
     (phase s = attack_phase -> forall k, aiWinCheck k s = (s, k))).
Proof.
  destruct (winCheck_find s) as (H1 & H2 & H3 & H4 & H5).
  unfold spec_winEvaluation in *. splits.
  - destruct (List.find (satisfied s) winOrder) as [c|] eqn:E.
    + exists (verdict c). left. exists c. split; [now apply firstHolding_find|reflexivity].
    + exists (phase s). right. split; [now apply none_holding_find|reflexivity].
  - intros p [(c & Hc & ->)|(Hn & ->)].
    + apply firstHolding_find in Hc. rewrite Hc in *. auto.
    + apply none_holding_find in Hn. rewrite Hn in *. auto.
  - intros c Hc. apply firstHolding_find in Hc. rewrite Hc in H2. exact H2.
  - intros Hn. apply none_holding_find in Hn. apply H5 in Hn. tauto.
Qed.

(** A state in which every condition holds (two destroyed assets on each
    side, six defenses on each side) resolves to the first one: the AI
    wins. With one of the player's two destroyed assets replaced by a live
    one the first condition does not hold and the second decides. *)
Lemma win_evaluation_order_witness :
  let a := mkCyberAsset "a" (mkAssetCard "card-1" (suitTA hearts) jack "Web Server") destroyed 3 in
  let b := mkCyberAsset "b" (mkAssetCard "card-2" (suitTA hearts) queen "Database Server") rotated 2 in
  let board pl :=
    mkGameState attack_phase Player (Some hard)
      (mkPlayerState pl [] [] [] [] 6) (mkPlayerState [a; b; a] [] [] [] [] 6)
      [] [] None 1 20 None [] None None "" anim_none None in
  (checkWinCondition (board [a; b; a]) = ai_won /\
   phase (applyWin (board [a; b; a])) = ai_won /\
   fst <$> getWinReason (board [a; b; a]) = Some ai_won) /\
  (checkWinCondition (board [a; b; b]) = player_won /\
   phase (applyWin (board [a; b; b])) = player_won).
Proof.
  intros a b board.
  assert (Ha : twoDestroyed [a; b; a]).
  { exists 0, 2, a, a. splits; try reflexivity. lia. }
  assert (Hb : ~ twoDestroyed [a; b; b]).
  { intros (i & j & x & y & Hij & Hi & Hj & Hx & Hy).
    destruct i as [|[|[|i]]]; cbn in Hi; try discriminate;
      destruct j as [|[|[|j]]]; cbn in Hj; try discriminate; try lia;
      injection Hi as <-; injection Hj as <-; discriminate. }
  split.
  - destruct (win_evaluation_order (board [a; b; a])) as (_ & H & Hr & _).
    assert (F : firstHolding (board [a; b; a]) PlayerAssetsDestroyed).
    { exists [], [AIAssetsDestroyed; PlayerDefenses; AIDefenses].
      splits; [reflexivity|exact Ha|constructor]. }
    destruct (H ai_won) as (H1 & H2 & _).
    { left. exists PlayerAssetsDestroyed. split; [exact F|reflexivity]. }
    exact (conj H1 (conj H2 (Hr _ F))).
  - destruct (win_evaluation_order (board [a; b; b])) as (_ & H & _).
    destruct (H player_won) as (H1 & H2 & _).
    { left. exists AIAssetsDestroyed. split; [|reflexivity].
      exists [PlayerAssetsDestroyed], [PlayerDefenses; AIDefenses].
      splits; [reflexivity|exact Ha|]. constructor; [exact Hb|constructor]. }
    exact (conj H1 H2).
Defined.

(* --------------------------------------------------------------------- *)
(** *** After a blocked attack                                            *)
(* --------------------------------------------------------------------- *)


Lemma aiWinCheck_false s : aiWinCheck false s = ((aiWinCheck false s).1, false).
Proof. unfold aiWinCheck. case_guards; reflexivity. Qed.


(** Evaluates the premises of a legal attack of the player at a concrete
    state: the phase, the attacker, the two selections and the AI's card. *)
Ltac attack_premises s r :=
  assert (Hp : phase s = attack_phase) by (vm_compute; reflexivity);
  assert (Ha : currentAttacker s = Player) by (vm_compute; reflexivity);
  eassert (Hc : selectedCard s = Some _) by (vm_compute; reflexivity);
  eassert (Ht : selectedAsset s = Some _) by (vm_compute; reflexivity);
  match type of Hc with
  | _ = Some ?c =>
      eassert (Hd : ai_card (aiChooseDefense (dcHand (ai s)) (hc_card c)
                               (difficultyOr s) r) = Some _)
        by (vm_compute; reflexivity)
  end.



(* --------------------------------------------------------------------- *)
(** *** Instances                                                         *)
(* --------------------------------------------------------------------- *)

Lemma blocked_player_attack_witness :
  let s' := playerAttack false 0%Q (numbered "redraw-1-") demoSelected in
  successfulDefenses (ai s') = successfulDefenses (ai demoSelected) + 1 /\
  length (taDiscard (player s')) = 1 /\ length (dcDiscard (ai s')) = 1 /\
  length (dcHand (ai s')) = 6 /\
  assets (ai s') = assets (ai demoSelected).
Proof.
  attack_premises demoSelected 0%Q.
  destruct (blocked_player_attack 0%Q (numbered "redraw-1-") demoSelected _ _ _
              Hp Ha Hc Ht Hd)
    as (_ & (_ & _ & H2) & (_ & H3) & H4 & (_ & H5 & _) & (H6 & _)).
  cbv zeta. rewrite H2, H3, H4, H5, H6. vm_compute. splits; reflexivity.
Defined.

Lemma illegal_request_is_noop_witness :
  playerAttack false 0%Q (numbered "redraw-1-") demoGame = demoGame /\
  endTurn false (numbered "draw-1-") (demoTurn 1) demoGame = Ok demoGame.
Proof.
  destruct (illegal_request_is_noop false 0%Q (numbered "redraw-1-") (demoTurn 1) demoGame)
    as [H1 H2].
  split; [apply H1|apply H2]; left; vm_compute; discriminate.
Defined.

(* ===================================================================== *)
(** ** Further properties of the engine                                  *)
(* ===================================================================== *)

Lemma delete_insert_same {A} (l : list A) i y : delete i (<[i:=y]> l) = delete i l.
Proof. revert i. induction l as [|x l IH]; intros [|i]; cbn; try reflexivity. f_equal. apply IH. Qed.

Lemma insert_Permutation {A} (l : list A) i x y :
  l !! i = Some x -> <[i:=y]> l ≡ₚ y :: delete i l.
Proof.
  intros H. rewrite <- (delete_insert_same l i y).
  apply delete_Permutation, list_lookup_insert_eq. now apply lookup_lt_Some in H.
Qed.

Lemma swap_Permutation {A} (a : list A) i j : swap a i j ≡ₚ a.
Proof.
  unfold swap. destruct (a !! i) as [x|] eqn:Hi; [|reflexivity].
  destruct (a !! j) as [y|] eqn:Hj; [|reflexivity].
  destruct (decide (i = j)) as [->|Hne].
  - assert (x = y) by congruence. subst y.
    rewrite (list_insert_id a j x Hi). now rewrite (list_insert_id a j x Hi).
  - apply (Permutation_cons_inv (a := y)).
    assert (Hb : <[i:=y]> a !! j = Some y) by (rewrite list_lookup_insert_ne; auto).
    rewrite (insert_Permutation _ j y x Hb).
    rewrite perm_swap, <- (delete_Permutation _ j y Hb).
    rewrite (insert_Permutation _ i x y Hi), perm_swap.
    now rewrite <- (delete_Permutation _ i x Hi).
Qed.

Lemma fisherYates_Permutation {A} rs i (l : list A) : fisherYates rs i l ≡ₚ l.
Proof.
  revert rs l. induction i as [|i IH]; intros rs l; cbn [fisherYates]; [reflexivity|].
  rewrite IH. apply swap_Permutation.
Qed.

Lemma natToString_inj n m : natToString n = natToString m -> n = m.
Proof.
  unfold natToString. intros H.
  apply (f_equal NilEmpty.uint_of_string) in H. rewrite !NilEmpty.usu in H.
  injection H as H. apply (f_equal Nat.of_uint) in H.
  now rewrite !DecimalNat.Unsigned.of_to in H.
Qed.

(** X1. The Fisher-Yates loop of [shuffle] and [createShuffledDeck] returns a
    permutation of its input whatever numbers [Math.random] draws: no
    element is lost, duplicated or invented, and the length is kept. *)
Theorem shuffle_permutes {A : Type} (rs : nat -> Q) (array : list A)
    (cards : list PlayableCard) :
  Permutation (shuffle rs array) array /\
  Permutation (createShuffledDeck rs cards) cards /\
  length (shuffle rs array) = length array /\
  (forall x, In x (shuffle rs array) <-> In x array) /\
  (forall c, In c (createShuffledDeck rs cards) <-> In c cards).
Proof.
  unfold shuffle, createShuffledDeck.
  pose proof (fisherYates_Permutation rs (length array - 1) array) as Ha.
  pose proof (fisherYates_Permutation rs (length cards - 1) cards) as Hc.
  splits; try assumption.
  - now apply Permutation_length.
  - intros x. split; apply Permutation_in; [assumption|now symmetry].
  - intros c. split; apply Permutation_in; [assumption|now symmetry].
Qed.

(** The numbers of the ids of a generated deck, in the order of [deckIds],
    as offsets from the counter. *)
Lemma deckIds_offsets cnt :
  deckIds (generateFullDeck cnt).1 =
    map (fun k => "card-" +:+ natToString (k + cnt))
      (seq 1 10 ++ seq 14 10 ++ seq 11 3 ++ seq 24 3 ++ seq 27 10 ++ seq 40 10
       ++ seq 37 3 ++ seq 50 3 ++ [53; 54]).
Proof. reflexivity. Qed.

Lemma deckIds_NoDup cnt : NoDup (deckIds (generateFullDeck cnt).1).
Proof.
  rewrite deckIds_offsets. apply NoDup_fmap_2.
  - intros a b H. cbn in H. injection H as H. apply natToString_inj in H. lia.
  - apply (bool_decide_unpack _). vm_compute. reflexivity.
Qed.

(** X2. Whatever the value of the id counter, [generateFullDeck] builds 20
    threat agent cards, 20 defense control cards, 6 asset cards per side and
    a black and a red joker; it advances the counter by 54 and the 54 card
    ids are pairwise distinct, the ids being card-(n+1) to card-(n+54);
    every threat agent card is matched by exactly two defense control cards
    of the deck and every defense control card matches exactly two threat
    agent cards. *)
Theorem generateFullDeck_composition (cardIdCounter : nat) :
  let deck := (generateFullDeck cardIdCounter).1 in
  (generateFullDeck cardIdCounter).2 = cardIdCounter + 54 /\
  NoDup (deckIds deck) /\
  (forall id, In id (deckIds deck) <->
     exists k, cardIdCounter < k <= cardIdCounter + 54 /\
               id = "card-" +:+ natToString k) /\
  (length (taCards deck) = 20 /\
   Forall (fun c => category c = threat_agent) (taCards deck)) /\
  (length (dcCards deck) = 20 /\
   Forall (fun c => category c = defense_control) (dcCards deck)) /\
  (forall a, In a (taCards deck) ->
     length (List.filter (canDefend a) (dcCards deck)) = 2) /\
  (forall d, In d (dcCards deck) ->
     length (List.filter (fun a => canDefend a d) (taCards deck)) = 2) /\
  (exists i j, jokers deck = [JokerCard i black; JokerCard j red]) /\
  (length (taAssets deck) = 6 /\
   Forall (fun a => exists s, ac_suit a = suitTA s) (taAssets deck)) /\
  (length (dcAssets deck) = 6 /\
   Forall (fun a => exists s, ac_suit a = suitDC s) (dcAssets deck)).
Proof.
  cbv zeta. splits.
  - cbn. lia.
  - apply deckIds_NoDup.
  - intros id. rewrite deckIds_offsets, in_map_iff. split.
    + intros (k & <- & Hk). exists (k + cardIdCounter). split; [|reflexivity].
      rewrite !in_app_iff, !in_seq in Hk. cbn in Hk. lia.
    + intros (k & Hk & ->). exists (k - cardIdCounter). split.
      * do 2 f_equal. lia.
      * rewrite !in_app_iff, !in_seq. cbn.
        assert (H : k - cardIdCounter = 53 \/ k - cardIdCounter = 54 \/
                    k - cardIdCounter < 53) by lia.
        destruct H as [->|[->|H]]; [intuition|intuition|lia].
  - reflexivity.
  - repeat constructor.
  - reflexivity.
  - repeat constructor.
  - intros a Ha. cbn in Ha. repeat (destruct Ha as [<-|Ha]; [reflexivity|]). destruct Ha.
  - intros d Hd. cbn in Hd. repeat (destruct Hd as [<-|Hd]; [reflexivity|]). destruct Hd.
  - eexists _, _. reflexivity.
  - reflexivity.
  - repeat constructor; eexists; reflexivity.
  - reflexivity.
  - repeat constructor; eexists; reflexivity.
Qed.

Lemma mapWithIds_proj {A B} (create : string -> A -> B) (proj : B -> A) ids l :
  (forall i x, proj (create i x) = x) -> map proj (mapWithIds create ids l) = l.
Proof.
  intros Hp. unfold mapWithIds. revert ids.
  induction l as [|x l IH]; intros ids; cbn; [reflexivity|].
  rewrite Hp. f_equal. apply (IH (fun k => ids (S k))).
Qed.

(** The two hands and the draw pile that [initializeGame] cuts out of a
    shuffled side of the deck hold that side. *)
Lemma deal_Permutation idsP idsA rs (cards : list PlayableCard) :
  let shuffled := createShuffledDeck rs cards in
  Permutation
    (map hc_card (mapWithIds createHandCard idsP (slice 0 HAND_SIZE shuffled))
     ++ map hc_card (mapWithIds createHandCard idsA
                       (slice HAND_SIZE (HAND_SIZE * 2) shuffled))
     ++ drop (HAND_SIZE * 2) shuffled)
    cards.
Proof.
  cbv zeta. rewrite !(mapWithIds_proj createHandCard hc_card) by reflexivity.
  unfold slice, HAND_SIZE. cbn [Nat.sub Nat.mul Nat.add]. rewrite drop_0.
  rewrite <- (drop_drop _ 5 5), take_drop, take_drop.
  apply fisherYates_Permutation.
Qed.

Lemma mapWithIds_Forall {A B} (create : string -> A -> B) (P : B -> Prop) ids l :
  Forall (fun x => forall i, P (create i x)) l -> Forall P (mapWithIds create ids l).
Proof.
  unfold mapWithIds. revert ids. induction l as [|x l IH]; intros ids H; cbn.
  - constructor.
  - apply Forall_cons in H as [Hx H]. constructor; [apply Hx|].
    apply (IH (fun k => ids (S k))), H.
Qed.

Lemma slice_Forall {A} (P : A -> Prop) from to l :
  Forall P l -> Forall P (slice from to l).
Proof. intros H. unfold slice. now apply Forall_take, Forall_drop. Qed.

Lemma shuffle_Forall {A} (P : A -> Prop) rs l :
  Forall P l -> Forall P (shuffle rs l).
Proof.
  intros H. unfold shuffle.
  eapply Permutation_Forall; [symmetry; apply fisherYates_Permutation|exact H].
Qed.

Lemma destroyedCount_none l :
  Forall (fun a => state a <> destroyed) l -> destroyedCount l = 0.
Proof.
  unfold destroyedCount. induction 1 as [|a l Ha _ IH]; cbn; [reflexivity|].
  destruct (AssetState_eqb (state a) destroyed) eqn:E; [|exact IH].
  apply AssetState_eqb_eq in E. contradiction.
Qed.

(** X3. For every id counter, every sequence of random draws and every
    supply of instance ids, [initializeGame] deals a game in which each
    player holds 5 attack cards, 5 defense cards and 3 assets, every asset
    face down with no damage, and each draw pile holds 11 cards; the attack
    hands and the attack pile together are a permutation of the 20 threat
    agent cards and the first joker of the generated deck, the defense hands
    and pile a permutation of the 20 defense control cards and the second
    joker; the player's assets are face cards of the defense suits and the
    AI's of the attack suits; the game waits for a difficulty, with empty
    discards and log, no successful defense and no win condition met. *)
Theorem initializeGame_deal (cardIdCounter : nat) (o : InitOracle) :
  let s := initializeGame cardIdCounter o in
  let deck := (generateFullDeck cardIdCounter).1 in
  (phase s = difficulty_select /\ difficulty s = None /\ turnNumber s = 1 /\
   actionLog s = [] /\ selectedCard s = None /\ selectedAsset s = None) /\
  (length (taHand (player s)) = 5 /\ length (dcHand (player s)) = 5 /\
   length (taHand (ai s)) = 5 /\ length (dcHand (ai s)) = 5 /\
   length (taDeck s) = 11 /\ length (dcDeck s) = 11) /\
  Permutation
    (map hc_card (taHand (player s)) ++ map hc_card (taHand (ai s)) ++ taDeck s)
    (taCards deck ++ option_list (jokers deck !! 0)) /\
  Permutation
    (map hc_card (dcHand (player s)) ++ map hc_card (dcHand (ai s)) ++ dcDeck s)
    (dcCards deck ++ option_list (jokers deck !! 1)) /\
  (length (assets (player s)) = 3 /\ length (assets (ai s)) = 3 /\
   Forall (fun a => state a = facedown /\ damageCount a = 0)
     (assets (player s) ++ assets (ai s))) /\
  (Forall (fun a => In (ca_card a) (dcAssets deck) /\
                    exists su, ac_suit (ca_card a) = suitDC su) (assets (player s)) /\
   Forall (fun a => In (ca_card a) (taAssets deck) /\
                    exists su, ac_suit (ca_card a) = suitTA su) (assets (ai s))) /\
  (taDiscard (player s) = [] /\ dcDiscard (player s) = [] /\
   taDiscard (ai s) = [] /\ dcDiscard (ai s) = [] /\
   successfulDefenses (player s) = 0 /\ successfulDefenses (ai s) = 0) /\
  checkWinCondition s = difficulty_select /\ getWinReason s = None.
Proof.
  cbv zeta.
  destruct (deck_sizes cardIdCounter) as (L1 & L2 & L3 & L4).
  set (s := initializeGame cardIdCounter o).
  assert (Hfresh : Forall (fun a => state a = facedown /\ damageCount a = 0)
                     (assets (player s) ++ assets (ai s))).
  { apply Forall_app. split; apply mapWithIds_Forall, Forall_forall; intros; split; reflexivity. }
  assert (Hwin : destroyedCount (assets (player s)) = 0 /\
                 destroyedCount (assets (ai s)) = 0).
  { apply Forall_app in Hfresh as [Hp Ha].
    split; apply destroyedCount_none; eapply Forall_impl; eauto;
      cbn; intros a [-> _]; discriminate. }
  splits; try reflexivity.
  - subst s. unfold initializeGame, mapWithIds, slice, createShuffledDeck. fields.
    now rewrite length_imap, length_take, length_drop, fisherYates_length, L1.
  - subst s. unfold initializeGame, mapWithIds, slice, createShuffledDeck. fields.
    now rewrite length_imap, length_take, length_drop, fisherYates_length, L2.
  - subst s. unfold initializeGame, mapWithIds, slice, createShuffledDeck. fields.
    now rewrite length_imap, length_take, length_drop, fisherYates_length, L1.
  - subst s. unfold initializeGame, mapWithIds, slice, createShuffledDeck. fields.
    now rewrite length_imap, length_take, length_drop, fisherYates_length, L2.
  - subst s. unfold initializeGame, createShuffledDeck. fields.
    now rewrite length_drop, fisherYates_length, L1.
  - subst s. unfold initializeGame, createShuffledDeck. fields.
    now rewrite length_drop, fisherYates_length, L2.
  - apply deal_Permutation.
  - apply deal_Permutation.
  - subst s. unfold initializeGame, mapWithIds, slice, shuffle. fields.
    now rewrite length_imap, length_take, length_drop, fisherYates_length, L4.
  - subst s. unfold initializeGame, mapWithIds, slice, shuffle. fields.
    now rewrite length_imap, length_take, length_drop, fisherYates_length, L3.
  - exact Hfresh.
  - apply mapWithIds_Forall, slice_Forall, shuffle_Forall, Forall_forall.
    intros a Ha i. split; [apply list_elem_of_In, Ha|].
    apply list_elem_of_In in Ha. cbn in Ha.
    repeat (destruct Ha as [<-|Ha]; [eexists; reflexivity|]). destruct Ha.
  - apply mapWithIds_Forall, slice_Forall, shuffle_Forall, Forall_forall.
    intros a Ha i. split; [apply list_elem_of_In, Ha|].
    apply list_elem_of_In in Ha. cbn in Ha.
    repeat (destruct Ha as [<-|Ha]; [eexists; reflexivity|]). destruct Ha.
  - unfold checkWinCondition. destruct Hwin as [-> ->]. reflexivity.
  - unfold getWinReason. destruct Hwin as [-> ->]. reflexivity.
Qed.

(** X4. [drawToHandSize] moves cards from the front of the deck to the end
    of the hand, in order, until the hand has the target size or the deck is
    empty: with [n] the number of cards missing, the hand gets the first [n]
    cards of the deck (fewer when the deck is shorter) as new hand cards and
    the deck keeps the rest; no card is lost or reordered; a hand that has
    the target size already is left alone with the deck; and drawing again
    with the same target changes nothing. *)
Theorem drawToHandSize_spec (ids : nat -> string) (hand : list HandCard)
    (deck : list PlayableCard) (targetSize : nat) :
  let n := targetSize - length hand in
  let r := drawToHandSize ids hand deck targetSize in
  r = (hand ++ mapWithIds createHandCard ids (take n deck), drop n deck) /\
  map hc_card r.1 ++ r.2 = map hc_card hand ++ deck /\
  length r.1 = length hand + Nat.min n (length deck) /\
  (targetSize <= length hand -> r = (hand, deck)) /\
  (r.2 = [] \/ targetSize <= length r.1) /\
  (forall ids', drawToHandSize ids' r.1 r.2 targetSize = r).
Proof.
  cbv zeta.
  assert (E : drawToHandSize ids hand deck targetSize =
              (hand ++ mapWithIds createHandCard ids
                         (take (targetSize - length hand) deck),
               drop (targetSize - length hand) deck)).
  { destruct (le_lt_dec targetSize (length hand)) as [Hle|Hlt].
    - replace (targetSize - length hand) with 0 by lia.
      rewrite take_0, drop_0. unfold mapWithIds. cbn. rewrite app_nil_r.
      destruct deck as [|c deck]; cbn [drawToHandSize]; [reflexivity|].
      replace (length hand <? targetSize) with false
        by (symmetry; apply Nat.ltb_ge; lia).
      reflexivity.
    - replace targetSize with (length hand + (targetSize - length hand)) at 1 by lia.
      apply drawToHandSize_plus. }
  rewrite E. cbn [fst snd].
  assert (L : length (hand ++ mapWithIds createHandCard ids
                                (take (targetSize - length hand) deck)) =
              length hand + Nat.min (targetSize - length hand) (length deck)).
  { rewrite length_app. unfold mapWithIds. now rewrite length_imap, length_take. }
  assert (Done : drop (targetSize - length hand) deck = [] \/
                 targetSize <= length (hand ++ mapWithIds createHandCard ids
                                         (take (targetSize - length hand) deck))).
  { rewrite L. destruct (le_lt_dec (length deck) (targetSize - length hand)).
    - left. now apply drop_ge.
    - right. lia. }
  splits.
  - reflexivity.
  - rewrite map_app, (mapWithIds_proj createHandCard hc_card) by reflexivity.
    now rewrite <- app_assoc, take_drop.
  - exact L.
  - intros Hle. replace (targetSize - length hand) with 0 by lia.
    rewrite take_0, drop_0. unfold mapWithIds. cbn. now rewrite app_nil_r.
  - exact Done.
  - intros ids'. destruct Done as [->|Hge]; [reflexivity|].
    destruct (drop (targetSize - length hand) deck) as [|c rest];
      cbn [drawToHandSize]; [reflexivity|].
    match goal with
    | |- (if ?b then _ else _) = _ => replace b with false
        by (symmetry; apply Nat.ltb_ge; exact Hge)
    end.
    reflexivity.
Qed.

(** X5. [addLogToState] appends the entry to the log and keeps the last 200
    entries: afterwards the entry is the last one of the log and the last
    action, the log has min(200, old length + 1) entries and is a suffix of
    the old log followed by the entry (it is exactly that below 200
    entries; at 200 the oldest entry is dropped), and nothing else of the
    state is changed. *)
Theorem addLogToState_spec (s : GameState) (entry : GameAction) :
  let s' := addLogToState s entry in
  lastAction s' = Some entry /\
  last (actionLog s') = Some entry /\
  length (actionLog s') = Nat.min 200 (length (actionLog s) + 1) /\
  length (actionLog s') <= 200 /\
  suffix (actionLog s') (actionLog s ++ [entry]) /\
  (length (actionLog s) < 200 -> actionLog s' = actionLog s ++ [entry]) /\
  (length (actionLog s) = 200 -> actionLog s' = drop 1 (actionLog s) ++ [entry]) /\
  sameBoard s s' /\ phase s' = phase s /\ currentAttacker s' = currentAttacker s /\
  turnNumber s' = turnNumber s /\ message s' = message s.
Proof.
  cbv zeta. unfold addLogToState. fields.
  assert (L : length (actionLog s ++ [entry]) = length (actionLog s) + 1)
    by (rewrite length_app; reflexivity).
  splits.
  - reflexivity.
  - rewrite L.
    replace (length (actionLog s) + 1 - 200) with (length (actionLog s) - 199) by lia.
    rewrite drop_app_le by lia. apply last_snoc.
  - rewrite length_drop, L. lia.
  - rewrite length_drop, L. lia.
  - apply suffix_drop.
  - intros H. rewrite L. replace (length (actionLog s) + 1 - 200) with 0 by lia.
    apply drop_0.
  - intros H. rewrite L, H. cbn [Nat.add Nat.sub]. 
    rewrite drop_app_le by lia. reflexivity.
  - unfold sameBoard. splits; reflexivity.
  - reflexivity.
  - reflexivity.
  - reflexivity.
  - reflexivity.
Qed.

(* --------------------------------------------------------------------- *)
(** *** The decisions of the AI                                           *)
(* --------------------------------------------------------------------- *)

Lemma head_filter_find {A} (f : A -> bool) l : head (List.filter f l) = List.find f l.
Proof. induction l as [|x l IH]; cbn; [reflexivity|]. destruct (f x); cbn; auto. Qed.

Lemma find_filter {A} (f g : A -> bool) l :
  List.find f (List.filter g l) = List.find (fun x => g x && f x) l.
Proof.
  induction l as [|x l IH]; cbn; [reflexivity|].
  destruct (g x); cbn; [destruct (f x)|]; auto.
Qed.

Lemma filter_filter_and {A} (f g : A -> bool) l :
  List.filter f (List.filter g l) = List.filter (fun x => g x && f x) l.
Proof.
  induction l as [|x l IH]; cbn; [reflexivity|].
  destruct (g x); cbn; [destruct (f x)|]; cbn; now rewrite ?IH.
Qed.

Lemma length_zero_nil {A} (l : list A) : (length l =? 0) = true <-> l = [].
Proof. destruct l; cbn; split; congruence. Qed.

(** The card [aiChooseDefense] returns, as a function of the hand: when the
    AI decides to defend, the first card of the hand that matches and is no
    joker, and without one the first card that matches. *)
Lemma aiChooseDefense_find dcHand attackCard difficulty r :
  ai_card (aiChooseDefense dcHand attackCard difficulty r) =
    if random_lt r (defendChance difficulty) then
      match List.find (fun hc => canDefend attackCard (hc_card hc)
                                 && negb (hasCategory joker hc)) dcHand with
      | Some c => Some c
      | None => List.find (fun hc => canDefend attackCard (hc_card hc)) dcHand
      end
    else None.
Proof.
  unfold aiChooseDefense.
  destruct (length dcHand =? 0) eqn:E0.
  { apply length_zero_nil in E0. subst dcHand. cbn. now destruct (random_lt _ _). }
  destruct (length (List.filter _ dcHand) =? 0) eqn:E1.
  { apply length_zero_nil in E1. cbn [ai_card].
    rewrite <- !head_filter_find.
    pose proof (filter_filter_and (fun hc => negb (hasCategory joker hc))
                  (fun hc => canDefend attackCard (hc_card hc)) dcHand) as FF.
    cbn beta in FF. rewrite <- FF, E1. cbn.
    now destruct (random_lt _ _). }
  destruct (random_lt r (defendChance difficulty)); [|reflexivity]. cbn [negb].
  pose proof (filter_filter_and (fun hc => negb (hasCategory joker hc))
                (fun hc => canDefend attackCard (hc_card hc)) dcHand) as FF.
  pose proof (head_filter_find
                (fun hc => canDefend attackCard (hc_card hc) && negb (hasCategory joker hc))
                dcHand) as HF.
  cbn beta in FF. rewrite <- HF, <- FF. clear FF HF.
  destruct (List.filter (fun hc => negb (hasCategory joker hc)) _) as [|x v] eqn:E; [|reflexivity].
  cbn [head]. rewrite find_filter.
  assert (J : forall hc, In hc dcHand -> canDefend attackCard (hc_card hc) = true ->
                         hasCategory joker hc = true).
  { intros hc Hin Hv. destruct (hasCategory joker hc) eqn:Ej; [reflexivity|].
    assert (H : In hc (List.filter (fun hc => negb (hasCategory joker hc))
                         (List.filter (fun hc => canDefend attackCard (hc_card hc)) dcHand))).
    { rewrite !filter_In, Ej. auto. }
    rewrite E in H. destruct H. }
  assert (F : forall l, (forall hc, In hc l -> In hc dcHand) ->
              List.find (fun x => canDefend attackCard (hc_card x) && hasCategory joker x) l
              = List.find (fun hc => canDefend attackCard (hc_card hc)) l).
  { induction l as [|y l IH]; intros Hl; cbn; [reflexivity|].
    destruct (canDefend attackCard (hc_card y)) eqn:Ey; cbn.
    - rewrite (J y) by (auto; apply Hl; now left). reflexivity.
    - apply IH. intros hc Hhc. apply Hl. now right. }
  rewrite (F dcHand) by auto.
  destruct (List.find _ dcHand); reflexivity.
Qed.

(** X6. [aiChooseDefense] returns no card exactly when no card of the AI's
    defense hand can defend against the attack card (the damage is forced,
    whatever the difficulty and the random draw) or the random draw is not
    below the defend chance of the difficulty (0.15, 0.5, 0.95). A card it
    returns is a card of the hand that can defend; it is a joker only when
    every card of the hand that can defend is a joker; and it is the first
    matching non-joker card in hand order, or without one the first matching
    card. The decision's action is always "defend". *)
Theorem aiChooseDefense_spec (dcHand : list HandCard) (attackCard : PlayableCard)
    (difficulty : Difficulty) (r : Q) :
  let dec := aiChooseDefense dcHand attackCard difficulty r in
  ai_action dec = "defend" /\
  (ai_card dec = None <->
     (forall hc, In hc dcHand -> canDefend attackCard (hc_card hc) = false) \/
     random_lt r (defendChance difficulty) = false) /\
  (forall c, ai_card dec = Some c ->
     In c dcHand /\ canDefend attackCard (hc_card c) = true /\
     (category (hc_card c) = joker ->
      forall hc, In hc dcHand -> canDefend attackCard (hc_card hc) = true ->
                 category (hc_card hc) = joker)) /\
  ai_card dec =
    (if random_lt r (defendChance difficulty) then
       match List.find (fun hc => canDefend attackCard (hc_card hc)
                                  && negb (hasCategory joker hc)) dcHand with
       | Some c => Some c
       | None => List.find (fun hc => canDefend attackCard (hc_card hc)) dcHand
       end
     else None).
Proof.
  cbv zeta.
  assert (Hact : ai_action (aiChooseDefense dcHand attackCard difficulty r) = "defend").
  { unfold aiChooseDefense.
    destruct (length dcHand =? 0); [reflexivity|].
    destruct (length _ =? 0); [reflexivity|].
    destruct (negb _); [reflexivity|].
    destruct (List.filter _ (List.filter _ _)); [destruct (List.find _ _)|]; reflexivity. }
  rewrite aiChooseDefense_find.
  set (f1 := List.find (fun hc => canDefend attackCard (hc_card hc)
                                  && negb (hasCategory joker hc)) dcHand).
  set (f2 := List.find (fun hc => canDefend attackCard (hc_card hc)) dcHand).
  assert (N2 : f2 = None <->
               forall hc, In hc dcHand -> canDefend attackCard (hc_card hc) = false).
  { subst f2. split; [intros F hc; apply (find_none _ _ F)|].
    intros H.
    destruct (List.find (fun hc => canDefend attackCard (hc_card hc)) dcHand)
      as [c|] eqn:F; [|reflexivity].
    apply find_some in F as [Hin Hc]. rewrite (H c Hin) in Hc. discriminate. }
  assert (S1 : forall c, f1 = Some c ->
               In c dcHand /\ canDefend attackCard (hc_card c) = true /\
               category (hc_card c) <> joker).
  { subst f1. intros c F. apply find_some in F as [Hin Hc].
    apply andb_true_iff in Hc as [Hc Hj]. splits; try assumption.
    intros Ej. unfold hasCategory in Hj. rewrite Ej in Hj. discriminate. }
  assert (S2 : forall c, f1 = None -> f2 = Some c ->
               In c dcHand /\ canDefend attackCard (hc_card c) = true /\
               forall hc, In hc dcHand -> canDefend attackCard (hc_card hc) = true ->
                          category (hc_card hc) = joker).
  { subst f1 f2. intros c F1 F2. apply find_some in F2 as [Hin Hc].
    splits; try assumption. intros hc Hhc Hv. apply (find_none _ _ F1) in Hhc.
    rewrite Hv in Hhc. cbn in Hhc. apply negb_false_iff in Hhc.
    now apply CardCategory_eqb_eq in Hhc. }
  splits.
  - exact Hact.
  - destruct (random_lt r (defendChance difficulty)); [|tauto].
    destruct f1 as [c|] eqn:F1.
    + split; [discriminate|]. intros [H|H]; [|discriminate].
      destruct (S1 c eq_refl) as (Hin & Hc & _). rewrite (H c Hin) in Hc. discriminate.
    + rewrite N2. split; [auto|]. intros [H|H]; [exact H|discriminate].
  - intros c. destruct (random_lt r (defendChance difficulty)); [|discriminate].
    destruct f1 as [x|] eqn:F1.
    + intros [= ->]. destruct (S1 c eq_refl) as (Hin & Hc & Hj). splits; try assumption.
      intros Ej. contradiction.
    + intros F2. destruct (S2 c eq_refl F2) as (Hin & Hc & Hj). splits; try assumption.
      intros _. exact Hj.
  - reflexivity.
Qed.

Lemma byValueDesc_total a b : (byValueDesc a b <= 0)%Z \/ (byValueDesc b a <= 0)%Z.
Proof. unfold byValueDesc. lia. Qed.

Lemma byValueDesc_trans a b c :
  (byValueDesc a b <= 0)%Z -> (byValueDesc b c <= 0)%Z -> (byValueDesc a c <= 0)%Z.
Proof. unfold byValueDesc. lia. Qed.

(** The first card of a hand sorted by descending value is a card of the
    hand of the highest value. *)
Lemma head_sortBy_max l c :
  head (sortBy byValueDesc l) = Some c ->
  In c l /\ forall hc, In hc l -> (attackValue hc <= attackValue c)%Z.
Proof.
  intros H. split; [now apply head_In, sortBy_In in H|].
  intros hc Hin.
  pose proof (head_sortBy_first byValueDesc byValueDesc_total byValueDesc_trans l c H hc Hin).
  unfold byValueDesc in *. lia.
Qed.

Lemma head_sortBy_Some {A} (cmp : A -> A -> Z) l :
  l <> [] -> exists c, head (sortBy cmp l) = Some c.
Proof.
  intros H. pose proof (sortBy_length cmp l) as L.
  destruct (sortBy cmp l) as [|c v]; [|cbn; eauto].
  destruct l; [contradiction|discriminate L].
Qed.

Lemma length_pos_nil {A} (l : list A) : (0 <? length l) = false <-> l = [].
Proof. destruct l; cbn; split; congruence. Qed.

Lemma usableAttackCards_In taHand c :
  In c (usableAttackCards taHand) ->
  In c taHand /\ attackSide c /\
  ((exists hc, In hc taHand /\ category (hc_card hc) = threat_agent) ->
   category (hc_card c) = threat_agent).
Proof.
  unfold usableAttackCards. cbv zeta.
  destruct (0 <? length (List.filter (hasCategory threat_agent) taHand)) eqn:E.
  - rewrite filter_In. unfold hasCategory, attackSide. rewrite CardCategory_eqb_eq.
    intros [Hin Hc]. auto.
  - apply length_pos_nil in E. rewrite filter_In. unfold hasCategory, attackSide.
    rewrite CardCategory_eqb_eq. intros [Hin Hc]. splits; auto.
    intros (hc & Hhc & Ht). exfalso.
    assert (H : In hc (List.filter (hasCategory threat_agent) taHand)).
    { apply filter_In. split; [assumption|]. unfold hasCategory. now rewrite Ht. }
    rewrite E in H. destruct H.
Qed.

Lemma usableAttackCards_nil taHand :
  usableAttackCards taHand = [] <-> forall hc, In hc taHand -> ~ attackSide hc.
Proof.
  unfold usableAttackCards. cbv zeta.
  destruct (0 <? length (List.filter (hasCategory threat_agent) taHand)) eqn:E.
  - split.
    + intros H. rewrite H in E. discriminate.
    + intros H. destruct (List.filter (hasCategory threat_agent) taHand) as [|x l] eqn:F;
        [reflexivity|].
      assert (Hx : In x (x :: l)) by now left.
      rewrite <- F in Hx. apply filter_In in Hx as [Hin Hc].
      apply CardCategory_eqb_eq in Hc. exfalso. apply (H x Hin). now left.
  - apply length_pos_nil in E. split.
    + intros H hc Hin [Hc|Hc].
      * assert (X : In hc (List.filter (hasCategory threat_agent) taHand)).
        { apply filter_In. split; [assumption|]. unfold hasCategory. now rewrite Hc. }
        rewrite E in X. destruct X.
      * assert (X : In hc (List.filter (hasCategory joker) taHand)).
        { apply filter_In. split; [assumption|]. unfold hasCategory. now rewrite Hc. }
        rewrite H in X. destruct X.
    + intros H. destruct (List.filter (hasCategory joker) taHand) as [|x l] eqn:F;
        [reflexivity|].
      assert (Hx : In x (x :: l)) by now left.
      rewrite <- F in Hx. apply filter_In in Hx as [Hin Hc].
      apply CardCategory_eqb_eq in Hc. exfalso. apply (H x Hin). now right.
Qed.

(** [aiChooseAttackCard] on a hand that is not empty, in terms of the
    usable cards. *)
Lemma aiChooseAttackCard_easy_eq taHand t defenderDcHand r :
  taHand <> [] ->
  aiChooseAttackCard taHand t defenderDcHand easy r =
    match from_option Some (head (usableAttackCards taHand))
            (getRandomElement r (usableAttackCards taHand)) with
    | Some chosen =>
        Ok (mkAIDecision "attack" (Some chosen)
              ("Attacking with " +:+ riskNameOr (hc_card chosen)))
    | None => TypeError
    end.
Proof. intros H. destruct taHand; [contradiction|reflexivity]. Qed.

Lemma aiChooseAttackCard_hard_eq taHand t defenderDcHand d r :
  taHand <> [] -> d <> easy ->
  aiChooseAttackCard taHand t defenderDcHand d r =
    let usable := usableAttackCards taHand in
    let defenderCards := map hc_card defenderDcHand in
    let notDefendable :=
      List.filter (fun att =>
        negb (existsb (fun def => canDefend (hc_card att) def) defenderCards))
        usable in
    let forces :=
      List.filter (fun att =>
        match hc_card att with
        | ThreatAgentCard _ _ v =>
            negb (existsb (CardValue_eqb v) (dcValues defenderCards))
        | _ => false
        end) usable in
    if 0 <? length notDefendable then
      Ok (mkAIDecision "attack" (head (sortBy byValueDesc notDefendable))
            (if existsb (fun c => CardCategory_eqb (category c) joker) defenderCards
             then "Attacking with a value that avoids all non-joker defenses"
             else "Attacking with an undefendable value"))
    else if 0 <? length forces then
      Ok (mkAIDecision "attack" (head (sortBy byValueDesc forces))
            "Forcing Joker defense (no matching Defense Control value)")
    else
      match head (sortBy byValueDesc usable) with
      | Some fallback =>
          Ok (mkAIDecision "attack" (Some fallback)
                ("Attacking with " +:+ riskNameOr (hc_card fallback)))
      | None => TypeError
      end.
Proof.
  intros H Hd. destruct taHand; [contradiction|].
  destruct d; [contradiction|reflexivity|reflexivity].
Qed.

Lemma notDefendable_true defenderDcHand att :
  negb (existsb (fun def => canDefend (hc_card att) def) (map hc_card defenderDcHand)) = true
  <-> ~ blockable defenderDcHand att.
Proof.
  rewrite negb_true_iff, <- not_true_iff_false, existsb_exists. unfold blockable.
  split; intros H (x & Hx); apply H.
  - destruct Hx as [Hin Hc]. exists (hc_card x). split; [now apply in_map|assumption].
  - destruct Hx as [Hin Hc]. apply in_map_iff in Hin as (d & <- & Hd). eauto.
Qed.

Lemma dcValues_In v cards :
  In v (dcValues cards) <->
  exists c, In c cards /\ category c = defense_control /\ value c = Some v.
Proof.
  unfold dcValues. rewrite <- list_elem_of_In, list_elem_of_omap. split.
  - intros (c & Hc & E). exists c. rewrite <- list_elem_of_In.
    destruct c; try discriminate. injection E as ->. auto.
  - intros (c & Hc & Ecat & Ev). exists c. rewrite list_elem_of_In.
    destruct c; try discriminate. cbn in Ev. injection Ev as ->. auto.
Qed.

Lemma forces_true defenderDcHand att :
  match hc_card att with
  | ThreatAgentCard _ _ v =>
      negb (existsb (CardValue_eqb v) (dcValues (map hc_card defenderDcHand)))
  | _ => false
  end = true <-> forcesJoker defenderDcHand att.
Proof.
  unfold forcesJoker. destruct (hc_card att) as [i s v|i s v|i j] eqn:E; cbn;
    try (split; [discriminate|intros [? _]; discriminate]).
  rewrite negb_true_iff, <- not_true_iff_false, existsb_exists.
  split.
  - intros H. split; [reflexivity|]. intros (d & Hd & Hc & Hv). apply H.
    exists v. split; [|now apply CardValue_eqb_eq].
    apply dcValues_In. exists (hc_card d). split; [now apply in_map|]. auto.
  - intros [_ H] (w & Hw & Ew). apply CardValue_eqb_eq in Ew. subst w.
    apply dcValues_In in Hw as (c & Hc & Hcat & Hv).
    apply in_map_iff in Hc as (d & <- & Hd). apply H. eauto.
Qed.

Lemma Difficulty_easy_or d : d = easy \/ d <> easy.
Proof. destruct d; [left|right|right]; congruence. Qed.

Lemma usable_nonempty_hand taHand : usableAttackCards taHand <> [] -> taHand <> [].
Proof. intros H ->. apply H. reflexivity. Qed.

Lemma filter_nonempty {A} (f : A -> bool) l :
  (0 <? length (List.filter f l)) = true -> List.filter f l <> [].
Proof. intros H E. rewrite E in H. discriminate. Qed.

(** With a usable card in the hand, [aiChooseAttackCard] attacks with one. *)
Lemma aiChooseAttackCard_picks taHand t defenderDcHand d r :
  usableAttackCards taHand <> [] ->
  exists dec c,
    aiChooseAttackCard taHand t defenderDcHand d r = Ok dec /\
    ai_action dec = "attack" /\ ai_card dec = Some c /\
    In c (usableAttackCards taHand).
Proof.
  intros Hu. pose proof (usable_nonempty_hand _ Hu) as Hh.
  destruct (Difficulty_easy_or d) as [->|Hd].
  - rewrite aiChooseAttackCard_easy_eq by assumption.
    destruct (getRandomElement r (usableAttackCards taHand)) as [x|] eqn:E; cbn.
    + eexists _, x. splits; try reflexivity. eapply getRandomElement_In; eauto.
    + destruct (usableAttackCards taHand) as [|x l]; [contradiction|]. cbn.
      eexists _, x. splits; try reflexivity. now left.
  - rewrite aiChooseAttackCard_hard_eq by assumption. cbv zeta.
    match goal with
    | |- context [if 0 <? length ?l then _ else _] => destruct (0 <? length l) eqn:E1
    end.
    { apply filter_nonempty in E1.
      destruct (head_sortBy_Some byValueDesc _ E1) as (c & Hc).
      eexists _, c. splits; try reflexivity; [exact Hc|].
      apply head_In, sortBy_In, filter_In in Hc. apply Hc. }
    match goal with
    | |- context [if 0 <? length ?l then _ else _] => destruct (0 <? length l) eqn:E2
    end.
    { apply filter_nonempty in E2.
      destruct (head_sortBy_Some byValueDesc _ E2) as (c & Hc).
      eexists _, c. splits; try reflexivity; [exact Hc|].
      apply head_In, sortBy_In, filter_In in Hc. apply Hc. }
    destruct (head_sortBy_Some byValueDesc _ Hu) as (c & Hc). rewrite Hc.
    eexists _, c. splits; try reflexivity.
    now apply head_In, sortBy_In in Hc.
Qed.

(** [aiChooseAttackCard] returns a decision without a card on an empty hand
    only. *)
Lemma aiChooseAttackCard_no_card taHand t defenderDcHand d r dec :
  aiChooseAttackCard taHand t defenderDcHand d r = Ok dec -> ai_card dec = None ->
  taHand = [].
Proof.
  intros E Hc. destruct taHand as [|x l]; [reflexivity|]. exfalso.
  destruct (usableAttackCards (x :: l)) as [|y u] eqn:Eu.
  - destruct (Difficulty_easy_or d) as [->|Hd].
    + rewrite aiChooseAttackCard_easy_eq, Eu in E by discriminate. discriminate.
    + rewrite aiChooseAttackCard_hard_eq, Eu in E by (discriminate || assumption).
      discriminate.
  - assert (Hu : usableAttackCards (x :: l) <> []) by (rewrite Eu; discriminate).
    destruct (aiChooseAttackCard_picks (x :: l) t defenderDcHand d r Hu)
      as (dec' & c & E' & _ & Hc' & _).
    congruence.
Qed.

(** X7. [aiChooseAttackCard] ends the turn without a card exactly on an
    empty hand. On a hand that holds a threat agent card or a joker it
    attacks with a card of the hand, at every difficulty and for every
    random draw, and the card is a threat agent card whenever the hand holds
    one: a joker is played only from a hand without threat agent cards. On a
    hand that is not empty and holds neither, the function throws a
    TypeError (it reads a property of an undefined array element). *)
Theorem aiChooseAttackCard_outcome (taHand : list HandCard) (target : CyberAsset)
    (defenderDcHand : list HandCard) (difficulty : Difficulty) (r : Q) :
  let res := aiChooseAttackCard taHand target defenderDcHand difficulty r in
  (taHand = [] ->
   res = Ok (mkAIDecision "draw_end" None "No attack cards available, ending turn")) /\
  ((exists hc, In hc taHand /\ attackSide hc) ->
   exists dec c,
     res = Ok dec /\ ai_action dec = "attack" /\ ai_card dec = Some c /\
     In c taHand /\ attackSide c /\
     ((exists hc, In hc taHand /\ category (hc_card hc) = threat_agent) ->
      category (hc_card c) = threat_agent)) /\
  (taHand <> [] -> (forall hc, In hc taHand -> ~ attackSide hc) -> res = TypeError) /\
  (forall dec, res = Ok dec -> ai_card dec = None -> taHand = []).
Proof.
  cbv zeta. splits.
  - intros ->. reflexivity.
  - intros (hc & Hin & Hside).
    assert (Hu : usableAttackCards taHand <> []).
    { intros E. apply (proj1 (usableAttackCards_nil taHand) E hc Hin Hside). }
    destruct (aiChooseAttackCard_picks taHand target defenderDcHand difficulty r Hu)
      as (dec & c & E & Ha & Hc & Hcin).
    apply usableAttackCards_In in Hcin as (H1 & H2 & H3).
    exists dec, c. splits; assumption.
  - intros Hh Hnone. apply usableAttackCards_nil in Hnone.
    destruct (Difficulty_easy_or difficulty) as [->|Hd].
    + rewrite aiChooseAttackCard_easy_eq, Hnone by assumption. reflexivity.
    + rewrite aiChooseAttackCard_hard_eq, Hnone by assumption. reflexivity.
  - intros dec. apply aiChooseAttackCard_no_card.
Qed.

(** X8. At the difficulties hard and brutal the card [aiChooseAttackCard]
    attacks with is chosen in three tiers among the usable cards (the threat
    agent cards of the hand, or its jokers when it has none). When some
    usable card cannot be blocked by any card of the defender's hand, the
    chosen card cannot be blocked and no unblockable usable card has a
    higher value. When every usable card can be blocked, but some threat
    agent card has a value that no defense control card of the defender
    carries (only a joker blocks it), the chosen card is such a card, of the
    highest value among them. Otherwise the chosen card has the highest
    value among the usable cards. *)
Theorem aiChooseAttackCard_hard_choice (taHand : list HandCard) (target : CyberAsset)
    (defenderDcHand : list HandCard) (difficulty : Difficulty) (r : Q)
    (dec : AIDecision) (c : HandCard) :
  difficulty <> easy ->
  aiChooseAttackCard taHand target defenderDcHand difficulty r = Ok dec ->
  ai_card dec = Some c ->
  let usable := usableAttackCards taHand in
  In c usable /\
  ((exists hc, In hc usable /\ ~ blockable defenderDcHand hc) ->
   ~ blockable defenderDcHand c /\
   forall hc, In hc usable -> ~ blockable defenderDcHand hc ->
              (attackValue hc <= attackValue c)%Z) /\
  ((forall hc, In hc usable -> blockable defenderDcHand hc) ->
   ((exists hc, In hc usable /\ forcesJoker defenderDcHand hc) ->
    forcesJoker defenderDcHand c /\
    forall hc, In hc usable -> forcesJoker defenderDcHand hc ->
               (attackValue hc <= attackValue c)%Z) /\
   ((forall hc, In hc usable -> ~ forcesJoker defenderDcHand hc) ->
    forall hc, In hc usable -> (attackValue hc <= attackValue c)%Z)).
Proof.
  intros Hd E Hc usable.
  assert (Hh : taHand <> []).
  { intros ->. cbn in E. injection E as <-. discriminate. }
  rewrite aiChooseAttackCard_hard_eq in E by assumption. cbv zeta in E. fold usable in E.
  match type of E with
  | context [if 0 <? length ?l then _ else _] =>
      set (nd := l) in *; destruct (0 <? length nd) eqn:E1
  end.
  { injection E as <-. cbn in Hc. apply head_sortBy_max in Hc as [Hin Hmax].
    pose proof Hin as Hin'. apply filter_In in Hin' as [Hu Hnb].
    apply notDefendable_true in Hnb. split; [assumption|]. split.
    - intros _. split; [assumption|]. intros hc Hhc Hn. apply Hmax.
      apply filter_In. split; [assumption|]. now apply notDefendable_true.
    - intros Hall. exfalso. apply Hnb, Hall, Hu. }
  apply length_pos_nil in E1.
  assert (Hblock : forall hc, In hc usable -> ~ ~ blockable defenderDcHand hc).
  { intros hc Hhc Hn. assert (X : In hc nd).
    { apply filter_In. split; [assumption|]. now apply notDefendable_true. }
    rewrite E1 in X. destruct X. }
  match type of E with
  | context [if 0 <? length ?l then _ else _] =>
      set (fj := l) in *; destruct (0 <? length fj) eqn:E2
  end.
  { injection E as <-. cbn in Hc. apply head_sortBy_max in Hc as [Hin Hmax].
    pose proof Hin as Hin'. apply filter_In in Hin' as [Hu Hf].
    apply forces_true in Hf. split; [assumption|]. split.
    - intros (hc & Hhc & Hn). exfalso. exact (Hblock hc Hhc Hn).
    - intros _. split.
      + intros _. split; [assumption|]. intros hc Hhc Hfo. apply Hmax.
        apply filter_In. split; [assumption|]. now apply forces_true.
      + intros Hall. exfalso. exact (Hall c Hu Hf). }
  apply length_pos_nil in E2.
  destruct (head (sortBy byValueDesc usable)) as [fb|] eqn:Efb; [|discriminate].
  injection E as <-. cbn in Hc. injection Hc as ->.
  apply head_sortBy_max in Efb as [Hin Hmax]. split; [assumption|]. split.
  - intros (hc & Hhc & Hn). exfalso. exact (Hblock hc Hhc Hn).
  - intros _. split.
    + intros (hc & Hhc & Hf). exfalso. assert (X : In hc fj).
      { apply filter_In. split; [assumption|]. now apply forces_true. }
      rewrite E2 in X. destruct X.
    + intros _. exact Hmax.
Qed.

Lemma aiChooseAttackCard_hard_choice_witness :
  let five := mkHandCard "ai-ta-0" (ThreatAgentCard "card-5" hearts V5) in
  let seven := mkHandCard "ai-ta-1" (ThreatAgentCard "card-7" hearts V7) in
  let guard := mkHandCard "player-dc-0" (DefenseControlCard "card-33" spades V7) in
  In five (usableAttackCards [five; seven]) /\
  ((exists hc, In hc (usableAttackCards [five; seven]) /\ ~ blockable [guard] hc) ->
   ~ blockable [guard] five /\
   forall hc, In hc (usableAttackCards [five; seven]) -> ~ blockable [guard] hc ->
              (attackValue hc <= attackValue five)%Z).
Proof.
  intros five seven guard.
  pose (target := mkCyberAsset "player-asset-0"
                    (mkAssetCard "card-37" (suitDC spades) jack "Web Server") facedown 0).
  assert (Hd : hard <> easy) by discriminate.
  destruct (aiChooseAttackCard_hard_choice [five; seven] target [guard] hard 0%Q
              _ five Hd eq_refl eq_refl) as (H1 & H2 & _).
  exact (conj H1 H2).
Defined.

Lemma filter_nonempty_iff {A} (f : A -> bool) l :
  List.filter f l <> [] <-> exists a, In a l /\ f a = true.
Proof.
  split.
  - destruct (List.filter f l) as [|x v] eqn:E; [congruence|]. intros _.
    exists x. apply filter_In. rewrite E. now left.
  - intros (a & Ha & Hf) E. assert (X : In a (List.filter f l)) by (apply filter_In; auto).
    rewrite E in X. destruct X.
Qed.

(** X9. [aiDecideContinueOrEnd] answers "attack" or "draw_end" and never
    names a card. It answers "attack" exactly when some target asset is not
    destroyed, the attack hand is not empty, and either a target asset is
    rotated (one more hit destroys it; the difficulty and the random draw
    are not consulted) or the hand holds at least 3 cards and the random
    draw is below the continue chance of the difficulty (0.3, 0.7, 0.95).
    The count of successful attacks it is passed has no influence. *)
Theorem aiDecideContinueOrEnd_spec (taHand : list HandCard)
    (successfulAttacksThisRound : nat) (targetAssets : list CyberAsset)
    (difficulty : Difficulty) (r : Q) :
  let dec :=
    aiDecideContinueOrEnd taHand successfulAttacksThisRound targetAssets difficulty r in
  ai_card dec = None /\
  (ai_action dec = "attack" \/ ai_action dec = "draw_end") /\
  (ai_action dec = "attack" <->
     (exists a, In a targetAssets /\ state a <> destroyed) /\ taHand <> [] /\
     ((exists a, In a targetAssets /\ state a = rotated) \/
      (3 <= length taHand /\ random_lt r (continueChance difficulty) = true))) /\
  (forall n, aiDecideContinueOrEnd taHand n targetAssets difficulty r = dec).
Proof.
  cbv zeta. unfold aiDecideContinueOrEnd. cbv zeta.
  set (valid := List.filter notDestroyed targetAssets).
  set (rot := List.filter (fun a => AssetState_eqb (state a) rotated) valid).
  assert (Hvalid : valid <> [] <-> exists a, In a targetAssets /\ state a <> destroyed).
  { subst valid. rewrite filter_nonempty_iff.
    split; intros (a & Ha & Hs); exists a; split; try assumption;
      now apply notDestroyed_true. }
  assert (Hrot : rot <> [] <-> exists a, In a targetAssets /\ state a = rotated).
  { subst rot valid. rewrite filter_nonempty_iff. split.
    - intros (a & Ha & Hs). apply filter_In in Ha as [Ha _].
      apply AssetState_eqb_eq in Hs. eauto.
    - intros (a & Ha & Hs). exists a. rewrite filter_In, notDestroyed_true, Hs.
      repeat split; [assumption|discriminate]. }
  destruct (length valid =? 0) eqn:E0.
  { apply length_zero_nil in E0. cbn. splits; auto.
    split; [discriminate|]. intros (H & _). apply Hvalid in H. contradiction. }
  assert (Hv : valid <> []) by (intros X; rewrite X in E0; discriminate).
  destruct (length taHand =? 0) eqn:E1.
  { apply length_zero_nil in E1. cbn. splits; auto.
    split; [discriminate|]. intros (_ & H & _). contradiction. }
  assert (Hh : taHand <> []) by (intros X; rewrite X in E1; discriminate).
  assert (H1 : (1 <=? length taHand) = true).
  { destruct taHand; [contradiction|reflexivity]. }
  rewrite H1, andb_true_r.
  destruct (0 <? length rot) eqn:E2.
  { cbn. splits; auto. split; [|reflexivity]. intros _.
    splits; [now apply Hvalid|assumption|]. left. apply Hrot.
    intros X. rewrite X in E2. discriminate. }
  apply length_pos_nil in E2.
  assert (Hnr : ~ exists a, In a targetAssets /\ state a = rotated).
  { intros X. apply Hrot in X. contradiction. }
  destruct (length taHand <? 3) eqn:E3.
  { apply Nat.ltb_lt in E3. cbn. splits; auto.
    split; [discriminate|]. intros (_ & _ & [X|[X _]]); [contradiction|lia]. }
  apply Nat.ltb_ge in E3.
  destruct (random_lt r (continueChance difficulty)) eqn:E4; cbn; splits; auto.
  - split; [|reflexivity]. intros _. splits; [now apply Hvalid|assumption|]. right. auto.
  - split; [discriminate|]. intros (_ & _ & [X|[_ X]]); [contradiction|discriminate].
Qed.

(* --------------------------------------------------------------------- *)
(** *** The iterations of the AI's turn                                   *)
(* --------------------------------------------------------------------- *)

(** The three ways an iteration of the AI loop ends: without an attack
    (no target, or an empty hand), with a blocked attack, with a hit. *)
Lemma aiTurnBody_forms d rc rk ids s res :
  aiTurnBody d rc rk ids s = Ok res ->
  let s1 := set_message "AI is choosing a target..." s in
  (aiChooseTarget (assets (player s)) = None /\
   res = (addLogToState s1 (mkGameAction AI "No Attack"), false)) \/
  exists t,
    aiChooseTarget (assets (player s)) = Some t /\
    let s2 := set_message ("AI targets your " +:+ assetName (ca_card t) +:+ "...") s1 in
    ((taHand (ai s) = [] /\
      res = (addLogToState s2 (mkGameAction AI "No Attack"), false)) \/
     exists a,
       In a (taHand (ai s)) /\
       let s6 := aiAttackIntent t a s2 in
       ((exists dc,
           List.find (fun hc => canDefend (hc_card a) (hc_card hc)) (dcHand (player s))
             = Some dc /\
           res = aiWinCheck false (aiBlocked ids a dc s6)) \/
        (List.find (fun hc => canDefend (hc_card a) (hc_card hc)) (dcHand (player s))
           = None /\
         res = aiWinCheck
                 (String.eqb
                    (ai_action
                       (aiDecideContinueOrEnd (taHand (ai (aiHit a t s6))) 0
                          (assets (player (aiHit a t s6))) d rk))
                    "attack")
                 (aiHit a t s6)))).
Proof.
  unfold aiTurnBody. fields. cbv zeta.
  destruct (aiChooseTarget (assets (player s))) as [t|] eqn:Et.
  2:{ intros [= <-]. left. auto. }
  intros E. right. exists t. split; [reflexivity|]. revert E.
  destruct (aiChooseAttackCard (taHand (ai s)) t (dcHand (player s)) d rc)
    as [dec| |] eqn:Edec; cbn [mbind result_bind]; try discriminate.
  destruct (ai_card dec) as [a|] eqn:Ea.
  2:{ intros [= <-]. left. split; [|reflexivity].
      eapply aiChooseAttackCard_no_card; eauto. }
  pose proof (aiChooseAttackCard_card _ _ _ _ _ _ _ Edec Ea) as Hin.
  intros E. right. exists a. split; [assumption|]. revert E.
  match goal with
  | H : _ |- context [List.find ?f (dcHand (player ?n))] =>
      change (dcHand (player n)) with (dcHand (player s));
      destruct (List.find f (dcHand (player s))) as [dc|] eqn:Ef
  end.
  - intros [= <-]. left. eauto.
  - intros [= <-]. right. auto.
Qed.

(** What holds before an iteration of the AI loop and is kept by every
    iteration, which starts in [attack_phase], holds when the loop ends. *)
Lemma aiTurnLoop_guarded (P : GameState -> Prop) :
  (forall d rc rk ids s s' c,
     phase s = attack_phase -> P s -> aiTurnBody d rc rk ids s = Ok (s', c) -> P s') ->
  forall fuel d o c s s', P s -> aiTurnLoop fuel d o c s = Ok s' -> P s'.
Proof.
  intros Hbody. induction fuel as [|fuel IH]; intros d o c s s' HP; cbn [aiTurnLoop];
    destruct (c && GamePhase_eqb (phase s) attack_phase) eqn:G;
    try discriminate; try (intros [= <-]; exact HP).
  apply andb_true_iff in G as [_ G]. apply GamePhase_eqb_eq in G.
  destruct (aiTurnBody d (rndCard o 0) (rndContinue o 0) (idsDefense o) s)
    as [[s1 c1]| |] eqn:Eb; cbn [mbind result_bind fst snd]; try discriminate.
  apply IH. eapply Hbody; eauto.
Qed.

Lemma executeAITurn_guarded (P : GameState -> Prop) :
  (forall d rc rk ids s s' c,
     phase s = attack_phase -> P s -> aiTurnBody d rc rk ids s = Ok (s', c) -> P s') ->
  (forall ids s, P s -> P (aiEndOfTurn ids s)) ->
  forall o s s', P s -> executeAITurn o s = Ok s' -> P s'.
Proof.
  intros Hbody Hend o s s' HP. unfold executeAITurn.
  destruct (aiTurnLoop _ _ o true s) as [s1| |] eqn:El;
    cbn [mbind result_bind]; try discriminate.
  intros [= <-]. apply Hend. eapply aiTurnLoop_guarded; eauto.
Qed.

(** Either the guards of [performCoinFlip] reject the request, or the game
    waits for the flip with a difficulty chosen. *)
Lemma performCoinFlip_legal r o s :
  performCoinFlip false r o s = Ok s \/
  (phase s = coin_flip /\ difficulty s <> None /\
   ((random_lt r (1 # 2) = true /\
     performCoinFlip false r o s = Ok (coinFlipped Player s)) \/
    (random_lt r (1 # 2) = false /\
     performCoinFlip false r o s = executeAITurn o (coinFlipped AI s)))).
Proof.
  unfold performCoinFlip.
  destruct (GamePhase_eqb (phase s) coin_flip) eqn:Ep; [|now left].
  apply GamePhase_eqb_eq in Ep. cbn [negb orb].
  destruct (bool_decide (is_Some (difficulty s))) eqn:Ed; [|now left].
  apply bool_decide_eq_true in Ed. cbn [negb]. right. split; [assumption|]. split.
  - intros E. rewrite E in Ed. destruct Ed as [x Hx]. discriminate.
  - destruct (random_lt r (1 # 2)); cbn [Actor_eqb]; [left|right]; split; reflexivity.
Qed.

(** What every operation of the hook keeps, when it passes its guards, is
    kept by every request; [Q] is what an attack of the player may rely on
    besides. *)
Lemma serve_guarded (Q P : GameState -> Prop) :
  (forall d s, P s -> P (setDifficulty d s)) ->
  (forall c s, P s -> P (selectCard c s)) ->
  (forall a s, P s -> P (selectAsset a s)) ->
  (forall res s,
     phase s = coin_flip -> difficulty s <> None -> P s -> P (coinFlipped res s)) ->
  (forall r ids s, Q s -> P s -> P (playerAttack false r ids s)) ->
  (forall ids s,
     phase s = attack_phase -> currentAttacker s = Player -> P s ->
     P (turnHandedOver ids s)) ->
  (forall d rc rk ids s s' c,
     phase s = attack_phase -> P s -> aiTurnBody d rc rk ids s = Ok (s', c) -> P s') ->
  (forall ids s, P s -> P (aiEndOfTurn ids s)) ->
  forall q s s', Q s -> P s -> serve q s = Ok s' -> P s'.
Proof.
  intros Hd Hc Ha Hflip Hatk Hover Hbody Hend q s s' HQ HP.
  destruct q as [d|r o|c|a|r ids|ids o]; cbn [serve].
  - ok_inv. auto.
  - destruct (performCoinFlip_legal r o s) as [->|(Hp & Hdf & [[_ ->]|[_ ->]])].
    + ok_inv. assumption.
    + ok_inv. auto.
    + apply (executeAITurn_guarded P Hbody Hend). auto.
  - ok_inv. auto.
  - ok_inv. auto.
  - ok_inv. auto.
  - destruct (endTurn_cases ids o s) as [->|(Hp & Hwho & ->)].
    + ok_inv. assumption.
    + apply (executeAITurn_guarded P Hbody Hend). auto.
Qed.

(** What a generated game satisfies and every operation keeps holds in
    every reachable state. *)
Lemma reachable_guarded (P : GameState -> Prop) :
  (forall cnt o, freshInit o -> P (initializeGame cnt o)) ->
  (forall d s, P s -> P (setDifficulty d s)) ->
  (forall c s, P s -> P (selectCard c s)) ->
  (forall a s, P s -> P (selectAsset a s)) ->
  (forall res s,
     phase s = coin_flip -> difficulty s <> None -> P s -> P (coinFlipped res s)) ->
  (forall r ids s, wellFormed s -> P s -> P (playerAttack false r ids s)) ->
  (forall ids s,
     phase s = attack_phase -> currentAttacker s = Player -> P s ->
     P (turnHandedOver ids s)) ->
  (forall d rc rk ids s s' c,
     phase s = attack_phase -> P s -> aiTurnBody d rc rk ids s = Ok (s', c) -> P s') ->
  (forall ids s, P s -> P (aiEndOfTurn ids s)) ->
  forall s, reachable s -> P s.
Proof.
  intros Hinit Hd Hc Ha Hflip Hatk Hover Hbody Hend s Hr.
  induction Hr as [cnt o Hf|s q s' Hr IH Hadm Hs]; [auto|].
  eapply (serve_guarded wellFormed P); eauto using reachable_wellFormed.
Qed.

(** The same without the guards. *)
Lemma aiTurnLoop_preserves (P : GameState -> Prop) :
  (forall d rc rk ids s s' c, P s -> aiTurnBody d rc rk ids s = Ok (s', c) -> P s') ->
  forall fuel d o c s s', P s -> aiTurnLoop fuel d o c s = Ok s' -> P s'.
Proof. intros Hbody. apply aiTurnLoop_guarded. eauto. Qed.

Lemma executeAITurn_preserves (P : GameState -> Prop) :
  (forall d rc rk ids s s' c, P s -> aiTurnBody d rc rk ids s = Ok (s', c) -> P s') ->
  (forall ids s, P s -> P (aiEndOfTurn ids s)) ->
  forall o s s', P s -> executeAITurn o s = Ok s' -> P s'.
Proof. intros Hbody Hend. apply executeAITurn_guarded; eauto. Qed.

Lemma serve_preserves (Q P : GameState -> Prop) :
  (forall d s, P s -> P (setDifficulty d s)) ->
  (forall c s, P s -> P (selectCard c s)) ->
  (forall a s, P s -> P (selectAsset a s)) ->
  (forall res s, P s -> P (coinFlipped res s)) ->
  (forall r ids s, Q s -> P s -> P (playerAttack false r ids s)) ->
  (forall ids s, P s -> P (turnHandedOver ids s)) ->
  (forall d rc rk ids s s' c, P s -> aiTurnBody d rc rk ids s = Ok (s', c) -> P s') ->
  (forall ids s, P s -> P (aiEndOfTurn ids s)) ->
  forall q s s', Q s -> P s -> serve q s = Ok s' -> P s'.
Proof.
  intros Hd Hc Ha Hflip Hatk Hover Hbody Hend. apply serve_guarded; eauto.
Qed.

Lemma reachable_preserves (P : GameState -> Prop) :
  (forall cnt o, freshInit o -> P (initializeGame cnt o)) ->
  (forall d s, P s -> P (setDifficulty d s)) ->
  (forall c s, P s -> P (selectCard c s)) ->
  (forall a s, P s -> P (selectAsset a s)) ->
  (forall res s, P s -> P (coinFlipped res s)) ->
  (forall r ids s, wellFormed s -> P s -> P (playerAttack false r ids s)) ->
  (forall ids s, P s -> P (turnHandedOver ids s)) ->
  (forall d rc rk ids s s' c, P s -> aiTurnBody d rc rk ids s = Ok (s', c) -> P s') ->
  (forall ids s, P s -> P (aiEndOfTurn ids s)) ->
  forall s, reachable s -> P s.
Proof.
  intros Hinit Hd Hc Ha Hflip Hatk Hover Hbody Hend. apply reachable_guarded; eauto.
Qed.

Lemma aiWinCheck_true c s s' :
  aiWinCheck c s = (s', true) ->
  c = true /\ s' = s /\ List.find (satisfied s) winOrder = None.
Proof.
  unfold aiWinCheck, checkWinCondition, winOrder, List.find, satisfied,
    ASSETS_TO_WIN, DEFENSES_TO_WIN.
  destruct (2 <=? destroyedCount (assets (player s))); [cbn; discriminate|].
  destruct (2 <=? destroyedCount (assets (ai s))); [cbn; discriminate|].
  destruct (6 <=? successfulDefenses (player s)); [cbn; discriminate|].
  destruct (6 <=? successfulDefenses (ai s)); [cbn; discriminate|].
  destruct (_ && _); [discriminate|]. intros [= -> ->]. auto.
Qed.

Lemma aiDecideContinueOrEnd_attack taHand n l d r :
  ai_action (aiDecideContinueOrEnd taHand n l d r) = "attack" ->
  (exists a, In a l /\ state a <> destroyed) /\ taHand <> [].
Proof.
  unfold aiDecideContinueOrEnd. cbv zeta.
  destruct (length (List.filter notDestroyed l) =? 0) eqn:E0; [discriminate|].
  destruct (length taHand =? 0) eqn:E1; [discriminate|]. intros _. split.
  - destruct (List.filter notDestroyed l) as [|a v] eqn:E; [discriminate|].
    exists a. rewrite <- notDestroyed_true. apply filter_In. rewrite E. now left.
  - intros ->. discriminate.
Qed.

Lemma aiChooseTarget_exists l :
  (exists a, In a l /\ state a <> destroyed) -> exists t, aiChooseTarget l = Some t.
Proof.
  intros (a & Ha & Hs). destruct (aiChooseTarget l) as [t|] eqn:E; [eauto|].
  exfalso. apply Hs. exact (proj1 (aiChooseTarget_None l) E a Ha).
Qed.

(** X10. When an iteration of the AI's loop leaves [continueAttacking] set,
    it was an attack that the player could not block: a card of the AI's
    hand went to its discard and the chosen target took the hit, the
    player's counter of defenses is unchanged, the phase is unchanged and no
    win condition holds; and the next iteration can attack again, because
    the player still has an asset that is not destroyed (so a target is
    chosen) and the AI's attack hand is not empty. *)
Theorem ai_continue_has_next_attack (d : Difficulty) (rc rk : Q) (ids : nat -> string)
    (s s' : GameState) :
  aiTurnBody d rc rk ids s = Ok (s', true) ->
  (exists t a,
     aiChooseTarget (assets (player s)) = Some t /\ In a (taHand (ai s)) /\
     List.find (fun hc => canDefend (hc_card a) (hc_card hc)) (dcHand (player s)) = None /\
     assets (player s') = hitAssets t (assets (player s)) /\
     taHand (ai s') = removeCard (hc_instanceId a) (taHand (ai s)) /\
     taDiscard (ai s') = taDiscard (ai s) ++ [hc_card a]) /\
  successfulDefenses (player s') = successfulDefenses (player s) /\
  phase s' = phase s /\
  List.find (satisfied s') winOrder = None /\
  (exists t', aiChooseTarget (assets (player s')) = Some t') /\
  taHand (ai s') <> [].
Proof.
  intros E. apply aiTurnBody_forms in E. cbv zeta in E.
  destruct E as [[_ [=]]|(t & Et & [[_ [=]]|(a & Ha & [(dc & _ & E)|[Ef E]])])].
  - rewrite aiWinCheck_false in E. discriminate.
  - symmetry in E. apply aiWinCheck_true in E as (Hc & -> & Hwin).
    apply String.eqb_eq, aiDecideContinueOrEnd_attack in Hc as [Ht Hh].
    match goal with
    | |- context [aiHit a t ?n] => set (s6 := n) in *
    end.
    destruct (aiHit_effect a t s6) as (B1 & B2 & _ & _ & _ & _ & B7 & _).
    rewrite B1, B2 in *. cbn [assets taHand taDiscard successfulDefenses] in *.
    splits; try assumption; try reflexivity.
    + exists t, a. splits; try assumption; reflexivity.
    + now apply aiChooseTarget_exists.
Qed.

Lemma ai_continue_has_next_attack_witness :
  exists s',
    aiTurnBody hard 0%Q 0%Q (numbered "defense-1-") demoHanded = Ok (s', true) /\
    phase s' = phase demoHanded /\
    (exists t', aiChooseTarget (assets (player s')) = Some t') /\
    taHand (ai s') <> [].
Proof.
  eexists. split; [vm_compute; reflexivity|].
  match goal with
  | |- phase ?x = _ /\ _ =>
      destruct (ai_continue_has_next_attack hard 0%Q 0%Q (numbered "defense-1-")
                  demoHanded x) as (_ & _ & H1 & _ & H2 & H3);
        [vm_compute; reflexivity|]
  end.
  exact (conj H1 (conj H2 H3)).
Defined.

Lemma checkWinCondition_cases s :
  checkWinCondition s = phase s \/ checkWinCondition s = player_won \/
  checkWinCondition s = ai_won.
Proof. unfold checkWinCondition. case_guards; auto. Qed.

Lemma checkWinCondition_ext s s' :
  player s' = player s -> ai s' = ai s -> phase s' = phase s ->
  checkWinCondition s' = checkWinCondition s.
Proof. intros Ep Ea Eh. unfold checkWinCondition. now rewrite Ep, Ea, Eh. Qed.

(** The win check of the AI loop leaves the state in the phase that the
    win check computes, on which a second check agrees. *)
Lemma aiWinCheck_settles c s :
  let s' := (aiWinCheck c s).1 in
  phase s' = checkWinCondition s /\ checkWinCondition s' = phase s' /\
  difficulty s' = difficulty s /\ coinFlipResult s' = coinFlipResult s /\
  cardsDrawnThisGame s' = cardsDrawnThisGame s /\
  actionLog s' = actionLog s /\ lastAction s' = lastAction s.
Proof.
  cbv zeta. unfold aiWinCheck.
  destruct (negb (GamePhase_eqb (checkWinCondition s) attack_phase)
            && negb (GamePhase_eqb (checkWinCondition s) defense_phase)) eqn:E.
  - fields. splits; try reflexivity.
    unfold checkWinCondition. fields. case_guards; reflexivity.
  - fields. splits; try reflexivity.
    + destruct (checkWinCondition_cases s) as [H|[H|H]]; rewrite H in *; [reflexivity|..];
        cbn in E; discriminate.
    + destruct (checkWinCondition_cases s) as [H|[H|H]]; rewrite H in *; [reflexivity|..];
        cbn in E; discriminate.
Qed.

(** The fields that an iteration of the AI loop does not write. *)
Lemma aiTurnBody_settings d rc rk ids s s' c :
  aiTurnBody d rc rk ids s = Ok (s', c) ->
  difficulty s' = difficulty s /\ coinFlipResult s' = coinFlipResult s /\
  cardsDrawnThisGame s' = cardsDrawnThisGame s /\
  ((phase s' = phase s /\ player s' = player s /\ ai s' = ai s) \/
   phase s' = checkWinCondition s') /\
  (phase s' = phase s \/ phase s' = player_won \/ phase s' = ai_won).
Proof.
  intros E. apply aiTurnBody_forms in E. cbv zeta in E.
  destruct E as [[_ E]|(t & Et & [[_ E]|(a & Ha & [(dc & _ & E)|[Ef E]])])].
  - injection E as -> ->. splits; auto.
  - injection E as -> ->. splits; auto.
  - apply (f_equal fst) in E. cbn [fst] in E. subst s'.
    match goal with
    | |- context [aiWinCheck ?b ?X] =>
        destruct (aiWinCheck_settles b X) as (W1 & W2 & W3 & W4 & W5 & _);
        destruct (checkWinCondition_cases X) as [H|H]
    end; rewrite W3, W4, W5;
      (split; [reflexivity|]); (split; [reflexivity|]); (split; [reflexivity|]);
      (split; [right; now rewrite W2|]).
    + left. rewrite W1, H. reflexivity.
    + right. rewrite W1. exact H.
  - apply (f_equal fst) in E. cbn [fst] in E. subst s'.
    match goal with
    | |- context [aiWinCheck ?b (aiHit a t ?n)] =>
        destruct (aiWinCheck_settles b (aiHit a t n)) as (W1 & W2 & W3 & W4 & W5 & _);
        destruct (checkWinCondition_cases (aiHit a t n)) as [H|H];
        assert (M : difficulty (aiHit a t n) = difficulty s /\
                    coinFlipResult (aiHit a t n) = coinFlipResult s /\
                    cardsDrawnThisGame (aiHit a t n) = cardsDrawnThisGame s /\
                    phase (aiHit a t n) = phase s)
          by (unfold aiHit; fields; destruct (findIndex _ _); splits; reflexivity);
        destruct M as (M1 & M2 & M3 & M4)
    end; rewrite W3, W4, W5, M1, M2, M3;
      (split; [reflexivity|]); (split; [reflexivity|]); (split; [reflexivity|]);
      (split; [right; now rewrite W2|]).
    + left. rewrite W1, H. exact M4.
    + right. rewrite W1. exact H.
Qed.

Lemma aiTurnBody_settled d rc rk ids s s' c :
  phaseSettled s -> aiTurnBody d rc rk ids s = Ok (s', c) -> phaseSettled s'.
Proof.
  intros Hs E. apply aiTurnBody_settings in E as (_ & _ & _ & H1 & H2).
  unfold phaseSettled in *.
  destruct H1 as [(Hp & Epl & Eai)|Hw].
  - rewrite (checkWinCondition_ext s s' Epl Eai Hp), Hp. exact Hs.
  - destruct H2 as [Hp|Hwon].
    + destruct Hs as [Ha|[Hwon _]]; [left; congruence|].
      right. rewrite Hp. split; [assumption|]. rewrite <- Hp. now symmetry.
    + right. split; [assumption|now symmetry].
Qed.

Lemma aiTurnFrame_refl s : aiTurnFrame s s.
Proof. unfold aiTurnFrame. splits; reflexivity. Qed.

Lemma aiTurnFrame_trans s1 s2 s3 :
  aiTurnFrame s1 s2 -> aiTurnFrame s2 s3 -> aiTurnFrame s1 s3.
Proof.
  unfold aiTurnFrame.
  intros (A1 & A2 & A3 & A4 & A5 & A6 & A7 & A8 & A9 & A10 & A11 & A12)
         (B1 & B2 & B3 & B4 & B5 & B6 & B7 & B8 & B9 & B10 & B11 & B12).
  splits; congruence.
Qed.

Lemma aiTurnBody_frame d rc rk ids s s' c :
  aiTurnBody d rc rk ids s = Ok (s', c) -> aiTurnFrame s s'.
Proof.
  intros E. pose proof (aiTurnBody_settings _ _ _ _ _ _ _ E) as (M1 & M2 & M3 & _).
  apply aiTurnBody_cases in E
    as ([((Ep & Ea & _ & _ & Ec & Es) & _)
        |[(a & dc & _ & _ & _ & Ea & Ep & _ & _ & Ec & Es)
         |(a & t & _ & _ & Ea & Ep & _ & _ & Ec & Es)]] & _);
    unfold aiTurnFrame; rewrite Ea, Ep, Ec, Es, M1, M2, M3;
    cbn [assets taHand dcHand taDiscard dcDiscard successfulDefenses];
    splits; try reflexivity.
  apply hitAssets_ids.
Qed.

Lemma aiEndOfTurn_frame ids s : aiTurnFrame s (aiEndOfTurn ids s).
Proof.
  unfold aiEndOfTurn, aiTurnFrame.
  destruct (GamePhase_eqb (phase s) attack_phase); fields; splits; reflexivity.
Qed.

(** During the loop of the AI the player blocks at most once, and a block
    is the last thing that happens to the player's defense side. *)
Lemma aiTurnLoop_blocks fuel : forall d o c s s',
  aiTurnLoop fuel d o c s = Ok s' ->
  (successfulDefenses (player s') = successfulDefenses (player s) /\
   dcHand (player s') = dcHand (player s) /\
   dcDiscard (player s') = dcDiscard (player s) /\ dcDeck s' = dcDeck s) \/
  (exists dc,
     In dc (dcHand (player s)) /\
     successfulDefenses (player s') = successfulDefenses (player s) + 1 /\
     dcHand (player s') =
       removeCard (hc_instanceId dc) (dcHand (player s))
       ++ mapWithIds createHandCard (idsDefense o) (take 2 (dcDeck s)) /\
     dcDiscard (player s') = dcDiscard (player s) ++ [hc_card dc] /\
     dcDeck s' = drop 2 (dcDeck s)).
Proof.
  induction fuel as [|fuel IH]; intros d o c s s'; cbn [aiTurnLoop];
    destruct (c && GamePhase_eqb (phase s) attack_phase);
    try discriminate; try (intros [= <-]; left; auto).
  destruct (aiTurnBody d (rndCard o 0) (rndContinue o 0) (idsDefense o) s)
    as [[s1 c1]| |] eqn:Eb; cbn [mbind result_bind fst snd]; try discriminate.
  apply aiTurnBody_cases in Eb
    as ([((Ep & _ & _ & Ed & _) & -> & _)
        |[(a & dc & _ & Hdc & -> & _ & Ep & _ & Ed & _)
         |(a & t & _ & _ & _ & Ep & _ & Ed & _)]] & _).
  - rewrite aiTurnLoop_stop. intros [= <-]. left. rewrite Ep, Ed. auto.
  - rewrite aiTurnLoop_stop. intros [= <-]. right. exists dc.
    apply find_some in Hdc as [Hdc _]. rewrite Ep, Ed. splits; auto.
  - intros Hl. apply IH in Hl. cbn [idsDefense] in Hl.
    rewrite Ep, Ed in Hl. cbn [dcHand dcDiscard successfulDefenses] in Hl. exact Hl.
Qed.

Lemma executeAITurn_frame o s s' : executeAITurn o s = Ok s' -> aiTurnFrame s s'.
Proof.
  apply (executeAITurn_preserves (aiTurnFrame s)).
  - intros d rc rk ids s1 s2 c H1 Eb. eapply aiTurnFrame_trans; [exact H1|].
    eapply aiTurnBody_frame; eauto.
  - intros ids s1 H1. eapply aiTurnFrame_trans; [exact H1|]. apply aiEndOfTurn_frame.
  - apply aiTurnFrame_refl.
Qed.

(** X11. A turn of the AI that returns leaves the AI's assets, defense
    hand, defense discard and counter of defenses, the player's attack hand
    and attack discard, the two selections, the difficulty, the result of
    the coin flip and the count of dealt cards as they were, and the
    player's assets keep their places and instance ids. The player blocks at
    most once in the turn: either the player's defense side and the defense
    pile are unchanged, or exactly one card of the player's defense hand was
    discarded, the counter of defenses rose by one and the player drew up to
    two cards from the defense pile. The cards of the AI's attack discard
    are kept in place at its front. *)
Theorem ai_turn_frame (o : AIOracle) (s s' : GameState) :
  executeAITurn o s = Ok s' ->
  aiTurnFrame s s' /\
  ((successfulDefenses (player s') = successfulDefenses (player s) /\
    dcHand (player s') = dcHand (player s) /\
    dcDiscard (player s') = dcDiscard (player s) /\ dcDeck s' = dcDeck s) \/
   (exists dc,
      In dc (dcHand (player s)) /\
      successfulDefenses (player s') = successfulDefenses (player s) + 1 /\
      dcHand (player s') =
        removeCard (hc_instanceId dc) (dcHand (player s))
        ++ mapWithIds createHandCard (idsDefense o) (take 2 (dcDeck s)) /\
      dcDiscard (player s') = dcDiscard (player s) ++ [hc_card dc] /\
      dcDeck s' = drop 2 (dcDeck s))) /\
  length (assets (player s')) = length (assets (player s)).
Proof.
  intros E.
  pose proof (executeAITurn_frame o s s' E) as F.
  split; [exact F|]. split.
  - unfold executeAITurn in E.
    destruct (aiTurnLoop _ _ o true s) as [s1| |] eqn:El;
      cbn [mbind result_bind] in E; try discriminate.
    injection E as <-. apply aiTurnLoop_blocks in El.
    assert (K : player (aiEndOfTurn (idsEndOfTurn o) s1) = player s1 /\
                dcDeck (aiEndOfTurn (idsEndOfTurn o) s1) = dcDeck s1).
    { unfold aiEndOfTurn. destruct (GamePhase_eqb (phase s1) attack_phase); fields; auto. }
    destruct K as [-> ->]. exact El.
  - destruct F as (_ & _ & _ & _ & _ & _ & _ & _ & _ & _ & _ & F).
    apply (f_equal (@length _)) in F. unfold assetIds in F.
    now rewrite !length_map in F.
Qed.

Lemma ai_turn_frame_witness :
  exists s',
    executeAITurn (demoTurn 1) demoHanded = Ok s' /\ aiTurnFrame demoHanded s' /\
    length (assets (player s')) = length (assets (player demoHanded)).
Proof.
  eexists. split; [vm_compute; reflexivity|].
  match goal with
  | |- aiTurnFrame _ ?x /\ _ =>
      destruct (ai_turn_frame (demoTurn 1) demoHanded x) as (H1 & _ & H2);
        [vm_compute; reflexivity|]
  end.
  exact (conj H1 H2).
Defined.

Lemma aiEndOfTurn_settled ids s : phaseSettled s -> phaseSettled (aiEndOfTurn ids s).
Proof.
  intros H. destruct (aiEndOfTurn_effect ids s) as [Hdraw Hkeep].
  destruct (GamePhase_eq_dec (phase s) attack_phase) as [Hp|Hp].
  - left. apply (Hdraw Hp).
  - destruct (Hkeep Hp) as ((Epl & Eai & _) & Eph & _).
    unfold phaseSettled. rewrite (checkWinCondition_ext _ _ Epl Eai Eph), Eph. exact H.
Qed.

(** How a turn of the AI that starts in [attack_phase] ends: the AI draws
    and hands the turn to the player, or the game is over. *)
Lemma executeAITurn_outcome o s s' :
  phase s = attack_phase -> executeAITurn o s = Ok s' ->
  (phase s' = attack_phase /\ currentAttacker s' = Player /\
   turnNumber s' = turnNumber s + 1 /\ taDeck s' = drop 2 (taDeck s)) \/
  ((phase s' = player_won \/ phase s' = ai_won) /\ checkWinCondition s' = phase s' /\
   currentAttacker s' = currentAttacker s /\ turnNumber s' = turnNumber s /\
   taDeck s' = taDeck s).
Proof.
  intros Hp E. unfold executeAITurn in E.
  destruct (aiTurnLoop _ _ o true s) as [s1| |] eqn:El;
    cbn [mbind result_bind] in E; try discriminate.
  injection E as <-.
  assert (L : currentAttacker s1 = currentAttacker s /\ turnNumber s1 = turnNumber s /\
              taDeck s1 = taDeck s /\ phaseSettled s1).
  { revert El.
    apply (aiTurnLoop_preserves
             (fun x => currentAttacker x = currentAttacker s /\
                       turnNumber x = turnNumber s /\
                       taDeck x = taDeck s /\ phaseSettled x)).
    - intros d rc rk ids' x x' c (X1 & X2 & X3 & X4) Eb.
      pose proof (aiTurnBody_settled _ _ _ _ _ _ _ X4 Eb) as X4'.
      apply aiTurnBody_cases in Eb
        as ([((_ & _ & Et & _) & _)
            |[(a & dc & _ & _ & _ & _ & _ & Et & _)
             |(a & t & _ & _ & _ & _ & Et & _)]] & Ec & En);
        rewrite Ec, En, Et; auto.
    - splits; try reflexivity. now left. }
  destruct L as (L1 & L2 & L3 & L4).
  destruct (aiEndOfTurn_effect (idsEndOfTurn o) s1) as [Hdraw Hkeep].
  destruct L4 as [Hatk|(Hwon & Hcheck)].
  - left. destruct (Hdraw Hatk) as ((_ & _ & Ed & _) & H1 & H2 & H3).
    rewrite Ed, L3, H3, L2. splits; try assumption; reflexivity.
  - right. assert (Hne : phase s1 <> attack_phase) by (destruct Hwon; congruence).
    destruct (Hkeep Hne) as ((Epl & Eai & Ed & _) & H1 & H2 & H3).
    rewrite (checkWinCondition_ext _ _ Epl Eai H1), H1, H2, H3, Ed.
    splits; assumption.
Qed.

(** X12. A legal [endTurn] that returns has let the player draw up to two
    cards from the attack pile onto the end of the attack hand, has cleared
    the selections and has run the AI's turn. Afterwards either the game
    goes on: the phase is [attack_phase], the player is the attacker again,
    the turn counter is two higher and the AI has drawn up to two cards
    from what the player left of the pile; or the AI's turn ended the game:
    the phase is [player_won] or [ai_won] and is the verdict of the win
    check, the AI is still recorded as the attacker, the turn counter is one
    higher and the AI has not drawn. *)
Theorem endTurn_outcome (ids : nat -> string) (o : AIOracle) (s s' : GameState) :
  phase s = attack_phase -> currentAttacker s = Player ->
  endTurn false ids o s = Ok s' ->
  taHand (player s') =
    taHand (player s) ++ mapWithIds createHandCard ids (take 2 (taDeck s)) /\
  selectedCard s' = None /\ selectedAsset s' = None /\
  ((phase s' = attack_phase /\ currentAttacker s' = Player /\
    turnNumber s' = turnNumber s + 2 /\ taDeck s' = drop 2 (drop 2 (taDeck s))) \/
   ((phase s' = player_won \/ phase s' = ai_won) /\ checkWinCondition s' = phase s' /\
    currentAttacker s' = AI /\ turnNumber s' = turnNumber s + 1 /\
    taDeck s' = drop 2 (taDeck s))).
Proof.
  intros Hp Ha E. unfold endTurn in E. rewrite Hp, Ha in E.
  cbn [negb GamePhase_eqb Actor_eqb] in E.
  set (n := turnHandedOver ids s) in *.
  destruct (turnHandedOver_effect ids s) as ((Npl & _ & Ndeck & _ & Nc & Ns) & Nph & Nwho & Ntn & _).
  fold n in Npl, Ndeck, Nc, Ns, Nph, Nwho, Ntn.
  assert (Nph' : phase n = attack_phase) by congruence.
  destruct (executeAITurn_frame o n s' E) as (_ & _ & _ & _ & Fh & _ & Fc & Fs & _).
  rewrite Fh, Fc, Fs, Npl, Nc, Ns. cbn [taHand].
  split; [reflexivity|]. split; [reflexivity|]. split; [reflexivity|].
  destruct (executeAITurn_outcome o n s' Nph' E)
    as [(H1 & H2 & H3 & H4)|(H1 & H2 & H3 & H4 & H5)].
  - left. rewrite H3, H4, Ntn, Ndeck. splits; try assumption; try reflexivity. lia.
  - right. rewrite H3, H4, H5, Nwho, Ntn, Ndeck. splits; try assumption; reflexivity.
Qed.


Lemma endTurn_outcome_witness :
  exists s',
    endTurn false (numbered "draw-1-") (demoTurn 1) demoHard = Ok s' /\
    selectedCard s' = None /\ selectedAsset s' = None /\
    taHand (player s') =
      taHand (player demoHard)
      ++ mapWithIds createHandCard (numbered "draw-1-") (take 2 (taDeck demoHard)).
Proof.
  eexists. split; [vm_compute; reflexivity|].
  match goal with
  | |- selectedCard ?x = _ /\ _ =>
      destruct (endTurn_outcome (numbered "draw-1-") (demoTurn 1) demoHard x)
        as (H1 & H2 & H3 & _); [vm_compute; reflexivity..|]
  end.
  exact (conj H2 (conj H3 H1)).
Defined.

(* --------------------------------------------------------------------- *)
(** *** What the requests keep                                            *)
(* --------------------------------------------------------------------- *)

Lemma extends_refl s : extends s s.
Proof. unfold extends. splits; reflexivity. Qed.

Lemma extends_trans s1 s2 s3 : extends s1 s2 -> extends s2 s3 -> extends s1 s3.
Proof.
  unfold extends.
  intros (A1 & A2 & A3 & A4 & A5 & A6 & A7 & A8 & A9 & A10 & A11)
         (B1 & B2 & B3 & B4 & B5 & B6 & B7 & B8 & B9 & B10 & B11).
  splits; try (etransitivity; eassumption); try lia; congruence.
Qed.

Ltac extends_solve :=
  first [ reflexivity | apply prefix_app_r; reflexivity | apply suffix_drop
        | apply hitAssets_ids | lia ].

(** A state that differs from [s] in its two player records, its two
    draw piles and its turn counter, as given, extends [s]. *)
Ltac extends_by Ep Ea Et Ed En :=
  unfold extends; rewrite ?Ep, ?Ea, ?Et, ?Ed, ?En;
  cbn [assets taHand dcHand taDiscard dcDiscard successfulDefenses];
  splits; extends_solve.

Lemma extends_board s s' :
  player s' = player s -> ai s' = ai s -> taDeck s' = taDeck s ->
  dcDeck s' = dcDeck s -> turnNumber s' = turnNumber s -> extends s s'.
Proof. intros Ep Ea Et Ed En. extends_by Ep Ea Et Ed En. Qed.

Lemma extends_sameBoard s s' :
  sameBoard s s' -> turnNumber s' = turnNumber s -> extends s s'.
Proof. intros (Ep & Ea & Et & Ed & _) En. now apply extends_board. Qed.

Lemma playerAttack_extends r ids s : extends s (playerAttack false r ids s).
Proof.
  destruct (playerAttack_cases r ids s) as [->|(c & t & Hc & Ht & Hp & Ha)];
    [apply extends_refl|].
  destruct (ai_card (aiChooseDefense (dcHand (ai s)) (hc_card c) (difficultyOr s) r))
    as [d|] eqn:Hd.
  - destruct (playerAttack_blocked r ids s c t d Hp Ha Hc Ht Hd)
      as ((Ep & Ea & Et & Ed & _) & _ & En & _).
    extends_by Ep Ea Et Ed En.
  - destruct (playerAttack_hit r ids s c t Hp Ha Hc Ht Hd)
      as ((Ep & Ea & Et & Ed & _) & _ & En & _).
    extends_by Ep Ea Et Ed En.
Qed.

Lemma aiTurnBody_extends d rc rk ids s s' c :
  aiTurnBody d rc rk ids s = Ok (s', c) -> extends s s'.
Proof.
  intros E. apply aiTurnBody_cases in E
    as ([((Ep & Ea & Et & Ed & _) & _)
        |[(a & dc & _ & _ & _ & Ea & Ep & Et & Ed & _)
         |(a & t & _ & _ & Ea & Ep & Et & Ed & _)]] & _ & En);
    extends_by Ep Ea Et Ed En.
Qed.

Lemma aiEndOfTurn_extends ids s : extends s (aiEndOfTurn ids s).
Proof.
  destruct (aiEndOfTurn_effect ids s) as [Hdraw Hkeep].
  destruct (GamePhase_eq_dec (phase s) attack_phase) as [Hp|Hp].
  - destruct (Hdraw Hp) as ((Ep & Ea & Et & Ed & _) & _ & _ & En).
    extends_by Ep Ea Et Ed En.
  - destruct (Hkeep Hp) as (Hsame & _ & _ & En). now apply extends_sameBoard.
Qed.

Lemma turnHandedOver_extends ids s : extends s (turnHandedOver ids s).
Proof.
  destruct (turnHandedOver_effect ids s) as ((Ep & Ea & Et & Ed & _) & _ & _ & En & _).
  extends_by Ep Ea Et Ed En.
Qed.

Lemma serve_extends q s s' : serve q s = Ok s' -> extends s s'.
Proof.
  apply (serve_preserves (fun _ => True) (extends s)); try exact I.
  - intros d x H. eapply extends_trans; [exact H|].
    apply extends_board; reflexivity.
  - intros c x H. eapply extends_trans; [exact H|].
    apply extends_board; reflexivity.
  - intros a x H. eapply extends_trans; [exact H|].
    apply extends_board; reflexivity.
  - intros res x H. eapply extends_trans; [exact H|].
    apply extends_board; reflexivity.
  - intros r ids x _ H. eapply extends_trans; [exact H|]. apply playerAttack_extends.
  - intros ids x H. eapply extends_trans; [exact H|]. apply turnHandedOver_extends.
  - intros d rc rk ids x x' c H E. eapply extends_trans; [exact H|].
    eapply aiTurnBody_extends; eauto.
  - intros ids x H. eapply extends_trans; [exact H|]. apply aiEndOfTurn_extends.
  - apply extends_refl.
Qed.

(** X13. No run of requests takes anything back. From the state a run
    starts in to the state it returns, each of the four discards has only
    grown at its end, neither counter of successful defenses nor the turn
    counter has decreased, each draw pile has only lost cards from its
    front, and the assets of both sides are in the same places with the same
    instance ids. *)
Theorem requests_only_add (script : list (GameState -> Request)) (s s' : GameState) :
  serveAll script s = Ok s' -> extends s s'.
Proof.
  revert s. induction script as [|q script IH]; intros s; cbn [serveAll].
  - intros [= <-]. apply extends_refl.
  - destruct (serve (q s) s) as [s1| |] eqn:E; cbn [mbind result_bind]; try discriminate.
    intros Hs. eapply extends_trans; [eapply serve_extends; exact E|]. now apply IH.
Qed.

Lemma requests_only_add_witness : extends demoGame demoRoundOver.
Proof. apply (requests_only_add demoRound). vm_compute. reflexivity. Defined.

Lemma logConsistent_addLog s e : logConsistent (addLogToState s e).
Proof.
  unfold logConsistent, addLogToState. fields.
  assert (L : length (actionLog s ++ [e]) = length (actionLog s) + 1)
    by (rewrite length_app; reflexivity).
  split.
  - rewrite length_drop, L. lia.
  - rewrite L.
    replace (length (actionLog s) + 1 - 200) with (length (actionLog s) - 199) by lia.
    rewrite drop_app_le by lia. symmetry. apply last_snoc.
Qed.

Lemma logConsistent_ext s s' :
  actionLog s' = actionLog s -> lastAction s' = lastAction s ->
  logConsistent s -> logConsistent s'.
Proof. unfold logConsistent. intros -> ->. auto. Qed.

(** Reads the log through the field updates that do not write it. *)
Ltac log_peel :=
  unfold logConsistent;
  cbn [actionLog lastAction
       set_phase set_currentAttacker set_difficulty set_player set_ai
       set_taDeck set_dcDeck set_attackState set_turnNumber
       set_selectedCard set_selectedAsset set_message
       set_animation set_coinFlipResult];
  try apply logConsistent_addLog.

Lemma playerAttack_log r ids s :
  logConsistent s -> logConsistent (playerAttack false r ids s).
Proof.
  intros H. unfold playerAttack.
  destruct (selectedCard s) as [c|]; [|exact H].
  destruct (selectedAsset s) as [t|]; [|exact H].
  destruct (negb (GamePhase_eqb (phase s) attack_phase)); [exact H|].
  destruct (negb (Actor_eqb (currentAttacker s) Player)); [exact H|].
  cbv zeta. unfold applyWin.
  destruct (getWinReason _) as [[p rs]|]; [log_peel|].
  destruct (ai_card _) as [d|].
  - unfold attackBlocked. log_peel.
  - unfold attackHit. destruct (findIndex _ _); log_peel.
Qed.

Lemma aiTurnBody_log d rc rk ids s s' c :
  aiTurnBody d rc rk ids s = Ok (s', c) -> logConsistent s'.
Proof.
  intros E. apply aiTurnBody_forms in E. cbv zeta in E.
  destruct E as [[_ E]|(t & Et & [[_ E]|(a & Ha & [(dc & _ & E)|[Ef E]])])].
  - injection E as -> ->. apply logConsistent_addLog.
  - injection E as -> ->. apply logConsistent_addLog.
  - apply (f_equal fst) in E. cbn [fst] in E. subst s'.
    match goal with
    | |- context [aiWinCheck ?b ?X] =>
        destruct (aiWinCheck_settles b X) as (_ & _ & _ & _ & _ & W1 & W2)
    end.
    eapply logConsistent_ext; [exact W1|exact W2|]. apply logConsistent_addLog.
  - apply (f_equal fst) in E. cbn [fst] in E. subst s'.
    match goal with
    | |- context [aiWinCheck ?b ?X] =>
        destruct (aiWinCheck_settles b X) as (_ & _ & _ & _ & _ & W1 & W2)
    end.
    eapply logConsistent_ext; [exact W1|exact W2|].
    unfold aiHit. cbv zeta. destruct (findIndex _ _); log_peel.
Qed.

Lemma aiEndOfTurn_log ids s : logConsistent s -> logConsistent (aiEndOfTurn ids s).
Proof.
  apply logConsistent_ext; unfold aiEndOfTurn;
    destruct (GamePhase_eqb (phase s) attack_phase); reflexivity.
Qed.

(** X14. In every reachable state the action log holds at most 200 entries
    and [lastAction] is the last entry of the log (both are empty in a new
    game). *)
Theorem log_is_bounded (s : GameState) :
  reachable s -> logConsistent s.
Proof.
  apply (reachable_preserves logConsistent).
  - intros cnt o _. split; [cbn; lia|reflexivity].
  - intros d x. apply logConsistent_ext; reflexivity.
  - intros c x. apply logConsistent_ext; reflexivity.
  - intros a x. apply logConsistent_ext; reflexivity.
  - intros res x. apply logConsistent_ext; reflexivity.
  - intros r ids x _. apply playerAttack_log.
  - intros ids x. apply logConsistent_ext; reflexivity.
  - intros d rc rk ids x x' c _. apply aiTurnBody_log.
  - intros ids x. apply aiEndOfTurn_log.
Qed.

Lemma log_is_bounded_witness : logConsistent demoRoundOver.
Proof.
  apply log_is_bounded.
  apply (reachable_serveAll demoRound demoGame).
  - apply reachable_init.
    unfold freshInit, distinctIds.
    splits; apply (bool_decide_unpack _); vm_compute; reflexivity.
  - by_evaluation.
  - vm_compute. reflexivity.
Defined.

(* --------------------------------------------------------------------- *)
(** *** The cards of a game                                               *)
(* --------------------------------------------------------------------- *)

(** An iteration of the AI loop keeps a state well formed and the ids of
    the closing draw fresh; when the loop goes on, the player's defense hand
    is as it was. *)
Lemma aiTurnBody_wellFormed d rc rk ids s s' c :
  wellFormed s -> freshFor ids (dcHand (player s)) ->
  aiTurnBody d rc rk ids s = Ok (s', c) ->
  wellFormed s' /\
  (forall ids', freshFor ids' (taHand (ai s)) -> freshFor ids' (taHand (ai s'))) /\
  (c = true -> dcHand (player s') = dcHand (player s)).
Proof.
  intros Hwf Hf E. apply aiTurnBody_cases in E
    as ([(Hsame & -> & _)|[(a & dc & Ha & Hdc & -> & E)|(a & t & Ha & Ht & E)]] & _).
  - split; [eapply wellFormed_sameBoard; eauto|]. destruct Hsame as (_ & -> & _).
    split; [auto|discriminate].
  - apply find_some in Hdc as [Hdc _].
    split; [eapply wellFormed_aiBlocked; eauto|]. destruct E as (-> & _).
    split; [|discriminate]. intros ids'. apply freshFor_removeCard.
  - split; [eapply wellFormed_aiHit; eauto|]. destruct E as (-> & -> & _).
    split; [|reflexivity]. intros ids'. apply freshFor_removeCard.
Qed.

(** As [aiTurnLoop_preserves], for what is kept in well-formed states. *)
Lemma aiTurnLoop_preserves_wf (P : GameState -> Prop) :
  (forall d rc rk ids s s' c,
     wellFormed s -> P s -> aiTurnBody d rc rk ids s = Ok (s', c) -> P s') ->
  forall fuel d o c s s',
    wellFormed s -> freshTurn o s -> P s -> aiTurnLoop fuel d o c s = Ok s' -> P s'.
Proof.
  intros Hbody. induction fuel as [|fuel IH]; intros d o c s s' Hwf [Hfd Hfe] HP;
    cbn [aiTurnLoop];
    destruct (c && GamePhase_eqb (phase s) attack_phase);
    try discriminate; try (intros [= <-]; exact HP).
  destruct (aiTurnBody d (rndCard o 0) (rndContinue o 0) (idsDefense o) s)
    as [[s1 c1]| |] eqn:Eb; cbn [mbind result_bind fst snd]; try discriminate.
  pose proof (Hbody _ _ _ _ _ _ _ Hwf HP Eb) as HP1.
  destruct (aiTurnBody_wellFormed _ _ _ _ _ _ _ Hwf Hfd Eb) as (Hwf1 & Hfe1 & Hdc1).
  destruct c1; [|rewrite aiTurnLoop_stop; intros [= <-]; exact HP1].
  apply IH; try assumption.
  split; cbn [idsDefense idsEndOfTurn]; [rewrite Hdc1 by reflexivity|]; auto.
Qed.

Lemma executeAITurn_preserves_wf (P : GameState -> Prop) :
  (forall d rc rk ids s s' c,
     wellFormed s -> P s -> aiTurnBody d rc rk ids s = Ok (s', c) -> P s') ->
  (forall ids s, P s -> P (aiEndOfTurn ids s)) ->
  forall o s s',
    wellFormed s -> freshTurn o s -> P s -> executeAITurn o s = Ok s' -> P s'.
Proof.
  intros Hbody Hend o s s' Hwf Hf HP. unfold executeAITurn.
  destruct (aiTurnLoop _ _ o true s) as [s1| |] eqn:El;
    cbn [mbind result_bind]; try discriminate.
  intros [= <-]. apply Hend. eapply aiTurnLoop_preserves_wf; eauto.
Qed.

(** As [serve_preserves], for admissible requests in well-formed states. *)
Lemma serve_preserves_wf (P : GameState -> Prop) :
  (forall d s, P s -> P (setDifficulty d s)) ->
  (forall c s, P s -> P (selectCard c s)) ->
  (forall a s, P s -> P (selectAsset a s)) ->
  (forall res s, P s -> P (coinFlipped res s)) ->
  (forall r ids s, wellFormed s -> P s -> P (playerAttack false r ids s)) ->
  (forall ids s, P s -> P (turnHandedOver ids s)) ->
  (forall d rc rk ids s s' c,
     wellFormed s -> P s -> aiTurnBody d rc rk ids s = Ok (s', c) -> P s') ->
  (forall ids s, P s -> P (aiEndOfTurn ids s)) ->
  forall q s s', wellFormed s -> admissible q s -> P s -> serve q s = Ok s' -> P s'.
Proof.
  intros Hd Hc Ha Hflip Hatk Hover Hbody Hend q s s' Hwf Hadm HP.
  destruct q as [d|r o|c|a|r ids|ids o]; cbn [serve admissible] in *.
  - ok_inv. auto.
  - destruct (performCoinFlip_cases r o s) as [->|(_ & [->| ->])].
    + ok_inv. assumption.
    + ok_inv. auto.
    + apply (executeAITurn_preserves_wf P Hbody Hend); auto.
  - ok_inv. auto.
  - ok_inv. auto.
  - ok_inv. auto.
  - destruct Hadm as [Hfp Hft].
    destruct (endTurn_cases ids o s) as [->|(_ & _ & ->)].
    + ok_inv. assumption.
    + destruct (turnHandedOver_effect ids s) as (E & _).
      apply (executeAITurn_preserves_wf P Hbody Hend).
      * eapply wellFormed_playerDraw; eauto.
      * destruct E as (Ep & Ea & _). unfold freshTurn. rewrite Ep, Ea. exact Hft.
      * auto.
Qed.

Lemma reachable_preserves_wf (P : GameState -> Prop) :
  (forall cnt o, freshInit o -> P (initializeGame cnt o)) ->
  (forall d s, P s -> P (setDifficulty d s)) ->
  (forall c s, P s -> P (selectCard c s)) ->
  (forall a s, P s -> P (selectAsset a s)) ->
  (forall res s, P s -> P (coinFlipped res s)) ->
  (forall r ids s, wellFormed s -> P s -> P (playerAttack false r ids s)) ->
  (forall ids s, P s -> P (turnHandedOver ids s)) ->
  (forall d rc rk ids s s' c,
     wellFormed s -> P s -> aiTurnBody d rc rk ids s = Ok (s', c) -> P s') ->
  (forall ids s, P s -> P (aiEndOfTurn ids s)) ->
  forall s, reachable s -> P s.
Proof.
  intros Hinit Hd Hc Ha Hflip Hatk Hover Hbody Hend s Hr.
  induction Hr as [cnt o Hf|s q s' Hr IH Hadm Hs]; [auto|].
  eapply (serve_preserves_wf P); eauto using reachable_wellFormed.
Qed.

(** A card of a hand with unique instance ids, and the rest of the hand. *)
Lemma removeCard_Permutation hand c :
  NoDup (handIds hand) -> In c hand ->
  Permutation (map hc_card hand)
    (hc_card c :: map hc_card (removeCard (hc_instanceId c) hand)).
Proof.
  induction hand as [|x hand IH]; intros Hnd Hin; [destruct Hin|].
  cbn in Hnd. apply NoDup_cons in Hnd as [Hx Hnd]. rewrite list_elem_of_In in Hx.
  cbn. destruct Hin as [->|Hin].
  - rewrite String.eqb_refl. cbn.
    assert (E : removeCard (hc_instanceId c) hand = hand).
    { unfold removeCard. apply forallb_filter_id, forallb_forall. intros y Hy.
      apply negb_true_iff, String.eqb_neq. intros E. apply Hx. rewrite <- E.
      unfold handIds. now apply in_map. }
    unfold removeCard in E. now rewrite E.
  - destruct (String.eqb_spec (hc_instanceId x) (hc_instanceId c)) as [E|E]; cbn.
    + exfalso. apply Hx. rewrite E. unfold handIds. now apply in_map.
    + specialize (IH Hnd Hin). unfold removeCard in IH. rewrite IH. apply perm_swap.
Qed.

Lemma sameCards_refl s : sameCards s s.
Proof. split; reflexivity. Qed.

Lemma sameCards_trans s1 s2 s3 : sameCards s1 s2 -> sameCards s2 s3 -> sameCards s1 s3.
Proof. intros [A1 A2] [B1 B2]. split; etransitivity; eassumption. Qed.

Lemma sameCards_board s s' :
  player s' = player s -> ai s' = ai s -> taDeck s' = taDeck s ->
  dcDeck s' = dcDeck s -> sameCards s s'.
Proof.
  intros Ep Ea Et Ed. unfold sameCards, taCardsOf, dcCardsOf.
  rewrite Ep, Ea, Et, Ed. split; reflexivity.
Qed.

(** Rewrites the cards of the state at hand into those of [s], given the
    records and piles of the state. *)
Ltac cards_unfold Ep Ea Et Ed :=
  unfold sameCards, taCardsOf, dcCardsOf; rewrite Ep, Ea, Et, Ed;
  cbn [assets taHand dcHand taDiscard dcDiscard successfulDefenses];
  rewrite ?map_app, ?(mapWithIds_proj createHandCard hc_card) by reflexivity.

(** Closes a goal that says that cards played from hands with unique ids
    to discards, and cards drawn from the front of a pile, are still there. *)
Ltac cards_solve :=
  repeat match goal with
         | H : NoDup (handIds ?h), I : In ?c ?h |- _ =>
             rewrite (removeCard_Permutation h c H I)
         end;
  try match goal with
      | |- context [drop 2 ?p] =>
          let TD := fresh "TD" in
          pose proof (take_drop 2 p) as TD;
          set (tk := take 2 p) in *; set (dr := drop 2 p) in *; rewrite <- TD
      end;
  solve_Permutation.

Lemma playerAttack_sameCards r ids s :
  wellFormed s -> sameCards s (playerAttack false r ids s).
Proof.
  intros Hwf.
  destruct (playerAttack_cases r ids s) as [->|(c & t & Hc & Ht & Hp & Ha)];
    [apply sameCards_refl|].
  assert (Hin : In c (taHand (player s))) by (apply Hwf; assumption).
  destruct Hwf as ((N1 & N2 & N3 & N4 & _) & _).
  destruct (ai_card (aiChooseDefense (dcHand (ai s)) (hc_card c) (difficultyOr s) r))
    as [d|] eqn:Hd.
  - destruct (playerAttack_blocked r ids s c t d Hp Ha Hc Ht Hd)
      as ((Ep & Ea & Et & Ed & _) & _).
    apply aiChooseDefense_card in Hd as [Hd _].
    cards_unfold Ep Ea Et Ed. split; cards_solve.
  - destruct (playerAttack_hit r ids s c t Hp Ha Hc Ht Hd)
      as ((Ep & Ea & Et & Ed & _) & _).
    cards_unfold Ep Ea Et Ed. split; cards_solve.
Qed.

Lemma aiTurnBody_sameCards d rc rk ids s s' c :
  wellFormed s -> aiTurnBody d rc rk ids s = Ok (s', c) -> sameCards s s'.
Proof.
  intros ((N1 & N2 & N3 & N4 & _) & _) E. apply aiTurnBody_cases in E
    as ([((Ep & Ea & Et & Ed & _) & _)
        |[(a & dc & Hin & Hdc & _ & Ea & Ep & Et & Ed & _)
         |(a & t & Hin & _ & Ea & Ep & Et & Ed & _)]] & _).
  - now apply sameCards_board.
  - apply find_some in Hdc as [Hdc _]. cards_unfold Ep Ea Et Ed. split; cards_solve.
  - cards_unfold Ep Ea Et Ed. split; cards_solve.
Qed.

Lemma aiEndOfTurn_sameCards ids s : sameCards s (aiEndOfTurn ids s).
Proof.
  destruct (aiEndOfTurn_effect ids s) as [Hdraw Hkeep].
  destruct (GamePhase_eq_dec (phase s) attack_phase) as [Hp|Hp].
  - destruct (Hdraw Hp) as ((Ep & Ea & Et & Ed & _) & _).
    cards_unfold Ep Ea Et Ed. split; cards_solve.
  - destruct (Hkeep Hp) as ((Ep & Ea & Et & Ed & _) & _). now apply sameCards_board.
Qed.

Lemma turnHandedOver_sameCards ids s : sameCards s (turnHandedOver ids s).
Proof.
  destruct (turnHandedOver_effect ids s) as ((Ep & Ea & Et & Ed & _) & _).
  cards_unfold Ep Ea Et Ed. split; cards_solve.
Qed.

(** Every admissible request leaves the cards of a well-formed state where
    they are or moves them; none is lost or doubled. *)
Lemma serve_sameCards q s s' :
  wellFormed s -> admissible q s -> serve q s = Ok s' -> sameCards s s'.
Proof.
  intros Hwf Hadm. apply (serve_preserves_wf (sameCards s)); try assumption.
  - intros d x H. eapply sameCards_trans; [exact H|]. apply sameCards_board; reflexivity.
  - intros c x H. eapply sameCards_trans; [exact H|]. apply sameCards_board; reflexivity.
  - intros a x H. eapply sameCards_trans; [exact H|]. apply sameCards_board; reflexivity.
  - intros res x H. eapply sameCards_trans; [exact H|]. apply sameCards_board; reflexivity.
  - intros r ids x Hx H. eapply sameCards_trans; [exact H|]. now apply playerAttack_sameCards.
  - intros ids x H. eapply sameCards_trans; [exact H|]. apply turnHandedOver_sameCards.
  - intros d rc rk ids x x' c Hx H E. eapply sameCards_trans; [exact H|].
    eapply aiTurnBody_sameCards; eauto.
  - intros ids x H. eapply sameCards_trans; [exact H|]. apply aiEndOfTurn_sameCards.
  - apply sameCards_refl.
Qed.

Lemma attackSideOf_NoDup cnt : NoDup (attackSideOf (generateFullDeck cnt).1).
Proof.
  apply (NoDup_fmap_1 cardId).
  change (NoDup (map (fun k => "card-" +:+ natToString (k + cnt))
                   (seq 1 10 ++ seq 14 10 ++ [53]))).
  apply NoDup_fmap_2.
  - intros a b H. cbn in H. injection H as H. apply natToString_inj in H. lia.
  - apply (bool_decide_unpack _). vm_compute. reflexivity.
Qed.

Lemma defenseSideOf_NoDup cnt : NoDup (defenseSideOf (generateFullDeck cnt).1).
Proof.
  apply (NoDup_fmap_1 cardId).
  change (NoDup (map (fun k => "card-" +:+ natToString (k + cnt))
                   (seq 27 10 ++ seq 40 10 ++ [54]))).
  apply NoDup_fmap_2.
  - intros a b H. cbn in H. injection H as H. apply natToString_inj in H. lia.
  - apply (bool_decide_unpack _). vm_compute. reflexivity.
Qed.

Lemma deck_first {A} (d a b : list A) :
  Permutation (d ++ a ++ b ++ [] ++ []) (a ++ b ++ d).
Proof. solve_Permutation. Qed.

Lemma attackSideOf_categories cnt :
  Forall (fun c => category c = threat_agent \/ category c = joker)
    (attackSideOf (generateFullDeck cnt).1).
Proof. repeat (constructor; [first [now left|now right]|]). constructor. Qed.

Lemma defenseSideOf_categories cnt :
  Forall (fun c => category c = defense_control \/ category c = joker)
    (defenseSideOf (generateFullDeck cnt).1).
Proof. repeat (constructor; [first [now left|now right]|]). constructor. Qed.

Lemma initializeGame_cards cnt o :
  Permutation (taCardsOf (initializeGame cnt o)) (attackSideOf (generateFullDeck cnt).1) /\
  Permutation (dcCardsOf (initializeGame cnt o)) (defenseSideOf (generateFullDeck cnt).1).
Proof.
  unfold taCardsOf, dcCardsOf, attackSideOf, defenseSideOf.
  split.
  - etransitivity; [|apply (deal_Permutation (idsPlayerTA o) (idsAITA o) (rndTA o))].
    unfold initializeGame. cbv zeta. fields. apply deck_first.
  - etransitivity; [|apply (deal_Permutation (idsPlayerDC o) (idsAIDC o) (rndDC o))].
    unfold initializeGame. cbv zeta. fields. apply deck_first.
Qed.

(** The cards of a reachable state are those of the deck it was generated
    from. *)
Lemma reachable_cards s :
  reachable s ->
  exists cnt,
    Permutation (taCardsOf s) (attackSideOf (generateFullDeck cnt).1) /\
    Permutation (dcCardsOf s) (defenseSideOf (generateFullDeck cnt).1).
Proof.
  induction 1 as [cnt o Hf|s q s' Hr (cnt & IH1 & IH2) Hadm Hs].
  - exists cnt. apply initializeGame_cards.
  - exists cnt.
    destruct (serve_sameCards q s s' (reachable_wellFormed s Hr) Hadm Hs) as [H1 H2].
    split; [exact (Permutation_trans H1 IH1)|exact (Permutation_trans H2 IH2)].
Qed.

(** X15. The cards of a game are conserved. In every reachable state the
    attack pile, the two attack hands and the two attack discards together
    hold exactly the 20 threat agent cards and the first joker of the deck
    the game was generated from, each card once; the defense pile, hands and
    discards hold exactly the 20 defense control cards and the second joker,
    each once. So no card is lost or doubled by any request, and no card
    ever changes sides: the attack side holds threat agent cards and a joker
    only, the defense side defense control cards and a joker only. *)
Theorem cards_are_conserved (s : GameState) :
  reachable s ->
  exists cardIdCounter,
    let deck := (generateFullDeck cardIdCounter).1 in
    Permutation (taCardsOf s) (attackSideOf deck) /\
    Permutation (dcCardsOf s) (defenseSideOf deck) /\
    NoDup (taCardsOf s) /\ NoDup (dcCardsOf s) /\
    Forall (fun c => category c = threat_agent \/ category c = joker) (taCardsOf s) /\
    Forall (fun c => category c = defense_control \/ category c = joker) (dcCardsOf s).
Proof.
  intros Hr. destruct (reachable_cards s Hr) as (cnt & H1 & H2).
  exists cnt. cbv zeta.
  split; [exact H1|]. split; [exact H2|]. splits.
  - rewrite H1. apply attackSideOf_NoDup.
  - rewrite H2. apply defenseSideOf_NoDup.
  - rewrite H1. apply attackSideOf_categories.
  - rewrite H2. apply defenseSideOf_categories.
Qed.

Lemma cards_are_conserved_witness :
  exists cardIdCounter,
    Permutation (taCardsOf demoRoundOver) (attackSideOf (generateFullDeck cardIdCounter).1) /\
    Permutation (dcCardsOf demoRoundOver) (defenseSideOf (generateFullDeck cardIdCounter).1).
Proof.
  destruct (cards_are_conserved demoRoundOver) as (cnt & H1 & H2 & _).
  - apply (reachable_serveAll demoRound demoGame).
    + apply reachable_init.
      unfold freshInit, distinctIds.
      splits; apply (bool_decide_unpack _); vm_compute; reflexivity.
    + by_evaluation.
    + vm_compute. reflexivity.
  - exists cnt. exact (conj H1 H2).
Defined.

Lemma reachable_attackSide s : reachable s -> Forall attackSide (taHand (ai s)).
Proof.
  intros Hr. destruct (reachable_cards s Hr) as (cnt & H1 & _).
  assert (F : Forall (fun c => category c = threat_agent \/ category c = joker)
                (taCardsOf s)) by (rewrite H1; apply attackSideOf_categories).
  unfold taCardsOf in F. rewrite !Forall_app in F. destruct F as (_ & _ & F & _).
  rewrite Forall_forall in F. apply Forall_forall. intros hc Hin.
  apply (F (hc_card hc)). apply list_elem_of_In, in_map, list_elem_of_In, Hin.
Qed.

(** X16. In a reachable state every request returns a state: no operation
    of the hook throws, and the loop of the AI's turn comes to its end (the
    AI's attack hand holds threat agent cards and jokers only, so its choice
    of a card never reads an undefined element, and every iteration that
    goes on takes a card out of that hand). *)
Theorem requests_always_return (s : GameState) (q : Request) :
  reachable s -> exists s', serve q s = Ok s'.
Proof.
  intros Hr. pose proof (reachable_attackSide s Hr) as Hside.
  destruct q as [d|r o|c|a|r ids|ids o]; cbn [serve]; eauto.
  - destruct (performCoinFlip_cases r o s) as [->|(_ & [->| ->])]; eauto.
    apply executeAITurn_returns. exact Hside.
  - destruct (endTurn_cases ids o s) as [->|(_ & _ & ->)]; eauto.
    apply executeAITurn_returns. exact Hside.
Qed.

Lemma requests_always_return_witness :
  exists s', serve (EndTurn (numbered "draw-1-") (demoTurn 1)) demoHard = Ok s'.
Proof.
  apply requests_always_return.
  apply (reachable_serveAll (demoOpening hard) demoGame).
  - apply reachable_init.
    unfold freshInit, distinctIds.
    splits; apply (bool_decide_unpack _); vm_compute; reflexivity.
  - by_evaluation.
  - vm_compute. reflexivity.
Defined.

(* --------------------------------------------------------------------- *)
(** *** Damage counters                                                   *)
(* --------------------------------------------------------------------- *)

(** With unique ids a hit on one of the assets changes that asset only. *)
Lemma hitAssets_step t l i a :
  NoDup (assetIds l) -> In t l -> l !! i = Some a ->
  hitAssets t l !! i = Some a \/
  (a = t /\
   hitAssets t l !! i =
     Some (mkCyberAsset (ca_instanceId t) (ca_card t)
             (getNextAssetState (state t)) (damageCount t + 1))).
Proof.
  intros Hnd Hin Hi. destruct (hitAssets_lookup t l i a Hi) as [E|[Eid E]]; [now left|].
  right. apply list_elem_of_In, list_elem_of_lookup in Hin as [j Hj].
  assert (i = j) by (eapply NoDup_assetIds_eq; eauto). subst j.
  assert (a = t) by congruence. subst a. auto.
Qed.

Lemma hitAssets_tracks t l :
  NoDup (assetIds l) -> In t l ->
  Forall counterTracksState l -> Forall counterTracksState (hitAssets t l).
Proof.
  intros Hnd Hin. rewrite !Forall_lookup. intros Hall i a' Hi'.
  destruct (l !! i) as [a|] eqn:Hi.
  - destruct (hitAssets_step t l i a Hnd Hin Hi) as [E|[-> E]].
    + assert (a' = a) by congruence. subst a'. eauto.
    + assert (Ea : a' = mkCyberAsset (ca_instanceId t) (ca_card t)
                         (getNextAssetState (state t)) (damageCount t + 1))
        by congruence.
      subst a'. destruct (Hall i t Hi) as [H1 H2]. unfold counterTracksState. cbn.
      destruct (state t); cbn in *; split; intros Hs; try congruence;
        try (rewrite H1 by discriminate; cbn; lia);
        try (specialize (H2 eq_refl); lia).
  - apply lookup_lt_Some in Hi'. rewrite hitAssets_length in Hi'.
    apply lookup_ge_None in Hi. lia.
Qed.

Lemma playerAttack_counted r ids s :
  wellFormed s -> assetsCounted s -> assetsCounted (playerAttack false r ids s).
Proof.
  intros Hwf [Hp Ha].
  destruct (playerAttack_cases r ids s) as [->|(c & t & Hc & Ht & Hph & Hat)];
    [split; assumption|].
  destruct (ai_card (aiChooseDefense (dcHand (ai s)) (hc_card c) (difficultyOr s) r))
    as [d|] eqn:Hd.
  - destruct (playerAttack_blocked r ids s c t d Hph Hat Hc Ht Hd) as ((Ep & Ea & _) & _).
    unfold assetsCounted. rewrite Ep, Ea. cbn [assets]. split; assumption.
  - destruct (playerAttack_hit r ids s c t Hph Hat Hc Ht Hd) as ((Ep & Ea & _) & _).
    unfold assetsCounted. rewrite Ep, Ea. cbn [assets]. split; [assumption|].
    apply hitAssets_tracks; [apply Hwf|now apply Hwf|assumption].
Qed.

Lemma aiTurnBody_counted d rc rk ids s s' c :
  wellFormed s -> assetsCounted s -> aiTurnBody d rc rk ids s = Ok (s', c) ->
  assetsCounted s'.
Proof.
  intros Hwf [Hp Ha] E. apply aiTurnBody_cases in E
    as ([((Epl & Eai & _) & _)
        |[(a & dc & _ & _ & _ & Eai & Epl & _)
         |(a & t & _ & Ht & Eai & Epl & _)]] & _);
    unfold assetsCounted; rewrite Epl, Eai; cbn [assets]; split; try assumption.
  apply aiChooseTarget_Some in Ht as (Hin & Hnd & _).
  apply hitAssets_progress; try assumption. apply Hwf.
Qed.

(** X17. In every reachable state each side holds 3 assets; the damage
    counter of every asset of the player, the side the AI attacks, is the
    index of the asset's state (0 face down, 1 revealed, 2 rotated, 3
    destroyed); and the damage counter of every asset of the AI, the side
    the player attacks, is the index of its state as long as the asset is
    not destroyed, and 3 or more once it is. *)
Theorem asset_counters_track_states (s : GameState) :
  reachable s ->
  length (assets (player s)) = 3 /\ length (assets (ai s)) = 3 /\
  Forall counterMatchesState (assets (player s)) /\
  Forall counterTracksState (assets (ai s)) /\
  Forall (fun a => damageCount a <= 3) (assets (player s)).
Proof.
  intros Hr.
  assert (L : length (assetIds (assets (player s))) = 3 /\
              length (assetIds (assets (ai s))) = 3).
  { induction Hr as [cnt o Hf|s q s' Hr IH Hadm Hs].
    - destruct (deck_sizes cnt) as (_ & _ & L3 & L4).
      unfold assetIds, initializeGame, mapWithIds, slice, shuffle. cbv zeta. fields.
      now rewrite !length_map, !length_imap, !length_take, !length_drop,
        !fisherYates_length, L3, L4.
    - apply serve_extends in Hs as (_ & _ & _ & _ & _ & _ & _ & _ & _ & E1 & E2).
      now rewrite E1, E2. }
  unfold assetIds in L. rewrite !length_map in L. destruct L as [L1 L2].
  assert (C : assetsCounted s).
  { clear L1 L2. revert s Hr.
    apply (reachable_preserves_wf assetsCounted).
    - intros cnt o _. split; apply mapWithIds_Forall, Forall_forall; intros x _ i.
      + reflexivity.
      + split; [reflexivity|discriminate].
    - intros d x H. exact H.
    - intros c x H. exact H.
    - intros a x H. exact H.
    - intros res x H. exact H.
    - intros r ids x. apply playerAttack_counted.
    - intros ids x H. exact H.
    - intros d rc rk ids x x' c. apply aiTurnBody_counted.
    - intros ids x H. unfold assetsCounted, aiEndOfTurn.
      destruct (GamePhase_eqb (phase x) attack_phase); exact H. }
  destruct C as [C1 C2]. splits; try assumption.
  eapply Forall_impl; [exact C1|]. intros a Ha. unfold counterMatchesState in Ha.
  rewrite Ha. destruct (state a); cbn; lia.
Qed.

Lemma asset_counters_track_states_witness :
  Forall counterMatchesState (assets (player demoOverkill)) /\
  Forall counterTracksState (assets (ai demoOverkill)) /\
  (damageCount <$> assets (ai demoOverkill) !! 0) = Some 4.
Proof.
  destruct (asset_counters_track_states demoOverkill) as (_ & _ & H1 & H2 & _).
  - apply (reachable_serveAll
             (demoBreach ++ [fun _ => Attack (99 # 100)%Q (numbered "redraw-4-")])
             demoGame).
    + apply reachable_init.
      unfold freshInit, distinctIds.
      splits; apply (bool_decide_unpack _); vm_compute; reflexivity.
    + by_evaluation.
    + vm_compute. reflexivity.
  - exact (conj H1 (conj H2 eq_refl)).
Defined.

(* --------------------------------------------------------------------- *)
(** *** Phases                                                            *)
(* --------------------------------------------------------------------- *)

Lemma checkWinCondition_find s :
  checkWinCondition s =
    match List.find (satisfied s) winOrder with
    | Some c => verdict c
    | None => phase s
    end.
Proof.
  unfold checkWinCondition, winOrder, List.find, satisfied, ASSETS_TO_WIN, DEFENSES_TO_WIN.
  case_guards; reflexivity.
Qed.

Lemma verdict_over c : verdict c = player_won \/ verdict c = ai_won.
Proof. destruct c; cbn; auto. Qed.

(** The fields that [playerAttack] does not write. *)
Lemma playerAttack_settings r ids s :
  difficulty (playerAttack false r ids s) = difficulty s /\
  coinFlipResult (playerAttack false r ids s) = coinFlipResult s /\
  cardsDrawnThisGame (playerAttack false r ids s) = cardsDrawnThisGame s.
Proof.
  unfold playerAttack.
  destruct (selectedCard s) as [c|]; [|auto].
  destruct (selectedAsset s) as [t|]; [|auto].
  destruct (negb (GamePhase_eqb (phase s) attack_phase)); [auto|].
  destruct (negb (Actor_eqb (currentAttacker s) Player)); [auto|].
  cbv zeta. unfold applyWin.
  destruct (getWinReason _) as [[p rs]|]; destruct (ai_card _) as [d|];
    unfold attackBlocked, attackHit; try destruct (findIndex _ _);
    fields; splits; reflexivity.
Qed.

(** The phase and the turn that a legal attack of the player leaves. *)
Lemma playerAttack_phase r ids s :
  phase s = attack_phase -> currentAttacker s = Player ->
  let s' := playerAttack false r ids s in
  (s' = s \/
   phase s' =
     match List.find (satisfied s') winOrder with
     | Some w => verdict w
     | None => attack_phase
     end) /\
  turnNumber s' = turnNumber s /\ currentAttacker s' = Player.
Proof.
  intros Hp Ha s'. subst s'.
  destruct (playerAttack_cases r ids s) as [->|(c & t & Hc & Ht & _ & _)]; [auto|].
  destruct (ai_card (aiChooseDefense (dcHand (ai s)) (hc_card c) (difficultyOr s) r))
    as [d|] eqn:Hd.
  - destruct (playerAttack_blocked r ids s c t d Hp Ha Hc Ht Hd) as (_ & H1 & H2 & H3). auto.
  - destruct (playerAttack_hit r ids s c t Hp Ha Hc Ht Hd) as (_ & H1 & H2 & H3). auto.
Qed.

Lemma playerAttack_discipline r ids s :
  phaseDiscipline s -> phaseDiscipline (playerAttack false r ids s).
Proof.
  intros H.
  destruct (GamePhase_eq_dec (phase s) attack_phase) as [Hp|Hp].
  2:{ destruct (playerAttack_cases r ids s) as [->|(c & t & _ & _ & Hp' & _)];
        [exact H|contradiction]. }
  destruct (Actor_eqb (currentAttacker s) Player) eqn:Ha.
  2:{ destruct (playerAttack_cases r ids s) as [->|(c & t & _ & _ & _ & Ha')];
        [exact H|]. apply Actor_eqb_eq in Ha'. congruence. }
  apply Actor_eqb_eq in Ha.
  destruct (playerAttack_phase r ids s Hp Ha) as ([E|E] & En & _); [now rewrite E|].
  destruct (playerAttack_settings r ids s) as (S1 & S2 & S3).
  destruct H as (_ & H2 & _ & H4 & H5 & H6).
  assert (Hd : difficulty s <> None).
  { intros X. apply H2 in X. congruence. }
  unfold phaseDiscipline. rewrite S1, S2, S3, En.
  pose proof (checkWinCondition_find (playerAttack false r ids s)) as W.
  destruct (List.find _ winOrder) as [w|].
  - rewrite E in *. pose proof (verdict_over w) as V. splits; try assumption.
    + tauto.
    + split; [destruct V; congruence|contradiction].
    + auto.
    + intros X. apply H4 in X. destruct X; congruence.
  - rewrite E in *. splits; try assumption.
    + tauto.
    + split; [discriminate|contradiction].
    + intros [X|X]; discriminate.
    + intros X. apply H4 in X. destruct X; congruence.
Qed.

Lemma aiTurnBody_discipline d rc rk ids s s' c :
  phase s = attack_phase -> phaseDiscipline s ->
  aiTurnBody d rc rk ids s = Ok (s', c) -> phaseDiscipline s'.
Proof.
  intros Hp (_ & H2 & _ & H4 & H5 & H6) E.
  pose proof (aiTurnBody_settings _ _ _ _ _ _ _ E) as (S1 & S2 & S3 & S4 & S5).
  apply aiTurnBody_cases in E as (_ & _ & En).
  assert (Hd : difficulty s <> None).
  { intros X. apply H2 in X. congruence. }
  unfold phaseDiscipline. rewrite S1, S2, S3, En. splits; try assumption.
  - rewrite Hp in S5. tauto.
  - split; [|contradiction]. intros X. rewrite X in S5.
    destruct S5 as [?|[?|?]]; congruence.
  - intros Hw. destruct S4 as [(X & _)|X]; [|now symmetry].
    rewrite X, Hp in Hw. destruct Hw; discriminate.
  - intros X. apply H4 in X. destruct X; congruence.
Qed.

(** X18. The phase of a reachable state, the state a request leaves once
    it has run to its end, is one of [difficulty_select], [coin_flip],
    [attack_phase], [player_won] and [ai_won]; the phases [setup],
    [draw_phase], [defense_phase] and [resolution_phase] are never left
    behind. The phase is [difficulty_select] exactly as long as no
    difficulty is set; a game in [player_won] or [ai_won] is in the phase
    that the win check computes from its assets and counters; a game without
    a coin flip result is still before the first turn; the turn counter is
    at least 1; and [cardsDrawnThisGame] stays the 20 of the deal. *)
Theorem phase_discipline (s : GameState) :
  reachable s -> phaseDiscipline s.
Proof.
  apply (reachable_guarded phaseDiscipline).
  - intros cnt o _. unfold phaseDiscipline, initializeGame. cbv zeta. fields.
    splits; auto; try (intros [X|X]; discriminate); tauto.
  - intros d s0 (_ & _ & _ & _ & H5 & H6). unfold phaseDiscipline, setDifficulty. fields.
    splits; auto; try (intros [X|X]; discriminate); try discriminate.
    split; discriminate.
  - intros c s0 H. exact H.
  - intros a s0 H. exact H.
  - intros res s0 Hp Hd (_ & _ & _ & _ & H5 & H6). unfold phaseDiscipline, coinFlipped.
    fields. splits; auto; try (intros [X|X]; discriminate); try discriminate.
    split; [discriminate|contradiction].
  - intros r ids s0 _. apply playerAttack_discipline.
  - intros ids s0 Hp Hwho (_ & H2 & _ & H4 & H5 & H6).
    destruct (turnHandedOver_effect ids s0) as (_ & E1 & _ & E3 & E4).
    unfold phaseDiscipline. rewrite E1, E3, E4, Hp.
    assert (K : coinFlipResult (turnHandedOver ids s0) = coinFlipResult s0 /\
                cardsDrawnThisGame (turnHandedOver ids s0) = cardsDrawnThisGame s0)
      by (split; reflexivity).
    destruct K as [-> ->]. rewrite Hp in H2, H4.
    splits; auto; try (intros [X|X]; discriminate); try lia.
  - intros d rc rk ids s0 s1 c. apply aiTurnBody_discipline.
  - intros ids s0 H. destruct (aiEndOfTurn_effect ids s0) as [Hdraw Hkeep].
    assert (K : difficulty (aiEndOfTurn ids s0) = difficulty s0 /\
                coinFlipResult (aiEndOfTurn ids s0) = coinFlipResult s0 /\
                cardsDrawnThisGame (aiEndOfTurn ids s0) = cardsDrawnThisGame s0).
    { unfold aiEndOfTurn. destruct (GamePhase_eqb (phase s0) attack_phase);
        splits; reflexivity. }
    destruct K as (K1 & K2 & K3). destruct H as (H1 & H2 & H3 & H4 & H5 & H6).
    unfold phaseDiscipline. rewrite K1, K2, K3.
    destruct (GamePhase_eq_dec (phase s0) attack_phase) as [Hp|Hp].
    + destruct (Hdraw Hp) as (_ & E1 & _ & E3). rewrite E1, E3. rewrite Hp in H2, H4.
      splits; auto; try (intros [X|X]; discriminate); try lia.
    + destruct (Hkeep Hp) as ((Epl & Eai & _) & E1 & _ & E3).
      rewrite (checkWinCondition_ext _ _ Epl Eai E1), E1, E3.
      splits; assumption.
Qed.

Lemma demoWon_reachable : reachable demoWon.
Proof.
  apply (reachable_serveAll demoVictory demoGame).
  - apply reachable_init.
    unfold freshInit, distinctIds.
    splits; apply (bool_decide_unpack _); vm_compute; reflexivity.
  - by_evaluation.
  - vm_compute. reflexivity.
Qed.

Lemma phase_discipline_witness :
  phaseDiscipline demoWon /\ phase demoWon = player_won.
Proof.
  split; [|vm_compute; reflexivity].
  apply phase_discipline.
  apply (reachable_serveAll demoVictory demoGame).
  - apply reachable_init.
    unfold freshInit, distinctIds.
    splits; apply (bool_decide_unpack _); vm_compute; reflexivity.
  - by_evaluation.
  - vm_compute. reflexivity.
Defined.

(** X19. Once the phase is [player_won] or [ai_won], an attack, an end of
    turn and a coin flip return the state as it is, and a selection changes
    the selection only. [setDifficulty] has no guard: it sets the difficulty
    and puts the finished game into [coin_flip]. No request changes the
    hands, discards, assets, counters, draw piles, turn counter, attacker or
    log of a finished game. *)
Theorem game_over_is_final (q : Request) (s s' : GameState) :
  gameOver s -> serve q s = Ok s' ->
  (player s' = player s /\ ai s' = ai s /\ taDeck s' = taDeck s /\
   dcDeck s' = dcDeck s /\ turnNumber s' = turnNumber s /\
   currentAttacker s' = currentAttacker s /\ actionLog s' = actionLog s) /\
  match q with
  | SetDifficulty d =>
      phase s' = coin_flip /\ difficulty s' = Some d /\
      selectedCard s' = selectedCard s /\ selectedAsset s' = selectedAsset s
  | SelectCard c => s' = set_selectedCard c s
  | SelectAsset a => s' = set_selectedAsset a s
  | PerformCoinFlip _ _ => s' = s
  | Attack _ _ => s' = s
  | EndTurn _ _ => s' = s
  end.
Proof.
  intros Hover E.
  assert (Hna : phase s <> attack_phase) by (destruct Hover; congruence).
  assert (Hnc : phase s <> coin_flip) by (destruct Hover; congruence).
  destruct q as [d|r o|c|a|r ids|ids o]; cbn [serve] in E.
  - apply Ok_inj in E. subst s'. splits; reflexivity.
  - destruct (performCoinFlip_cases r o s) as [E'|(Hp & _)]; [|contradiction].
    rewrite E' in E. apply Ok_inj in E. subst s'. splits; reflexivity.
  - apply Ok_inj in E. subst s'. splits; reflexivity.
  - apply Ok_inj in E. subst s'. splits; reflexivity.
  - apply Ok_inj in E. subst s'.
    destruct (playerAttack_cases r ids s) as [->|(c & t & _ & _ & Hp & _)];
      [|contradiction].
    splits; reflexivity.
  - destruct (endTurn_cases ids o s) as [E'|(Hp & _)]; [|contradiction].
    rewrite E' in E. apply Ok_inj in E. subst s'. splits; reflexivity.
Qed.

Lemma game_over_is_final_witness :
  serve (Attack 0%Q (numbered "redraw-7-")) demoWon = Ok demoWon /\
  (exists s', serve (SetDifficulty easy) demoWon = Ok s' /\ phase s' = coin_flip /\
              player s' = player demoWon /\ ai s' = ai demoWon).
Proof.
  assert (Hover : gameOver demoWon) by (left; vm_compute; reflexivity).
  split.
  - exact (f_equal Ok
             (proj2 (game_over_is_final (Attack 0%Q (numbered "redraw-7-")) demoWon _
                       Hover eq_refl))).
  - eexists. split; [reflexivity|].
    destruct (game_over_is_final (SetDifficulty easy) demoWon _ Hover eq_refl)
      as ((H1 & H2 & _) & H3 & _).
    exact (conj H3 (conj H1 H2)).
Defined.

(* --------------------------------------------------------------------- *)
(** *** The coin flip                                                     *)
(* --------------------------------------------------------------------- *)

(** X20. [performCoinFlip] returns the state as it is outside [coin_flip],
    while another operation is in progress, and as long as no difficulty is
    chosen. Otherwise a draw below 0.5 gives the first turn to the player:
    the phase becomes [attack_phase], the player is the attacker and the
    recorded result, and the board and the turn counter are unchanged. A
    draw of 0.5 or more gives it to the AI, whose turn runs at once: when it
    returns, the recorded result is the AI, the AI's turn has left alone
    what every turn of the AI leaves alone, and either the player is the
    attacker in [attack_phase] with the turn counter one higher, or the
    AI's first turn has ended the game. *)
Theorem performCoinFlip_spec (isProcessing : bool) (r : Q) (o : AIOracle)
    (s : GameState) :
  (phase s <> coin_flip \/ isProcessing = true \/ difficulty s = None ->
   performCoinFlip isProcessing r o s = Ok s) /\
  (phase s = coin_flip -> difficulty s <> None ->
   (random_lt r (1 # 2) = true ->
    exists s',
      performCoinFlip false r o s = Ok s' /\ sameBoard s s' /\
      phase s' = attack_phase /\ currentAttacker s' = Player /\
      coinFlipResult s' = Some Player /\ turnNumber s' = turnNumber s /\
      difficulty s' = difficulty s) /\
   (random_lt r (1 # 2) = false ->
    forall s',
      performCoinFlip false r o s = Ok s' ->
      coinFlipResult s' = Some AI /\ aiTurnFrame (coinFlipped AI s) s' /\
      ((phase s' = attack_phase /\ currentAttacker s' = Player /\
        turnNumber s' = turnNumber s + 1) \/
       ((phase s' = player_won \/ phase s' = ai_won) /\
        checkWinCondition s' = phase s' /\ currentAttacker s' = AI /\
        turnNumber s' = turnNumber s)))).
Proof.
  split.
  - intros H. unfold performCoinFlip.
    destruct (GamePhase_eqb (phase s) coin_flip) eqn:Ep; [|reflexivity].
    apply GamePhase_eqb_eq in Ep. cbn [negb orb].
    destruct isProcessing; [reflexivity|]. cbn [orb].
    destruct (bool_decide (is_Some (difficulty s))) eqn:Ed; [|reflexivity].
    apply bool_decide_eq_true in Ed. destruct Ed as [x Hx].
    destruct H as [H|[H|H]]; congruence.
  - intros Hp Hd.
    destruct (performCoinFlip_legal r o s) as [E|(_ & _ & E)].
    { exfalso. revert E. unfold performCoinFlip. rewrite Hp. cbn [GamePhase_eqb negb orb].
      destruct (difficulty s) as [x|] eqn:Ex; [|contradiction].
      rewrite bool_decide_eq_true_2 by eauto. cbn [negb].
      destruct (random_lt r (1 # 2)); cbn [Actor_eqb].
      - intros E. apply Ok_inj in E. apply (f_equal phase) in E. cbn in E. congruence.
      - intros E. destruct (executeAITurn_outcome o (coinFlipped AI s) s eq_refl E)
          as [(H1 & _)|([H1|H1] & _)]; congruence. }
    split.
    + intros Hr. destruct E as [[_ E]|[E _]]; [|congruence].
      exists (coinFlipped Player s). split; [exact E|].
      destruct (coinFlipped_effect Player s) as (H1 & H2 & H3 & H4 & H5).
      splits; try assumption; reflexivity.
    + intros Hr s' Es'. destruct E as [[E _]|[_ E]]; [congruence|].
      rewrite E in Es'.
      pose proof (executeAITurn_frame _ _ _ Es') as F.
      split; [|split; [exact F|]].
      * destruct F as (_ & _ & _ & _ & _ & _ & _ & _ & _ & -> & _). reflexivity.
      * destruct (executeAITurn_outcome o (coinFlipped AI s) s' eq_refl Es')
          as [(H1 & H2 & H3 & _)|(H1 & H2 & H3 & H4 & _)]; [left|right];
          splits; assumption.
Qed.

Lemma performCoinFlip_spec_witness :
  exists s',
    performCoinFlip false 0%Q (demoTurn 0) (setDifficulty hard demoGame) = Ok s' /\
    phase s' = attack_phase /\ currentAttacker s' = Player /\
    coinFlipResult s' = Some Player.
Proof.
  destruct (performCoinFlip_spec false 0%Q (demoTurn 0) (setDifficulty hard demoGame))
    as (_ & H).
  destruct (H eq_refl) as [H1 _]; [discriminate|].
  destruct (H1 eq_refl) as (s' & E & _ & Hp & Ha & Hc & _).
  exists s'. exact (conj E (conj Hp (conj Ha Hc))).
Defined.

(* --------------------------------------------------------------------- *)
(** *** An attack that is not blocked                                     *)
(* --------------------------------------------------------------------- *)

(** With unique ids, a hit on one of the assets replaces that asset by its
    damaged successor. *)
Lemma hitAssets_insert t l :
  NoDup (assetIds l) -> In t l ->
  exists i,
    l !! i = Some t /\
    hitAssets t l =
      <[i := mkCyberAsset (ca_instanceId t) (ca_card t)
               (getNextAssetState (state t)) (damageCount t + 1)]> l.
Proof.
  intros Hnd Hin. pose proof Hin as Hin'.
  apply list_elem_of_In, list_elem_of_lookup in Hin' as [j Hj].
  exists j. split; [assumption|]. unfold hitAssets.
  destruct (findIndex _ l) as [i|] eqn:E.
  - apply findIndex_Some in E as (a & Hi & Ha). apply String.eqb_eq in Ha.
    assert (i = j) by (eapply NoDup_assetIds_eq; eauto). subst i.
    unfold damageAsset. rewrite Hj. reflexivity.
  - apply (findIndex_None _ _ t E) in Hin. rewrite String.eqb_refl in Hin. discriminate.
Qed.

(** X21. When a legal player attack is resolved and the AI produces no
    defense card, and the target is one of the AI's assets, whose instance
    ids are unique, then in the resulting state: the attack card has left
    the player's attack hand and closes the player's attack discard; the
    target, at its place among the AI's assets, has the next state of its
    lifecycle and one more damage, and the other assets of the AI are
    unchanged; the AI's hands, discards and counter, the player's assets,
    defense hand, defense discard and counter, and both draw piles are
    unchanged; the selections are cleared; the player stays the attacker in
    the same turn; and the phase is [attack_phase] unless a win condition
    now holds, in which case it is the verdict of the first that holds. *)
Theorem unblocked_player_attack (r : Q) (ids : nat -> string) (s : GameState)
    (attackCard : HandCard) (targetAsset : CyberAsset) :
  phase s = attack_phase -> currentAttacker s = Player ->
  selectedCard s = Some attackCard -> selectedAsset s = Some targetAsset ->
  ai_card (aiChooseDefense (dcHand (ai s)) (hc_card attackCard) (difficultyOr s) r)
    = None ->
  NoDup (assetIds (assets (ai s))) -> In targetAsset (assets (ai s)) ->
  let s' := playerAttack false r ids s in
  (taHand (player s') = removeCard (hc_instanceId attackCard) (taHand (player s)) /\
   ~ In attackCard (taHand (player s')) /\
   taDiscard (player s') = taDiscard (player s) ++ [hc_card attackCard]) /\
  (exists i,
     assets (ai s) !! i = Some targetAsset /\
     assets (ai s') =
       <[i := mkCyberAsset (ca_instanceId targetAsset) (ca_card targetAsset)
                (getNextAssetState (state targetAsset))
                (damageCount targetAsset + 1)]> (assets (ai s))) /\
  (taHand (ai s') = taHand (ai s) /\ dcHand (ai s') = dcHand (ai s) /\
   taDiscard (ai s') = taDiscard (ai s) /\ dcDiscard (ai s') = dcDiscard (ai s) /\
   successfulDefenses (ai s') = successfulDefenses (ai s)) /\
  (assets (player s') = assets (player s) /\ dcHand (player s') = dcHand (player s) /\
   dcDiscard (player s') = dcDiscard (player s) /\
   successfulDefenses (player s') = successfulDefenses (player s)) /\
  (taDeck s' = taDeck s /\ dcDeck s' = dcDeck s) /\
  (selectedCard s' = None /\ selectedAsset s' = None) /\
  (currentAttacker s' = Player /\ turnNumber s' = turnNumber s) /\
  phase s' =
    match List.find (satisfied s') winOrder with
    | Some w => verdict w
    | None => attack_phase
    end.
Proof.
  intros Hp Ha Hc Ht Hd Hnd Hin s'. subst s'.
  destruct (playerAttack_hit r ids s attackCard targetAsset Hp Ha Hc Ht Hd)
    as ((Ep & Ea & Et & Ed & Esc & Esa) & Hwho & Hturn & Hphase).
  destruct (hitAssets_insert targetAsset (assets (ai s)) Hnd Hin) as (i & Hi & Ehit).
  rewrite Ep, Ea. cbn [assets taHand dcHand taDiscard dcDiscard successfulDefenses].
  splits; try assumption; try reflexivity.
  - rewrite removeCard_In. tauto.
  - exists i. split; assumption.
Qed.

Lemma unblocked_player_attack_witness :
  let s' := playerAttack false (99 # 100)%Q (numbered "redraw-1-") demoSelected in
  (exists i t,
     assets (ai demoSelected) !! i = Some t /\
     assets (ai s') =
       <[i := mkCyberAsset (ca_instanceId t) (ca_card t)
                (getNextAssetState (state t)) (damageCount t + 1)]>
         (assets (ai demoSelected))) /\
  dcHand (ai s') = dcHand (ai demoSelected) /\
  currentAttacker s' = Player /\ turnNumber s' = turnNumber demoSelected.
Proof.
  assert (Hp : phase demoSelected = attack_phase) by (vm_compute; reflexivity).
  assert (Ha : currentAttacker demoSelected = Player) by (vm_compute; reflexivity).
  eassert (Hc : selectedCard demoSelected = Some _) by (vm_compute; reflexivity).
  eassert (Ht : selectedAsset demoSelected = Some _) by (vm_compute; reflexivity).
  match type of Hc with
  | _ = Some ?c =>
      assert (Hd : ai_card (aiChooseDefense (dcHand (ai demoSelected)) (hc_card c)
                              (difficultyOr demoSelected) (99 # 100)%Q) = None)
        by (vm_compute; reflexivity)
  end.
  assert (Hnd : NoDup (assetIds (assets (ai demoSelected))))
    by (apply (bool_decide_unpack _); vm_compute; reflexivity).
  destruct (unblocked_player_attack (99 # 100)%Q (numbered "redraw-1-") demoSelected
              _ _ Hp Ha Hc Ht Hd Hnd)
    as (_ & (i & Hi & H2) & (_ & H3 & _) & _ & _ & _ & (H4 & H5) & _).
  { vm_compute. left. reflexivity. }
  exact (conj (ex_intro _ i (ex_intro _ _ (conj Hi H2))) (conj H3 (conj H4 H5))).
Defined.

Lemma no_win_satisfied s :
  List.find (satisfied s) winOrder = None <->
  destroyedCount (assets (player s)) < 2 /\ destroyedCount (assets (ai s)) < 2 /\
  successfulDefenses (player s) < 6 /\ successfulDefenses (ai s) < 6.
Proof.
  unfold winOrder, List.find, satisfied.
  destruct (2 <=? destroyedCount (assets (player s))) eqn:E1;
    [apply Nat.leb_le in E1; split; [discriminate|lia]|apply Nat.leb_gt in E1].
  destruct (2 <=? destroyedCount (assets (ai s))) eqn:E2;
    [apply Nat.leb_le in E2; split; [discriminate|lia]|apply Nat.leb_gt in E2].
  destruct (6 <=? successfulDefenses (player s)) eqn:E3;
    [apply Nat.leb_le in E3; split; [discriminate|lia]|apply Nat.leb_gt in E3].
  destruct (6 <=? successfulDefenses (ai s)) eqn:E4;
    [apply Nat.leb_le in E4; split; [discriminate|lia]|apply Nat.leb_gt in E4].
  split; auto.
Qed.

Lemma find_satisfied_records s s' :
  assets (player s') = assets (player s) ->
  successfulDefenses (player s') = successfulDefenses (player s) ->
  List.find (satisfied s) winOrder = None ->
  List.find (satisfied s') winOrder =
    if 2 <=? destroyedCount (assets (ai s')) then Some AIAssetsDestroyed
    else if 6 <=? successfulDefenses (ai s') then Some AIDefenses
    else None.
Proof.
  intros E1 E2 H. apply no_win_satisfied in H as (H1 & _ & H3 & _).
  unfold winOrder, List.find, satisfied. rewrite E1, E2.
  replace (2 <=? destroyedCount (assets (player s))) with false
    by (symmetry; apply Nat.leb_gt; exact H1).
  replace (6 <=? successfulDefenses (player s)) with false
    by (symmetry; apply Nat.leb_gt; exact H3).
  destruct (2 <=? destroyedCount (assets (ai s'))); [reflexivity|].
  destruct (6 <=? successfulDefenses (ai s')); reflexivity.
Qed.

(** X22. A legal attack of the player, made while no win condition
    holds, can end the game in two ways only. When the AI blocks it, the
    game ends exactly when that block is the AI's sixth successful defense,
    and the AI wins. When the AI does not block it, the game ends exactly
    when the hit leaves two or more assets of the AI destroyed, and the
    player wins. In every other case the phase is [attack_phase] again. *)
Theorem player_attack_verdict (r : Q) (ids : nat -> string) (s : GameState)
    (attackCard : HandCard) (targetAsset : CyberAsset) :
  phase s = attack_phase -> currentAttacker s = Player ->
  selectedCard s = Some attackCard -> selectedAsset s = Some targetAsset ->
  List.find (satisfied s) winOrder = None ->
  let s' := playerAttack false r ids s in
  match ai_card (aiChooseDefense (dcHand (ai s)) (hc_card attackCard)
                   (difficultyOr s) r) with
  | Some _ =>
      successfulDefenses (ai s') = successfulDefenses (ai s) + 1 /\
      assets (ai s') = assets (ai s) /\
      phase s' = (if 6 <=? successfulDefenses (ai s') then ai_won else attack_phase) /\
      (phase s' = ai_won -> successfulDefenses (ai s') = 6)
  | None =>
      successfulDefenses (ai s') = successfulDefenses (ai s) /\
      assets (ai s') = hitAssets targetAsset (assets (ai s)) /\
      phase s' =
        (if 2 <=? destroyedCount (assets (ai s')) then player_won else attack_phase)
  end.
Proof.
  intros Hp Ha Hc Ht Hnone s'. subst s'.
  pose proof (proj1 (no_win_satisfied s) Hnone) as (_ & N2 & _ & N4).
  - destruct (ai_card (aiChooseDefense (dcHand (ai s)) (hc_card attackCard)
                         (difficultyOr s) r)) as [d|] eqn:Hd.
    + destruct (playerAttack_blocked r ids s attackCard targetAsset d Hp Ha Hc Ht Hd)
        as ((Ep & Ea & _) & _ & _ & Hphase).
      rewrite (find_satisfied_records s) in Hphase
        by (first [assumption | rewrite Ep; reflexivity]).
      rewrite Hphase, Ea. cbn [assets successfulDefenses].
      replace (2 <=? destroyedCount (assets (ai s))) with false
        by (symmetry; apply Nat.leb_gt; exact N2).
      splits; try reflexivity.
      * destruct (6 <=? successfulDefenses (ai s) + 1); reflexivity.
      * destruct (6 <=? successfulDefenses (ai s) + 1) eqn:E; [|discriminate].
        apply Nat.leb_le in E. intros _. lia.
    + destruct (playerAttack_hit r ids s attackCard targetAsset Hp Ha Hc Ht Hd)
        as ((Ep & Ea & _) & _ & _ & Hphase).
      rewrite (find_satisfied_records s) in Hphase
        by (first [assumption | rewrite Ep; reflexivity]).
      rewrite Hphase, Ea. cbn [assets successfulDefenses].
      replace (6 <=? successfulDefenses (ai s)) with false
        by (symmetry; apply Nat.leb_gt; exact N4).
      splits; try reflexivity.
      destruct (2 <=? destroyedCount (hitAssets targetAsset (assets (ai s)))); reflexivity.
Qed.

Lemma player_attack_verdict_witness :
  let s' := playerAttack false (99 # 100)%Q (numbered "redraw-6-") demoMatchPoint in
  successfulDefenses (ai s') = successfulDefenses (ai demoMatchPoint) /\
  phase s' = player_won.
Proof.
  assert (Hp : phase demoMatchPoint = attack_phase) by (vm_compute; reflexivity).
  assert (Ha : currentAttacker demoMatchPoint = Player) by (vm_compute; reflexivity).
  eassert (Hc : selectedCard demoMatchPoint = Some _) by (vm_compute; reflexivity).
  eassert (Ht : selectedAsset demoMatchPoint = Some _) by (vm_compute; reflexivity).
  assert (Hn : List.find (satisfied demoMatchPoint) winOrder = None)
    by (vm_compute; reflexivity).
  match type of Hc with
  | _ = Some ?c =>
      assert (Hd : ai_card (aiChooseDefense (dcHand (ai demoMatchPoint)) (hc_card c)
                              (difficultyOr demoMatchPoint) (99 # 100)%Q) = None)
        by (vm_compute; reflexivity)
  end.
  pose proof (player_attack_verdict (99 # 100)%Q (numbered "redraw-6-") demoMatchPoint
                _ _ Hp Ha Hc Ht Hn) as H.
  cbv zeta in H. rewrite Hd in H. destruct H as (H1 & _ & H3).
  cbv zeta. split; [exact H1|].
  rewrite H3. vm_compute. reflexivity.
Defined.

(* --------------------------------------------------------------------- *)
(** *** Assets                                                            *)
(* --------------------------------------------------------------------- *)

(** X23. The lifecycle of an asset. [getNextAssetState] moves a state one
    step along facedown, revealed, rotated, destroyed and leaves destroyed
    alone, which is its only fixed point; so [n] hits take an asset of state
    index [i] to index min(3, i + n), and the asset is destroyed exactly
    when i + n is 3 or more: a face-down asset after 3 hits and not before.
    The stage recorded for an attack names the step that a hit takes from
    the target's state, as [explainStage] words it and [getAssetStateDisplay]
    labels the states. *)
Theorem asset_lifecycle (st : AssetState) (n : nat) :
  stateIndex (getNextAssetState st) = Nat.min 3 (stateIndex st + 1) /\
  (getNextAssetState st = st <-> st = destroyed) /\
  stateIndex (Nat.iter n getNextAssetState st) = Nat.min 3 (stateIndex st + n) /\
  (Nat.iter n getNextAssetState st = destroyed <-> 3 <= stateIndex st + n) /\
  (stageOf st = observation <-> getNextAssetState st = revealed) /\
  (stageOf st = assessment <-> getNextAssetState st = rotated) /\
  (stageOf st = pwn <-> getNextAssetState st = destroyed) /\
  (forall st', getAssetStateDisplay st = getAssetStateDisplay st' -> st = st') /\
  (forall st', stageOf st = stageOf st' <-> explainStage st = explainStage st').
Proof.
  assert (Hiter : forall k s0,
            stateIndex (Nat.iter k getNextAssetState s0) = Nat.min 3 (stateIndex s0 + k)).
  { induction k as [|k IH]; intros s0.
    - cbn. destruct s0; reflexivity.
    - rewrite Nat.iter_succ.
      assert (H1 : forall x, stateIndex (getNextAssetState x) = Nat.min 3 (stateIndex x + 1))
        by (intros x; destruct x; reflexivity).
      rewrite H1, IH. lia. }
  assert (Hidx : forall x, x = destroyed <-> stateIndex x = 3).
  { intros x. destruct x; cbn; split; congruence. }
  splits.
  - destruct st; reflexivity.
  - destruct st; cbn; split; congruence.
  - apply Hiter.
  - rewrite Hidx, Hiter. lia.
  - destruct st; cbn; split; congruence.
  - destruct st; cbn; split; congruence.
  - destruct st; cbn; split; congruence.
  - intros st'. destruct st, st'; cbn; congruence.
  - intros st'. destruct st, st'; cbn; split; congruence.
Qed.

Lemma filter_partition_length {A} (f : A -> bool) l :
  length (List.filter (fun a => negb (f a)) l) + length (List.filter f l) = length l.
Proof.
  induction l as [|x l IH]; [reflexivity|].
  cbn [List.filter]. destruct (f x); cbn [negb length]; lia.
Qed.

Lemma destroyedCount_insert l i x y :
  l !! i = Some x ->
  destroyedCount (<[i:=y]> l) + (if AssetState_eqb (state x) destroyed then 1 else 0) =
  destroyedCount l + (if AssetState_eqb (state y) destroyed then 1 else 0).
Proof.
  unfold destroyedCount. revert i. induction l as [|z l IH]; intros [|i]; cbn;
    try discriminate.
  - intros [= ->].
    destruct (AssetState_eqb (state x) destroyed), (AssetState_eqb (state y) destroyed);
      cbn; lia.
  - intros H. specialize (IH i H). cbn in IH.
    destruct (AssetState_eqb (state z) destroyed); cbn; [f_equal|]; exact IH.
Qed.

(** X24. [countActiveAssets] and [countDestroyedAssets] split a list of
    assets: their sum is its length. [countDestroyedAssets] is the count
    that the win check reads: with 2 or more destroyed assets of the player
    the check says [ai_won], and with fewer of the player and 2 or more of
    the AI it says [player_won]. [aiChooseTarget] finds no target exactly
    when no asset is active. A hit on an asset of the list that is not
    destroyed, instance ids being unique, raises the count of destroyed
    assets by one when the asset was rotated and leaves it otherwise, and
    the number of assets stays. *)
Theorem asset_counts (l : list CyberAsset) (s : GameState) :
  countActiveAssets l + countDestroyedAssets l = length l /\
  countDestroyedAssets l = destroyedCount l /\
  (aiChooseTarget l = None <-> countActiveAssets l = 0) /\
  (2 <= countDestroyedAssets (assets (player s)) -> checkWinCondition s = ai_won) /\
  (countDestroyedAssets (assets (player s)) < 2 ->
   2 <= countDestroyedAssets (assets (ai s)) -> checkWinCondition s = player_won) /\
  (forall t, NoDup (assetIds l) -> In t l -> state t <> destroyed ->
     countDestroyedAssets (hitAssets t l) =
       countDestroyedAssets l + (if AssetState_eqb (state t) rotated then 1 else 0) /\
     countActiveAssets (hitAssets t l) + countDestroyedAssets (hitAssets t l) = length l).
Proof.
  assert (Hsum : forall k, countActiveAssets k + countDestroyedAssets k = length k).
  { intros k. apply (filter_partition_length (fun a => AssetState_eqb (state a) destroyed)). }
  splits.
  - apply Hsum.
  - reflexivity.
  - rewrite aiChooseTarget_None, <- filter_notDestroyed_nil.
    unfold countActiveAssets.
    change (fun a => negb (AssetState_eqb (state a) destroyed)) with notDestroyed.
    destruct (List.filter notDestroyed l); cbn; split; congruence.
  - intros H. unfold checkWinCondition, ASSETS_TO_WIN.
    change (destroyedCount (assets (player s)))
      with (countDestroyedAssets (assets (player s))).
    now replace (2 <=? countDestroyedAssets (assets (player s))) with true
      by (symmetry; apply Nat.leb_le; exact H).
  - intros H1 H2. unfold checkWinCondition, ASSETS_TO_WIN.
    change (destroyedCount (assets (player s)))
      with (countDestroyedAssets (assets (player s))).
    change (destroyedCount (assets (ai s))) with (countDestroyedAssets (assets (ai s))).
    replace (2 <=? countDestroyedAssets (assets (player s))) with false
      by (symmetry; apply Nat.leb_gt; exact H1).
    now replace (2 <=? countDestroyedAssets (assets (ai s))) with true
      by (symmetry; apply Nat.leb_le; exact H2).
  - intros t Hnd Hin Hs. split; [|rewrite Hsum; apply hitAssets_length].
    destruct (hitAssets_insert t l Hnd Hin) as (i & Hi & ->).
    pose proof (destroyedCount_insert l i t
                  (mkCyberAsset (ca_instanceId t) (ca_card t)
                     (getNextAssetState (state t)) (damageCount t + 1)) Hi) as H.
    cbn [state] in H. change countDestroyedAssets with destroyedCount.
    destruct (state t); cbn in *; try contradiction; lia.
Qed.

(* --------------------------------------------------------------------- *)
(** *** Defenses and discards                                             *)
(* --------------------------------------------------------------------- *)

Lemma aiDecideReboot_true dcHand dcDiscard assets :
  aiDecideReboot dcHand dcDiscard assets = true <->
  2 <= countActiveAssets assets /\ length dcHand <= 1 /\ 3 <= length dcDiscard.
Proof.
  unfold aiDecideReboot, countActiveAssets. cbv zeta.
  destruct (length (List.filter _ assets) <=? 1) eqn:E1.
  { apply Nat.leb_le in E1. split; [discriminate|lia]. }
  apply Nat.leb_gt in E1.
  destruct (length dcHand <=? 1) eqn:E2; cbn [andb].
  - apply Nat.leb_le in E2. destruct (3 <=? length dcDiscard) eqn:E3.
    + apply Nat.leb_le in E3. split; [lia|reflexivity].
    + apply Nat.leb_gt in E3. split; [discriminate|lia].
  - apply Nat.leb_gt in E2. split; [discriminate|lia].
Qed.

Lemma playerAttack_defenses r ids s :
  defensesCounted s -> defensesCounted (playerAttack false r ids s).
Proof.
  intros [Hp Ha].
  destruct (playerAttack_cases r ids s) as [->|(c & t & Hc & Ht & Hph & Hat)];
    [split; assumption|].
  destruct (ai_card (aiChooseDefense (dcHand (ai s)) (hc_card c) (difficultyOr s) r))
    as [d|] eqn:Hd.
  - destruct (playerAttack_blocked r ids s c t d Hph Hat Hc Ht Hd) as ((Ep & Ea & _) & _).
    unfold defensesCounted. rewrite Ep, Ea. cbn [dcDiscard successfulDefenses].
    rewrite length_app. cbn [length]. split; lia.
  - destruct (playerAttack_hit r ids s c t Hph Hat Hc Ht Hd) as ((Ep & Ea & _) & _).
    unfold defensesCounted. rewrite Ep, Ea. cbn [dcDiscard successfulDefenses].
    split; assumption.
Qed.

Lemma aiTurnBody_defenses d rc rk ids s s' c :
  defensesCounted s -> aiTurnBody d rc rk ids s = Ok (s', c) -> defensesCounted s'.
Proof.
  intros [Hp Ha] E. apply aiTurnBody_cases in E
    as ([((Epl & Eai & _) & _)
        |[(a & dc & _ & _ & _ & Eai & Epl & _)
         |(a & t & _ & _ & Eai & Epl & _)]] & _);
    unfold defensesCounted; rewrite Epl, Eai; cbn [dcDiscard successfulDefenses];
    rewrite ?length_app; cbn [length]; split; lia.
Qed.

(** X25. In every reachable state each side's counter of successful
    defenses is the number of cards in its defense discard: every block
    discards exactly one defense card, and nothing else reaches or leaves
    that discard. So the win by defenses is a discard of 6 cards, and
    [aiDecideReboot], applied to the AI's side of a reachable state, says
    yes exactly when the AI has at least 2 assets that are not destroyed,
    at most 1 defense card in hand and at least 3 successful defenses; on
    any arguments it says yes exactly when at least 2 assets are active,
    the hand holds at most 1 card and the discard at least 3. *)
Theorem defenses_are_discards (s : GameState) :
  reachable s ->
  length (dcDiscard (player s)) = successfulDefenses (player s) /\
  length (dcDiscard (ai s)) = successfulDefenses (ai s) /\
  (aiDecideReboot (dcHand (ai s)) (dcDiscard (ai s)) (assets (ai s)) = true <->
   2 <= countActiveAssets (assets (ai s)) /\ length (dcHand (ai s)) <= 1 /\
   3 <= successfulDefenses (ai s)) /\
  (forall dcHand dcDiscard assets,
     aiDecideReboot dcHand dcDiscard assets = true <->
     2 <= countActiveAssets assets /\ length dcHand <= 1 /\ 3 <= length dcDiscard).
Proof.
  intros Hr.
  assert (D : defensesCounted s).
  { revert s Hr. apply (reachable_preserves defensesCounted).
    - intros cnt o _. split; reflexivity.
    - intros d x H. exact H.
    - intros c x H. exact H.
    - intros a x H. exact H.
    - intros res x H. exact H.
    - intros r ids x _. apply playerAttack_defenses.
    - intros ids x H. exact H.
    - intros d rc rk ids x x' c. apply aiTurnBody_defenses.
    - intros ids x H. unfold defensesCounted, aiEndOfTurn.
      destruct (GamePhase_eqb (phase x) attack_phase); exact H. }
  destruct D as [D1 D2]. splits; try assumption.
  - rewrite aiDecideReboot_true, D2. reflexivity.
  - intros h dd l. apply aiDecideReboot_true.
Qed.

Lemma defenses_are_discards_witness :
  length (dcDiscard (player demoRoundOver)) = successfulDefenses (player demoRoundOver) /\
  successfulDefenses (player demoRoundOver) = 1.
Proof.
  destruct (defenses_are_discards demoRoundOver) as (H1 & _).
  - apply (reachable_serveAll demoRound demoGame).
    + apply reachable_init.
      unfold freshInit, distinctIds.
      splits; apply (bool_decide_unpack _); vm_compute; reflexivity.
    + by_evaluation.
    + vm_compute. reflexivity.
  - split; [exact H1|vm_compute; reflexivity].
Defined.

(* --------------------------------------------------------------------- *)
(** *** Random indices                                                    *)
(* --------------------------------------------------------------------- *)

(** The binary64 product: rounding to nearest stays below every integer
    that the exact value is below by more than a half. *)
Lemma roundHalfEven_lt n d k :
  (0 < d)%Z -> (2 * n < (2 * k - 1) * d)%Z -> (roundHalfEven n d < k)%Z.
Proof.
  intros Hd H. unfold roundHalfEven.
  pose proof (Z.div_mod n d ltac:(lia)) as E.
  pose proof (Z.mod_pos_bound n d Hd) as B.
  set (q := (n / d)%Z) in *. set (r := (n mod d)%Z) in *.
  assert (Hq : (q + 1 < k)%Z \/ (q < k /\ 2 * r < d)%Z) by nia.
  destruct (2 * r <? d)%Z eqn:E1; [apply Z.ltb_lt in E1; nia|].
  apply Z.ltb_ge in E1.
  destruct Hq as [Hq|[_ Hq]]; [|lia].
  destruct (d <? 2 * r)%Z; [lia|]. destruct (Z.even q); lia.
Qed.

Lemma roundHalfEven_nonneg n d :
  (0 <= n)%Z -> (0 < d)%Z -> (0 <= roundHalfEven n d)%Z.
Proof.
  intros Hn Hd. unfold roundHalfEven.
  pose proof (Z.div_pos n d Hn Hd).
  destruct (2 * (n mod d) <? d)%Z; [assumption|].
  destruct (d <? 2 * (n mod d))%Z; [lia|]. destruct (Z.even (n / d)); lia.
Qed.

(** [2^k <= a / b] for [k = floorLog2 a b], and [a / b < 2^(k+1)] below. *)
Lemma floorLog2_le a b :
  (0 < a)%Z -> (0 < b)%Z ->
  (0 <= floorLog2 a b -> 2 ^ floorLog2 a b * b <= a)%Z /\
  (floorLog2 a b < 0 -> b <= a * 2 ^ (- floorLog2 a b))%Z.
Proof.
  intros Ha Hb. unfold floorLog2.
  destruct (Z.log2_spec a Ha) as [A1 _]. destruct (Z.log2_spec b Hb) as [_ B2].
  pose proof (Z.log2_nonneg a) as La. pose proof (Z.log2_nonneg b) as Lb.
  set (la := Z.log2 a) in *. set (lb := Z.log2 b) in *.
  replace (Z.succ lb) with (lb + 1)%Z in B2 by lia.
  match goal with |- context [if ?t then _ else _] => destruct t eqn:Et end.
  - destruct (0 <=? la - lb)%Z eqn:Ek.
    + apply Z.leb_le in Ek, Et. split; [auto|lia].
    + apply Z.leb_gt in Ek. apply Z.leb_le in Et. split; [lia|auto].
  - clear Et. split; intros Hk.
    + assert (P : (2 ^ la = 2 ^ (la - lb - 1) * 2 ^ (lb + 1))%Z).
      { rewrite <- Z.pow_add_r by lia. f_equal; lia. }
      assert (0 < 2 ^ (la - lb - 1))%Z by (apply Z.pow_pos_nonneg; lia).
      nia.
    + assert (P : (2 ^ (lb + 1) = 2 ^ la * 2 ^ (- (la - lb - 1)))%Z).
      { rewrite <- Z.pow_add_r by lia. f_equal; lia. }
      assert (0 < 2 ^ (- (la - lb - 1)))%Z by (apply Z.pow_pos_nonneg; lia).
      nia.
Qed.

Lemma dyadic_floor_lt m e k :
  (e <= 0)%Z -> (m < k * 2 ^ (- e))%Z -> (Qfloor (dyadic m e) < k)%Z.
Proof.
  intros He Hm. unfold dyadic.
  destruct (0 <=? e)%Z eqn:E.
  - apply Z.leb_le in E. assert (e = 0)%Z by lia. subst e.
    rewrite Qfloor_Z. change (- 0)%Z with 0%Z in Hm. rewrite Z.pow_0_r in *. lia.
  - apply Z.leb_gt in E. cbn [Qfloor].
    assert (P : (0 < 2 ^ (- e))%Z) by (apply Z.pow_pos_nonneg; lia).
    rewrite Z2Pos.id by exact P.
    apply Z.div_lt_upper_bound; lia.
Qed.

Lemma dyadic_nonneg m e : (0 <= m)%Z -> (0 <= dyadic m e)%Q.
Proof.
  intros Hm. unfold dyadic. destruct (0 <=? e)%Z eqn:E.
  - apply Z.leb_le in E. unfold Qle. cbn.
    assert (0 <= 2 ^ e)%Z by (apply Z.pow_nonneg; lia). nia.
  - unfold Qle. cbn. lia.
Qed.

(** A positive number that is at most [n (1 - 2^-53)] rounds to a number
    below [n]. *)
Lemma binary64_pos_below a b n :
  (0 < a)%Z -> (0 < b)%Z -> (0 < n <= 2 ^ 53)%Z ->
  (a * 2 ^ 53 <= n * (2 ^ 53 - 1) * b)%Z ->
  (0 <= binary64_pos a b)%Q /\ (Qfloor (binary64_pos a b) < n)%Z.
Proof.
  intros Ha Hb Hn H. unfold binary64_pos.
  destruct (floorLog2_le a b Ha Hb) as [L1 L2].
  set (L := floorLog2 a b) in *.
  assert (Hab : (a < n * b)%Z) by nia.
  assert (HL : (L <= 52)%Z).
  { destruct (Z.le_gt_cases L 52) as [|G]; [assumption|exfalso].
    specialize (L1 ltac:(lia)).
    assert (2 ^ 53 <= 2 ^ L)%Z by (apply Z.pow_le_mono_r; lia). nia. }
  set (e := Z.max (L - 52) (-1074)).
  assert (He : (e <= 0)%Z) by lia.
  assert (Hs : (0 < 2 ^ (- e))%Z) by (apply Z.pow_pos_nonneg; lia).
  (* the spacing of the format at n is finer than n 2^-53 *)
  assert (Hfine : (2 ^ 53 < 2 * 2 ^ (- e) * n)%Z).
  { destruct (Z.max_spec (L - 52) (-1074)) as [[_ E]|[_ E]]; fold e in E.
    - rewrite E. change (- -1074)%Z with 1074%Z.
      assert (2 ^ 53 < 2 ^ 1074)%Z by (apply Z.pow_lt_mono_r; lia). nia.
    - destruct (Z.le_gt_cases 0 L) as [G|G].
      + specialize (L1 G).
        assert (P : (2 ^ 53 = 2 * 2 ^ (- e) * 2 ^ L)%Z).
        { change 2%Z with (2 ^ 1)%Z at 2. rewrite <- !Z.pow_add_r by lia. f_equal; lia. }
        assert (2 ^ L < n)%Z by nia. nia.
      + assert (2 ^ 53 <= 2 ^ (- e))%Z by (apply Z.pow_le_mono_r; lia). nia. }
  destruct (0 <=? e)%Z eqn:E0.
  - apply Z.leb_le in E0. assert (E : e = 0%Z) by lia. rewrite E in *. cbn in Hfine.
    replace (b * 2 ^ 0)%Z with b by (cbn; lia).
    split.
    + apply dyadic_nonneg, roundHalfEven_nonneg; lia.
    + apply dyadic_floor_lt; [lia|]. cbn. rewrite Z.mul_1_r.
      apply roundHalfEven_lt; [lia|]. nia.
  - split.
    + apply dyadic_nonneg, roundHalfEven_nonneg; nia.
    + apply dyadic_floor_lt; [lia|].
      apply roundHalfEven_lt; [lia|].
      set (P := (2 ^ (- e))%Z) in *. set (T := (2 ^ 53)%Z) in *.
      assert (T > 0)%Z by (subst T; lia).
      assert (G : (T * (2 * (a * P)) < T * ((2 * (n * P) - 1) * b))%Z) by nia.
      apply Z.mul_lt_mono_pos_l in G; lia.
Qed.

(** The largest number of the format below 1 is [1 - 2^-53]. *)
Lemma isBinary64_below_one r :
  isBinary64 r -> (r < 1)%Q -> (Qnum r * 2 ^ 53 <= (2 ^ 53 - 1) * Z.pos (Qden r))%Z.
Proof.
  intros (m & e & Hm & He & E) H1. unfold Qlt in H1. cbn [Qnum Qden] in H1.
  assert (Hq : (0 < Z.pos (Qden r))%Z) by lia.
  unfold dyadic in E. destruct (0 <=? e)%Z eqn:E0.
  - unfold Qeq in E. cbn [Qnum Qden inject_Z] in E.
    revert E H1 Hq. generalize (m * 2 ^ e)%Z (Z.pos (Qden r)) (Qnum r).
    intros X q p E H1 Hq.
    assert (X <= 0)%Z by nia. assert (p <= 0)%Z by nia. lia.
  - apply Z.leb_gt in E0. unfold Qeq in E. cbn [Qnum Qden] in E.
    assert (P : (0 < 2 ^ (- e))%Z) by (apply Z.pow_pos_nonneg; lia).
    rewrite Z2Pos.id in E by exact P.
    assert (C : (2 ^ (- e) <= 2 ^ 53 \/ 2 ^ 53 <= 2 ^ (- e))%Z).
    { destruct (Z.le_gt_cases (- e) 53); [left|right]; apply Z.pow_le_mono_r; lia. }
    assert (HT : (0 < 2 ^ 53)%Z) by lia.
    revert Hm H1 Hq E P C HT.
    generalize (2 ^ (- e))%Z (2 ^ 53)%Z (Z.pos (Qden r)) (Qnum r).
    intros S T q p Hm H1 Hq E P C HT.
    assert (HmS : (m < S)%Z) by nia.
    assert (HmT : (m * T <= (T - 1) * S)%Z) by (destruct C; nia).
    assert (G : (S * (p * T) <= S * ((T - 1) * q))%Z) by nia.
    apply Z.mul_le_mono_pos_l in G; lia.
Qed.

Lemma random_index_lt r n :
  isBinary64 r -> (0 <= r)%Q -> (r < 1)%Q -> 0 < n -> (Z.of_nat n <= 2 ^ 53)%Z ->
  random_index r n < n.
Proof.
  intros Hb H0 H1 Hn Hmax.
  pose proof (isBinary64_below_one r Hb H1) as Hr.
  unfold Qle in H0. cbn in H0. rewrite Z.mul_1_r in H0.
  unfold random_index, binary64. cbn [Qnum Qden Qmult inject_Z].
  destruct (Qnum r * Z.of_nat n)%Z as [|a|a] eqn:Ea;
    [change (Z.to_nat (Qfloor 0)) with 0; exact Hn| |nia].
  assert (Hle : (Z.pos a * 2 ^ 53 <= Z.of_nat n * (2 ^ 53 - 1) * Z.pos (Qden r * 1))%Z).
  { rewrite <- Ea, Pos.mul_1_r. nia. }
  destruct (binary64_pos_below (Z.pos a) (Z.pos (Qden r * 1)) (Z.of_nat n)
              ltac:(lia) ltac:(lia) ltac:(lia) Hle) as [B0 B1].
  apply Qfloor_resp_le in B0. change (Qfloor 0) with 0%Z in B0. lia.
Qed.

Lemma roundHalfEven_exact k d : (0 < d)%Z -> roundHalfEven (k * d) d = k.
Proof.
  intros Hd. unfold roundHalfEven.
  rewrite Z.div_mul, Z.mod_mul by lia.
  destruct (2 * 0 <? d)%Z eqn:E; [reflexivity|]. apply Z.ltb_ge in E. lia.
Qed.

(** A positive number of the format is its own rounding. *)
Lemma binary64_pos_exact a b m e :
  (0 < a)%Z -> (0 < b)%Z -> (m < 2 ^ 53)%Z -> (-1074 <= e)%Z ->
  (a # Z.to_pos b == dyadic m e)%Q -> (binary64_pos a b == dyadic m e)%Q.
Proof.
  intros Ha Hb Hm He E. unfold binary64_pos.
  destruct (floorLog2_le a b Ha Hb) as [L1 L2].
  set (L := floorLog2 a b) in *.
  unfold Qeq in E. cbn [Qnum Qden] in E. rewrite Z2Pos.id in E by exact Hb.
  assert (Hec : (Z.max (L - 52) (-1074) <= e)%Z).
  { apply Z.max_lub; [|lia].
    destruct (Z.le_gt_cases (L - 52) e) as [|G]; [assumption|exfalso].
    unfold dyadic in E. destruct (0 <=? e)%Z eqn:E0.
    - apply Z.leb_le in E0. cbn [Qnum Qden inject_Z] in E.
      specialize (L1 ltac:(lia)).
      assert (P : (2 ^ L = 2 ^ (L - e - 53) * (2 ^ 53 * 2 ^ e))%Z).
      { rewrite <- !Z.pow_add_r by lia. f_equal; lia. }
      assert (0 < 2 ^ (L - e - 53))%Z by (apply Z.pow_pos_nonneg; lia).
      assert (0 < 2 ^ e)%Z by (apply Z.pow_pos_nonneg; lia).
      assert (HV : (m * 2 ^ e < 2 ^ 53 * 2 ^ e)%Z) by nia.
      rewrite P in L1. rewrite Z.mul_1_r in E. rewrite E in L1.
      assert (HU : (0 < 2 ^ 53 * 2 ^ e)%Z) by lia.
      revert L1 HV H HU. generalize (2 ^ (L - e - 53))%Z (2 ^ 53 * 2 ^ e)%Z (m * 2 ^ e)%Z.
      intros K U V L1 HV HK HU. apply Z.mul_le_mono_pos_r in L1; [nia|lia].
    - apply Z.leb_gt in E0. cbn [Qnum Qden] in E.
      assert (0 < 2 ^ (- e))%Z by (apply Z.pow_pos_nonneg; lia).
      rewrite Z2Pos.id in E by assumption.
      destruct (Z.le_gt_cases 0 L) as [GL|GL].
      + specialize (L1 GL).
        assert (P : (2 ^ 53 <= 2 ^ L * 2 ^ (- e))%Z).
        { rewrite <- Z.pow_add_r by lia. apply Z.pow_le_mono_r; lia. }
        nia.
      + specialize (L2 GL).
        assert (P : (2 ^ (- e) = 2 ^ (- L) * 2 ^ (L - e))%Z).
        { rewrite <- Z.pow_add_r by lia. f_equal; lia. }
        assert (2 ^ 53 <= 2 ^ (L - e))%Z by (apply Z.pow_le_mono_r; lia).
        assert (0 < 2 ^ (- L))%Z by (apply Z.pow_pos_nonneg; lia).
        nia. }
  set (ec := Z.max (L - 52) (-1074)) in *.
  assert (Hd : (0 < 2 ^ (e - ec))%Z) by (apply Z.pow_pos_nonneg; lia).
  unfold dyadic in E |- *.
  destruct (0 <=? ec)%Z eqn:Ec; [apply Z.leb_le in Ec|apply Z.leb_gt in Ec].
  - assert (E0 : (0 <=? e)%Z = true) by (apply Z.leb_le; lia). rewrite E0 in *.
    cbn [Qnum Qden inject_Z] in E.
    assert (0 < 2 ^ ec)%Z by (apply Z.pow_pos_nonneg; lia).
    assert (P : (2 ^ e = 2 ^ (e - ec) * 2 ^ ec)%Z).
    { rewrite <- Z.pow_add_r by lia. f_equal; lia. }
    replace a with (m * 2 ^ (e - ec) * (b * 2 ^ ec))%Z by nia.
    rewrite roundHalfEven_exact by nia.
    unfold Qeq. cbn [Qnum Qden inject_Z]. nia.
  - assert (Hs : (0 < 2 ^ (- ec))%Z) by (apply Z.pow_pos_nonneg; lia).
    destruct (0 <=? e)%Z eqn:E0; [apply Z.leb_le in E0|apply Z.leb_gt in E0].
    + cbn [Qnum Qden inject_Z] in E.
      assert (0 < 2 ^ e)%Z by (apply Z.pow_pos_nonneg; lia).
      assert (P : (2 ^ (e - ec) = 2 ^ e * 2 ^ (- ec))%Z).
      { rewrite <- Z.pow_add_r by lia. f_equal; lia. }
      replace (a * 2 ^ (- ec))%Z with (m * 2 ^ (e - ec) * b)%Z by nia.
      rewrite roundHalfEven_exact by lia.
      unfold Qeq. cbn [Qnum Qden inject_Z]. rewrite ?Z2Pos.id by exact Hs. nia.
    + cbn [Qnum Qden] in E.
      assert (He' : (0 < 2 ^ (- e))%Z) by (apply Z.pow_pos_nonneg; lia).
      rewrite Z2Pos.id in E by exact He'.
      assert (P : (2 ^ (- ec) = 2 ^ (- e) * 2 ^ (e - ec))%Z).
      { rewrite <- Z.pow_add_r by lia. f_equal; lia. }
      replace (a * 2 ^ (- ec))%Z with (m * 2 ^ (e - ec) * b)%Z by nia.
      rewrite roundHalfEven_exact by lia.
      unfold Qeq. cbn [Qnum Qden]. rewrite ?Z2Pos.id by assumption. nia.
Qed.

(** The rounding leaves the numbers of the format as they are. *)
Lemma binary64_exact x : isBinary64 x -> (binary64 x == x)%Q.
Proof.
  intros (m & e & Hm & He & E). unfold binary64.
  destruct x as [p q]. cbn [Qnum Qden]. destruct p as [|a|a].
  - reflexivity.
  - rewrite E. apply binary64_pos_exact; try lia.
    rewrite <- E. rewrite Pos2Z.id. reflexivity.
  - assert (E' : (Z.pos a # q == dyadic (- m) e)%Q).
    { change (Z.pos a # q) with (- (Z.neg a # q))%Q. rewrite E.
      unfold dyadic. destruct (0 <=? e)%Z.
      - unfold Qeq. cbn. lia.
      - unfold Qeq. cbn. lia. }
    rewrite (binary64_pos_exact (Z.pos a) (Z.pos q) (- m) e); try lia.
    + rewrite <- E'. reflexivity.
    + rewrite Pos2Z.id. exact E'.
Qed.

Lemma floorLog2_lt a b :
  (0 < a)%Z -> (0 < b)%Z ->
  (0 <= floorLog2 a b + 1 -> a < 2 ^ (floorLog2 a b + 1) * b)%Z /\
  (floorLog2 a b + 1 < 0 -> a * 2 ^ (- (floorLog2 a b + 1)) < b)%Z.
Proof.
  intros Ha Hb. unfold floorLog2.
  destruct (Z.log2_spec a Ha) as [_ A2]. destruct (Z.log2_spec b Hb) as [B1 _].
  pose proof (Z.log2_nonneg a) as La. pose proof (Z.log2_nonneg b) as Lb.
  set (la := Z.log2 a) in *. set (lb := Z.log2 b) in *.
  replace (Z.succ la) with (la + 1)%Z in A2 by lia.
  match goal with |- context [if ?t then _ else _] => destruct t eqn:Et end.
  - clear Et. split; intros Hk.
    + assert (P : (2 ^ (la + 1) = 2 ^ (la - lb + 1) * 2 ^ lb)%Z).
      { rewrite <- Z.pow_add_r by lia. f_equal; lia. }
      assert (0 < 2 ^ (la - lb + 1))%Z by (apply Z.pow_pos_nonneg; lia).
      nia.
    + assert (P : (2 ^ lb = 2 ^ (la + 1) * 2 ^ (- (la - lb + 1)))%Z).
      { rewrite <- Z.pow_add_r by lia. f_equal; lia. }
      assert (0 < 2 ^ (- (la - lb + 1)))%Z by (apply Z.pow_pos_nonneg; lia).
      nia.
  - replace (la - lb - 1 + 1)%Z with (la - lb)%Z by lia.
    destruct (0 <=? la - lb)%Z eqn:Ek.
    + apply Z.leb_le in Ek. apply Z.leb_gt in Et. split; [intros _; lia|lia].
    + apply Z.leb_gt in Ek. apply Z.leb_gt in Et. split; [lia|intros _; lia].
Qed.

(** The rounding of a positive number below [2^1023] is a number of the
    format. *)
Lemma binary64_pos_format a b :
  (0 < a)%Z -> (0 < b)%Z -> (a < 2 ^ 1023 * b)%Z -> isBinary64 (binary64_pos a b).
Proof.
  intros Ha Hb Hmax. unfold binary64_pos.
  destruct (floorLog2_le a b Ha Hb) as [L1 L2].
  destruct (floorLog2_lt a b Ha Hb) as [U1 U2].
  set (L := floorLog2 a b) in *.
  assert (HL : (L <= 1022)%Z).
  { destruct (Z.le_gt_cases L 1022) as [|G]; [assumption|exfalso].
    specialize (L1 ltac:(lia)).
    assert (2 ^ 1023 <= 2 ^ L)%Z by (apply Z.pow_le_mono_r; lia). nia. }
  set (e := Z.max (L - 52) (-1074)) in *.
  assert (He : (-1074 <= e <= 970)%Z) by lia.
  assert (HeL : (L - 52 <= e)%Z) by lia.
  set (m := if (0 <=? e)%Z then roundHalfEven a (b * 2 ^ e)
            else roundHalfEven (a * 2 ^ (- e)) b).
  assert (Hm : (0 <= m <= 2 ^ 53)%Z).
  { subst m. destruct (0 <=? e)%Z eqn:E0; [apply Z.leb_le in E0|apply Z.leb_gt in E0].
    - assert (Pe : (0 < 2 ^ e)%Z) by (apply Z.pow_pos_nonneg; lia).
      split; [apply roundHalfEven_nonneg; nia|].
      apply Z.lt_succ_r. apply roundHalfEven_lt; [nia|].
      specialize (U1 ltac:(lia)).
      assert (P : (2 ^ (L + 1) <= 2 ^ 53 * 2 ^ e)%Z).
      { rewrite <- Z.pow_add_r by lia. apply Z.pow_le_mono_r; lia. }
      assert (a < 2 ^ 53 * 2 ^ e * b)%Z by nia. nia.
    - assert (Pe : (0 < 2 ^ (- e))%Z) by (apply Z.pow_pos_nonneg; lia).
      split; [apply roundHalfEven_nonneg; nia|].
      apply Z.lt_succ_r. apply roundHalfEven_lt; [lia|].
      assert (a * 2 ^ (- e) < 2 ^ 53 * b)%Z; [|nia].
      destruct (Z.le_gt_cases 0 (L + 1)) as [G|G].
      + specialize (U1 G).
        assert (P : (2 ^ (L + 1) * 2 ^ (- e) <= 2 ^ 53)%Z).
        { rewrite <- Z.pow_add_r by lia. apply Z.pow_le_mono_r; lia. }
        nia.
      + specialize (U2 G).
        assert (P : (2 ^ (- e) <= 2 ^ 53 * 2 ^ (- (L + 1)))%Z).
        { rewrite <- Z.pow_add_r by lia. apply Z.pow_le_mono_r; lia. }
        assert (0 < 2 ^ (- (L + 1)))%Z by (apply Z.pow_pos_nonneg; lia).
        nia. }
  clearbody m. clear HeL L1 L2 U1 U2 HL. clearbody e.
  destruct (Z.eq_dec m (2 ^ 53)%Z) as [->|Hne].
  - exists (2 ^ 52)%Z, (e + 1)%Z. splits; try lia.
    unfold dyadic.
    destruct (0 <=? e)%Z eqn:E0; [apply Z.leb_le in E0|apply Z.leb_gt in E0].
    + assert (E1 : (0 <=? e + 1)%Z = true) by (apply Z.leb_le; lia). rewrite E1.
      rewrite Z.pow_add_r by lia. unfold Qeq. cbn [Qnum Qden inject_Z]. lia.
    + assert (Pe : (0 < 2 ^ (- e))%Z) by (apply Z.pow_pos_nonneg; lia).
      destruct (0 <=? e + 1)%Z eqn:E1; [apply Z.leb_le in E1|apply Z.leb_gt in E1].
      * assert (e = -1)%Z by lia. subst e. vm_compute. reflexivity.
      * assert (Pe1 : (0 < 2 ^ (- (e + 1)))%Z) by (apply Z.pow_pos_nonneg; lia).
        unfold Qeq. cbn [Qnum Qden]. rewrite !Z2Pos.id by assumption.
        replace (- e)%Z with (- (e + 1) + 1)%Z by lia.
        rewrite Z.pow_add_r by lia. lia.
  - exists m, e. splits; try lia. reflexivity.
Qed.

(** The rounding differs from the exact value by at most half a unit of the
    last place. *)
Lemma roundHalfEven_near n d :
  (0 < d)%Z -> (Z.abs (2 * (roundHalfEven n d * d - n)) <= d)%Z.
Proof.
  intros Hd. unfold roundHalfEven.
  pose proof (Z.div_mod n d ltac:(lia)) as E.
  pose proof (Z.mod_pos_bound n d Hd) as B.
  set (q := (n / d)%Z) in *. set (r := (n mod d)%Z) in *.
  destruct (2 * r <? d)%Z eqn:E1; [apply Z.ltb_lt in E1; nia|].
  apply Z.ltb_ge in E1.
  destruct (d <? 2 * r)%Z eqn:E2; [apply Z.ltb_lt in E2; nia|].
  apply Z.ltb_ge in E2. destruct (Z.even q); nia.
Qed.

(** X26. [Math.floor(Math.random() * n)] lies inside an array of [n]
    elements: for a binary64 number [r] that is at least 0 and below 1 and a
    length [n] between 1 and [2^53], the binary64 product of [r] and [n],
    rounded to nearest, is still below [n] (the exact product is below [n]
    by more than half a unit in the last place), and so is its floor. So on
    an array that is not empty [getRandomElement] returns an element of the
    array (and [undefined] on an empty one, whatever the number), and in the
    Fisher-Yates loop of [shuffle] and [createShuffledDeck] the position
    drawn for index [i] is at most [i] and the two elements really change
    places. *)
Theorem random_index_in_range (r : Q) (n : nat) :
  isBinary64 r -> (0 <= r)%Q -> (r < 1)%Q -> 0 < n -> (Z.of_nat n <= 2 ^ 53)%Z ->
  random_index r n < n /\
  (forall (A : Type) (array : list A),
     length array = n ->
     exists x, getRandomElement r array = Some x /\ In x array /\
               array !! random_index r n = Some x) /\
  (forall (A : Type), getRandomElement r (@nil A) = None) /\
  (forall (A : Type) (l : list A) (i : nat),
     i + 1 = n -> i < length l ->
     let j := random_index r (i + 1) in
     j <= i /\ swap l i j !! i = l !! j /\ swap l i j !! j = l !! i /\
     length (swap l i j) = length l).
Proof.
  intros Hb H0 H1 Hn Hmax. pose proof (random_index_lt r n Hb H0 H1 Hn Hmax) as Hlt.
  splits.
  - exact Hlt.
  - intros A array Hlen. subst n.
    destruct (lookup_lt_is_Some_2 array _ Hlt) as [x Hx].
    exists x. unfold getRandomElement.
    destruct array as [|y array]; [cbn in Hn; lia|].
    splits; try exact Hx.
    apply list_elem_of_In. eapply list_elem_of_lookup_2. exact Hx.
  - reflexivity.
  - intros A l i Hi Hil j. subst j. rewrite Hi.
    assert (Hj : random_index r n <= i) by lia.
    destruct (lookup_lt_is_Some_2 l i Hil) as [x Hx].
    assert (Hjl : random_index r n < length l) by lia.
    destruct (lookup_lt_is_Some_2 l _ Hjl) as [y Hy].
    unfold swap. rewrite Hx, Hy. splits.
    + exact Hj.
    + destruct (decide (i = random_index r n)) as [E|E].
      * rewrite <- E in *. rewrite list_lookup_insert_eq by (rewrite length_insert; lia).
        congruence.
      * rewrite list_lookup_insert_ne by auto.
        now rewrite list_lookup_insert_eq by lia.
    + rewrite list_lookup_insert_eq by (rewrite length_insert; lia). reflexivity.
    + now rewrite !length_insert.
Qed.

(** The draw [2573485501354569 * 2^-52] on an array of seven elements: the
    exact product [4 - 2^-52] has 54 significant bits and rounds to 4, so
    the index is 4, where the floor of the exact product is 3. *)
Lemma random_index_in_range_witness :
  let r := (2573485501354569 # 4503599627370496)%Q in
  random_index r 7 < 7 /\
  (exists x, getRandomElement r [V1; V2; V3; V4; V5; V6; V7] = Some x /\
             In x [V1; V2; V3; V4; V5; V6; V7]) /\
  random_index r 7 = 4 /\ Qfloor (r * inject_Z 7) = 3%Z.
Proof.
  intros r.
  assert (Hb : isBinary64 r).
  { exists 2573485501354569%Z, (-52)%Z. splits; [reflexivity|discriminate|discriminate|].
    vm_compute. reflexivity. }
  assert (H0 : (0 <= r)%Q) by (vm_compute; discriminate).
  assert (H1 : (r < 1)%Q) by reflexivity.
  assert (Hn : 0 < 7) by lia.
  assert (Hmax : (Z.of_nat 7 <= 2 ^ 53)%Z) by (vm_compute; discriminate).
  destruct (random_index_in_range r 7 Hb H0 H1 Hn Hmax) as (R1 & R2 & _).
  split; [exact R1|].
  destruct (R2 CardValue [V1; V2; V3; V4; V5; V6; V7] eq_refl) as (x & E & Hin & _).
  split; [exists x; exact (conj E Hin)|].
  split; vm_compute; reflexivity.
Defined.

(* --------------------------------------------------------------------- *)
(** *** The length of a turn of the AI                                    *)
(* --------------------------------------------------------------------- *)

Lemma aiTurnBody_spends d rc rk ids s s' c :
  aiTurnBody d rc rk ids s = Ok (s', c) ->
  length (taDiscard (ai s')) + length (taHand (ai s'))
  <= length (taDiscard (ai s)) + length (taHand (ai s)) /\
  length (taDiscard (ai s')) <= length (taDiscard (ai s)) + 1 /\
  length (taHand (ai s')) <= length (taHand (ai s)).
Proof.
  intros E. apply aiTurnBody_cases in E
    as ([((_ & Eai & _) & _)
        |[(a & dc & Hin & _ & _ & Eai & _)
         |(a & t & Hin & _ & Eai & _)]] & _);
    rewrite Eai; cbn [taDiscard taHand]; rewrite ?length_app; cbn [length];
    try (pose proof (removeCard_shorter _ _ Hin)); lia.
Qed.

(** X27. A turn of the AI is bounded by the AI's attack hand. Whatever the
    state and whatever is drawn, the loop of [executeAITurn] ends within one
    iteration more than the hand has cards (the step bound of the embedding
    is never hit); and when the turn returns, the AI has discarded at most
    as many attack cards as it held when the turn began: it attacks at most
    once per card, and the cards it draws at the end of the turn are not
    played in this turn. *)
Theorem ai_turn_is_bounded (o : AIOracle) (s : GameState) :
  executeAITurn o s <> OutOfFuel /\
  (forall fuel d c, length (taHand (ai s)) < fuel -> aiTurnLoop fuel d o c s <> OutOfFuel) /\
  (forall s', executeAITurn o s = Ok s' ->
     length (taDiscard (ai s')) <= length (taDiscard (ai s)) + length (taHand (ai s)) /\
     length (taHand (ai s')) <= length (taHand (ai s)) + 2).
Proof.
  splits.
  - apply executeAITurn_terminates.
  - intros fuel d c. apply aiTurnLoop_in_time.
  - intros s' E. unfold executeAITurn in E.
    destruct (aiTurnLoop _ _ o true s) as [s1| |] eqn:El;
      cbn [mbind result_bind] in E; try discriminate.
    injection E as <-.
    assert (L : length (taDiscard (ai s1)) + length (taHand (ai s1))
                <= length (taDiscard (ai s)) + length (taHand (ai s)) /\
                length (taHand (ai s1)) <= length (taHand (ai s))).
    { revert El.
      apply (aiTurnLoop_preserves
               (fun x => length (taDiscard (ai x)) + length (taHand (ai x))
                         <= length (taDiscard (ai s)) + length (taHand (ai s)) /\
                         length (taHand (ai x)) <= length (taHand (ai s)))).
      - intros d rc rk ids x x' c Hx Eb. apply aiTurnBody_spends in Eb. lia.
      - lia. }
    destruct (aiEndOfTurn_effect (idsEndOfTurn o) s1) as [Hdraw Hkeep].
    destruct (GamePhase_eq_dec (phase s1) attack_phase) as [Hp|Hp].
    + destruct (Hdraw Hp) as ((_ & Ea & _) & _). rewrite Ea. cbn [taDiscard taHand].
      rewrite length_app. unfold mapWithIds. rewrite length_imap, length_take. lia.
    + destruct (Hkeep Hp) as ((_ & Ea & _) & _). rewrite Ea. lia.
Qed.

(* ===================================================================== *)
(** ** The game on the board                                             *)
(* ===================================================================== *)

(** A click on the board requests the selection of the asset at that place,
    which is not destroyed, while the player is the attacker and the game is
    not over. *)
Lemma clickAsset_Some i s q :
  clickAsset i s = Some q ->
  exists t, q = SelectAsset (Some t) /\ assets (ai s) !! i = Some t /\
            state t <> destroyed /\ currentAttacker s = Player /\ ~ gameOver s.
Proof.
  unfold clickAsset, handleClick, assetOnClick, isPlayerTurn, isGameOver, gameOver.
  destruct (assets (ai s) !! i) as [t|]; [|discriminate].
  destruct (Actor_eqb (currentAttacker s) Player) eqn:Ea; cbn; [|discriminate].
  destruct (GamePhase_eqb (phase s) player_won) eqn:E1; cbn; [discriminate|].
  destruct (GamePhase_eqb (phase s) ai_won) eqn:E2; cbn; [discriminate|].
  destruct (AssetState_eqb (state t) destroyed) eqn:Es; cbn; [discriminate|].
  intros [= <-]. exists t. splits; auto.
  - intros H. apply AssetState_eqb_eq in H. congruence.
  - now apply Actor_eqb_eq.
  - intros [H|H]; apply GamePhase_eqb_eq in H; congruence.
Qed.

Lemma clickAsset_destroyed i s t :
  assets (ai s) !! i = Some t -> state t = destroyed -> clickAsset i s = None.
Proof.
  intros Hi Hs. destruct (clickAsset i s) as [q|] eqn:E; [|reflexivity].
  apply clickAsset_Some in E as (t' & _ & Hi' & Hs' & _). congruence.
Qed.

Lemma playedOn_reachable s s' : reachable s -> playedOn s s' -> reachable s'.
Proof.
  intros Hr H. induction H as [|s1 q s2 H IH [Hadm _] Hs]; [exact Hr|].
  eapply reachable_step; eauto.
Qed.

Lemma played_reachable s : played s -> reachable s.
Proof.
  intros (cnt & o & Hf & H). eapply playedOn_reachable; [|exact H].
  now apply reachable_init.
Qed.

Lemma playedOn_trans s1 s2 s3 : playedOn s1 s2 -> playedOn s2 s3 -> playedOn s1 s3.
Proof.
  intros H12 H23. induction H23 as [|s q s' H IH Hq Hs]; [exact H12|].
  eapply playedOn_step; eauto.
Qed.

Lemma played_on s s' : played s -> playedOn s s' -> played s'.
Proof.
  intros (cnt & o & Hf & H) H'. exists cnt, o. split; [exact Hf|].
  eapply playedOn_trans; eauto.
Qed.

Lemma playedOn_serveAll script : forall s0 s s',
  playedOn s0 s -> sentAll script s -> serveAll script s = Ok s' -> playedOn s0 s'.
Proof.
  induction script as [|q script IH]; intros s0 s s' Hp Hsent Hs; cbn in *.
  - injection Hs as <-. exact Hp.
  - destruct Hsent as [Hq Hrest].
    destruct (serve (q s) s) as [s1| |] eqn:E; cbn in Hs; try discriminate.
    eapply IH; [|exact Hrest|exact Hs]. eapply playedOn_step; eauto.
Qed.

(** As [serve_preserves_wf], for what the board sends. *)
Lemma serve_preserves_sent (P : GameState -> Prop) :
  (forall d s, P s -> P (setDifficulty d s)) ->
  (forall c s, P s -> P (selectCard c s)) ->
  (forall i a s, wellFormed s -> P s -> clickAsset i s = Some (SelectAsset a) ->
                 P (selectAsset a s)) ->
  (forall res s, P s -> P (coinFlipped res s)) ->
  (forall r ids s, wellFormed s -> P s -> P (playerAttack false r ids s)) ->
  (forall ids s, P s -> P (turnHandedOver ids s)) ->
  (forall d rc rk ids s s' c,
     wellFormed s -> P s -> aiTurnBody d rc rk ids s = Ok (s', c) -> P s') ->
  (forall ids s, P s -> P (aiEndOfTurn ids s)) ->
  forall q s s', wellFormed s -> sent q s -> P s -> serve q s = Ok s' -> P s'.
Proof.
  intros Hd Hc Ha Hflip Hatk Hover Hbody Hend q s s' Hwf [Hadm Hclick] HP.
  destruct q as [d|r o|c|a|r ids|ids o]; cbn [serve admissible] in *.
  - ok_inv. auto.
  - destruct (performCoinFlip_cases r o s) as [->|(_ & [->| ->])].
    + ok_inv. assumption.
    + ok_inv. auto.
    + apply (executeAITurn_preserves_wf P Hbody Hend); auto.
  - ok_inv. auto.
  - ok_inv. destruct Hclick as [i Hi]. eauto.
  - ok_inv. auto.
  - destruct Hadm as [Hfp Hft].
    destruct (endTurn_cases ids o s) as [->|(_ & _ & ->)].
    + ok_inv. assumption.
    + destruct (turnHandedOver_effect ids s) as (E & _).
      apply (executeAITurn_preserves_wf P Hbody Hend).
      * eapply wellFormed_playerDraw; eauto.
      * destruct E as (Ep & Ea & _). unfold freshTurn. rewrite Ep, Ea. exact Hft.
      * auto.
Qed.

Lemma playedOn_preserves (P : GameState -> Prop) :
  (forall d s, P s -> P (setDifficulty d s)) ->
  (forall c s, P s -> P (selectCard c s)) ->
  (forall i a s, wellFormed s -> P s -> clickAsset i s = Some (SelectAsset a) ->
                 P (selectAsset a s)) ->
  (forall res s, P s -> P (coinFlipped res s)) ->
  (forall r ids s, wellFormed s -> P s -> P (playerAttack false r ids s)) ->
  (forall ids s, P s -> P (turnHandedOver ids s)) ->
  (forall d rc rk ids s s' c,
     wellFormed s -> P s -> aiTurnBody d rc rk ids s = Ok (s', c) -> P s') ->
  (forall ids s, P s -> P (aiEndOfTurn ids s)) ->
  forall s s', reachable s -> P s -> playedOn s s' -> P s'.
Proof.
  intros Hd Hc Ha Hflip Hatk Hover Hbody Hend s s' Hr HP H.
  induction H as [|s1 q s2 H IH Hq Hs]; [exact HP|].
  eapply (serve_preserves_sent P); eauto.
  apply reachable_wellFormed. eapply playedOn_reachable; eauto.
Qed.

Lemma progress_refl l : progress l l.
Proof. split; [reflexivity|]. intros i a H. exists a. auto. Qed.

Lemma progress_trans l1 l2 l3 : progress l1 l2 -> progress l2 l3 -> progress l1 l3.
Proof.
  intros [L12 H12] [L23 H23]. split; [congruence|]. intros i a H.
  destruct (H12 i a H) as (b & Hb & Eb & Sb).
  destruct (H23 i b Hb) as (c & Hc & Ec & Sc).
  exists c. splits; [assumption|congruence|lia].
Qed.

Lemma destroyedKept_refl l : destroyedKept l l.
Proof. intros i a H _. exact H. Qed.

Lemma destroyedKept_trans l1 l2 l3 :
  destroyedKept l1 l2 -> destroyedKept l2 l3 -> destroyedKept l1 l3.
Proof. intros H12 H23 i a H Hs. apply H23; auto. Qed.

Lemma boardKept_refl s : boardKept s s.
Proof. unfold boardKept. splits; auto using progress_refl, destroyedKept_refl. Qed.

Lemma boardKept_trans s1 s2 s3 : boardKept s1 s2 -> boardKept s2 s3 -> boardKept s1 s3.
Proof.
  intros (A1 & A2 & A3 & A4) (B1 & B2 & B3 & B4). unfold boardKept. splits.
  - exact (progress_trans _ _ _ A1 B1).
  - exact (progress_trans _ _ _ A2 B2).
  - exact (destroyedKept_trans _ _ _ A3 B3).
  - exact (destroyedKept_trans _ _ _ A4 B4).
Qed.

Lemma boardKept_assets s s' :
  assets (player s') = assets (player s) -> assets (ai s') = assets (ai s) ->
  boardKept s s'.
Proof.
  intros Ep Ea. unfold boardKept. rewrite Ep, Ea.
  splits; auto using progress_refl, destroyedKept_refl.
Qed.

(** A hit on one of the assets that is not destroyed: that asset moves one
    state on, and the destroyed ones are not touched. *)
Lemma hitAssets_kept t l :
  NoDup (assetIds l) -> In t l -> state t <> destroyed ->
  progress l (hitAssets t l) /\ destroyedKept l (hitAssets t l).
Proof.
  intros Hnd Hin Hs. split; [split; [apply hitAssets_length|]|].
  - intros i a Hi. destruct (hitAssets_step t l i a Hnd Hin Hi) as [E|[-> E]].
    + exists a. auto.
    + eexists. split; [exact E|]. cbn. split; [reflexivity|].
      destruct (state t); cbn; lia.
  - intros i a Hi Ha. destruct (hitAssets_step t l i a Hnd Hin Hi) as [E|[-> E]];
      [exact E|contradiction].
Qed.

Lemma playerAttack_board r ids s :
  wellFormed s -> boardSound s ->
  boardSound (playerAttack false r ids s) /\ boardKept s (playerAttack false r ids s) /\
  (playerAttack false r ids s = s \/ selectedAsset (playerAttack false r ids s) = None).
Proof.
  intros Hwf (Hl & Hp & Ha).
  destruct (playerAttack_cases r ids s) as [->|(c & t & Hc & Ht & Hph & Hat)].
  { splits; auto using boardKept_refl. split; auto. }
  destruct (ai_card (aiChooseDefense (dcHand (ai s)) (hc_card c) (difficultyOr s) r))
    as [d|] eqn:Hd.
  - destruct (playerAttack_blocked r ids s c t d Hph Hat Hc Ht Hd)
      as ((Ep & Ea & _ & _ & _ & Es) & _).
    splits.
    + unfold boardSound, selectionLive. rewrite Ep, Ea, Es. cbn [assets].
      splits; auto; discriminate.
    + apply boardKept_assets; [rewrite Ep|rewrite Ea]; reflexivity.
    + now right.
  - destruct (playerAttack_hit r ids s c t Hph Hat Hc Ht Hd)
      as ((Ep & Ea & _ & _ & _ & Es) & _).
    assert (Hnd : NoDup (assetIds (assets (ai s)))) by apply Hwf.
    assert (Hin : In t (assets (ai s))) by now apply Hwf.
    assert (Hlive : state t <> destroyed) by now apply Hl.
    destruct (hitAssets_kept t (assets (ai s)) Hnd Hin Hlive) as [K1 K2].
    splits.
    + unfold boardSound, selectionLive. rewrite Ep, Ea, Es. cbn [assets].
      splits; auto; try discriminate. now apply hitAssets_progress.
    + unfold boardKept. rewrite Ep, Ea. cbn [assets].
      splits; auto using progress_refl, destroyedKept_refl.
    + now right.
Qed.

Lemma aiTurnBody_board d rc rk ids s s' c :
  wellFormed s -> boardSound s -> aiTurnBody d rc rk ids s = Ok (s', c) ->
  boardSound s' /\ boardKept s s'.
Proof.
  intros Hwf (Hl & Hp & Ha) E. apply aiTurnBody_cases in E
    as ([((Epl & Eai & _ & _ & _ & Es) & _)
        |[(a & dc & _ & _ & _ & Eai & Epl & _ & _ & _ & Es)
         |(a & t & _ & Ht & Eai & Epl & _ & _ & _ & Es)]] & _);
    unfold boardSound, selectionLive, boardKept; rewrite Epl, Eai, Es; cbn [assets];
    try (splits; auto using progress_refl, destroyedKept_refl; fail).
  apply aiChooseTarget_Some in Ht as (Hin & Hlive & _).
  assert (Hnd : NoDup (assetIds (assets (player s)))) by apply Hwf.
  destruct (hitAssets_kept t (assets (player s)) Hnd Hin Hlive) as [K1 K2].
  splits; auto using progress_refl, destroyedKept_refl.
  now apply hitAssets_progress.
Qed.

Lemma aiEndOfTurn_assets ids s :
  assets (player (aiEndOfTurn ids s)) = assets (player s) /\
  assets (ai (aiEndOfTurn ids s)) = assets (ai s) /\
  selectedAsset (aiEndOfTurn ids s) = selectedAsset s.
Proof.
  unfold aiEndOfTurn. destruct (GamePhase_eqb (phase s) attack_phase); splits; reflexivity.
Qed.

(** What a game played on the board keeps, from any of its states on. *)
Lemma playedOn_board s s' :
  reachable s -> boardSound s -> playedOn s s' -> boardSound s' /\ boardKept s s'.
Proof.
  intros Hr Hs.
  apply (playedOn_preserves (fun x => boardSound x /\ boardKept s x)); try assumption.
  - intros d x H. exact H.
  - intros c x H. exact H.
  - intros i a x _ [(Hl & Hp & Ha) Hk] Hi. apply clickAsset_Some in Hi as (t & E & _ & Ht & _).
    injection E as ->. split; [|exact Hk].
    unfold boardSound, selectionLive. splits; try assumption.
    intros t' [= <-]. exact Ht.
  - intros res x H. exact H.
  - intros r ids x Hwf [Hb Hk]. destruct (playerAttack_board r ids x Hwf Hb) as (B & K & _).
    split; [exact B|]. eapply boardKept_trans; eauto.
  - intros ids x [(Hl & Hp & Ha) Hk]. split; [|exact Hk].
    unfold boardSound, selectionLive. splits; try assumption.
    intros t. cbn. discriminate.
  - intros d rc rk ids x x' c Hwf [Hb Hk] E.
    destruct (aiTurnBody_board d rc rk ids x x' c Hwf Hb E) as (B & K).
    split; [exact B|]. eapply boardKept_trans; eauto.
  - intros ids x [(Hl & Hp & Ha) Hk].
    destruct (aiEndOfTurn_assets ids x) as (Ep & Ea & Es).
    unfold boardSound, selectionLive, boardKept in *. rewrite Ep, Ea, Es. auto.
  - split; [exact Hs|apply boardKept_refl].
Qed.

Lemma initializeGame_board cnt o : boardSound (initializeGame cnt o).
Proof.
  unfold boardSound, selectionLive. splits.
  - intros a. cbn. discriminate.
  - apply mapWithIds_Forall, Forall_forall. intros x _ i. reflexivity.
  - apply mapWithIds_Forall, Forall_forall. intros x _ i. reflexivity.
Qed.

Lemma played_board s : played s -> boardSound s.
Proof.
  intros (cnt & o & Hf & H).
  apply (playedOn_board (initializeGame cnt o) s); auto using initializeGame_board.
  now apply reachable_init.
Qed.

(** As [attack_premises], for an attack that the AI does not block. *)
Ltac attack_premises_hit s r :=
  assert (Hp : phase s = attack_phase) by (vm_compute; reflexivity);
  assert (Ha : currentAttacker s = Player) by (vm_compute; reflexivity);
  eassert (Hc : selectedCard s = Some _) by (vm_compute; reflexivity);
  eassert (Ht : selectedAsset s = Some _) by (vm_compute; reflexivity);
  match type of Hc with
  | _ = Some ?c =>
      assert (Hd : ai_card (aiChooseDefense (dcHand (ai s)) (hc_card c)
                              (difficultyOr s) r) = None)
        by (vm_compute; reflexivity)
  end.

(** Evaluates what a script sends at a concrete state: the premises of
    [by_evaluation], and the place of the board that is clicked. *)
Ltac by_play :=
  vm_compute;
  repeat match goal with
         | |- _ /\ _ => split
         | |- True => exact I
         | |- exists i : nat, _ =>
             first [exists 0; reflexivity | exists 1; reflexivity | exists 2; reflexivity]
         | |- forall x, _ => intro
         | H : Some _ = Some _ |- _ => injection H as <-
         | H : _ \/ _ |- _ => destruct H
         | H : False |- _ => destruct H
         | H : _ = _ |- _ => discriminate H
         | |- _ = _ => reflexivity
         | |- _ \/ _ => first [left; reflexivity | right]
         end.

(** C3. In a game played on the board, from any of its states [s] to any
    later state [s']: the damage counter of every asset of either side is
    the index of the asset's state; place by place the assets are the same
    assets and no state index has decreased; and an attack that is not
    blocked, of the player on the selected asset or of the AI in an
    iteration of its loop, hits an asset that is not destroyed: it takes the
    asset to the next state, one index higher, and its counter with it, and
    leaves the other assets (an iteration of the AI that does not hit
    leaves all of them). *)
Theorem damage_counter_is_state_index (s s' : GameState) :
  played s -> playedOn s s' ->
  (Forall counterMatchesState (assets (player s')) /\
   Forall counterMatchesState (assets (ai s'))) /\
  (progress (assets (player s)) (assets (player s')) /\
   progress (assets (ai s)) (assets (ai s'))) /\
  (forall r ids c t,
     phase s' = attack_phase -> currentAttacker s' = Player ->
     selectedCard s' = Some c -> selectedAsset s' = Some t ->
     ai_card (aiChooseDefense (dcHand (ai s')) (hc_card c) (difficultyOr s') r) = None ->
     exists i,
       assets (ai s') !! i = Some t /\
       assets (ai (playerAttack false r ids s')) =
         <[i := mkCyberAsset (ca_instanceId t) (ca_card t)
                  (getNextAssetState (state t)) (damageCount t + 1)]> (assets (ai s')) /\
       stateIndex (getNextAssetState (state t)) = stateIndex (state t) + 1 /\
       damageCount t + 1 = stateIndex (getNextAssetState (state t))) /\
  (forall d rc rk ids s1 c,
     aiTurnBody d rc rk ids s' = Ok (s1, c) ->
     assets (player s1) = assets (player s') \/
     exists i t,
       assets (player s') !! i = Some t /\
       assets (player s1) =
         <[i := mkCyberAsset (ca_instanceId t) (ca_card t)
                  (getNextAssetState (state t)) (damageCount t + 1)]>
           (assets (player s')) /\
       stateIndex (getNextAssetState (state t)) = stateIndex (state t) + 1 /\
       damageCount t + 1 = stateIndex (getNextAssetState (state t))).
Proof.
  intros Hs Hon.
  pose proof (played_reachable s Hs) as Hr.
  destruct (playedOn_board s s' Hr (played_board s Hs) Hon)
    as ((Hl & Hp & Ha) & K1 & K2 & _).
  pose proof (reachable_wellFormed s' (playedOn_reachable s s' Hr Hon)) as Hwf.
  assert (Hstep : forall l t,
            Forall counterMatchesState l -> In t l -> state t <> destroyed ->
            stateIndex (getNextAssetState (state t)) = stateIndex (state t) + 1 /\
            damageCount t + 1 = stateIndex (getNextAssetState (state t))).
  { intros l t Hall Hin Hlive. rewrite Forall_forall in Hall.
    apply list_elem_of_In in Hin. specialize (Hall t Hin).
    unfold counterMatchesState in Hall. rewrite Hall.
    destruct (state t); cbn; split; congruence. }
  splits; try assumption.
  - intros r ids c t Hph Hat Hc Ht Hd.
    assert (Hnd : NoDup (assetIds (assets (ai s')))) by apply Hwf.
    assert (Hin : In t (assets (ai s'))) by now apply Hwf.
    assert (Hlive : state t <> destroyed) by now apply Hl.
    destruct (hitAssets_insert t (assets (ai s')) Hnd Hin) as (i & Hi & E).
    destruct (playerAttack_hit r ids s' c t Hph Hat Hc Ht Hd) as ((_ & Ea & _) & _).
    destruct (Hstep _ t Ha Hin Hlive) as [S1 S2].
    exists i. rewrite Ea. cbn [assets]. splits; assumption.
  - intros d rc rk ids s1 c E. apply aiTurnBody_cases in E
      as ([((Epl & _) & _)|[(a & dc & _ & _ & _ & _ & Epl & _)
                            |(a & t & _ & Ht & _ & Epl & _)]] & _);
      rewrite Epl; cbn [assets]; [now left|now left|right].
    apply aiChooseTarget_Some in Ht as (Hin & Hlive & _).
    assert (Hnd : NoDup (assetIds (assets (player s')))) by apply Hwf.
    destruct (hitAssets_insert t (assets (player s')) Hnd Hin) as (i & Hi & E).
    destruct (Hstep _ t Hp Hin Hlive) as [S1 S2].
    exists i, t. splits; assumption.
Qed.

(** The game that the player wins with six hits, and its last attack: the
    sixth hit takes the AI's second asset from [rotated], index 2, to
    [destroyed], index 3, with its counter. *)
Lemma damage_counter_is_state_index_witness :
  ((Forall counterMatchesState (assets (player demoWon)) /\
    Forall counterMatchesState (assets (ai demoWon))) /\
   progress (assets (ai demoGame)) (assets (ai demoWon)) /\
   damageCount <$> assets (ai demoWon) = [3; 3; 0] /\
   state <$> assets (ai demoWon) = [destroyed; destroyed; facedown]) /\
  (exists i t,
     assets (ai demoMatchPoint) !! i = Some t /\ state t = rotated /\
     assets (ai (playerAttack false (99 # 100)%Q (numbered "redraw-6-") demoMatchPoint)) =
       <[i := mkCyberAsset (ca_instanceId t) (ca_card t) destroyed 3]>
         (assets (ai demoMatchPoint))).
Proof.
  assert (Hg : played demoGame).
  { exists 0, demoInit. split; [|apply playedOn_here].
    unfold freshInit, distinctIds.
    splits; apply (bool_decide_unpack _); vm_compute; reflexivity. }
  split.
  - destruct (damage_counter_is_state_index demoGame demoWon) as (H1 & (_ & H2) & _).
    + exact Hg.
    + apply (playedOn_serveAll demoVictory demoGame demoGame); [apply playedOn_here| |].
      * by_play.
      * vm_compute. reflexivity.
    + exact (conj H1 (conj H2 (conj eq_refl eq_refl))).
  - destruct (damage_counter_is_state_index demoGame demoMatchPoint) as (_ & _ & H3 & _).
    + exact Hg.
    + apply (playedOn_serveAll (removelast demoVictory) demoGame demoGame);
        [apply playedOn_here| |].
      * by_play.
      * vm_compute. reflexivity.
    + attack_premises_hit demoMatchPoint (99 # 100)%Q.
      destruct (H3 (99 # 100)%Q (numbered "redraw-6-") _ _ Hp Ha Hc Ht Hd)
        as (i & Hi & E & _).
      eexists i, _. split; [exact Hi|]. split; [vm_compute; reflexivity|].
      rewrite E. vm_compute. reflexivity.
Defined.

(** C7. In a game played on the board an attack on a destroyed asset is
    never resolved. The targeting offers assets that are not destroyed only:
    [aiChooseTarget] returns such an asset of the player, a click on the
    board requests the selection of the asset at the clicked place only if
    that asset is not destroyed, and a click on a destroyed asset requests
    nothing. So the asset selected as the target of the player's attack is
    one of the AI's assets as the state holds it and is not destroyed; an
    attack that is resolved clears the selection; and no request changes a
    destroyed asset of either side: not its state, not its damage counter.
    The attempt on a destroyed asset ends at the targeting: without a
    selected asset [playerAttack] returns the state as it is. *)
Theorem destroyed_asset_is_never_attacked (s : GameState) :
  played s ->
  (forall t, aiChooseTarget (assets (player s)) = Some t ->
     In t (assets (player s)) /\ state t <> destroyed) /\
  (forall i q, clickAsset i s = Some q ->
     exists t, q = SelectAsset (Some t) /\ assets (ai s) !! i = Some t /\
               state t <> destroyed) /\
  (forall i t, assets (ai s) !! i = Some t -> state t = destroyed ->
     clickAsset i s = None) /\
  (forall t, selectedAsset s = Some t -> In t (assets (ai s)) /\ state t <> destroyed) /\
  (forall r ids,
     playerAttack false r ids s = s \/
     selectedAsset (playerAttack false r ids s) = None) /\
  (forall q s', sent q s -> serve q s = Ok s' ->
     destroyedKept (assets (player s)) (assets (player s')) /\
     destroyedKept (assets (ai s)) (assets (ai s'))) /\
  (selectedAsset s = None -> forall b r ids, playerAttack b r ids s = s).
Proof.
  intros Hs.
  pose proof (played_reachable s Hs) as Hr.
  pose proof (reachable_wellFormed s Hr) as Hwf.
  pose proof (played_board s Hs) as Hb.
  splits.
  - intros t Ht. apply aiChooseTarget_Some in Ht as (Hin & Hlive & _). auto.
  - intros i q Hq. apply clickAsset_Some in Hq as (t & E & Hi & Hlive & _). eauto.
  - intros i t. apply clickAsset_destroyed.
  - intros t Ht. split; [now apply Hwf|now apply Hb].
  - intros r ids. apply (playerAttack_board r ids s Hwf Hb).
  - intros q s' Hq Hs'.
    destruct (playedOn_board s s' Hr Hb) as (_ & _ & _ & K3 & K4); [|auto].
    eapply playedOn_step; [apply playedOn_here|exact Hq|exact Hs'].
  - intros Hn b r ids. unfold playerAttack. rewrite Hn.
    destruct b; [reflexivity|]. destruct (selectedCard s); reflexivity.
Qed.

(** After three unblocked attacks the AI's first asset is destroyed and
    nothing is selected; a click on it requests nothing, and the attack
    button leaves the game as it is. *)
Lemma destroyed_asset_is_never_attacked_witness :
  (state <$> assets (ai demoPwned) !! 0) = Some destroyed /\
  (damageCount <$> assets (ai demoPwned) !! 0) = Some 3 /\
  clickAsset 0 demoPwned = None /\
  selectedAsset demoPwned = None /\
  playerAttack false (99 # 100)%Q (numbered "redraw-4-") demoPwned = demoPwned.
Proof.
  destruct (destroyed_asset_is_never_attacked demoPwned) as (_ & _ & H3 & _ & _ & _ & H7).
  - exists 0, demoInit. split.
    + unfold freshInit, distinctIds.
      splits; apply (bool_decide_unpack _); vm_compute; reflexivity.
    + apply (playedOn_serveAll demoThreeHits demoGame demoGame); [apply playedOn_here| |].
      * by_play.
      * vm_compute. reflexivity.
  - eassert (E : assets (ai demoPwned) !! 0 = Some _) by (vm_compute; reflexivity).
    assert (En : selectedAsset demoPwned = None) by (vm_compute; reflexivity).
    exact (conj eq_refl (conj eq_refl (conj (H3 0 _ E eq_refl)
             (conj En (H7 En false (99 # 100)%Q (numbered "redraw-4-")))))).
Defined.
